(* ===== verification/_CoqProject ===== *)
-Q . S2P
Prelude.v
Effects.v
Interleave.v
Lru.v
Order.v
Decimal.v
SqlGrammar.v
SqlPrint.v
Dialect.v
Splice.v
SpliceLemmas.v
SpliceSpec.v
SqlText.v
Cypher.v
Ingest.v
IngestSpec.v
IngestMeta.v
Lineage.v
LineageSpec.v
PolicyStore.v
JsonText.v
Dynamic.v
Pool.v
PoolSpec.v
License.v
LicenseSpec.v
Credvend.v
CredvendSpec.v
Regex.v
Classify.v
Detect.v
DetectSpec.v
Sqlproxy.v
SqlproxySpec.v
Compiler.v
CompilerSpec.v
Registry.v
Gateway.v
GatewaySpec.v
Cel.v
CelSpec.v
CelArtifact.v
Catalogs.v
Transport.v
CatalogsSpec.v
Migrate.v
MigrateSpec.v
Tenant.v
TenantSpec.v
Provision.v
ProvisionSpec.v
Credentials.v
CredentialsSpec.v
Auth.v
AuthSpec.v
Server.v
ServerSpec.v
Boot.v
BootSpec.v
Kms.v
KmsSpec.v
Admin.v
AdminSpec.v
Flags.v
Cli.v
CliSpec.v
Snapshot.v
SnapshotSpec.v
PinReads.v
Alerts.v
Listener.v
ListenerSpec.v
EndToEnd.v
