(* ===== verification/Prelude.v ===== *)
(** * Neksur: a verification development

    Neksur is a governance plane for Iceberg lakehouses.  Administrators write
    policies; a compiler turns them into SQL per engine and stores the artifacts
    in a graph database (Apache AGE over PostgreSQL); a SQL proxy rewrites the
    queries of the engines with those artifacts; a gateway in front of the
    Iceberg catalogs evaluates policies on every commit and audits the outcome.
    Around that path: lineage and metadata are ingested into the graph, files are
    scanned for regulated data, credentials are vended per table, readers pin
    snapshots, tenants are provisioned, migrated and deleted, and licences gate
    features.  This library models these parts as executable functions
    translated from the sources, and proves what they guarantee and where they
    fall short.

    ** The files

    A component [X] has its data and operations in the file [X] and its theorems,
    where they are many, in [XSpec].

    Shared:
    - [Prelude]: strings as lists of bytes with the functions of Go's [strings]
      the code uses, results, tactics, hints, generic lemmas.
    - [Effects]: a program that calls out is a tree of calls ([prog]); [run]
      executes it against any environment, [always] is its weakest precondition,
      [only] bounds the calls it makes.
    - [Interleave]: requests that interleave on a shared world, call by call, with
      a rely and an invariant; [safe] is the weakest precondition of a request
      among the others.
    - [Lru]: the interface of the LRU caches ([golang-lru] is not part of the
      repository) and a bounded instance that shows the laws hold of something.
    - [Order]: the order of strings, [sort.Strings], [strings.Split].
    - [Decimal]: [Sprintf] with %d and [Sscanf] on decimal integers of 64 bits,
      with their round trip.
    - [Dynamic]: Go values of type [any], as decoded from JSON.  [Flags]: the [flag]
      package of the commands, with what a written flag is parsed to.
    - [JsonText]: the JSON text of strings, lists and objects that is signed or
      sent, and UTF-8 decoding.  [Regex]: regular expressions by derivatives.

    Policies and queries:
    - [SqlGrammar]: internal/policy/compiler/sql_grammar.go, the parser of policy
      fragments.  [SqlPrint]: a reference printer, and the parser as its inverse.
    - [Dialect]: internal/policy/compiler/dialect, the emitters of the engines,
      and the AST adapters of compiler.go.
    - [Splice], [SpliceLemmas], [SpliceSpec]: internal/sqlproxy/dialect/splice.go,
      the parser of user queries, both splices and the snapshot-pin rewrite; the
      lemmas on its scanning loops; what the rewritten query says.  [SqlText]: a
      specification of SQL's own lexical structure (quoted identifiers, comments,
      escapes), the text on which the splicer reads like an engine, and queries
      where it does not.
    - [Cypher]: internal/graph, the allowlist of spliced literals, the traversal
      depth check, the label whitelist and the tenant transaction.
    - [Pool], [PoolSpec]: the connections of the graph client (the hooks of
      client.go and pool.go), a query with its measurements (cypher_wrapper.go) and
      the plan (explain_parser.go).
    - [PolicyStore]: internal/policy/store, the compiled-policy records and their
      encodings, the loaders and the writer.
    - [Sqlproxy], [SqlproxySpec]: internal/sqlproxy (cache.go, server.go) and the
      injectors of its dialect directory.
    - [Compiler], [CompilerSpec]: internal/policy/compiler (compiler.go, lru.go,
      probe.go, trigger.go).  [CelArtifact]: cel_artifact.go, which compiles what is
      stored of a policy in CEL.  [Registry]: the engines of a tenant
      (internal/policy/store/engine.go).
    - [Snapshot], [SnapshotSpec]: internal/coordination/snapshot, the pin store, the
      sweeper and the cached reads.  [PinReads]: the READ edges of queries.
    - [EndToEnd]: the compiler, the store and the proxy composed.

    Commits and catalogs:
    - [Gateway], [GatewaySpec]: internal/gateway/iceberg (handler.go,
      multi_table.go, principal.go, writecoordinator.go, audit.go) and the
      decision of internal/policy/cel/eval.go.
    - [Cel], [CelSpec]: internal/policy/cel (bindings, functions, compile cache,
      evaluation), the attribute resolver of internal/policy/store, and the
      projections of a commit that handler.go builds for the policies.
    - [Catalogs], [CatalogsSpec]: internal/iceberg, the adapters of the four
      catalogs, their configurations and transports, and the dispatch of
      internal/gateway/iceberg/forwarder.go.
    - [Credvend], [CredvendSpec]: internal/credvend, its session policies, and the
      Polaris side of vending.

    Metadata:
    - [Ingest], [IngestSpec], [IngestMeta]: internal/ingest, the lineage edges
      with their cycle check and sweep, the snapshots and the columns.
    - [Lineage], [LineageSpec]: internal/lineage/http, the OpenLineage receiver.
    - [Classify], [Detect], [DetectSpec]: internal/detect, the classifier and the
      sampler; the emission, the scanner, the pool and its sources.

    Operations:
    - [Migrate], [MigrateSpec]: internal/migrate and cmd/migrate.
    - [Tenant], [TenantSpec]: internal/tenant, names, lifecycle, deletion and the
      migration to another pool.
    - [Provision], [ProvisionSpec]: the creation of a tenant, its roles and
      grants, the smoke checks, and the tenant transaction of dbsession.go.
    - [Credentials], [CredentialsSpec]: internal/catalog/creds.go and the command
      that stores the secret of a webhook.
    - [Cli], [CliSpec]: cmd/neksur-cli, its dispatch and every command.
    - [Alerts]: internal/alerts and the alarms, incidents and status page of
      internal/observability.
    - [Listener], [ListenerSpec]: pkg/pglistener and the certificate watcher of
      internal/sqlproxy.
    - [License], [LicenseSpec]: internal/license and internal/licensegen.
    - [Auth], [AuthSpec]: internal/auth/workos, the lookup of the tenant in
      internal/tenant/repo.go, and the gate of internal/admin.
    - [Server], [ServerSpec]: the routes of cmd/neksur-server/main.go with what
      stands in front of them, the callback, and internal/billing.
    - [Boot], [BootSpec]: [main] of cmd/neksur-server and its two modes, with the
      modules of the paid builds.
    - [Kms], [KmsSpec]: internal/crypto/kms/batch_cache.go.
    - [Admin], [AdminSpec]: the handlers of internal/admin.

    ** How state and operations correspond

    A Go method that fails is a function to [result] or [option], its errors the
    sentinels that [errors.Is] tells apart.  A handler that calls a database, a
    catalog, an engine or an audit sink is a [prog] of such calls, each call a
    constructor ([storeCall], [proxyCall], [compilerCall], [triggerCall],
    [gwCall], [dbcall], [attrCall], [ingestCall], [lineageCall], [vendCall],
    [scanCall], [sourceCall], [pinCall], [migCall], [dbCall], [provCall], [catCall],
    [authCall], [bootCall], [kmsCall], [adminCall], [graphCall], [webhookCall],
    [alertCall], [pgCall], [certCall], [cliCall], [regCall]);
    the answers come from an environment that may depend on the whole history, so
    that a theorem over all environments covers every failure and every
    interleaved change outside.  Where what the statements do to the database
    matters, the component has a second half: the state as a record (the worlds
    of [Tenant] and [Provision], the graphs of [Migrate], [Ingest], [IngestMeta],
    [Detect] and [Snapshot]) and the effect of each call on it, with
    a fault that may hit any statement or lose the answer of a commit.

    A call may be coarser than a statement: [OpenAuditTx] acquires, begins and
    sets the tenant, whose own protocol is [Cypher.ExecuteInTenant].  Caches are
    state passed through the calls, or calls themselves where requests
    interleave.  The step relations are [SqlproxySpec.proxyStep] (requests and
    invalidations), [Credvend.vstep], [Ingest.step] and [Snapshot.step] (processes
    call by call), with [rtc] of it their runs; [Interleave.istep] is that relation
    in general, and the sessions of [Auth], the data keys of [Kms] and the
    connections of [Pool] are proved over it; [Interleave.sstep] is that of one
    process in a changing world, for the loops of [Listener].  A Go panic is an
    outcome ([Panicked], [EmitPanic]) or [None].

    ** What the theorems show

    - End to end: the row filter a request enforces, the first of its table, is
      as SQL's own lexer reads it a conjunct of the query an engine receives, for
      a query without quoted identifiers, comments and backslashes whose predicate
      is balanced, and parses to what the administrator wrote; a column mask loses
      its kind in the store and its operands are swapped by the splicer.
    - The proxy fails closed: whatever the store answers, a query is served only
      through the splice of an artifact loaded as active for the same tenant,
      table and engine; what the cache, the order of rows and the pin step
      weaken; [Invalidate] removes exactly the entries of one tenant and table;
      the handler's responses.
    - The splicer: with a balanced predicate the policy is a top-level conjunct,
      with an unbalanced one, or a parenthesis in a quoted identifier or a
      comment, it is bypassed; masks and the pin rewrite.
    - The compiler: what is written as active was compiled and probed, or comes
      from the cache of an artifact that was; the result of every engine; the
      guards of a notification.
    - The parser and the emitters: termination, well-formedness, round trips.
    - The store and the graph client: the transaction protocols on every failure,
      the encodings as round trips, the literal allowlist.
    - The gateway: no commit without every policy's permission, reject-all for a
      transaction, no answered denial without its audit row, the reach of the
      write coordinator, and the commits that no audit row records.
    - The policy engine: what the bindings mean on the inputs the gateway builds,
      which of them never see anything there, that every declared function is
      total and typed, where an attribute comes from, and that the compile cache
      cannot be observed.
    - The catalogs: what an adapter sends and when, how the errors of a catalog
      are told apart, which snapshots are expired, that a commit with updates is
      never sent, and where the secrets of a configuration go.
    - Vending: credentials come from an adapter call for the same tenant, table
      and region and are fresh; the scope of the session policy.
    - Ingest and lineage: runs serialised by one lock key never close a cycle of
      up to six edges, two sources in parallel do; the cycle query is
      reachability in five steps; merges are all or nothing; what a response of
      the receiver tells of the calls made.
    - Detection: one whole run per snapshot under any faults, which hits are lost,
      the authentication of the webhook, what is sampled.
    - Migrations and tenants: a graph migration takes effect once per schema when
      its script holds no transaction control PostgreSQL would obey, what is
      stripped from a script and what that leaves; the lifecycle only moves forward, a migration is
      fail-stop; after any provisioning with any faults the role of a tenant
      reaches nothing of another, the audit log is append-only, and without
      faults the provisioning of a registered tenant completes.
    - Requests: whatever requests interleave and whatever keys rotate, a tenant's
      handler is entered only with a token of the tenant's organization that
      verified under a key of WorkOS, the administration only by its own
      organization; how old a key may be, and two refreshes that overlap; the
      pages of the audit log.
    - The boot: the SaaS mode ends before its HTTP server listens, although the
      SQL proxy's TLS listener and the metrics may run by then; the stores of the paid
      builds do not reach the handlers, the licence comes first, the modes exclude
      each other.
    - Data keys: who gets which, when one is generated, and a removal that is
      outside the lock.
    - Connections: a statement runs in a session of its own tenant or of none,
      however requests interleave and whatever fails; measured queries can stall
      the pool; the counters of a plan are those of its nodes.
    - Credentials: a row that is read is the tenant's own; when the secret of a
      webhook can be stored at all.
    - The command line: a refused command does nothing, and a tenant ends only by a
      confirmed deletion, whose success is the commit of its two transactions.
    - Loops and alerts: notifications are handled once and in order, the
      certificate follows the disk as far as the watches report it and until a
      watch that is lost is not restored, open incidents follow the alarms.
    - Licences: the canonical form determines every signed field, no feature
      without an issued licence on any run, a rotated licence takes effect, what
      the generator writes verifies.

    ** Parameters, bounds, fuel

    Parameters of the model, as section variables: SHA-256, HMAC, ECDSA, the
    decoding of JSON, JWT, PEM and UUIDs, the text of a time, compiling and
    running a CEL expression (cel-go), Go's [regexp] where the expression is a
    policy's, the LRU library; catalogs, engines, Atlas, files and the clock are
    calls.  The expressions written in the source are matched by [Regex].  The
    witnesses instantiate the parameters with concrete functions.  Recursive
    descent takes fuel: [parse_fuel src] is enough for every source
    ([SqlGrammar.ParseRowFilter_terminates]); the scanning loops take the length
    of their input; the loops of retries their bound in the source.  Offsets and
    lengths are [nat], since a Go slice is shorter than 2^63; ids, the body caps
    and the durations are [N] and [Z] with the constants and, where it matters,
    the wrap-around of the code; floats that carry ids are rounded to 53 bits in
    [Cel].  Bytes above 127 are kept: [trimSpace], [EqualFold] and [ToLower] are
    given on the UTF-8 encodings that matter.

    ** Not modelled

    Logging and metrics other than the counters a handler branches on or must
    keep, and their declarations (metrics.go, telemetry.go); TLS and HTTP servers;
    the texts that commands print; the tickers around one poll, sweep or pass; cel-go, golang-jwt and the
    SDKs of WorkOS, Stripe and AWS; what templates and encoders print of the
    administration's rows.
    The manifest lists them with their reasons.  Concurrency is that of the step
    relations: processes interleave between calls, each of which the library or
    the database behind it makes atomic. *)

From stdpp Require Export base tactics list strings gmap.
From Stdlib Require Export Ascii.
From Stdlib Require Import Lia.

(** ** Go strings

    A Go [string] is a sequence of bytes; it is a [list ascii] here, so that
    slicing [s[i:j]] is [take]/[drop] and indexing is stdpp's lookup.  The
    string notation below makes ["AND"] such a list in [go_scope]. *)

Abbreviation gostring := (list ascii).

Inductive byte_seq :=
  | bs_nil
  | bs_cons (a : ascii) (l : byte_seq).

Fixpoint bs_parse (l : list Byte.byte) : byte_seq :=
  match l with
  | [] => bs_nil
  | b :: l => bs_cons (ascii_of_byte b) (bs_parse l)
  end.

Fixpoint bs_print (s : byte_seq) : list Byte.byte :=
  match s with
  | bs_nil => []
  | bs_cons a l => byte_of_ascii a :: bs_print l
  end.

Declare Scope go_scope.
Delimit Scope go_scope with go.
#[warnings="-via-type-mismatch"]
String Notation list bs_parse bs_print
  (via byte_seq mapping [[nil] => bs_nil, [cons] => bs_cons]) : go_scope.
#[global] Open Scope go_scope.

(** ** Results

    A fallible Go function returns [(value, error)]; it is a [result] here,
    with the error the sentinel that [errors.Is] sees. *)

Inductive result (E A : Type) : Type :=
  | Ok (a : A)
  | Err (e : E).
Arguments Ok {E A} a.
Arguments Err {E A} e.

#[export] Instance result_ret {E} : MRet (result E) := fun A a => Ok a.
#[export] Instance result_bind {E} : MBind (result E) := fun A B f m =>
  match m with
  | Ok a => f a
  | Err e => Err e
  end.
#[export] Instance result_fmap {E} : FMap (result E) := fun A B f m =>
  match m with
  | Ok a => Ok (f a)
  | Err e => Err e
  end.

#[export] Instance result_eq_dec {E A} `{EqDecision E, EqDecision A} :
  EqDecision (result E A).
Proof. solve_decision. Defined.

Definition is_ok {E A} (r : result E A) : bool :=
  match r with Ok _ => true | Err _ => false end.

Definition map_err {E F A} (f : E -> F) (r : result E A) : result F A :=
  match r with Ok a => Ok a | Err e => Err (f e) end.

(** ** Byte classes *)

Definition ord (b : ascii) : N := N_of_ascii b.

(** [unicode.IsSpace(rune(b))] of a single byte read as a Latin-1 rune. *)
Definition isSpaceByte (b : ascii) : bool :=
  let n := ord b in
  (((9 <=? n) && (n <=? 13)) || (n =? 32) || (n =? 133) || (n =? 160))%N.

Definition isDigit (b : ascii) : bool :=
  let n := ord b in ((48 <=? n) && (n <=? 57))%N.

Definition isUpper (b : ascii) : bool :=
  let n := ord b in ((65 <=? n) && (n <=? 90))%N.

Definition isLower (b : ascii) : bool :=
  let n := ord b in ((97 <=? n) && (n <=? 122))%N.

(** ASCII lower- and upper-casing of one byte. *)
Definition toLower (b : ascii) : ascii :=
  if isUpper b then ascii_of_N (ord b + 32) else b.

Definition toUpper (b : ascii) : ascii :=
  if isLower b then ascii_of_N (ord b - 32) else b.

Definition quote : ascii := "'"%char.

(** ** The [strings] package *)

(** [strings.HasPrefix]. *)
Fixpoint hasPrefix (pre s : gostring) : bool :=
  match pre, s with
  | [], _ => true
  | _ :: _, [] => false
  | a :: pre', b :: s' => bool_decide (a = b) && hasPrefix pre' s'
  end.

(** [strings.HasSuffix]. *)
Definition hasSuffix (s suf : gostring) : bool :=
  hasPrefix (reverse suf) (reverse s).

(** [strings.Contains]. *)
Fixpoint contains (s sub : gostring) : bool :=
  hasPrefix sub s ||
  match s with
  | [] => false
  | _ :: s' => contains s' sub
  end.

(** [strings.EqualFold] against an ASCII keyword.  A slice with as many bytes
    as the keyword has a multi-byte rune only if it has fewer runes than the
    keyword, and an invalid byte folds to no ASCII letter: folding byte by
    byte decides the same. *)
Fixpoint equalFold (s t : gostring) : bool :=
  match s, t with
  | [], [] => true
  | a :: s', b :: t' => bool_decide (toLower a = toLower b) && equalFold s' t'
  | _, _ => false
  end.

(** [strings.ReplaceAll(s, "'", "''")]. *)
Fixpoint doubleQuotes (s : gostring) : gostring :=
  match s with
  | [] => []
  | c :: s' =>
      if bool_decide (c = quote) then quote :: quote :: doubleQuotes s'
      else c :: doubleQuotes s'
  end.

(** [strings.Join]. *)
Fixpoint join (sep : gostring) (parts : list gostring) : gostring :=
  match parts with
  | [] => []
  | [p] => p
  | p :: rest => p ++ sep ++ join sep rest
  end.

(** The number of leading bytes that satisfy [f]: what a loop
    [for f(s[i]) { i++ }] adds to [i]. *)
Fixpoint countWhile (f : ascii -> bool) (s : gostring) : nat :=
  match s with
  | [] => 0
  | c :: s' => if f c then S (countWhile f s') else 0
  end.

(** The encodings of the code points for which [unicode.IsSpace] holds. *)
Definition spaceRunes : list gostring :=
  let b n := ascii_of_N n in
  [["009"%char]; ["010"%char]; ["011"%char]; ["012"%char]; ["013"%char]; [" "%char];
   [b 194; b 133]; [b 194; b 160]; [b 225; b 154; b 128]]%N
  ++ map (fun n => [b 226; b 128; b n])%N
       [128; 129; 130; 131; 132; 133; 134; 135; 136; 137; 138; 168; 169; 175]%N
  ++ [[b 226; b 129; b 159]; [b 227; b 128; b 128]]%N.

Fixpoint findPrefix (ws : list gostring) (s : gostring) : option nat :=
  match ws with
  | [] => None
  | w :: ws => if hasPrefix w s then Some (length w) else findPrefix ws s
  end.

Fixpoint trimPrefixes (ws : list gostring) (fuel : nat) (s : gostring) : gostring :=
  match fuel with
  | 0 => s
  | S fuel =>
      match findPrefix ws s with
      | Some n => trimPrefixes ws fuel (drop n s)
      | None => s
      end
  end.

Definition trimLeft (s : gostring) : gostring :=
  trimPrefixes spaceRunes (length s) s.

Definition trimRight (s : gostring) : gostring :=
  reverse (trimPrefixes (map reverse spaceRunes) (length s) (reverse s)).

(** [strings.TrimSpace]: a rune at either end is a space exactly when the bytes
    there are one of the encodings, whatever bytes are next to them. *)
Definition trimSpace (s : gostring) : gostring := trimRight (trimLeft s).

(** [strings.ToLower] as far as a comparison with an ASCII word sees: the two
    non-ASCII letters that fold to ASCII ones are U+0130 and U+212A. *)
Fixpoint lowerWord (s : gostring) : gostring :=
  match s with
  | [] => []
  | a :: s1 =>
      match s1 with
      | b :: s2 =>
          if (ord a =? 196)%N && (ord b =? 176)%N then "i"%char :: lowerWord s2
          else match s2 with
               | c :: s3 =>
                   if (ord a =? 226)%N && (ord b =? 132)%N && (ord c =? 170)%N
                   then "k"%char :: lowerWord s3
                   else toLower a :: lowerWord s1
               | [] => toLower a :: lowerWord s1
               end
      | [] => [toLower a]
      end
  end.

(** [strings.TrimRight(s, "/")]. *)
Fixpoint dropSlashes (s : gostring) : gostring :=
  match s with
  | c :: s' => if bool_decide (c = "/"%char) then dropSlashes s' else s
  | [] => []
  end.
Definition trimRightSlash (s : gostring) : gostring := reverse (dropSlashes (reverse s)).

(** [encoding/hex]: the digits, and [hex.EncodeToString]. *)
Definition hexDigits : gostring := "0123456789abcdef".
Definition hexOf (n : N) : ascii := nth (N.to_nat n) hexDigits "0"%char.
Definition hexEncode (s : gostring) : gostring :=
  flat_map (fun c => [hexOf (ord c / 16); hexOf (ord c mod 16)]%N) s.

(** ** Numbers and durations *)

Definition digitValue (c : ascii) : Z := Z.of_N (ord c) - 48.

(** [strconv.Atoi], with its 64-bit range. *)
Definition Atoi (s : gostring) : option Z :=
  let '(neg, ds) :=
    match s with
    | c :: s' => if bool_decide (c = "-"%char) then (true, s')
                 else if bool_decide (c = "+"%char) then (false, s') else (false, s)
    | [] => (false, [])
    end in
  if bool_decide (ds = []) || negb (forallb isDigit ds) then None
  else
    let n := fold_left (fun acc c => (acc * 10 + digitValue c)%Z) ds 0%Z in
    let n := (if neg then - n else n)%Z in
    if ((- 2 ^ 63 <=? n) && (n <? 2 ^ 63))%Z then Some n else None.

(** [t.Sub(u)] of instants in nanoseconds: a 64-bit duration, saturated. *)
Definition timeSub (t u : Z) : Z := Z.max (- 2 ^ 63) (Z.min (2 ^ 63 - 1) (t - u)).

(** ** Tactics *)

(** Case analysis on the 256 bytes. *)
Ltac by_byte b :=
  let b0 := fresh "b" in let b1 := fresh "b" in let b2 := fresh "b" in
  let b3 := fresh "b" in let b4 := fresh "b" in let b5 := fresh "b" in
  let b6 := fresh "b" in let b7 := fresh "b" in
  destruct b as [b0 b1 b2 b3 b4 b5 b6 b7];
  destruct b0, b1, b2, b3, b4, b5, b6, b7.

(** Inverts a chain of binds on [result] that ended in [Ok]. *)
Ltac inv_bind H :=
  repeat (unfold mbind, result_bind, mret, result_ret in H; simpl in H);
  repeat match type of H with
  | context [match ?x with Ok _ => _ | Err _ => _ end] =>
      let E := fresh "E" in destruct x eqn:E; simpl in H; try discriminate H
  | context [let '(_, _) := ?x in _] =>
      let E := fresh "E" in destruct x eqn:E; simpl in H; try discriminate H
  end.

(** ** Lemmas *)

Lemma hasPrefix_spec pre s :
  hasPrefix pre s = true <-> exists t, s = pre ++ t.
Proof.
  revert s; induction pre as [|a pre IH]; intros s; simpl.
  { split; [by exists s | done]. }
  destruct s as [|b s].
  { split; [done | by intros [t ?]]. }
  rewrite andb_true_iff, bool_decide_eq_true, IH. split.
  - intros [-> [t ->]]. by exists t.
  - intros [t [= -> ->]]. split; [done | by exists t].
Qed.

Lemma hasPrefix_app pre t : hasPrefix pre (pre ++ t) = true.
Proof. apply hasPrefix_spec. by exists t. Qed.

Lemma hasPrefix_neq a pre b s : a <> b -> hasPrefix (a :: pre) (b :: s) = false.
Proof. intros. simpl. by rewrite bool_decide_eq_false_2. Qed.

Lemma equalFold_length s t : equalFold s t = true -> length s = length t.
Proof.
  revert t; induction s as [|a s IH]; intros [|b t]; simpl; try done.
  rewrite andb_true_iff. intros [_ ?]. f_equal. by apply IH.
Qed.

Lemma equalFold_refl s : equalFold s s = true.
Proof.
  induction s as [|a s IH]; simpl; [done|].
  by rewrite bool_decide_eq_true_2, IH.
Qed.

Lemma countWhile_le f s : countWhile f s <= length s.
Proof. induction s as [|c s IH]; simpl; [lia|]. destruct (f c); lia. Qed.

Lemma countWhile_stop f c s : f c = false -> countWhile f (c :: s) = 0.
Proof. simpl. by intros ->. Qed.

Lemma countWhile_head f s :
  match drop (countWhile f s) s with
  | [] => True
  | c :: _ => f c = false
  end.
Proof.
  induction s as [|c s IH]; simpl; [done|].
  by destruct (f c) eqn:E; simpl.
Qed.

Lemma countWhile_all f s : Forall (fun c => f c = true) (take (countWhile f s) s).
Proof.
  induction s as [|c s IH]; simpl; [constructor|].
  destruct (f c) eqn:E; simpl; constructor; auto.
Qed.

Lemma countWhile_app f s t :
  Forall (fun c => f c = true) s -> countWhile f (s ++ t) = length s + countWhile f t.
Proof. induction 1 as [|c s Hc _ IH]; simpl; [done|]. by rewrite Hc, IH. Qed.

Lemma doubleQuotes_app s t : doubleQuotes (s ++ t) = doubleQuotes s ++ doubleQuotes t.
Proof.
  induction s as [|c s IH]; simpl; [done|]. rewrite IH.
  by destruct (bool_decide (c = quote)).
Qed.

(** ** Hints: the common facts about prefixes, words and lengths. *)
Create HintDb go.
#[export] Hint Resolve hasPrefix_app equalFold_refl : go.
#[export] Hint Rewrite doubleQuotes_app : go.
