(* ===== verification/Effects.v ===== *)
(** * Programs with external calls

    Handlers of the repository call out (a database, a catalog, an audit sink)
    and act on the answer.  A handler is a tree of calls here: [Do e k] makes
    the call [e] and goes on with its answer.  [run] executes a tree against an
    environment, any function from the calls made so far and the call to an
    answer, and returns the result with the trace of calls and answers; a
    property quantified over environments holds whatever the outside does. *)

From S2P Require Import Prelude.

Section prog.
Context {E : Type} {R : E -> Type}.

Inductive prog (A : Type) : Type :=
  | Ret (a : A)
  | Do (e : E) (k : R e -> prog A).
#[global] Arguments Ret {A} a.
#[global] Arguments Do {A} e k.

Fixpoint bind {A B} (p : prog A) (f : A -> prog B) : prog B :=
  match p with
  | Ret a => f a
  | Do e k => Do e (fun r => bind (k r) f)
  end.

(** A call and its answer. *)
Definition event : Type := {e : E & R e}.
Definition trace : Type := list event.
Definition env : Type := forall (h : trace) (e : E), R e.

Definition ev (e : E) (r : R e) : event := existT e r.

(** The calls of a trace, without the answers. *)
Definition calls (t : trace) : list E := map (@projT1 E R) t.

Lemma calls_app (t u : trace) : calls (t ++ u) = calls t ++ calls u.
Proof. unfold calls. by rewrite map_app. Qed.

(** The result and the calls made after the history [h], in order. *)
Fixpoint run {A} (o : env) (h : trace) (p : prog A) : A * trace :=
  match p with
  | Ret a => (a, [])
  | Do e k =>
      let r := o h e in
      let '(a, t) := run o (h ++ [ev e r]) (k r) in
      (a, ev e r :: t)
  end.

Definition call (e : E) : prog (R e) := Do e (fun r => Ret r).

Lemma run_bind {A B} o h (p : prog A) (f : A -> prog B) :
  run o h (bind p f) =
    let '(a, t) := run o h p in
    let '(b, u) := run o (h ++ t) (f a) in
    (b, t ++ u).
Proof.
  revert h; induction p as [a|e k IH]; intros h; cbn [run bind].
  - rewrite app_nil_r. by destruct (run o h (f a)).
  - rewrite IH. destruct (run o (h ++ [ev e (o h e)]) (k (o h e))) as [a t].
    rewrite <- app_assoc. cbn [app].
    by destruct (run o (h ++ ev e (o h e) :: t) (f a)).
Qed.

(** Every answer in a trace is the environment's. *)
Lemma run_answers {A} (o : env) h (p : prog A) t1 e t2 :
  (run o h p).2 = t1 ++ e :: t2 -> e = ev (projT1 e) (o (h ++ t1) (projT1 e)).
Proof.
  revert h t1; induction p as [a|c k IH]; intros h t1; cbn [run].
  - cbn [snd]. intros H. by destruct t1.
  - specialize (IH (o h c) (h ++ [ev c (o h c)])).
    destruct (run o (h ++ [ev c (o h c)]) (k (o h c))) as [a t]. cbn [snd].
    destruct t1 as [|e1 t1]; cbn [app]; intros H; injection H as H1 H2.
    + subst e. by rewrite app_nil_r.
    + subst e1. specialize (IH t1 H2). by rewrite <- app_assoc in IH.
Qed.

(** A property of result and trace that holds on every run: the weakest
    precondition of a tree, by its calls. *)
Fixpoint always {A} (p : prog A) (h : trace) (Q : A -> trace -> Prop) : Prop :=
  match p with
  | Ret a => Q a h
  | Do e k => forall r, always (k r) (h ++ [ev e r]) Q
  end.

Lemma always_run {A} (p : prog A) (Q : A -> trace -> Prop) h o :
  always p h Q -> let '(a, t) := run o h p in Q a (h ++ t).
Proof.
  revert h; induction p as [a|e k IH]; intros h; cbn [always run].
  - intros HQ. by rewrite app_nil_r.
  - intros HQ. specialize (IH _ _ (HQ (o h e))).
    destruct (run o (h ++ [ev e (o h e)]) (k (o h e))) as [a t].
    by rewrite <- app_assoc in IH.
Qed.

Lemma always_mono {A} (p : prog A) (P Q : A -> trace -> Prop) h :
  always p h P -> (forall a t, P a t -> Q a t) -> always p h Q.
Proof.
  intros HP HPQ. revert h HP; induction p as [a|e k IH]; intros h; cbn [always]; auto.
Qed.

Lemma always_bind {A B} (p : prog A) (f : A -> prog B) (Q : B -> trace -> Prop) h :
  always p h (fun a h' => always (f a) h' Q) -> always (bind p f) h Q.
Proof.
  revert h; induction p as [a|e k IH]; intros h; cbn [always bind]; auto.
Qed.
(** A tree that makes only calls of a kind. *)
Fixpoint only {A} (P : E -> bool) (p : prog A) : Prop :=
  match p with
  | Ret _ => True
  | Do e k => P e = true /\ forall r, only P (k r)
  end.

Lemma only_bind {A B} P (p : prog A) (f : A -> prog B) :
  only P p -> (forall a, only P (f a)) -> only P (bind p f).
Proof.
  intros Hp Hf. induction p as [a|e k IH]; cbn [bind only] in *; [done|].
  destruct Hp as [He Hk]. split; [done|]. auto.
Qed.

Lemma only_weaken {A} (P P' : E -> bool) (p : prog A) :
  (forall e, P e = true -> P' e = true) -> only P p -> only P' p.
Proof.
  intros HP. induction p as [a|e k IH]; cbn [only]; [done|]. intros [He Hk]. auto.
Qed.

Lemma only_run {A} P (p : prog A) o h :
  only P p -> forallb P (calls (run o h p).2) = true.
Proof.
  revert h; induction p as [a|e k IH]; intros h; cbn [only run]; [done|].
  intros [He Hk]. specialize (IH (o h e) (h ++ [ev e (o h e)]) (Hk _)).
  destruct (run o (h ++ [ev e (o h e)]) (k (o h e))) as [a t]. cbn in *. by rewrite He.
Qed.

(** The same, with a condition on the result. *)
Fixpoint only_to {A} (P : E -> bool) (Q : A -> Prop) (p : prog A) : Prop :=
  match p with
  | Ret a => Q a
  | Do e k => P e = true /\ forall r, only_to P Q (k r)
  end.

Lemma only_to_bind {A B} P Q Q' (p : prog A) (f : A -> prog B) :
  only_to P Q p -> (forall a, Q a -> only_to P Q' (f a)) -> only_to P Q' (bind p f).
Proof.
  intros Hp Hf. induction p as [a|e k IH]; cbn [bind only_to] in *; [by apply Hf|].
  destruct Hp as [He Hk]. split; [done|]. auto.
Qed.

Lemma only_to_run {A} P Q (p : prog A) o h :
  only_to P Q p -> forallb P (calls (run o h p).2) = true /\ Q (run o h p).1.
Proof.
  revert h; induction p as [a|e k IH]; intros h; cbn [only_to run]; [done|].
  intros [He Hk]. specialize (IH (o h e) (h ++ [ev e (o h e)]) (Hk _)).
  destruct (run o (h ++ [ev e (o h e)]) (k (o h e))) as [a t]. cbn in *. by rewrite He.
Qed.

Lemma only_to_only {A} P Q (p : prog A) : only_to P Q p -> only P p.
Proof.
  induction p as [a|e k IH]; cbn [only only_to]; [done|]. intros [He Hk]. auto.
Qed.

(** The same, over the answers an environment is known to give. *)
Fixpoint only_if {A} (ok : forall e, R e -> Prop) (P : E -> bool) (Q : A -> Prop) (p : prog A) : Prop :=
  match p with
  | Ret a => Q a
  | Do e k => P e = true /\ forall r, ok e r -> only_if ok P Q (k r)
  end.

Lemma only_if_bind {A B} ok P Q Q' (p : prog A) (f : A -> prog B) :
  only_if ok P Q p -> (forall a, Q a -> only_if ok P Q' (f a)) -> only_if ok P Q' (bind p f).
Proof.
  intros Hp Hf. induction p as [a|e k IH]; cbn [bind only_if] in *; [by apply Hf|].
  destruct Hp as [He Hk]. split; [done|]. auto.
Qed.

Lemma only_if_run {A} ok P Q (p : prog A) o h :
  (forall h e, ok e (o h e)) -> only_if ok P Q p ->
  forallb P (calls (run o h p).2) = true /\ Q (run o h p).1.
Proof.
  intros Ho. revert h; induction p as [a|e k IH]; intros h; cbn [only_if run]; [done|].
  intros [He Hk]. specialize (IH (o h e) (h ++ [ev e (o h e)]) (Hk _ (Ho _ _))).
  destruct (run o (h ++ [ev e (o h e)]) (k (o h e))) as [a t]. cbn in *. by rewrite He.
Qed.

Lemma only_all {A} (p : prog A) : only (fun _ => true) p.
Proof. induction p as [a|e k IH]; cbn [only]; auto. Qed.
End prog.
Arguments prog {E} R A.
Arguments event {E} R.
Arguments trace {E} R.
Arguments env {E} R.

(** A program whose calls are some of a larger program's. *)
Section lifted.
Context {E1 E2 : Type} {R1 : E1 -> Type} {R2 : E2 -> Type}.
Context (f : E1 -> E2) (back : forall e, R2 (f e) -> R1 e).

Fixpoint lifted {A} (p : prog R1 A) : prog R2 A :=
  match p with
  | Ret a => Ret a
  | Do e k => Do (f e) (fun r => lifted (k (back e r)))
  end.

Lemma only_lifted {A} P (p : prog R1 A) : only (fun e => P (f e)) p -> only P (lifted p).
Proof.
  induction p as [a|e k IH]; cbn [only lifted]; [done|]. intros [He Hk]. auto.
Qed.

Lemma only_to_lifted {A} P Q (p : prog R1 A) :
  only_to (fun e => P (f e)) Q p -> only_to P Q (lifted p).
Proof.
  induction p as [a|e k IH]; cbn [only_to lifted]; [done|]. intros [He Hk]. auto.
Qed.
End lifted.

(** [let! x := p in q] runs [p] and binds its result. *)
Notation "'let!' x ':=' p 'in' q" := (bind p (fun x => q))
  (at level 10, x pattern, p at level 100, q at level 200, only parsing) : go_scope.
