(* ===== verification/Interleave.v ===== *)
(** * Requests that interleave on a shared world

    A server handles many requests at a time.  Each is a tree of calls, as in
    [Effects]; a call is atomic (a critical section, a statement, one exchange
    with another service) and between two calls of a request the others move,
    and so does the world by itself.  [safe] is the weakest precondition of a
    tree in that setting: it holds of what is left of a request whatever the
    others did, as long as they kept the invariant and the rely of the request;
    its own calls must be made where their precondition holds, and keep the
    invariant and the rely of every other request. *)

From stdpp Require Import relations.
From S2P Require Import Prelude Effects.
From Stdlib Require Import Lia.
#[local] Open Scope go_scope.

Section interleave.
Context {E : Type} {R : E -> Type} {W Q A : Type}.

(** What an atomic call of the [i]th request answers and does to the world (a
    call with no answer in a world waits), what the world does by itself, and
    the handler. *)
Context (performs : nat -> forall e : E, W -> R e -> W -> Prop).
Context (drifts : relation W).
Context (handler : Q -> prog R A).

(** A request in flight, with the world in which it arrived. *)
Record process : Type := mkProcess {
  p_request : Q;
  p_start : W;
  p_rest : prog R A
}.

Inductive istep : W * list process -> W * list process -> Prop :=
  | istep_drift w w' ps : drifts w w' -> istep (w, ps) (w', ps)
  | istep_arrive w ps q : istep (w, ps) (w, ps ++ [mkProcess q w (handler q)])
  | istep_call w w' ps i q s e k r :
      ps !! i = Some (mkProcess q s (Do e k)) ->
      performs i e w r w' ->
      istep (w, ps) (w', <[i := mkProcess q s (k r)]> ps).

(** A step of the request that came last. *)
Lemma istep_last w w' ps q s e k r :
  performs (length ps) e w r w' ->
  istep (w, ps ++ [mkProcess q s (Do e k)]) (w', ps ++ [mkProcess q s (k r)]).
Proof.
  intros Hp.
  replace (ps ++ [mkProcess q s (k r)])
    with (<[length ps := mkProcess q s (k r)]> (ps ++ [mkProcess q s (Do e k)])).
  - eapply istep_call; [|exact Hp]. by rewrite lookup_app_r, Nat.sub_diag by lia.
  - rewrite insert_app_r_alt by lia. by rewrite Nat.sub_diag.
Qed.

Lemma last_run w p e k r w' ps q s st :
  p = Do e k -> performs (length ps) e w r w' ->
  rtc istep (w', ps ++ [mkProcess q s (k r)]) st ->
  rtc istep (w, ps ++ [mkProcess q s p]) st.
Proof. intros -> Hp Hr. eapply rtc_l; [by eapply istep_last|exact Hr]. Qed.

(** ** Safety of what is left of a request *)

Context (inv : W -> Prop) (rely : nat -> relation W) `{!forall i, PreOrder (rely i)}.

Fixpoint safe (i : nat) (pre : E -> W -> Prop) (post : W -> A -> Prop)
    (p : prog R A) (w : W) : Prop :=
  match p with
  | Ret a => forall w', rely i w w' -> inv w' -> post w' a
  | Do e k =>
      forall w', rely i w w' -> inv w' ->
        pre e w' /\
        forall r w'', performs i e w' r w'' ->
          inv w'' /\ (forall j, j <> i -> rely j w' w'') /\ safe i pre post (k r) w''
  end.

Lemma safe_stable i pre post p w w' :
  rely i w w' -> safe i pre post p w -> safe i pre post p w'.
Proof.
  intros Hr. destruct p as [a|e k]; cbn [safe]; intros Hs w'' Hw; apply Hs; by transitivity w'.
Qed.

Context (pre : nat -> Q -> W -> E -> W -> Prop) (post : nat -> Q -> W -> W -> A -> Prop).

(** What holds of the world for a request that has not arrived: it is what the
    request starts from. *)
Context (unborn : nat -> W -> Prop).

Definition all_safe (st : W * list process) : Prop :=
  inv st.1 /\
  (forall i, length st.2 <= i -> unborn i st.1) /\
  forall i q s p, st.2 !! i = Some (mkProcess q s p) ->
    safe i (pre i q s) (post i q s) p st.1.

Hypothesis drifts_rely : forall w w', inv w -> drifts w w' -> inv w' /\ forall i, rely i w w'.
Hypothesis handler_safe :
  forall i q w, inv w -> unborn i w -> safe i (pre i q w) (post i q w) (handler q) w.
Hypothesis unborn_stable : forall i w w', rely i w w' -> unborn i w -> unborn i w'.

Lemma istep_safe st st' : istep st st' -> all_safe st -> all_safe st'.
Proof.
  intros Hs (Hi&Hu&Hp). destruct Hs as [w w' ps Hd|w ps q|w w' ps i q s e k r Hl Hc];
    cbn [fst snd] in *.
  - destruct (drifts_rely _ _ Hi Hd) as [Hi' Hr]. split; [done|]. cbn. split.
    { intros j Hj. by eapply unborn_stable; [apply Hr|apply Hu]. }
    intros j q s p Hj. by eapply safe_stable; [|by apply Hp].
  - split; [done|]. cbn. split.
    { intros j Hj. rewrite length_app in Hj. cbn in Hj. apply Hu. lia. }
    intros j q' s p Hj.
    apply lookup_app_Some in Hj as [Hj|[Hge Hj]]; [by apply (Hp j)|].
    apply list_lookup_singleton_Some in Hj as [_ [= <- <- <-]].
    apply handler_safe; [done|by apply Hu].
  - destruct (Hp i q s _ Hl w ltac:(reflexivity) Hi) as [_ H2].
    destruct (H2 r w' Hc) as [Hi' [Hr H3]].
    split; [done|]. cbn. rewrite length_insert. split.
    { intros j Hj. assert (j <> i) as Hn by (apply lookup_lt_Some in Hl; lia).
      by eapply unborn_stable; [apply Hr|apply Hu]. }
    intros j q' s' p Hj.
    destruct (decide (j = i)) as [->|Hn].
    + rewrite list_lookup_insert_eq in Hj by (by eapply lookup_lt_Some).
      by injection Hj as <- <- <-.
    + rewrite list_lookup_insert_ne in Hj by done.
      eapply safe_stable; [by apply Hr|]. by apply Hp.
Qed.

Lemma reachable_safe w0 st :
  inv w0 -> (forall i, unborn i w0) -> rtc istep (w0, []) st -> all_safe st.
Proof.
  intros Hi Hu Hr.
  assert (Hbase : all_safe (w0, [])).
  { split_and!; [done|by intros i _|]. intros i q s p Hl. by destruct i. }
  revert Hbase. induction Hr as [st|st st1 st2 Hs Hr IH]; [done|].
  intros Hb. by apply IH, (istep_safe st).
Qed.

(** The invariant of the world, a request about to make a call, and one that
    has answered, in every state that is reached. *)
Lemma reachable_inv w0 w ps :
  inv w0 -> (forall i, unborn i w0) -> rtc istep (w0, []) (w, ps) -> inv w.
Proof. intros Hi Hu Hr. by destruct (reachable_safe _ _ Hi Hu Hr). Qed.

Lemma calling w0 w ps i q s e k :
  inv w0 -> (forall i, unborn i w0) -> rtc istep (w0, []) (w, ps) ->
  ps !! i = Some (mkProcess q s (Do e k)) -> pre i q s e w.
Proof.
  intros Hi Hu Hr Hl. destruct (reachable_safe _ _ Hi Hu Hr) as (Hw&_&Hp).
  by destruct (Hp i q s _ Hl w ltac:(reflexivity) Hw).
Qed.

Lemma answered w0 w ps i q s a :
  inv w0 -> (forall i, unborn i w0) -> rtc istep (w0, []) (w, ps) ->
  ps !! i = Some (mkProcess q s (Ret a)) -> post i q s w a.
Proof.
  intros Hi Hu Hr Hl. destruct (reachable_safe _ _ Hi Hu Hr) as (Hw&_&Hp). by apply (Hp i q s _ Hl).
Qed.
End interleave.
Arguments process {E} R W Q A.
Arguments mkProcess {E R W Q A} _ _ _.
Arguments p_request {E R W Q A} _.
Arguments p_start {E R W Q A} _.
Arguments p_rest {E R W Q A} _.

(** [safe] of a sequence: the second part starts wherever the first left the
    world. *)
Section safe_bind.
Context {E : Type} {R : E -> Type} {W : Type}.
Context (performs : nat -> forall e : E, W -> R e -> W -> Prop).
Context (inv : W -> Prop) (rely : nat -> relation W) `{!forall i, PreOrder (rely i)}.

Lemma safe_later {A} i pre (post : W -> A -> Prop) (p : prog R A) w :
  (forall w', rely i w w' -> inv w' -> safe performs inv rely i pre post p w') ->
  safe performs inv rely i pre post p w.
Proof.
  intros Hs. destruct p as [a|e k]; cbn [safe] in *; intros w' Hr Hi;
    by apply (Hs w' Hr Hi w').
Qed.

Lemma safe_bind {A B} i pre (mid : W -> A -> Prop) (post : W -> B -> Prop)
    (p : prog R A) (f : A -> prog R B) w :
  safe performs inv rely i pre mid p w ->
  (forall w' a, inv w' -> mid w' a -> safe performs inv rely i pre post (f a) w') ->
  safe performs inv rely i pre post (bind p f) w.
Proof.
  revert w; induction p as [a|e k IH]; intros w; cbn [safe bind]; intros Hs Hf.
  - apply safe_later. intros w' Hr Hi. apply Hf; [done|]. by apply Hs.
  - intros w' Hr Hi. destruct (Hs w' Hr Hi) as [Hp Hc]. split; [done|].
    intros r w'' Hw. destruct (Hc r w'' Hw) as [H1 [H2 H3]]. split_and!; auto.
Qed.

Lemma safe_mono {A} i (pre pre' : E -> W -> Prop) (post post' : W -> A -> Prop)
    (p : prog R A) w :
  (forall w' e, inv w' -> pre e w' -> pre' e w') ->
  (forall w' a, inv w' -> post w' a -> post' w' a) ->
  safe performs inv rely i pre post p w -> safe performs inv rely i pre' post' p w.
Proof.
  intros He Ha. revert w; induction p as [a|e k IH]; intros w; cbn [safe]; intros Hs.
  - intros w' Hr Hi. auto.
  - intros w' Hr Hi. destruct (Hs w' Hr Hi) as [Hp Hc]. split; [auto|].
    intros r w'' Hw. destruct (Hc r w'' Hw) as [H1 [H2 H3]]. split_and!; auto.
Qed.

(** What calls a tree makes at all adds to where it makes them. *)
Lemma safe_only {A} i pre (post : W -> A -> Prop) (P : E -> bool) (p : prog R A) w :
  only P p -> safe performs inv rely i pre post p w ->
  safe performs inv rely i (fun e w => pre e w /\ P e = true) post p w.
Proof.
  revert w; induction p as [a|e k IH]; intros w; cbn [safe only]; [done|].
  intros [He Hk] Hs w' Hr Hi. destruct (Hs w' Hr Hi) as [Hp Hc]. split; [done|].
  intros r w'' Hw. destruct (Hc r w'' Hw) as [H1 [H2 H3]]. split_and!; auto.
Qed.

(** A fact that nobody undoes, the request included, can be carried over. *)
Lemma safe_frame {A} i pre (post : W -> A -> Prop) (F : W -> Prop) (p : prog R A) w :
  (forall w w', F w -> rely i w w' -> F w') ->
  (forall e w r w', F w -> inv w -> performs i e w r w' -> F w') ->
  F w -> safe performs inv rely i pre post p w ->
  safe performs inv rely i pre (fun w a => F w /\ post w a) p w.
Proof.
  intros Hr Hc. revert w; induction p as [a|e k IH]; intros w Hf; cbn [safe]; intros Hs.
  - intros w' H1 H2. split; [by eapply Hr|by apply Hs].
  - intros w' H1 H2. destruct (Hs w' H1 H2) as [H3 H4]. split; [done|].
    intros r w'' H5. destruct (H4 r w'' H5) as (H6&H7&H8). split_and!; [done|done|].
    apply IH; [|done]. apply (Hc e w' r w''); [by eapply Hr|done|done].
Qed.
End safe_bind.

(** ** Schedules *)

(** A list of actions in which every call has one answer is a run: what a
    concrete interleaving is computed with. *)
Section schedule.
Context {E : Type} {R : E -> Type} {W Q A D : Type}.
Context (performs : nat -> forall e : E, W -> R e -> W -> Prop) (drifts : relation W).
Context (handler : Q -> prog R A).
Context (move : D -> W -> W) (answer : nat -> forall e : E, W -> option (R e * W)).

Inductive action :=
  | Move (d : D)
  | Arrive (q : Q)
  | Advance (i : nat).

Definition act (st : W * list (process R W Q A)) (a : action) : W * list (process R W Q A) :=
  let '(w, ps) := st in
  match a with
  | Move d => (move d w, ps)
  | Arrive q => (w, ps ++ [mkProcess q w (handler q)])
  | Advance i =>
      match ps !! i with
      | Some (mkProcess q s (Do e k)) =>
          match answer i e w with
          | Some (r, w') => (w', <[i := mkProcess q s (k r)]> ps)
          | None => st
          end
      | _ => st
      end
  end.

Hypothesis move_drifts : forall d w, drifts w (move d w).
Hypothesis answer_performs : forall i e w r w', answer i e w = Some (r, w') -> performs i e w r w'.

Lemma action_step a st : rtc (istep performs drifts handler) st (act st a).
Proof.
  destruct st as [w ps], a as [d|q|i]; cbn [act].
  - apply rtc_once, istep_drift, move_drifts.
  - apply rtc_once, istep_arrive.
  - destruct (ps !! i) as [[q s [a|e k]]|] eqn:Hi; [done| |done].
    destruct (answer i e w) as [[r w']|] eqn:Ha; [|done].
    apply rtc_once. eapply istep_call; [exact Hi|]. by apply answer_performs.
Qed.

Lemma actions_run acts st : rtc (istep performs drifts handler) st (fold_left act acts st).
Proof.
  revert st; induction acts as [|a acts IH]; intros st; cbn [fold_left]; [done|].
  etransitivity; [apply action_step|apply IH].
Qed.

(** The answer of a request that has one. *)
Definition answerOf (i : nat) (st : W * list (process R W Q A)) : option A :=
  match st.2 !! i with
  | Some (mkProcess _ _ (Ret a)) => Some a
  | _ => None
  end.

Definition requestOf (i : nat) (st : W * list (process R W Q A)) : option Q :=
  p_request <$> st.2 !! i.

(** The call a request is about to make. *)
Definition pendingOf (i : nat) (st : W * list (process R W Q A)) : option E :=
  match st.2 !! i with
  | Some (mkProcess _ _ (Do e _)) => Some e
  | _ => None
  end.

Lemma answerOf_inv i st q a :
  requestOf i st = Some q -> answerOf i st = Some a ->
  exists s, st.2 !! i = Some (mkProcess q s (Ret a)).
Proof.
  unfold requestOf, answerOf. destruct (st.2 !! i) as [[q' s [a'|e k]]|]; [|done..].
  cbn. intros [= ->] [= ->]. by eexists.
Qed.

Lemma pendingOf_inv i st q e :
  requestOf i st = Some q -> pendingOf i st = Some e ->
  exists s k, st.2 !! i = Some (mkProcess q s (Do e k)).
Proof.
  unfold requestOf, pendingOf. destruct (st.2 !! i) as [[q' s [a'|e' k]]|]; [done| |done].
  cbn. intros [= ->] [= ->]. by do 2 eexists.
Qed.
End schedule.
Arguments action : clear implicits.
Arguments Move {Q D} _.
Arguments Arrive {Q D} _.
Arguments Advance {Q D} _.

(** ** A request on its own

    One program, with only the world moving between its calls. *)
Section solo.
Context {E : Type} {R : E -> Type} {W A D : Type}.
Context (performs : nat -> forall e : E, W -> R e -> W -> Prop) (drifts : relation W).

Inductive sstep : W * prog R A -> W * prog R A -> Prop :=
  | sstep_drift w w' p : drifts w w' -> sstep (w, p) (w', p)
  | sstep_call w w' e k r : performs 0 e w r w' -> sstep (w, Do e k) (w', k r).

Definition soloRely (i : nat) : relation W :=
  match i with 0 => rtc drifts | _ => fun _ _ => True end.

#[export] Instance soloRely_preorder i : PreOrder (soloRely i).
Proof. destruct i; [apply _|by split]. Qed.

Context (inv : W -> Prop) (pre : E -> W -> Prop) (post : W -> A -> Prop).
Hypothesis drifts_inv : forall w w', inv w -> drifts w w' -> inv w'.

Lemma solo_safe w p w' p' :
  inv w -> safe performs inv soloRely 0 pre post p w -> rtc sstep (w, p) (w', p') ->
  inv w' /\ safe performs inv soloRely 0 pre post p' w'.
Proof.
  intros Hi Hs Hr. remember (w, p) as st eqn:E1. remember (w', p') as st' eqn:E2.
  revert w p w' p' Hi Hs E1 E2.
  induction Hr as [st|st st1 st2 Hstep Hr IH]; intros w p w' p' Hi Hs -> E2.
  - by injection E2 as <- <-.
  - inversion Hstep as [x w1 y Hd|x w1 e k r Hc]; subst.
    + apply (IH w1 p); [by eapply drifts_inv| |done|done].
      eapply safe_stable; [apply _| |exact Hs]. cbn. by apply rtc_once.
    + destruct (Hs w ltac:(reflexivity) Hi) as [_ H]. destruct (H r w1 Hc) as (H1&_&H3).
      by apply (IH w1 (k r)).
Qed.

(** The condition of the call that comes next, or of the answer. *)
Definition solo_at (p : prog R A) (w : W) : Prop :=
  match p with Do e _ => pre e w | Ret a => post w a end.

Lemma solo_reached w p w' p' :
  inv w -> safe performs inv soloRely 0 pre post p w -> rtc sstep (w, p) (w', p') ->
  inv w' /\ solo_at p' w'.
Proof.
  intros Hi Hs Hr. destruct (solo_safe _ _ _ _ Hi Hs Hr) as [Hi' Hs']. split; [done|].
  destruct p' as [a|e k]; [by apply (Hs' w' ltac:(reflexivity))|].
  by apply (Hs' w' ltac:(reflexivity)).
Qed.

(** A schedule: [None] is the next call. *)
Context (move : D -> W -> W) (answer : nat -> forall e : E, W -> option (R e * W)).
Hypothesis move_drifts : forall d w, drifts w (move d w).
Hypothesis answer_performs : forall i e w r w', answer i e w = Some (r, w') -> performs i e w r w'.

Definition soloAct (st : W * prog R A) (a : option D) : W * prog R A :=
  match a, st with
  | Some d, (w, p) => (move d w, p)
  | None, (w, Do e k) =>
      match answer 0 e w with Some (r, w') => (w', k r) | None => (w, Do e k) end
  | None, st => st
  end.

Lemma solo_run acts st : rtc sstep st (fold_left soloAct acts st).
Proof.
  revert st; induction acts as [|a acts IH]; intros st; cbn [fold_left]; [done|].
  etransitivity; [|apply IH]. destruct st as [w p], a as [d|]; cbn [soloAct].
  - apply rtc_once, sstep_drift, move_drifts.
  - destruct p as [x|e k]; [done|]. destruct (answer 0 e w) as [[r w']|] eqn:Ha; [|done].
    apply rtc_once, sstep_call. by apply answer_performs.
Qed.
End solo.
