(* ===== verification/Lru.v ===== *)
(** * The LRU cache as an interface

    [github.com/hashicorp/golang-lru/v2] is outside the repository.  The code
    uses [Get], [Add], [Remove] and [Keys] of its [Cache], with documented
    behaviour: a [Get] returns the stored value and changes the recency only, an
    [Add] stores the value and may evict others, a [Remove] deletes one key and
    [Keys] lists the keys present.  [Lru] states that over the map of the
    cache's contents; the components are proved against it.  [bounded] is an
    instance, a list in order of recency with a capacity. *)

From S2P Require Import Prelude.
From Stdlib Require Import Lia.

Class Lru (K V : Type) `{Countable K} (C : Type) := {
  lru_contents : C -> gmap K V;
  lru_get : K -> C -> option V * C;
  lru_add : K -> V -> C -> C;
  lru_remove : K -> C -> C;
  lru_keys : C -> list K;
  lru_get_value : forall k c, (lru_get k c).1 = lru_contents c !! k;
  lru_get_contents : forall k c, lru_contents (lru_get k c).2 = lru_contents c;
  lru_add_same : forall k v c, lru_contents (lru_add k v c) !! k = Some v;
  lru_add_other : forall k v c k' v', k' <> k ->
    lru_contents (lru_add k v c) !! k' = Some v' -> lru_contents c !! k' = Some v';
  lru_remove_contents : forall k c, lru_contents (lru_remove k c) = delete k (lru_contents c);
  lru_keys_contents : forall k c, k ∈ lru_keys c <-> is_Some (lru_contents c !! k)
}.

(** What is in a cache after an [Add] was there before or is the new entry. *)
Lemma lru_add_inv `{Lru K V C} k v (c : C) k' v' :
  lru_contents (lru_add k v c) !! k' = Some v' ->
  (k' = k /\ v' = v) \/ lru_contents c !! k' = Some v'.
Proof.
  intros Hk. destruct (decide (k' = k)) as [->|Hne].
  - rewrite lru_add_same in Hk. injection Hk as <-. by left.
  - right. by eapply lru_add_other.
Qed.

(** ** A bounded list *)

Section bounded.
Context {K V : Type} `{Countable K} (capacity : positive).

Record bounded := mkBounded { entries : list (K * V) }.

Definition without (k : K) (l : list (K * V)) : list (K * V) :=
  filter (fun e => e.1 <> k) l.

Definition bounded_contents (c : bounded) : gmap K V := list_to_map (entries c).

Definition bounded_add (k : K) (v : V) (c : bounded) : bounded :=
  mkBounded (take (Pos.to_nat capacity) ((k, v) :: without k (entries c))).

Definition bounded_get (k : K) (c : bounded) : option V * bounded :=
  match bounded_contents c !! k with
  | Some v => (Some v, mkBounded ((k, v) :: without k (entries c)))
  | None => (None, c)
  end.

Definition bounded_remove (k : K) (c : bounded) : bounded :=
  mkBounded (without k (entries c)).

Definition bounded_keys (c : bounded) : list K := map fst (entries c).

Lemma without_contents k l :
  (list_to_map (without k l) : gmap K V) = delete k (list_to_map l).
Proof.
  induction l as [|[k' v] l IH]; simpl; [by rewrite delete_empty|].
  unfold without. rewrite filter_cons. simpl.
  destruct (decide (k' <> k)) as [Hne|He]; simpl.
  - rewrite delete_insert_ne by done. f_equal. exact IH.
  - destruct (decide (k' = k)) as [->|]; [|done].
    rewrite delete_insert_eq. exact IH.
Qed.

Lemma take_contents n l k (v : V) :
  (list_to_map (take n l) : gmap K V) !! k = Some v -> (list_to_map l : gmap K V) !! k = Some v.
Proof.
  revert n; induction l as [|[k' v'] l IH]; intros [|n]; simpl; try done.
  destruct (decide (k' = k)) as [->|Hne].
  - by rewrite !lookup_insert_eq.
  - rewrite !lookup_insert_ne by done. apply IH.
Qed.

#[export] Program Instance bounded_Lru : Lru K V bounded := {
  lru_contents := bounded_contents;
  lru_get := bounded_get;
  lru_add := bounded_add;
  lru_remove := bounded_remove;
  lru_keys := bounded_keys
}.
Next Obligation.
  intros k c. unfold bounded_get. by destruct (bounded_contents c !! k).
Qed.
Next Obligation.
  intros k c. unfold bounded_get. destruct (bounded_contents c !! k) as [v|] eqn:E; [|done].
  unfold bounded_contents in *. simpl. rewrite without_contents.
  rewrite insert_delete_eq. by apply insert_id.
Qed.
Next Obligation.
  intros k v c. unfold bounded_add, bounded_contents. simpl.
  destruct (Pos.to_nat capacity) eqn:E; [lia|]. simpl. by rewrite lookup_insert_eq.
Qed.
Next Obligation.
  intros k v c k' v' Hne Hk. unfold bounded_add, bounded_contents in Hk. simpl in Hk.
  apply take_contents in Hk. simpl in Hk. rewrite lookup_insert_ne in Hk by done.
  rewrite without_contents, lookup_delete_ne in Hk by done. exact Hk.
Qed.
Next Obligation.
  intros k c. unfold bounded_contents. simpl. apply without_contents.
Qed.
Next Obligation.
  intros k [l]. unfold bounded_keys, bounded_contents. simpl.
  induction l as [|[k' v] l IH]; simpl.
  - rewrite lookup_empty. split; [intros Hk; by apply elem_of_nil in Hk|by intros [? ?]].
  - rewrite elem_of_cons, IH. destruct (decide (k' = k)) as [->|Hne].
    + rewrite lookup_insert_eq. split; [by eexists|by left].
    + rewrite lookup_insert_ne by done. split; [intros [->|?]; done|by right].
Qed.
End bounded.
Arguments bounded : clear implicits.
