(* ===== verification/Order.v ===== *)
(** * Strings in order, and in parts

    The bytewise order of strings with [sort.Strings], and [strings.Split] by
    one byte. *)

From S2P Require Import Prelude.
From stdpp Require Import sorting.
From Stdlib Require Import Lia.
#[local] Open Scope go_scope.

(** ** Order of strings *)

(** Bytewise [<=]. *)
Fixpoint stringLe (s t : gostring) : bool :=
  match s, t with
  | [], _ => true
  | _ :: _, [] => false
  | a :: s, b :: t =>
      if (ord a <? ord b)%N then true
      else if (ord a =? ord b)%N then stringLe s t else false
  end.

Definition stringLeq (s t : gostring) : Prop := stringLe s t = true.

#[export] Instance stringLeq_dec : RelDecision stringLeq.
Proof. intros s t. unfold stringLeq. apply _. Defined.

(** [sort.Strings]. *)
Definition sortStrings (l : list gostring) : list gostring := merge_sort stringLeq l.

(** ** The order is total, so that a sorted list is determined by its elements *)

Lemma ord_inj a b : ord a = ord b -> a = b.
Proof. intros H. rewrite <- (ascii_N_embedding a), <- (ascii_N_embedding b). by f_equal. Qed.

Lemma stringLe_cons a b s t :
  stringLe (a :: s) (b :: t) = true <->
  (ord a < ord b)%N \/ a = b /\ stringLe s t = true.
Proof.
  cbn [stringLe]. destruct (N.ltb_spec (ord a) (ord b)); [by split; [left|]|].
  destruct (N.eqb_spec (ord a) (ord b)) as [E|E].
  - apply ord_inj in E as ->. split; [by right|]. intros [?|[_ ?]]; [lia|done].
  - split; [done|]. intros [?|[-> _]]; [lia|done].
Qed.

#[export] Instance stringLeq_total : Total stringLeq.
Proof.
  intros s. unfold stringLeq. induction s as [|a s IH]; intros [|b t]; cbn [stringLe]; auto.
  destruct (N.ltb_spec (ord a) (ord b)); [by left|].
  destruct (N.eqb_spec (ord a) (ord b)) as [E|E].
  - rewrite E, N.ltb_irrefl, N.eqb_refl. apply IH.
  - right. destruct (N.ltb_spec (ord b) (ord a)); [done|lia].
Qed.

#[export] Instance stringLeq_trans : Transitive stringLeq.
Proof.
  intros s. unfold stringLeq. induction s as [|a s IH]; intros [|b t] [|c u]; try done.
  rewrite !stringLe_cons. intros [H1|[-> H1]] [H2|[-> H2]].
  - left. lia.
  - by left.
  - by left.
  - right. split; [done|by eapply IH].
Qed.

#[export] Instance stringLeq_anti : AntiSymm eq stringLeq.
Proof.
  intros s. unfold stringLeq. induction s as [|a s IH]; intros [|b t]; try done.
  rewrite !stringLe_cons. intros [H1|[-> H1]] [H2|[E H2]]; try lia; try (subst; lia).
  f_equal. by apply IH.
Qed.

Lemma sortStrings_perm l : sortStrings l ≡ₚ l.
Proof. apply merge_sort_Permutation. Qed.

(** Equal elements, equal sorted lists. *)
Lemma sortStrings_unique l1 l2 : l1 ≡ₚ l2 -> sortStrings l1 = sortStrings l2.
Proof.
  intros H. eapply (StronglySorted_unique stringLeq);
    [apply StronglySorted_merge_sort; apply _..|].
  by rewrite !sortStrings_perm.
Qed.

(** ** Parts *)

(** [strings.Split(s, sep)] for a separator of one byte. *)
Fixpoint splitByte (sep : ascii) (s : gostring) : list gostring :=
  match s with
  | [] => [[]]
  | c :: s =>
      if bool_decide (c = sep) then [] :: splitByte sep s
      else match splitByte sep s with
           | p :: ps => (c :: p) :: ps
           | [] => [[c]]
           end
  end.

Lemma splitByte_nonempty sep s : splitByte sep s <> [].
Proof. destruct s as [|c s]; cbn; [done|]. case_bool_decide; [done|]. by destruct (splitByte sep s). Qed.

Lemma splitByte_free sep s : Forall (fun p => sep ∉ p) (splitByte sep s).
Proof.
  induction s as [|c s IH]; cbn.
  - constructor; [apply not_elem_of_nil|constructor].
  - case_bool_decide as Hc; [constructor; [apply not_elem_of_nil|done]|].
    destruct (splitByte sep s) as [|p ps]; [constructor; [|constructor]|].
    + rewrite list_elem_of_singleton. congruence.
    + apply Forall_cons in IH as [Hp Hps]. constructor; [|done]. rewrite elem_of_cons. intros [?|?]; [congruence|done].
Qed.

(** The parts and what is joined from them. *)
Lemma splitByte_join sep parts :
  parts <> [] -> Forall (fun p => sep ∉ p) parts -> splitByte sep (Prelude.join [sep] parts) = parts.
Proof.
  intros Hne H. induction H as [|p ps Hp Hps IH]; [done|]. clear Hne.
  assert (forall t, splitByte sep t <> [] ->
    splitByte sep (p ++ t) = match splitByte sep t with q :: qs => (p ++ q) :: qs | [] => [] end) as Happ.
  { clear IH. induction p as [|c p IHp]; intros t Ht; cbn; [by destruct (splitByte sep t)|].
    rewrite not_elem_of_cons in Hp. destruct Hp as [Hc Hp]. rewrite bool_decide_eq_false_2 by congruence.
    rewrite (IHp Hp t Ht). by destruct (splitByte sep t). }
  destruct ps as [|q ps].
  - cbn [Prelude.join]. rewrite <- (app_nil_r p) at 1. rewrite Happ by apply splitByte_nonempty. cbn. by rewrite app_nil_r.
  - change (Prelude.join [sep] (p :: q :: ps)) with (p ++ sep :: Prelude.join [sep] (q :: ps)).
    rewrite Happ by apply splitByte_nonempty. cbn [splitByte].
    rewrite bool_decide_eq_true_2 by done. rewrite (IH ltac:(done)). by rewrite app_nil_r.
Qed.
