(* ===== verification/Decimal.v ===== *)
(** * Decimal numbers

    [fmt.Sprintf] with [%d] and [fmt.Sscanf] with [%d] on 64-bit integers, and that what
    the first writes the second reads. *)

From S2P Require Import Prelude.
From Stdlib Require Import Lia.
#[local] Open Scope go_scope.

(** ** Writing and reading *)

Definition digitChar (n : N) : ascii := ascii_of_N (48 + n).

(** Fuel: the number of binary digits. *)
Fixpoint digitsFrom (fuel : nat) (n : N) (acc : gostring) : gostring :=
  match fuel with
  | 0 => acc
  | S fuel =>
      if (n =? 0)%N then acc else digitsFrom fuel (n / 10) (digitChar (n mod 10) :: acc)
  end.

Definition showN (n : N) : gostring :=
  if (n =? 0)%N then ["0"%char] else digitsFrom (N.size_nat n) n [].

Definition Sprintf_d (z : Z) : gostring :=
  if (z <? 0)%Z then "-"%char :: showN (Z.abs_N z) else showN (Z.abs_N z).

Definition lineFeed : ascii := ascii_of_N 10.

(** Leading blanks, but no line feed, a sign, and digits as far as they go. *)
Definition Sscanf_d (s : gostring) : option Z :=
  let t := trimLeft s in
  if bool_decide (lineFeed ∈ take (length s - length t) s) then None
  else
    let signed := match t with
                  | c :: _ => bool_decide (c = "-"%char) || bool_decide (c = "+"%char)
                  | [] => false
                  end in
    let sign := if signed then 1 else 0 in
    Atoi (take (sign + countWhile isDigit (drop sign t)) t).

(** ** Reading what was written *)

Definition valueOf (s : gostring) (acc : Z) : Z :=
  fold_left (fun a c => (a * 10 + digitValue c)%Z) s acc.

Lemma digitChar_digit n : (n < 10)%N -> isDigit (digitChar n) = true /\ digitValue (digitChar n) = Z.of_N n.
Proof.
  intros Hn. unfold isDigit, digitValue, digitChar, ord.
  rewrite N_ascii_embedding by lia. split; [|lia].
  apply andb_true_iff. split; apply N.leb_le; lia.
Qed.

(** The fuel of [showN] is enough: a division by ten takes at least one bit. *)
Lemma digitsFrom_value fuel n acc :
  (n < 2 ^ N.of_nat fuel)%N ->
  exists ds, digitsFrom fuel n acc = ds ++ acc /\ forallb isDigit ds = true /\
    valueOf ds 0 = Z.of_N n /\ (n <> 0%N -> ds <> []).
Proof.
  revert n acc; induction fuel as [|fuel IH]; intros n acc Hn.
  { exists []. cbn in Hn |- *. repeat split; lia. }
  cbn [digitsFrom]. destruct (n =? 0)%N eqn:E.
  { apply N.eqb_eq in E as ->. by exists []. }
  apply N.eqb_neq in E.
  destruct (IH (n / 10)%N (digitChar (n mod 10) :: acc)) as (ds & Hds & Hd & Hv & _).
  { rewrite Nat2N.inj_succ, N.pow_succ_r' in Hn.
    apply N.Div0.div_lt_upper_bound. lia. }
  destruct (digitChar_digit (n mod 10)) as [H1 H2]; [by apply N.mod_lt|].
  exists (ds ++ [digitChar (n mod 10)]). rewrite Hds, <- app_assoc. split; [done|].
  rewrite forallb_app, Hd. cbn [forallb]. rewrite H1. split; [done|]. split; [|by destruct ds].
  unfold valueOf in *. rewrite fold_left_app, Hv. cbn [fold_left]. rewrite H2.
  rewrite (N.div_mod n 10) at 3 by done. lia.
Qed.

Lemma showN_value n :
  showN n <> [] /\ forallb isDigit (showN n) = true /\ valueOf (showN n) 0 = Z.of_N n.
Proof.
  unfold showN. destruct (n =? 0)%N eqn:E.
  { apply N.eqb_eq in E as ->. done. }
  apply N.eqb_neq in E.
  destruct (digitsFrom_value (N.size_nat n) n []) as (ds & -> & Hd & Hv & Hne).
  { destruct n as [|p]; [done|]. pose proof (N.size_gt (Npos p)) as Hs. revert Hs.
    cbn [N.size_nat N.size].
    assert (N.of_nat (Pos.size_nat p) = Npos (Pos.size p)) as ->; [|done].
    clear. induction p as [p IH|p IH|]; cbn [Pos.size_nat Pos.size]; [..|done]; lia. }
  rewrite app_nil_r. auto.
Qed.

Lemma digit_not_sign c : isDigit c = true -> c <> "-"%char /\ c <> "+"%char.
Proof. intros H. split; intros ->; vm_compute in H; done. Qed.

Lemma trimLeft_digit c s : isDigit c = true \/ c = "-"%char -> trimLeft (c :: s) = c :: s.
Proof.
  intros [H| ->]; [|done]. revert H.
  by_byte c; intros H; first [discriminate H|reflexivity].
Qed.

Lemma Atoi_digits ds :
  ds <> [] -> forallb isDigit ds = true -> (valueOf ds 0 < 2 ^ 63)%Z -> (0 <= valueOf ds 0)%Z ->
  Atoi ds = Some (valueOf ds 0).
Proof.
  intros Hne Hd Hlt Hge. destruct ds as [|c ds]; [done|]. unfold Atoi. cbv beta iota.
  pose proof Hd as Hd'. cbn [forallb] in Hd'. apply andb_true_iff in Hd' as [Hc _].
  destruct (digit_not_sign c Hc) as [H1 H2].
  rewrite (bool_decide_eq_false_2 (c = "-"%char)), (bool_decide_eq_false_2 (c = "+"%char)) by done.
  rewrite Hd, bool_decide_eq_false_2 by done. cbn [negb orb]. unfold valueOf in *.
  rewrite (proj2 (Z.leb_le _ _)), (proj2 (Z.ltb_lt _ _)) by lia. done.
Qed.

Lemma Atoi_minus ds :
  ds <> [] -> forallb isDigit ds = true -> (valueOf ds 0 <= 2 ^ 63)%Z -> (0 < valueOf ds 0)%Z ->
  Atoi ("-"%char :: ds) = Some (- valueOf ds 0)%Z.
Proof.
  intros Hne Hd Hlt Hge. unfold Atoi. cbv beta iota. rewrite bool_decide_eq_true_2 by done.
  rewrite Hd, bool_decide_eq_false_2 by done. cbn [negb orb]. unfold valueOf in *.
  rewrite (proj2 (Z.leb_le _ _)), (proj2 (Z.ltb_lt _ _)) by lia. done.
Qed.

Lemma countWhile_full f s : forallb f s = true -> countWhile f s = length s.
Proof.
  induction s as [|c s IH]; [done|]. cbn [forallb countWhile length].
  intros [-> Hs]%andb_true_iff. by rewrite IH.
Qed.

Lemma Atoi_Sprintf z : (- 2 ^ 63 <= z < 2 ^ 63)%Z -> Atoi (Sprintf_d z) = Some z.
Proof.
  intros Hz. unfold Sprintf_d. destruct (showN_value (Z.abs_N z)) as (Hne & Hd & Hv).
  destruct (z <? 0)%Z eqn:E.
  - apply Z.ltb_lt in E. rewrite Atoi_minus by (try done; lia). f_equal. lia.
  - apply Z.ltb_ge in E. rewrite Atoi_digits by (try done; lia). f_equal. lia.
Qed.

Lemma Sprintf_nonempty z : Sprintf_d z <> [].
Proof. unfold Sprintf_d. destruct (z <? 0)%Z; [done|]. apply showN_value. Qed.

(** A 64-bit id survives being written for the coordinator and read again. *)
Lemma Sscanf_Sprintf z : (- 2 ^ 63 <= z < 2 ^ 63)%Z -> Sscanf_d (Sprintf_d z) = Some z.
Proof.
  intros Hz. unfold Sprintf_d. destruct (showN_value (Z.abs_N z)) as (Hne & Hd & Hv).
  generalize dependent (showN (Z.abs_N z)). intros ds Hne Hd Hv. unfold Sscanf_d.
  destruct (z <? 0)%Z eqn:E.
  - apply Z.ltb_lt in E. rewrite trimLeft_digit by auto. rewrite Nat.sub_diag, take_0.
    rewrite bool_decide_eq_false_2 by apply not_elem_of_nil.
    rewrite bool_decide_eq_true_2 by done. cbn [orb drop].
    rewrite drop_0, countWhile_full by done. rewrite take_ge by (cbn [length]; lia).
    rewrite Atoi_minus by (try done; lia). f_equal. lia.
  - apply Z.ltb_ge in E. destruct ds as [|c ds]; [done|].
    pose proof Hd as Hd'. cbn [forallb] in Hd'. apply andb_true_iff in Hd' as [Hc _].
    destruct (digit_not_sign c Hc) as [H1 H2].
    rewrite trimLeft_digit by auto. rewrite Nat.sub_diag, take_0.
    rewrite bool_decide_eq_false_2 by apply not_elem_of_nil.
    rewrite (bool_decide_eq_false_2 (c = "-"%char)), (bool_decide_eq_false_2 (c = "+"%char)) by done.
    cbn [orb]. rewrite drop_0.
    rewrite countWhile_full by done. rewrite take_ge by (cbn [length]; lia).
    rewrite Atoi_digits by (try done; lia). f_equal. lia.
Qed.

