(* ===== verification/SqlGrammar.v ===== *)
(** * The policy fragment grammar

    [internal/policy/compiler/sql_grammar.go]: the AST of a policy fragment and
    the recursive-descent parser.  The parser state is the source and the byte
    offset, as in the Go struct; [rest] is [p.src[p.pos:]].  The recursive
    functions take fuel: [parse_fuel src] is enough for every source
    ([ParseRowFilter_terminates], [ParseColumnMask_terminates]). *)

From S2P Require Import Prelude.
From Stdlib Require Import Lia.

(** ** The AST *)

Inductive FragmentKind := FragmentRowFilter | FragmentColumnMask.

Record Literal := mkLiteral { lit_Kind : gostring; lit_Value : gostring }.

(** [Node]: the concrete types that implement the interface. *)
Inductive Node :=
  | BinaryOp (Op : gostring) (Left Right : Node)
  | UnaryOp (Op : gostring) (Operand : Node)
  | ColumnRef (Table Column : gostring)
  | NLiteral (l : Literal)
  | InList (Left : Node) (Values : list Literal)
  | FuncCall (Name : gostring) (Arg : Node).

Record MaskProject := mkMaskProject { mp_Column : gostring; mp_Expr : Node }.

Record Fragment := mkFragment {
  frag_Kind : FragmentKind;
  frag_Row : option Node;
  frag_Mask : list MaskProject
}.

(** [ErrParseFailed] with the offset that [errf] reports. *)
Inductive perr := ErrParseFailed (offset : nat) | OutOfFuel.

(** ** Character classes *)

Definition isIdentStart (b : ascii) : bool :=
  isLower b || isUpper b || bool_decide (b = "_"%char).

Definition isWordChar (b : ascii) : bool := isIdentStart b || isDigit b.

Definition isControl (b : ascii) : bool := ((ord b <? 32) || (ord b =? 127))%N.

(** ** Parser state *)

Record parser := mkParser { p_src : gostring; p_pos : nat }.

Definition newParser (src : gostring) : parser := mkParser src 0.

Definition rest (p : parser) : gostring := drop (p_pos p) (p_src p).

Definition adv (n : nat) (p : parser) : parser := mkParser (p_src p) (p_pos p + n).

Definition errf {A} (p : parser) : result perr A := Err (ErrParseFailed (p_pos p)).

Definition skipSpace (p : parser) : parser := adv (countWhile isSpaceByte (rest p)) p.

Definition atEnd (p : parser) : bool * parser :=
  let p := skipSpace p in
  (bool_decide (length (p_src p) <= p_pos p), p).

(** [peek]: [None] for the byte 0 that the code returns at the end. *)
Definition peek (p : parser) : option ascii * parser :=
  let p := skipSpace p in (head (rest p), p).

Definition starts_word (s : gostring) : bool :=
  match s with c :: _ => isWordChar c | [] => false end.

Definition consume (lit : gostring) (p : parser) : bool * parser :=
  let p := skipSpace p in
  if hasPrefix lit (rest p) then
    let fin := drop (length lit) (rest p) in
    if match last lit with Some c => isWordChar c | None => false end
       && starts_word fin
    then (false, p)
    else (true, adv (length lit) p)
  else (false, p).

Definition expectKeyword (kw : gostring) (p : parser) : bool * parser :=
  let p := skipSpace p in
  if bool_decide (length (p_src p) < p_pos p + length kw) then (false, p)
  else
    let got := take (length kw) (rest p) in
    if negb (equalFold got kw) then (false, p)
    else if starts_word (drop (length kw) (rest p)) then (false, p)
    else (true, adv (length kw) p).

Definition expectIdent (p : parser) : option gostring * parser :=
  let p := skipSpace p in
  match rest p with
  | [] => (None, p)
  | c :: s =>
      if negb (isIdentStart c) then (None, p)
      else
        let n := S (countWhile isWordChar s) in
        (Some (take n (rest p)), adv n p)
  end.

(** ** Literals *)

(** The loop over the body of a string literal: its value and the number of
    bytes up to and including the closing quote, or the offset of the failure
    relative to the start. *)
Fixpoint scanString (s : gostring) : result nat (gostring * nat) :=
  match s with
  | [] => Err 0
  | ch :: s' =>
      if bool_decide (ch = quote) then
        match s' with
        | c2 :: s'' =>
            if bool_decide (c2 = quote) then
              match scanString s'' with
              | Ok (v, n) => Ok (quote :: v, S (S n))
              | Err n => Err (S (S n))
              end
            else Ok ([], 1)
        | [] => Ok ([], 1)
        end
      else if isControl ch then Err 0
      else
        match scanString s' with
        | Ok (v, n) => Ok (ch :: v, S n)
        | Err n => Err (S n)
        end
  end.

(** The number lexeme at the head of [s]: its length and its digit count. *)
Definition scanNumber (s : gostring) : nat * nat :=
  let sign := match s with
              | c :: _ => if bool_decide (c = "+"%char) || bool_decide (c = "-"%char)
                          then 1 else 0
              | [] => 0
              end in
  let d1 := countWhile isDigit (drop sign s) in
  match drop (sign + d1) s with
  | c :: s' =>
      if bool_decide (c = "."%char) then
        let d2 := countWhile isDigit s' in
        (sign + d1 + 1 + d2, d1 + d2)
      else (sign + d1, d1)
  | [] => (sign + d1, d1)
  end.

Definition nullLiteral : Literal := mkLiteral "null" "NULL".

Definition parseLiteral (p : parser) : result perr (Literal * parser) :=
  let p := skipSpace p in
  match rest p with
  | [] => errf p
  | c :: s =>
      if bool_decide (c = quote) then
        match scanString s with
        | Ok (v, n) => Ok (mkLiteral "string" v, adv (S n) p)
        | Err n => errf (adv (S n) p)
        end
      else
        let '(n, digits) := scanNumber (rest p) in
        if bool_decide (digits = 0) then
          let '(b, p') := expectKeyword "NULL" p in
          if b then Ok (nullLiteral, p') else errf p'
        else Ok (mkLiteral "number" (take n (rest p)), adv n p)
  end.

Definition parseValue (p : parser) : result perr (Node * parser) :=
  '(l, p) ← parseLiteral p; Ok (NLiteral l, p).

Definition parseColumnRef (p : parser) : result perr (Node * parser) :=
  match expectIdent p with
  | (None, p) => errf p
  | (Some id1, p) =>
      let '(dot, p) := consume "." p in
      if dot then
        match expectIdent p with
        | (None, p) => errf p
        | (Some id2, p) => Ok (ColumnRef id1 id2, p)
        end
      else Ok (ColumnRef [] id1, p)
  end.

(** ** Comparisons *)

(** The symbol operators, in the order of the [switch]. *)
Definition symbolOps : list gostring := ["="; "!="; "<>"; "<="; ">="; "<"; ">"].

Definition parseBinary (op : gostring) (lhs : Node) (p : parser)
  : result perr (Node * parser) :=
  '(v, p) ← parseValue p; Ok (BinaryOp op lhs v, p).

(** The cases [p.consume(op)] in order: the operator taken, if any. *)
Fixpoint consumeAny (ops : list gostring) (p : parser) : option gostring * parser :=
  match ops with
  | [] => (None, p)
  | op :: ops =>
      let '(b, p) := consume op p in
      if b then (Some op, p) else consumeAny ops p
  end.

(** The loop of the [IN] list. *)
Fixpoint inValues (fuel : nat) (vals : list Literal) (p : parser)
  : result perr (list Literal * parser) :=
  match fuel with
  | 0 => Err OutOfFuel
  | S fuel =>
      '(lit, p) ← parseLiteral p;
      let vals := vals ++ [lit] in
      let '(close, p) := consume ")" p in
      if close then Ok (vals, p)
      else
        let '(comma, p) := consume "," p in
        if comma then inValues fuel vals p else errf p
  end.

Definition parseInList (lhs : Node) (p : parser) : result perr (Node * parser) :=
  let '(b, p) := consume "(" p in
  if b then
    '(vals, p) ← inValues (S (length (rest p))) [] p;
    Ok (InList lhs vals, p)
  else errf p.

Definition parseComparison (p : parser) : result perr (Node * parser) :=
  '(lhs, p) ← parseColumnRef p;
  match consumeAny symbolOps p with
  | (Some op, p) => parseBinary op lhs p
  | (None, p) =>
      let '(b, p) := expectKeyword "IN" p in
      if b then parseInList lhs p
      else
        let '(b, p) := expectKeyword "LIKE" p in
        if b then parseBinary "LIKE" lhs p else errf p
  end.

(** ** Predicates *)

Fixpoint parseOr (fuel : nat) (p : parser) : result perr (Node * parser) :=
  match fuel with
  | 0 => Err OutOfFuel
  | S fuel => '(lhs, p) ← parseAnd fuel p; orLoop fuel lhs p
  end
with orLoop (fuel : nat) (lhs : Node) (p : parser) : result perr (Node * parser) :=
  match fuel with
  | 0 => Err OutOfFuel
  | S fuel =>
      let '(b, p) := expectKeyword "OR" p in
      if b then
        '(rhs, p) ← parseAnd fuel p;
        orLoop fuel (BinaryOp "OR" lhs rhs) p
      else Ok (lhs, p)
  end
with parseAnd (fuel : nat) (p : parser) : result perr (Node * parser) :=
  match fuel with
  | 0 => Err OutOfFuel
  | S fuel => '(lhs, p) ← parseNot fuel p; andLoop fuel lhs p
  end
with andLoop (fuel : nat) (lhs : Node) (p : parser) : result perr (Node * parser) :=
  match fuel with
  | 0 => Err OutOfFuel
  | S fuel =>
      let '(b, p) := expectKeyword "AND" p in
      if b then
        '(rhs, p) ← parseNot fuel p;
        andLoop fuel (BinaryOp "AND" lhs rhs) p
      else Ok (lhs, p)
  end
with parseNot (fuel : nat) (p : parser) : result perr (Node * parser) :=
  match fuel with
  | 0 => Err OutOfFuel
  | S fuel =>
      let '(b, p) := expectKeyword "NOT" p in
      if b then
        '(operand, p) ← parseNot fuel p; Ok (UnaryOp "NOT" operand, p)
      else parsePrimary fuel p
  end
with parsePrimary (fuel : nat) (p : parser) : result perr (Node * parser) :=
  match fuel with
  | 0 => Err OutOfFuel
  | S fuel =>
      let '(b, p) := consume "(" p in
      if b then
        '(inner, p) ← parseOr fuel p;
        let '(b, p) := consume ")" p in
        if b then Ok (inner, p) else errf p
      else parseComparison p
  end.

Definition parse_fuel (src : gostring) : nat := 6 * length src + 6.

Definition parsePred (p : parser) : result perr (Node * parser) :=
  parseOr (parse_fuel (rest p)) p.

Definition ParseRowFilter (src : gostring) : result perr Fragment :=
  '(root, p) ← parsePred (newParser src);
  let '(fin, p) := atEnd p in
  if fin then Ok (mkFragment FragmentRowFilter (Some root) []) else errf p.

(** ** Column masks *)

Definition parseMaskExpr (p : parser) : result perr (Node * parser) :=
  let p := skipSpace p in
  let '(b, p) := expectKeyword "NULL" p in
  if b then Ok (NLiteral nullLiteral, p)
  else
    let '(c, p) := peek p in
    if bool_decide (c = Some quote) then parseValue p
    else
      match expectIdent p with
      | (None, p) => errf p
      | (Some id, p) =>
          let '(b, p) := consume "(" p in
          if b then
            '(argCol, p) ← parseColumnRef p;
            let '(b, p) := consume ")" p in
            if b then Ok (FuncCall id argCol, p) else errf p
          else
            let '(b, p) := consume "." p in
            if b then
              match expectIdent p with
              | (None, p) => errf p
              | (Some id2, p) => Ok (ColumnRef id id2, p)
              end
            else Ok (ColumnRef [] id, p)
      end.

(** The loop over [col AS expr] entries. *)
Fixpoint maskEntries (fuel : nat) (projects : list MaskProject) (p : parser)
  : result perr (list MaskProject * parser) :=
  match fuel with
  | 0 => Err OutOfFuel
  | S fuel =>
      let '(fin, p) := atEnd p in
      if fin then Ok (projects, p)
      else
        match expectIdent p with
        | (None, p) => errf p
        | (Some colTok, p) =>
            let '(b, p) := expectKeyword "AS" p in
            if negb b then errf p
            else
              '(expr, p) ← parseMaskExpr p;
              let projects := projects ++ [mkMaskProject colTok expr] in
              let '(fin, p) := atEnd p in
              if fin then Ok (projects, p)
              else
                let '(b, p) := consume "," p in
                if b then maskEntries fuel projects p else errf p
        end
  end.

Definition ParseColumnMask (src : gostring) : result perr Fragment :=
  let p := newParser src in
  '(projects, p) ← maskEntries (S (length src)) [] p;
  match projects with
  | [] => errf p
  | _ => Ok (mkFragment FragmentColumnMask None projects)
  end.

(** ** Position lemmas *)

Lemma rest_adv n p : rest (adv n p) = drop n (rest p).
Proof. unfold rest, adv; simpl. by rewrite drop_drop. Qed.

Lemma adv_adv m n p : adv n (adv m p) = adv (m + n) p.
Proof. unfold adv; simpl. f_equal. lia. Qed.

Lemma adv_0 p : adv 0 p = p.
Proof. destruct p. unfold adv; simpl. f_equal. lia. Qed.

Lemma rest_adv_app p u t : rest p = u ++ t -> rest (adv (length u) p) = t.
Proof. intros E. by rewrite rest_adv, E, drop_app_length. Qed.

Lemma rest_newParser src : rest (newParser src) = src.
Proof. reflexivity. Qed.

(** [fwd k p p']: [p'] is [p] moved forward by at least [k] bytes, inside the
    source. *)
Definition fwd (k : nat) (p p' : parser) : Prop :=
  exists n, p' = adv n p /\ k <= n /\ n <= length (rest p).

Lemma fwd_refl p : fwd 0 p p.
Proof. exists 0. rewrite adv_0. split; [done|lia]. Qed.

Lemma fwd_trans j k p p' p'' : fwd j p p' -> fwd k p' p'' -> fwd (j + k) p p''.
Proof.
  intros (n & -> & ? & ?) (m & -> & ? & Hm). exists (n + m).
  rewrite adv_adv. rewrite rest_adv, length_drop in Hm. split; [done|lia].
Qed.

Lemma fwd_weaken j k p p' : fwd j p p' -> k <= j -> fwd k p p'.
Proof. intros (n & -> & ? & ?) ?. exists n. split; [done|lia]. Qed.

Lemma fwd_adv n p : n <= length (rest p) -> fwd n p (adv n p).
Proof. intros ?. exists n. split; [done|lia]. Qed.

Lemma fwd_length k p p' : fwd k p p' -> length (rest p') + k <= length (rest p).
Proof.
  intros (n & -> & ? & ?). rewrite rest_adv, length_drop. lia.
Qed.

(** The measure step the recursive functions share. *)
Ltac fwd_chain :=
  repeat match goal with
  | H : fwd ?j ?p ?q |- fwd _ ?p ?q =>
      apply (fwd_weaken j); [exact H | lia]
  | H1 : fwd ?j ?p ?q, H2 : fwd ?k ?q ?r |- fwd _ ?p ?r =>
      apply (fwd_weaken (j + k)); [exact (fwd_trans j k p q r H1 H2) | lia]
  | H1 : fwd ?j ?p ?q, H2 : fwd ?k ?q ?r |- fwd _ ?p _ =>
      assert (fwd (j + k) p r) by (exact (fwd_trans j k p q r H1 H2));
      clear H1
  end.

Lemma skipSpace_fwd p : fwd 0 p (skipSpace p).
Proof.
  unfold skipSpace.
  apply (fwd_weaken (countWhile isSpaceByte (rest p))); [|lia].
  apply fwd_adv, countWhile_le.
Qed.

Lemma skipSpace_head p :
  match rest (skipSpace p) with [] => True | c :: _ => isSpaceByte c = false end.
Proof. unfold skipSpace. rewrite rest_adv. apply countWhile_head. Qed.

Lemma skipSpace_id p :
  match rest p with [] => True | c :: _ => isSpaceByte c = false end ->
  skipSpace p = p.
Proof.
  unfold skipSpace. destruct (rest p) as [|c s]; intros H.
  - apply adv_0.
  - rewrite countWhile_stop by done. apply adv_0.
Qed.

Lemma skipSpace_idemp p : skipSpace (skipSpace p) = skipSpace p.
Proof. apply skipSpace_id, skipSpace_head. Qed.

Lemma hasPrefix_length lit s : hasPrefix lit s = true -> length lit <= length s.
Proof. intros [t ->]%hasPrefix_spec. rewrite length_app. lia. Qed.

Lemma consume_fwd lit p b p' :
  consume lit p = (b, p') -> fwd (if b then length lit else 0) p p'.
Proof.
  unfold consume. pose proof (skipSpace_fwd p) as Hs. set (q := skipSpace p) in *.
  destruct (hasPrefix lit (rest q)) eqn:E; [|by intros [= <- <-]].
  destruct (_ && _); intros [= <- <-]; [done|].
  pose proof (fwd_adv _ _ (hasPrefix_length _ _ E)). fwd_chain.
Qed.

Lemma expectKeyword_fwd kw p b p' :
  expectKeyword kw p = (b, p') -> fwd (if b then length kw else 0) p p'.
Proof.
  unfold expectKeyword. pose proof (skipSpace_fwd p) as Hs.
  set (q := skipSpace p) in *.
  destruct (bool_decide _); [by intros [= <- <-]|].
  destruct (equalFold _ _) eqn:E; simpl; [|by intros [= <- <-]].
  destruct (starts_word _); intros [= <- <-]; [done|].
  apply equalFold_length in E. rewrite length_take in E.
  assert (length kw <= length (rest q)) as L by lia.
  pose proof (fwd_adv _ _ L). fwd_chain.
Qed.

(** What [expectIdent] accepts: a letter or [_] and then word bytes, as many
    as there are. *)
Definition validIdent (s : gostring) : bool :=
  match s with
  | c :: s => isIdentStart c && forallb isWordChar s
  | [] => false
  end.

Lemma forallb_Forall_true {A} (f : A -> bool) l :
  forallb f l = true <-> Forall (fun x => f x = true) l.
Proof.
  rewrite forallb_forall, Forall_forall. by setoid_rewrite list_elem_of_In.
Qed.

Lemma expectIdent_fwd p r p' :
  expectIdent p = (r, p') ->
  fwd (match r with Some _ => 1 | None => 0 end) p p'.
Proof.
  unfold expectIdent. pose proof (skipSpace_fwd p) as Hs.
  set (q := skipSpace p) in *.
  destruct (rest q) as [|c s] eqn:Eq; [by intros [= <- <-]|].
  destruct (isIdentStart c); cbn [negb]; intros [= <- <-]; [|done].
  assert (S (countWhile isWordChar s) <= length (rest q)) as L.
  { rewrite Eq. simpl. pose proof (countWhile_le isWordChar s). lia. }
  pose proof (fwd_adv _ _ L). fwd_chain.
Qed.

Lemma expectIdent_some p id p' :
  expectIdent p = (Some id, p') ->
  validIdent id = true /\ rest (skipSpace p) = id ++ rest p' /\
  starts_word (rest p') = false.
Proof.
  unfold expectIdent. set (q := skipSpace p).
  destruct (rest q) as [|c s] eqn:Eq; [done|].
  destruct (isIdentStart c) eqn:Ec; cbn [negb]; [|done].
  intros [= <- <-]. rewrite rest_adv, Eq. cbn [take drop].
  split; [|split].
  - simpl. rewrite Ec. apply forallb_Forall_true, countWhile_all.
  - simpl. by rewrite take_drop.
  - pose proof (countWhile_head isWordChar s) as H.
    unfold starts_word. by destruct (drop _ s).
Qed.
(** ** Literal lemmas *)

Definition noControl (v : gostring) : bool := forallb (fun c => negb (isControl c)) v.

Definition allDigits (v : gostring) : bool := forallb isDigit v.

(** The number lexemes of the lexer:
    an optional sign, digits, an optional point and digits, at least one digit
    in all. *)
Definition numberLexeme (v : gostring) : Prop :=
  exists sg d1 fr d2,
    v = sg ++ d1 ++ fr ++ d2 /\
    (sg = [] \/ sg = "+" \/ sg = "-") /\
    allDigits d1 = true /\ allDigits d2 = true /\
    (fr = "." \/ (fr = [] /\ d2 = [])) /\
    0 < length d1 + length d2.

(** A literal as the lexer builds it. *)
Definition wfLiteral (l : Literal) : Prop :=
  (lit_Kind l = "string" /\ noControl (lit_Value l) = true) \/
  (lit_Kind l = "number" /\ numberLexeme (lit_Value l)) \/
  l = nullLiteral.

(** What may follow a literal without becoming part of it. *)
Definition literalEnd (t : gostring) : Prop :=
  match t with
  | [] => True
  | c :: _ => isWordChar c = false /\ c <> quote /\ c <> "."%char
  end.

Lemma scanString_fwd s : match scanString s with
  | Ok (v, n) =>
      s = doubleQuotes v ++ quote :: drop n s /\ n = S (length (doubleQuotes v)) /\
      noControl v = true
  | Err n => n <= length s
  end.
Proof.
  induction s as [s IH] using (induction_ltof1 _ (@length ascii)).
  unfold ltof in IH. destruct s as [|ch s]; simpl; [done|].
  destruct (bool_decide_reflect (ch = quote)) as [->|Hq].
  - destruct s as [|c2 s]; [done|].
    destruct (bool_decide_reflect (c2 = quote)) as [->|]; [|done].
    specialize (IH s ltac:(simpl; lia)).
    destruct (scanString s) as [[v n]|n]; [|simpl; lia].
    destruct IH as (E & -> & Hc). cbn [doubleQuotes].
    rewrite bool_decide_eq_true_2 by done. cbn [app length drop noControl forallb].
    rewrite <- E. auto.
  - destruct (isControl ch) eqn:Ec; [simpl; lia|].
    specialize (IH s ltac:(simpl; lia)).
    destruct (scanString s) as [[v n]|n]; [|simpl; lia].
    destruct IH as (E & -> & Hc). cbn [doubleQuotes noControl forallb].
    rewrite bool_decide_eq_false_2 by done. cbn [app length drop].
    rewrite <- E, Ec. auto.
Qed.

Lemma scanString_print v t :
  noControl v = true -> match t with [] => True | c :: _ => c <> quote end ->
  scanString (doubleQuotes v ++ quote :: t) = Ok (v, S (length (doubleQuotes v))).
Proof.
  intros Hv Ht. induction v as [|c v IH].
  - simpl. destruct t as [|c t]; [done|].
    by rewrite bool_decide_eq_false_2.
  - cbn [noControl forallb] in Hv. apply andb_true_iff in Hv as [Hc Hv].
    apply negb_true_iff in Hc. specialize (IH Hv). cbn [doubleQuotes].
    destruct (bool_decide_reflect (c = quote)) as [->|Hq]; simpl.
    + by rewrite IH.
    + by rewrite bool_decide_eq_false_2, Hc, IH by done.
Qed.

Lemma countWhile_exact f s t :
  forallb f s = true ->
  match t with [] => True | c :: _ => f c = false end ->
  countWhile f (s ++ t) = length s.
Proof.
  intros Hs%forallb_Forall_true Ht. rewrite countWhile_app by done.
  destruct t; simpl; [lia|]. rewrite Ht. lia.
Qed.

Lemma isDigit_word c : isDigit c = true -> isWordChar c = true.
Proof. unfold isWordChar. intros ->. apply orb_true_r. Qed.

Lemma literalEnd_digit t : literalEnd t ->
  match t with [] => True | c :: _ => isDigit c = false end.
Proof.
  destruct t as [|c t]; [done|]. intros (Hw & _ & _).
  unfold isWordChar in Hw. by apply orb_false_iff in Hw as [_ ->].
Qed.

Lemma digit_head_not c s :
  allDigits s = true -> isDigit c = false -> head s <> Some c.
Proof.
  destruct s as [|d s]; [done|]. simpl. intros [Hd _]%andb_true_iff Hc [= ->].
  congruence.
Qed.

Lemma drop_head_app {A} (s t : list A) : drop (length s) (s ++ t) = t.
Proof. apply drop_app_length. Qed.

(** The digits after the sign. *)
Definition scanDigits (s : gostring) : nat * nat :=
  let d1 := countWhile isDigit s in
  match drop d1 s with
  | c :: s' =>
      if bool_decide (c = "."%char) then
        let d2 := countWhile isDigit s' in (d1 + 1 + d2, d1 + d2)
      else (d1, d1)
  | [] => (d1, d1)
  end.

Definition isSign (c : ascii) : bool :=
  bool_decide (c = "+"%char) || bool_decide (c = "-"%char).

Lemma scanNumber_sign c s :
  isSign c = true ->
  scanNumber (c :: s) = (S (scanDigits s).1, (scanDigits s).2).
Proof.
  unfold isSign, scanNumber, scanDigits. intros ->. simpl. rewrite drop_0.
  destruct (drop _ s) as [|d s']; [done|]. by destruct (bool_decide _).
Qed.

Lemma scanNumber_nosign s :
  match s with [] => True | c :: _ => isSign c = false end ->
  scanNumber s = scanDigits s.
Proof.
  unfold scanNumber, scanDigits. destruct s as [|c s]; [done|].
  unfold isSign. intros ->. by rewrite drop_0.
Qed.

Lemma scanDigits_print d1 fr d2 t :
  allDigits d1 = true -> allDigits d2 = true ->
  fr = "." \/ (fr = [] /\ d2 = []) -> literalEnd t ->
  scanDigits (d1 ++ fr ++ d2 ++ t) =
    (length (d1 ++ fr ++ d2), length d1 + length d2).
Proof.
  intros H1 H2 Hf Ht. pose proof (literalEnd_digit t Ht) as Htd.
  unfold scanDigits. destruct Hf as [-> | [-> ->]]; simpl.
  - rewrite countWhile_exact, drop_head_app by done. simpl.
    rewrite countWhile_exact by done. rewrite length_app. simpl. f_equal; lia.
  - rewrite countWhile_exact, drop_head_app by done.
    rewrite app_nil_r, Nat.add_0_r. destruct t as [|c t]; [done|].
    by rewrite bool_decide_eq_false_2 by apply Ht.
Qed.

Lemma scanNumber_print v t :
  numberLexeme v -> literalEnd t ->
  exists d, scanNumber (v ++ t) = (length v, S d).
Proof.
  intros (sg & d1 & fr & d2 & -> & Hsg & H1 & H2 & Hf & Hpos) Ht.
  exists (pred (length d1 + length d2)).
  pose proof (scanDigits_print d1 fr d2 t H1 H2 Hf Ht) as E.
  rewrite <- !app_assoc.
  assert (S (pred (length d1 + length d2)) = length d1 + length d2) as -> by lia.
  destruct Hsg as [-> | [-> | ->]]; cbn [app].
  - rewrite scanNumber_nosign; [exact E|].
    destruct d1 as [|c d1]; simpl in *.
    + destruct Hf as [-> | [-> ->]]; [done|]. simpl in Hpos. lia.
    + apply andb_true_iff in H1 as [H1 _]. revert H1. by_byte c; done.
  - by rewrite scanNumber_sign, E.
  - by rewrite scanNumber_sign, E.
Qed.

Lemma scanDigits_lexeme s n d :
  scanDigits s = (n, d) ->
  exists d1 fr d2, take n s = d1 ++ fr ++ d2 /\
    allDigits d1 = true /\ allDigits d2 = true /\
    (fr = "." \/ (fr = [] /\ d2 = [])) /\ d = length d1 + length d2 /\
    n <= length s.
Proof.
  unfold scanDigits. set (k := countWhile isDigit s).
  assert (k <= length s) as Hk by apply countWhile_le.
  assert (allDigits (take k s) = true) as Hd
    by (apply forallb_Forall_true, countWhile_all).
  assert (length (take k s) = k) as Hlen by (rewrite length_take; lia).
  assert (forall s', drop k s = s' -> s = take k s ++ s') as Hs
    by (intros s' <-; by rewrite take_drop).
  destruct (drop k s) as [|c s'] eqn:E.
  { intros [= <- <-]. exists (take k s), [], [].
    rewrite !app_nil_r. rewrite Hlen. auto 10 with lia. }
  destruct (bool_decide_reflect (c = "."%char)) as [->|]; intros [= <- <-].
  - exists (take k s), ".", (take (countWhile isDigit s') s').
    split_and!; try done.
    + rewrite (Hs _ eq_refl) at 1. rewrite <- Hlen at 1.
      rewrite <- Nat.add_assoc. rewrite take_app_add. done.
    + apply forallb_Forall_true, countWhile_all.
    + auto.
    + rewrite Hlen, length_take. pose proof (countWhile_le isDigit s'). lia.
    + rewrite (Hs _ eq_refl), length_app, Hlen. simpl.
      pose proof (countWhile_le isDigit s'). lia.
  - exists (take k s), [], []. rewrite !app_nil_r. rewrite Hlen. auto 10 with lia.
Qed.

Lemma scanNumber_lexeme s n d :
  scanNumber s = (n, S d) -> numberLexeme (take n s) /\ n <= length s /\ 1 <= n.
Proof.
  intros H. unfold numberLexeme.
  assert (exists sg s' n', s = sg ++ s' /\ n = length sg + n' /\
    (sg = [] \/ sg = "+" \/ sg = "-") /\ scanDigits s' = (n', S d))
    as (sg & s' & n' & -> & -> & Hsg & E).
  { destruct s as [|c s].
    { exists [], [], n. rewrite scanNumber_nosign in H by done. auto. }
    destruct (isSign c) eqn:Ec.
    - rewrite scanNumber_sign in H by done. injection H as <- Hd.
      exists [c], s, (scanDigits s).1. rewrite <- Hd.
      split_and!; [done|done| |by destruct (scanDigits s)].
      unfold isSign in Ec. apply orb_true_iff in Ec.
      rewrite !bool_decide_eq_true in Ec. destruct Ec as [->| ->]; auto.
    - rewrite scanNumber_nosign in H by done. exists [], (c :: s), n. auto. }
  apply scanDigits_lexeme in E as (d1 & fr & d2 & E & ? & ? & ? & ? & ?).
  split_and!.
  - exists sg, d1, fr, d2. rewrite take_app_add, E. auto 10 with lia.
  - rewrite length_app. lia.
  - destruct n'; [|lia]. simpl in E. symmetry in E.
    apply app_eq_nil in E as [-> E]. apply app_eq_nil in E as [_ ->].
    simpl in *. lia.
Qed.

(** ** [parseLiteral] *)

Lemma parseLiteral_ok p l p' :
  parseLiteral p = Ok (l, p') -> wfLiteral l /\ fwd 1 p p'.
Proof.
  unfold parseLiteral. pose proof (skipSpace_fwd p) as Hs.
  set (q := skipSpace p) in *. destruct (rest q) as [|c s] eqn:Eq; [done|].
  destruct (bool_decide_reflect (c = quote)) as [->|Hc].
  - pose proof (scanString_fwd s) as Hss.
    destruct (scanString s) as [[v n]|n]; [|done]. intros [= <- <-].
    destruct Hss as (E & En & Hv). split; [left; split; [done|exact Hv]|].
    assert (S n <= length (rest q)) as L.
    { rewrite Eq, E. simpl. rewrite length_app. simpl. lia. }
    pose proof (fwd_adv _ _ L). fwd_chain.
  - rewrite <- Eq. destruct (scanNumber (rest q)) as [n d] eqn:En.
    destruct (bool_decide_reflect (d = 0)) as [->|Hd].
    + destruct (expectKeyword "NULL" q) as [[] p1] eqn:E; [|done].
      intros [= <- <-]. split; [by right; right|].
      apply expectKeyword_fwd in E. simpl in E. fwd_chain.
    + intros [= <- <-]. destruct d as [|d]; [done|].
      apply scanNumber_lexeme in En as (? & L & ?).
      split; [right; left; auto|].
      pose proof (fwd_adv _ _ L). fwd_chain.
Qed.

(** ** What every parsing function returns

    [good k p P r]: run at [p], the function either returns a value that
    satisfies [P], at least [k] bytes further, or fails at an offset of the
    source that it has reached; it never runs out of fuel. *)

Definition inRange (p : parser) : Prop := p_pos p <= length (p_src p).

Definition good {A} (k : nat) (p : parser) (P : A -> Prop)
    (r : result perr (A * parser)) : Prop :=
  match r with
  | Ok (a, p') => P a /\ fwd k p p'
  | Err (ErrParseFailed off) => p_pos p <= off <= length (p_src p)
  | Err OutOfFuel => False
  end.

Lemma length_rest p : length (rest p) = length (p_src p) - p_pos p.
Proof. apply length_drop. Qed.

Lemma fwd_range k p p' :
  fwd k p p' -> inRange p ->
  inRange p' /\ p_pos p + k <= p_pos p' /\ p_src p' = p_src p.
Proof.
  unfold inRange. intros (n & -> & ? & Hn) Hr. rewrite length_rest in Hn.
  simpl. split_and!; [lia|lia|done].
Qed.

Lemma good_errf {A} k p p' (P : A -> Prop) :
  inRange p -> fwd 0 p p' -> good k p P (errf p').
Proof.
  intros Hr Hf. destruct (fwd_range _ _ _ Hf Hr) as (Hr' & ? & E).
  unfold good, errf. unfold inRange in Hr'. rewrite E in Hr'. lia.
Qed.

Lemma good_ok {A} k p p' (P : A -> Prop) a :
  P a -> fwd k p p' -> good k p P (Ok (a, p')).
Proof. done. Qed.

Lemma good_shift {A} j k p p' (P : A -> Prop) r :
  inRange p -> fwd j p p' -> good k p' P r -> good (j + k) p P r.
Proof.
  intros Hr Hf. destruct (fwd_range _ _ _ Hf Hr) as (_ & ? & E).
  destruct r as [[a q]|[off|]]; simpl; [|rewrite E; lia|done].
  intros [? ?]. split; [done|]. by eapply fwd_trans.
Qed.

Lemma good_weaken {A} j k p (P : A -> Prop) r :
  good j p P r -> k <= j -> good k p P r.
Proof.
  destruct r as [[a q]|[off|]]; simpl; [|done|done].
  intros [? ?] ?. split; [done|]. by eapply fwd_weaken.
Qed.

Lemma good_bind {A B} j k p (P : A -> Prop) (Q : B -> Prop) r
    (f : A * parser -> result perr (B * parser)) :
  inRange p -> good j p P r ->
  (forall a p', P a -> fwd j p p' -> inRange p' -> good k p' Q (f (a, p'))) ->
  good (j + k) p Q (r ≫= f).
Proof.
  intros Hr Hg Hf. destruct r as [[a q]|[off|]]; simpl in *; [|done|done].
  destruct Hg as [Ha Hfw]. destruct (fwd_range _ _ _ Hfw Hr) as (Hr' & _ & _).
  eapply good_shift; [done|done|]. by apply Hf.
Qed.

Lemma consume_false lit p p' : consume lit p = (false, p') -> p' = skipSpace p.
Proof.
  unfold consume. destruct (hasPrefix _ _); [|by intros [=]].
  destruct (_ && _); by intros [=].
Qed.

Lemma expectKeyword_false kw p p' :
  expectKeyword kw p = (false, p') -> p' = skipSpace p.
Proof.
  unfold expectKeyword. destruct (bool_decide _); [by intros [=]|].
  destruct (negb _); [by intros [=]|]. destruct (starts_word _); by intros [=].
Qed.

Lemma expectKeyword_hit kw p u t :
  kw <> [] -> rest (skipSpace p) = u ++ t -> equalFold u kw = true -> starts_word t = false ->
  expectKeyword kw p = (true, adv (length kw) (skipSpace p)).
Proof.
  intros Hkw E Hu Ht.
  assert (1 <= length kw) by (destruct kw; simpl; [done|lia]). pose proof (equalFold_length _ _ Hu) as L.
  unfold expectKeyword.
  rewrite bool_decide_eq_false_2.
  2: { apply (f_equal (@length ascii)) in E.
       rewrite length_rest, length_app in E. lia. }
  rewrite E, <- L, take_app_length, Hu, drop_app_length, Ht. done.
Qed.

(** ** Well-formed fragments *)

Definition cmpOps : list gostring := symbolOps ++ ["LIKE"].

(** A column reference of a comparison.  The identifier that starts it is not
    a spelling of [NOT], which [parseNot] would have taken as the operator. *)
Definition wfColumn (n : Node) : Prop :=
  match n with
  | ColumnRef [] c => validIdent c = true /\ equalFold c "NOT" = false
  | ColumnRef t c =>
      validIdent t = true /\ equalFold t "NOT" = false /\ validIdent c = true
  | _ => False
  end.

Fixpoint wfNode (n : Node) : Prop :=
  match n with
  | BinaryOp op l r =>
      ((op = "AND" \/ op = "OR") /\ wfNode l /\ wfNode r) \/
      (op ∈ cmpOps /\ wfColumn l /\
       match r with NLiteral lit => wfLiteral lit | _ => False end)
  | UnaryOp op x => op = "NOT" /\ wfNode x
  | InList l vs => wfColumn l /\ vs <> [] /\ Forall wfLiteral vs
  | _ => False
  end.

(** A column reference before the [NOT] side condition. *)
Definition isColumn (n : Node) : Prop :=
  exists t c, n = ColumnRef t c /\ (t = [] \/ validIdent t = true) /\
    validIdent c = true.

Definition firstIdent (n : Node) : gostring :=
  match n with
  | ColumnRef [] c => c
  | ColumnRef t _ => t
  | _ => []
  end.

Lemma parseLiteral_good p : inRange p -> good 1 p wfLiteral (parseLiteral p).
Proof.
  intros Hr. destruct (parseLiteral p) as [[l p']|e] eqn:E.
  { by apply parseLiteral_ok in E. }
  revert E. unfold parseLiteral. pose proof (skipSpace_fwd p) as Hs.
  set (q := skipSpace p) in *. destruct (rest q) as [|c s] eqn:Eq.
  { intros [= <-]. by apply (good_errf 1 p q wfLiteral). }
  destruct (bool_decide (c = quote)).
  - pose proof (scanString_fwd s) as Hss. destruct (scanString s) as [[v n]|n]; [done|].
    intros [= <-]. apply (good_errf 1 p (adv (S n) q) wfLiteral); [done|].
    assert (S n <= length (rest q)) as L by (rewrite Eq; simpl; lia).
    pose proof (fwd_adv _ _ L). fwd_chain.
  - rewrite <- Eq. destruct (scanNumber (rest q)) as [n d] eqn:En.
    destruct (bool_decide (d = 0)); [|done].
    destruct (expectKeyword "NULL" q) as [[] p1] eqn:E; [done|].
    intros [= <-]. apply expectKeyword_fwd in E. simpl in E.
    apply (good_errf 1 p p1 wfLiteral); [done|]. fwd_chain.
Qed.

Lemma parseColumnRef_good p :
  inRange p -> good 1 p isColumn (parseColumnRef p).
Proof.
  intros Hr. unfold parseColumnRef.
  destruct (expectIdent p) as [[id1|] p1] eqn:E1.
  2: { apply good_errf; [done|]. by apply expectIdent_fwd in E1. }
  pose proof (expectIdent_fwd _ _ _ E1) as F1. simpl in F1.
  apply expectIdent_some in E1 as (V1 & _ & _).
  destruct (consume "." p1) as [[] p2] eqn:E2; apply consume_fwd in E2; simpl in E2.
  - destruct (expectIdent p2) as [[id2|] p3] eqn:E3.
    + pose proof (expectIdent_fwd _ _ _ E3) as F3. simpl in F3.
      apply expectIdent_some in E3 as (V3 & _ & _).
      apply good_ok; [|fwd_chain]. exists id1, id2. auto.
    + apply expectIdent_fwd in E3. simpl in E3. apply good_errf; [done|].
      fwd_chain.
  - apply good_ok; [|fwd_chain]. exists [], id1. auto.
Qed.

(** The column's first identifier is the word at the position. *)
Lemma parseColumnRef_first p n p' :
  parseColumnRef p = Ok (n, p') ->
  exists t, rest (skipSpace p) = firstIdent n ++ t /\ starts_word t = false.
Proof.
  unfold parseColumnRef. destruct (expectIdent p) as [[id1|] p1] eqn:E1; [|done].
  apply expectIdent_some in E1 as (V1 & Er & Hw).
  assert (id1 <> []) as Hne by (by intros ->).
  destruct (consume "." p1) as [[] p2].
  - destruct (expectIdent p2) as [[id2|] p3]; [|done]. intros [= <- <-].
    exists (rest p1). destruct id1; [done|]. auto.
  - intros [= <- <-]. exists (rest p1). auto.
Qed.

(** After [NOT] was not recognised, a column reference is well formed. *)
Lemma parseColumnRef_wf p0 p n p' :
  expectKeyword "NOT" p0 = (false, p) -> parseColumnRef p = Ok (n, p') ->
  isColumn n -> wfColumn n.
Proof.
  intros Hn Hc (t & c & -> & Ht & Vc).
  apply parseColumnRef_first in Hc as (u & Er & Hw).
  assert (equalFold (firstIdent (ColumnRef t c)) "NOT" = false) as Hf.
  { destruct (equalFold _ _) eqn:E; [|done].
    pose proof (expectKeyword_false _ _ _ Hn) as ->.
    rewrite skipSpace_idemp in Er.
    rewrite (expectKeyword_hit "NOT" _ _ _ ltac:(done) Er E Hw) in Hn. done. }
  destruct t as [|a t]; simpl in *; [done|].
  destruct Ht as [|Ht]; [done|]. auto.
Qed.

Lemma consumeAny_fwd ops p r p' :
  Forall (fun op => 1 <= length op) ops -> consumeAny ops p = (r, p') ->
  fwd (match r with Some _ => 1 | None => 0 end) p p' /\
  match r with Some op => op ∈ ops | None => True end.
Proof.
  revert p; induction ops as [|op ops IH]; intros p Hl; simpl.
  { intros [= <- <-]. split; [apply fwd_refl|done]. }
  apply Forall_cons in Hl as [Hop Hl].
  destruct (consume op p) as [[] p1] eqn:E; apply consume_fwd in E.
  - intros [= <- <-]. split; [fwd_chain|left].
  - intros Hr. apply IH in Hr as [? Hin]; [|done]. split; [fwd_chain|].
    destruct r; [by right|done].
Qed.

Lemma parseValue_good p :
  inRange p ->
  good 1 p (fun n => match n with NLiteral l => wfLiteral l | _ => False end)
    (parseValue p).
Proof.
  intros Hr. apply (good_bind 1 0 p _ _ _ _ Hr (parseLiteral_good p Hr)).
  intros l p' Hl _ _. apply good_ok; [done|apply fwd_refl].
Qed.

Lemma inValues_good fuel vals p :
  inRange p -> length (rest p) < fuel -> Forall wfLiteral vals ->
  good 1 p (fun vs => vs <> [] /\ Forall wfLiteral vs) (inValues fuel vals p).
Proof.
  revert vals p; induction fuel as [|fuel IH]; intros vals p Hr Hf Hv; [lia|].
  cbn [inValues].
  apply (good_bind 1 0 p _ _ _ _ Hr (parseLiteral_good p Hr)).
  intros l p1 Hl F1 R1.
  assert (Forall wfLiteral (vals ++ [l])) as Hv' by (apply Forall_app; auto).
  assert (vals ++ [l] <> []) as Hne by (by destruct vals).
  destruct (consume ")" p1) as [[] p2] eqn:E2; apply consume_fwd in E2; simpl in E2.
  { apply good_ok; [done|]. fwd_chain. }
  destruct (consume "," p2) as [[] p3] eqn:E3; apply consume_fwd in E3; simpl in E3.
  - assert (fwd 1 p1 p3) as F3 by fwd_chain.
    apply (good_weaken (1 + 1)); [|lia].
    apply (good_shift 1 1 p1 p3); [done|done|].
    apply IH; [by eapply fwd_range| |done].
    apply fwd_length in F1, F3. lia.
  - apply good_errf; [done|]. fwd_chain.
Qed.

Lemma parseColumnRef_good_wf p0 p :
  expectKeyword "NOT" p0 = (false, p) -> inRange p ->
  good 1 p wfColumn (parseColumnRef p).
Proof.
  intros HN Hr. pose proof (parseColumnRef_good p Hr) as G.
  destruct (parseColumnRef p) as [[n p']|e] eqn:E; [|exact G].
  destruct G as [Hc F]. split; [|done]. by eapply parseColumnRef_wf.
Qed.

Lemma parseBinary_good op lhs p :
  inRange p -> op ∈ cmpOps -> wfColumn lhs -> good 1 p wfNode (parseBinary op lhs p).
Proof.
  intros Hr Hop Hl. apply (good_bind 1 0 p _ _ _ _ Hr (parseValue_good p Hr)).
  intros v p' Hv _ _. apply good_ok; [|apply fwd_refl]. right. auto.
Qed.

Lemma parseInList_good lhs p :
  inRange p -> wfColumn lhs -> good 0 p wfNode (parseInList lhs p).
Proof.
  intros Hr Hl. unfold parseInList.
  destruct (consume "(" p) as [[] p1] eqn:E; apply consume_fwd in E; simpl in E.
  2: by apply good_errf.
  apply (good_weaken (1 + (1 + 0))); [|lia].
  destruct (fwd_range _ _ _ E Hr) as (Hr1 & _ & _).
  apply (good_shift 1 _ p p1); [done|done|].
  eapply good_bind; [done|apply inValues_good; [done|lia|by constructor]|].
  intros vs p2 [Hne Hvs] _ _. apply good_ok; [done|apply fwd_refl].
Qed.

Lemma symbolOps_length : Forall (fun op => 1 <= length op) symbolOps.
Proof. repeat constructor. Qed.

Lemma parseComparison_good p0 p :
  expectKeyword "NOT" p0 = (false, p) -> inRange p ->
  good 1 p wfNode (parseComparison p).
Proof.
  intros HN Hr.
  apply (good_bind 1 0 p _ _ _ _ Hr (parseColumnRef_good_wf p0 p HN Hr)).
  intros lhs p1 Hl _ Hr1.
  destruct (consumeAny symbolOps p1) as [[op|] p2] eqn:E2;
    apply consumeAny_fwd in E2 as [F2 Hop]; try apply symbolOps_length;
    destruct (fwd_range _ _ _ F2 Hr1) as (Hr2 & _ & _).
  - apply (good_weaken (1 + 1)); [|lia].
    eapply good_shift; [done|done|]. apply parseBinary_good; [done| |done].
    apply elem_of_app. by left.
  - destruct (expectKeyword "IN" p2) as [[] p3] eqn:E3;
      apply expectKeyword_fwd in E3; simpl in E3;
      assert (fwd 0 p1 p3) as F3 by fwd_chain;
      destruct (fwd_range _ _ _ F3 Hr1) as (Hr3 & _ & _).
    + apply (good_shift 0 0 p1 p3); [done|done|]. by apply parseInList_good.
    + destruct (expectKeyword "LIKE" p3) as [[] p4] eqn:E4;
        apply expectKeyword_fwd in E4; simpl in E4;
        assert (fwd 0 p1 p4) as F4 by fwd_chain;
        destruct (fwd_range _ _ _ F4 Hr1) as (Hr4 & _ & _).
      * apply (good_weaken (0 + 1)); [|lia].
        apply (good_shift 0 1 p1 p4); [done|done|].
        apply parseBinary_good; [done| |done]. apply elem_of_app. right. by left.
      * by apply good_errf.
Qed.

(** The fuel each function needs, by the number of bytes left. *)
Definition parsers_good (fuel : nat) : Prop :=
  (forall p, inRange p -> 6 * length (rest p) + 5 <= fuel ->
     good 1 p wfNode (parseOr fuel p)) /\
  (forall p lhs, inRange p -> 6 * length (rest p) + 2 <= fuel -> wfNode lhs ->
     good 0 p wfNode (orLoop fuel lhs p)) /\
  (forall p, inRange p -> 6 * length (rest p) + 4 <= fuel ->
     good 1 p wfNode (parseAnd fuel p)) /\
  (forall p lhs, inRange p -> 6 * length (rest p) + 2 <= fuel -> wfNode lhs ->
     good 0 p wfNode (andLoop fuel lhs p)) /\
  (forall p, inRange p -> 6 * length (rest p) + 3 <= fuel ->
     good 1 p wfNode (parseNot fuel p)) /\
  (forall p0 p, expectKeyword "NOT" p0 = (false, p) -> inRange p ->
     6 * length (rest p) + 2 <= fuel -> good 1 p wfNode (parsePrimary fuel p)).

(** A loop over a binary connective is good when its operand parser is. *)
Lemma loop_good kw op (sub : parser -> result perr (Node * parser))
    (loop' : Node -> parser -> result perr (Node * parser)) lhs p :
  inRange p -> wfNode lhs -> 1 <= length kw ->
  (op = "AND" \/ op = "OR") ->
  (forall p', fwd 1 p p' -> inRange p' -> good 1 p' wfNode (sub p')) ->
  (forall p' lhs, fwd 1 p p' -> inRange p' -> wfNode lhs ->
     good 0 p' wfNode (loop' lhs p')) ->
  good 0 p wfNode
    (let '(b, p) := expectKeyword kw p in
     if b then '(rhs, p) ← sub p; loop' (BinaryOp op lhs rhs) p
     else Ok (lhs, p)).
Proof.
  intros Hr Hl Hkw Hop Hs Hloop.
  destruct (expectKeyword kw p) as [[] p1] eqn:E; apply expectKeyword_fwd in E.
  2: by apply good_ok.
  assert (fwd 1 p p1) as F1 by fwd_chain.
  destruct (fwd_range _ _ _ F1 Hr) as (Hr1 & _ & _).
  apply (good_weaken (1 + (1 + 0))); [|lia].
  eapply good_shift; [done|done|].
  eapply good_bind; [done|by apply Hs|]. intros rhs p2 Hw F2 Hr2.
  apply Hloop; [fwd_chain|done|]. left. auto.
Qed.

Lemma parsers_good_all fuel : parsers_good fuel.
Proof.
  induction fuel as [|fuel (IOr & IOl & IAnd & IAl & INot & IPrim)];
    [split_and!; intros; lia|].
  split_and!; cbn [parseOr orLoop parseAnd andLoop parseNot parsePrimary].
  - intros p Hr Hf.
    apply (good_bind 1 0 p _ _ _ _ Hr (IAnd p Hr ltac:(lia))).
    intros lhs p1 Hl F1%fwd_length Hr1. apply IOl; [done|lia|done].
  - intros p lhs Hr Hf Hl.
    apply (loop_good "OR" "OR" (parseAnd fuel)); simpl; auto.
    + intros p' F%fwd_length Hr'. apply IAnd; [done|lia].
    + intros p' l F%fwd_length Hr' Hl'. apply IOl; [done|lia|done].
  - intros p Hr Hf.
    apply (good_bind 1 0 p _ _ _ _ Hr (INot p Hr ltac:(lia))).
    intros lhs p1 Hl F1%fwd_length Hr1. apply IAl; [done|lia|done].
  - intros p lhs Hr Hf Hl.
    apply (loop_good "AND" "AND" (parseNot fuel)); simpl; auto.
    + intros p' F%fwd_length Hr'. apply INot; [done|lia].
    + intros p' l F%fwd_length Hr' Hl'. apply IAl; [done|lia|done].
  - intros p Hr Hf.
    destruct (expectKeyword "NOT" p) as [[] p1] eqn:E;
      pose proof (expectKeyword_fwd _ _ _ _ E) as F; simpl in F;
      destruct (fwd_range _ _ _ F Hr) as (Hr1 & _ & _); pose proof (fwd_length _ _ _ F).
    + apply (good_weaken (3 + (1 + 0))); [|lia].
      eapply good_shift; [done|done|].
      eapply good_bind; [done|apply INot; [done|lia]|].
      intros x p2 Hx _ _. apply good_ok; [done|apply fwd_refl].
    + apply (good_shift 0 1 p p1); [done|done|]. eapply IPrim; [done|done|lia].
  - intros p0 p HN Hr Hf.
    destruct (consume "(" p) as [[] p1] eqn:E;
      pose proof (consume_fwd _ _ _ _ E) as F; simpl in F;
      destruct (fwd_range _ _ _ F Hr) as (Hr1 & _ & _); pose proof (fwd_length _ _ _ F).
    + apply (good_weaken (1 + (1 + 0))); [|lia].
      eapply good_shift; [done|done|].
      eapply good_bind; [done|apply IOr; [done|lia]|].
      intros x p2 Hx _ Hr2.
      destruct (consume ")" p2) as [[] p3] eqn:E3; apply consume_fwd in E3; simpl in E3.
      * apply good_ok; [done|]. fwd_chain.
      * by apply good_errf.
    + apply consume_false in E as ->. apply expectKeyword_false in HN as HN'.
      assert (skipSpace p = p) as -> by (rewrite HN'; apply skipSpace_idemp).
      by eapply parseComparison_good.
Qed.

Lemma atEnd_fwd p b p' : atEnd p = (b, p') -> fwd 0 p p'.
Proof. intros [= <- <-]. apply skipSpace_fwd. Qed.

Lemma inRange_new src : inRange (newParser src).
Proof. unfold inRange. simpl. lia. Qed.

Lemma parsePred_good p : inRange p -> good 1 p wfNode (parsePred p).
Proof.
  intros Hr. apply parsers_good_all; [done|]. unfold parse_fuel. lia.
Qed.

(** ** Column masks *)

(** The mask expressions of the grammar: a string or [NULL] literal, a column,
    or a function of a column. *)
Definition wfMaskExpr (n : Node) : Prop :=
  match n with
  | NLiteral l => wfLiteral l
  | FuncCall f arg => validIdent f = true /\ isColumn arg
  | ColumnRef _ _ => isColumn n
  | _ => False
  end.

Definition wfMask (m : MaskProject) : Prop :=
  validIdent (mp_Column m) = true /\ wfMaskExpr (mp_Expr m).

Lemma parseMaskExpr_good p : inRange p -> good 1 p wfMaskExpr (parseMaskExpr p).
Proof.
  intros Hr. unfold parseMaskExpr. pose proof (skipSpace_fwd p) as Hs.
  destruct (expectKeyword "NULL" (skipSpace p)) as [[] p1] eqn:E1;
    apply expectKeyword_fwd in E1; simpl in E1.
  { apply good_ok; [by right; right|]. fwd_chain. }
  assert (fwd 0 p p1) as F1 by fwd_chain. unfold peek.
  pose proof (skipSpace_fwd p1) as Hs1. set (q := skipSpace p1) in *.
  assert (fwd 0 p q) as F by fwd_chain.
  destruct (fwd_range _ _ _ F Hr) as (Hrq & _ & _).
  destruct (bool_decide _).
  { apply (good_shift 0 1 p q); [done|done|].
    pose proof (parseValue_good q Hrq) as G.
    destruct (parseValue q) as [[n p2]|e]; [|exact G].
    destruct G as [Hn ?]. split; [|done]. by destruct n. }
  destruct (expectIdent q) as [[id|] p2] eqn:E2.
  2: { apply expectIdent_fwd in E2. simpl in E2. apply good_errf; [done|].
       fwd_chain. }
  pose proof (expectIdent_fwd _ _ _ E2) as F2. simpl in F2.
  apply expectIdent_some in E2 as (V & _ & _).
  destruct (fwd_range _ _ _ F2 Hrq) as (Hr2 & _ & _).
  destruct (consume "(" p2) as [[] p3] eqn:E3; apply consume_fwd in E3; simpl in E3.
  - assert (fwd 1 p p3) as F3 by fwd_chain.
    destruct (fwd_range _ _ _ F3 Hr) as (Hr3 & _ & _).
    apply (good_weaken (1 + (1 + 0))); [|lia].
    eapply good_shift; [done|done|].
    eapply good_bind; [done|by apply parseColumnRef_good|].
    intros n p4 Hn F4 _.
    destruct (consume ")" p4) as [[] p5] eqn:E5; apply consume_fwd in E5; simpl in E5.
    + apply good_ok; [done|]. fwd_chain.
    + by apply good_errf; [eapply fwd_range|].
  - destruct (consume "." p3) as [[] p4] eqn:E4; apply consume_fwd in E4; simpl in E4.
    + destruct (expectIdent p4) as [[id2|] p5] eqn:E5.
      * pose proof (expectIdent_fwd _ _ _ E5) as F5. simpl in F5.
        apply expectIdent_some in E5 as (V5 & _ & _).
        apply good_ok; [|fwd_chain]. exists id, id2. auto.
      * apply expectIdent_fwd in E5. simpl in E5. apply good_errf; [done|].
        fwd_chain.
    + apply good_ok; [|fwd_chain]. exists [], id. auto.
Qed.

Lemma maskEntries_good fuel projects p :
  inRange p -> length (rest p) < fuel -> Forall wfMask projects ->
  good 0 p (Forall wfMask) (maskEntries fuel projects p).
Proof.
  revert projects p; induction fuel as [|fuel IH]; intros ps p Hr Hf Hps; [lia|].
  cbn [maskEntries]. destruct (atEnd p) as [[] p1] eqn:E1; apply atEnd_fwd in E1.
  { by apply good_ok. }
  destruct (expectIdent p1) as [[col|] p2] eqn:E2.
  2: { apply expectIdent_fwd in E2. simpl in E2. apply good_errf; [done|].
       fwd_chain. }
  pose proof (expectIdent_fwd _ _ _ E2) as F2. simpl in F2.
  apply expectIdent_some in E2 as (V & _ & _).
  destruct (expectKeyword "AS" p2) as [[] p3] eqn:E3;
    apply expectKeyword_fwd in E3; simpl in E3; cbn [negb].
  2: { apply good_errf; [done|]. fwd_chain. }
  assert (fwd 3 p p3) as F3 by fwd_chain.
  destruct (fwd_range _ _ _ F3 Hr) as (Hr3 & _ & _).
  apply (good_weaken (3 + (1 + 0))); [|lia].
  eapply good_shift; [done|done|].
  eapply good_bind; [done|by apply parseMaskExpr_good|].
  intros e p4 He F4 Hr4.
  assert (Forall wfMask (ps ++ [mkMaskProject col e])) as Hps'.
  { apply Forall_app. split; [done|]. constructor; [by split|constructor]. }
  destruct (atEnd p4) as [[] p5] eqn:E5; apply atEnd_fwd in E5.
  { by apply good_ok. }
  destruct (consume "," p5) as [[] p6] eqn:E6; apply consume_fwd in E6; simpl in E6.
  - assert (fwd 1 p4 p6) as F6 by fwd_chain.
    apply (good_weaken (1 + 0)); [|lia].
    eapply good_shift; [done|done|]. apply IH; [by eapply fwd_range| |done].
    apply fwd_length in F3, F4, F6. lia.
  - apply good_errf; [done|]. fwd_chain.
Qed.

(** ** The parser's contract *)

Lemma ParseRowFilter_row src f :
  ParseRowFilter src = Ok f ->
  exists n, f = mkFragment FragmentRowFilter (Some n) [] /\ wfNode n.
Proof.
  unfold ParseRowFilter. pose proof (parsePred_good _ (inRange_new src)) as G.
  destruct (parsePred _) as [[n p]|e]; simpl in *; [|done].
  destruct (bool_decide _); [|done]. intros [= <-].
  destruct G as [Hn _]. by exists n.
Qed.

(** (C39) [ParseRowFilter] terminates on every source: with the model's fuel it
    returns a fragment or an [ErrParseFailed] whose offset is in the source. *)
Theorem ParseRowFilter_terminates src :
  match ParseRowFilter src with
  | Ok _ => True
  | Err (ErrParseFailed off) => off <= length src
  | Err OutOfFuel => False
  end.
Proof.
  unfold ParseRowFilter. pose proof (inRange_new src) as Hr.
  pose proof (parsePred_good _ Hr) as G.
  destruct (parsePred _) as [[n p]|[off|]]; simpl in *; [|lia|done].
  destruct G as [_ F]. destruct (bool_decide _); [done|].
  pose proof (skipSpace_fwd p) as Fs. assert (fwd 0 (newParser src) (skipSpace p)) as F'
    by fwd_chain.
  destruct (fwd_range _ _ _ F' Hr) as (Hr' & _ & E). unfold inRange in Hr'.
  rewrite E in Hr'. exact Hr'.
Qed.

(** (C38) Whatever [ParseRowFilter] accepts is a well-formed predicate: its
    operators are those of the grammar, its identifiers match
    [[A-Za-z_][A-Za-z0-9_]*], its string literals hold no control byte, its
    numbers are number lexemes and its IN lists are not empty. *)
Theorem ParseRowFilter_wf src f :
  ParseRowFilter src = Ok f ->
  exists n, f = mkFragment FragmentRowFilter (Some n) [] /\ wfNode n.
Proof. apply ParseRowFilter_row. Qed.

Definition rf_src : gostring :=
  "a.b = 'x''y' and NOT (c IN (1,2.5, -3) or d like null)".

Lemma ParseRowFilter_wf_witness :
  exists f, ParseRowFilter rf_src = Ok f /\
  exists n, f = mkFragment FragmentRowFilter (Some n) [] /\ wfNode n.
Proof.
  eexists. split; [vm_compute; reflexivity|].
  apply (ParseRowFilter_wf rf_src). vm_compute. reflexivity.
Defined.

(** What [ParseColumnMask] returns. *)
Lemma ParseColumnMask_good src :
  match ParseColumnMask src with
  | Ok f => exists ms, f = mkFragment FragmentColumnMask None ms /\
              ms <> [] /\ Forall wfMask ms
  | Err (ErrParseFailed off) => off <= length src
  | Err OutOfFuel => False
  end.
Proof.
  unfold ParseColumnMask. pose proof (inRange_new src) as Hr.
  assert (good 0 (newParser src) (Forall wfMask)
    (maskEntries (S (length src)) [] (newParser src))) as G.
  { apply maskEntries_good; [done|rewrite rest_newParser; lia|constructor]. }
  destruct (maskEntries _ _ _) as [[ms p]|[off|]]; simpl in *; [|lia|done].
  destruct G as [Hms F]. destruct ms as [|m ms].
  - destruct (fwd_range _ _ _ F Hr) as (Hr' & _ & E). unfold inRange in Hr'.
    rewrite E in Hr'. exact Hr'.
  - by exists (m :: ms).
Qed.

(** [ParseColumnMask] terminates on every source: it returns a non-empty
    list of entries, each a valid column identifier and a well-formed mask
    expression, or an [ErrParseFailed] whose offset is in the source. *)
Theorem ParseColumnMask_sound src :
  match ParseColumnMask src with
  | Ok f => exists ms, f = mkFragment FragmentColumnMask None ms /\
              ms <> [] /\ Forall wfMask ms
  | Err (ErrParseFailed off) => off <= length src
  | Err OutOfFuel => False
  end.
Proof. apply ParseColumnMask_good. Qed.
