(* ===== verification/SqlPrint.v ===== *)
(** * A reference printer for fragments, and the parser as its inverse

    The dialect emitters of [internal/policy/compiler/dialect] write a predicate
    fully parenthesised.  [printNode] is that text for a well-formed predicate;
    this file shows that the parser of SqlGrammar reads it back. *)

From S2P Require Import Prelude SqlGrammar.
From Stdlib Require Import Lia.

Definition printLit (l : Literal) : gostring :=
  if bool_decide (lit_Kind l = "string") then
    quote :: doubleQuotes (lit_Value l) ++ [quote]
  else if bool_decide (lit_Kind l = "number") then lit_Value l
  else "NULL".

Fixpoint printNode (n : Node) : gostring :=
  match n with
  | BinaryOp op l r =>
      "(" ++ printNode l ++ " " ++ op ++ " " ++ printNode r ++ ")"
  | UnaryOp op x => "(" ++ op ++ " " ++ printNode x ++ ")"
  | ColumnRef [] c => c
  | ColumnRef t c => t ++ "." ++ c
  | NLiteral l => printLit l
  | InList l vs => printNode l ++ " IN (" ++ join ", " (map printLit vs) ++ ")"
  | FuncCall f arg => f ++ "(" ++ printNode arg ++ ")"
  end.

(** ** Reading at a known text *)

(** Two positions with the same next token. *)
Definition eqs (p q : parser) : Prop := skipSpace p = skipSpace q.

Lemma eqs_skip p : eqs (skipSpace p) p.
Proof. apply skipSpace_idemp. Qed.

Lemma consume_eqs lit p q : eqs p q -> consume lit p = consume lit q.
Proof. unfold eqs, consume. by intros ->. Qed.

Lemma expectKeyword_eqs kw p q : eqs p q -> expectKeyword kw p = expectKeyword kw q.
Proof. unfold eqs, expectKeyword. by intros ->. Qed.

Lemma parseLiteral_eqs p q : eqs p q -> parseLiteral p = parseLiteral q.
Proof. unfold eqs, parseLiteral. by intros ->. Qed.

Lemma parseNot_eqs f p q : eqs p q -> parseNot f p = parseNot f q.
Proof.
  intros E. destruct f as [|f]; [done|]. cbn [parseNot].
  by rewrite (expectKeyword_eqs _ _ _ E).
Qed.

Lemma inValues_eqs f vs p q : eqs p q -> inValues f vs p = inValues f vs q.
Proof.
  intros E. destruct f as [|f]; [done|]. cbn [inValues].
  by rewrite (parseLiteral_eqs _ _ E).
Qed.

(** The first byte is not a space. *)
Definition tight (s : gostring) : Prop :=
  match s with [] => True | c :: _ => isSpaceByte c = false end.

Lemma tight_skip p : tight (rest p) -> skipSpace p = p.
Proof. apply skipSpace_id. Qed.

Lemma skip_blank p t : rest p = " " ++ t -> tight t -> skipSpace p = adv 1 p.
Proof.
  intros E Ht. unfold skipSpace. rewrite E. simpl. destruct t as [|c t]; [done|].
  by rewrite countWhile_stop.
Qed.

Lemma eqs_blank p t : rest p = " " ++ t -> tight t -> eqs p (adv 1 p).
Proof.
  intros E Ht. unfold eqs. rewrite (skip_blank p t E Ht).
  rewrite tight_skip; [done|]. by rewrite rest_adv, E.
Qed.

Lemma consume_hit lit p t :
  rest p = lit ++ t -> tight (lit ++ t) ->
  (match last lit with Some c => isWordChar c | None => false end) = false ->
  consume lit p = (true, adv (length lit) p).
Proof.
  intros E Ht Hl. unfold consume. rewrite tight_skip by (by rewrite E).
  by rewrite E, hasPrefix_app, Hl.
Qed.

Lemma consume_miss lit p s :
  rest p = s -> tight s -> hasPrefix lit s = false -> consume lit p = (false, p).
Proof.
  intros E Ht Hp. unfold consume. rewrite tight_skip by (by rewrite E).
  by rewrite E, Hp.
Qed.

Lemma expectKeyword_hit_at kw p u t :
  kw <> [] -> rest p = u ++ t -> tight (u ++ t) -> equalFold u kw = true ->
  starts_word t = false -> expectKeyword kw p = (true, adv (length kw) p).
Proof.
  intros Hk E Ht Hu Hw.
  assert (skipSpace p = p) as Es by (apply tight_skip; by rewrite E).
  rewrite (expectKeyword_hit kw p u t); rewrite ?Es; done.
Qed.

Lemma expectKeyword_miss kw p s :
  rest p = s -> tight s -> equalFold (take (length kw) s) kw = false ->
  expectKeyword kw p = (false, p).
Proof.
  intros E Ht Hu. unfold expectKeyword. rewrite tight_skip by (by rewrite E).
  rewrite E, Hu. by destruct (bool_decide _).
Qed.

Lemma toLower_word c : isWordChar (toLower c) = isWordChar c.
Proof. by_byte c; reflexivity. Qed.

Lemma equalFold_word s t :
  equalFold s t = true -> forallb isWordChar s = forallb isWordChar t.
Proof.
  revert t; induction s as [|a s IH]; intros [|b t]; simpl; try done.
  rewrite andb_true_iff, bool_decide_eq_true. intros [E1 E2].
  rewrite <- (toLower_word a), E1, toLower_word. f_equal. by apply IH.
Qed.

Lemma validIdent_word s : validIdent s = true -> forallb isWordChar s = true.
Proof.
  destruct s as [|c s]; simpl; [done|].
  intros [Hc ->]%andb_true_iff. unfold isWordChar. by rewrite Hc.
Qed.

Lemma identStart_tight c : isIdentStart c = true -> isSpaceByte c = false.
Proof. by_byte c; done. Qed.

Lemma validIdent_tight s t : validIdent s = true -> tight (s ++ t).
Proof.
  destruct s as [|c s]; simpl; [done|]. intros [? _]%andb_true_iff.
  by apply identStart_tight.
Qed.

Lemma expectKeyword_miss_ident kw p id t :
  rest p = id ++ t -> validIdent id = true -> equalFold id kw = false ->
  forallb isWordChar kw = true -> starts_word t = false ->
  expectKeyword kw p = (false, p).
Proof.
  intros E Hid Hf Hkw Ht. unfold expectKeyword.
  rewrite tight_skip by (rewrite E; by apply validIdent_tight).
  rewrite E. destruct (bool_decide (length (p_src p) < _)); [done|].
  destruct (equalFold (take _ _) kw) eqn:Ef; simpl; [|done].
  destruct (decide (length kw = length id)) as [L|L].
  { rewrite L, take_app_length in Ef. congruence. }
  destruct (decide (length kw < length id)) as [Lt|Ge].
  - rewrite drop_app_le by lia.
    assert (forallb isWordChar (drop (length kw) id) = true) as Hd.
    { apply validIdent_word, forallb_Forall_true in Hid.
      by apply forallb_Forall_true, Forall_drop. }
    destruct (drop (length kw) id) as [|c s] eqn:Ed.
    { apply (f_equal (@length ascii)) in Ed. rewrite length_drop in Ed.
      simpl in Ed. lia. }
    simpl in Hd. apply andb_true_iff in Hd as [Hc _]. simpl. by rewrite Hc.
  - exfalso. apply equalFold_word in Ef as Ew. rewrite Hkw in Ew.
    rewrite take_app_ge in Ew by lia. rewrite forallb_app in Ew.
    apply andb_true_iff in Ew as [_ Ew].
    destruct t as [|c t].
    { apply equalFold_length in Ef. rewrite length_take, length_app in Ef.
      simpl in Ef. lia. }
    destruct (length kw - length id) as [|k] eqn:Ek; [lia|]. simpl in Ew, Ht.
    by rewrite Ht in Ew.
Qed.

Lemma expectIdent_hit p id t :
  rest p = id ++ t -> validIdent id = true -> starts_word t = false ->
  expectIdent p = (Some id, adv (length id) p).
Proof.
  intros E Hid Ht. unfold expectIdent.
  rewrite tight_skip by (rewrite E; by apply validIdent_tight).
  destruct id as [|c s]; [done|]. simpl in Hid. apply andb_true_iff in Hid as [Hc Hs].
  rewrite E. cbn [app]. rewrite Hc. cbn [negb].
  rewrite countWhile_exact; [|done|by destruct t].
  cbn [take length]. by rewrite take_app_length.
Qed.

(** ** Literals and columns *)

Lemma numberLexeme_head v :
  numberLexeme v -> exists c s, v = c :: s /\ isSpaceByte c = false /\ c <> quote.
Proof.
  intros (sg & d1 & fr & d2 & -> & Hsg & H1 & H2 & Hf & Hpos).
  destruct Hsg as [-> | [-> | ->]]; [|by eexists _, _..].
  destruct d1 as [|c d1]; simpl.
  - destruct Hf as [-> | [-> ->]]; [by eexists _, _|simpl in Hpos; lia].
  - eexists _, _. split; [done|]. simpl in H1.
    apply andb_true_iff in H1 as [H1 _]. split.
    + revert H1. by_byte c; done.
    + by intros ->.
Qed.

Lemma printLit_tight l t : wfLiteral l -> tight (printLit l ++ t).
Proof.
  unfold printLit. intros [[-> _]|[[-> H]| ->]]; [done| |done].
  apply numberLexeme_head in H as (c & s & E & Hc & _). simpl. by rewrite E.
Qed.

Lemma literalEnd_word t : literalEnd t -> starts_word t = false.
Proof. destruct t as [|c t]; [done|]. by intros [Hc _]. Qed.

Lemma parseLiteral_print p l t :
  rest p = printLit l ++ t -> wfLiteral l -> literalEnd t ->
  parseLiteral p = Ok (l, adv (length (printLit l)) p).
Proof.
  intros E Hl Ht. unfold parseLiteral.
  rewrite tight_skip by (rewrite E; by apply printLit_tight).
  rewrite E. destruct l as [k v]. unfold printLit in *; simpl in *.
  destruct Hl as [[Hk Hv]|[[Hk Hv]|Hn]]; simpl in *.
  - subst k. simpl. rewrite <- app_assoc. simpl.
    rewrite (scanString_print v t Hv).
    + rewrite length_app. simpl. do 3 f_equal. lia.
    + destruct t; [done|]. by apply Ht.
  - subst k. simpl. apply numberLexeme_head in Hv as Hh.
    destruct Hh as (c & s & -> & _ & Hq). cbn [app].
    rewrite bool_decide_eq_false_2 by done.
    destruct (scanNumber_print _ t Hv Ht) as [d Hd]. cbn [app] in Hd. rewrite Hd.
    rewrite bool_decide_eq_false_2 by done. simpl.
    rewrite take_app_length. done.
  - injection Hn as -> ->. simpl in *.
    by rewrite (expectKeyword_hit_at "NULL" p "NULL" t) by
      (done || by apply literalEnd_word).
Qed.

Lemma wfColumn_print n : wfColumn n ->
  validIdent (firstIdent n) = true /\ equalFold (firstIdent n) "NOT" = false /\
  exists s, printNode n = firstIdent n ++ s /\ (s = [] \/ exists s', s = "." ++ s').
Proof.
  destruct n as [| |t c| | |]; try done. destruct t as [|a t]; simpl.
  - intros [? ?]. split_and!; [done..|]. exists []. rewrite app_nil_r. auto.
  - intros (? & ? & ?). split_and!; [done..|]. exists ("." ++ c). simpl. eauto.
Qed.

Lemma parseColumnRef_print p n t :
  rest p = printNode n ++ " " ++ t -> wfColumn n -> tight t ->
  hasPrefix "." t = false ->
  exists p', parseColumnRef p = Ok (n, p') /\
    skipSpace p' = adv (length (printNode n) + 1) p.
Proof.
  intros E Hn Ht Hd. unfold parseColumnRef.
  destruct n as [| |tb c| | |]; try done.
  assert (forall id q, rest q = id ++ " " ++ t -> validIdent id = true ->
    expectIdent q = (Some id, adv (length id) q) /\
    skipSpace (adv (length id) q) = adv (length id + 1) q) as Hlast.
  { intros id q Eq Hid. split; [by apply (expectIdent_hit q id (" " ++ t))|].
    rewrite (skip_blank _ t); [by rewrite adv_adv| |done].
    by rewrite (rest_adv_app _ _ _ Eq). }
  destruct tb as [|a tb]; simpl in Hn, E |- *.
  - destruct Hn as [Hc _]. destruct (Hlast c p E Hc) as [-> Hs].
    rewrite (consume_eqs _ _ (adv (length c + 1) p)).
    2: { unfold eqs. rewrite Hs. symmetry. apply tight_skip.
         rewrite <- adv_adv. by rewrite rest_adv, (rest_adv_app _ _ _ E). }
    rewrite (consume_miss "." _ t); [|by rewrite <- adv_adv, rest_adv, (rest_adv_app _ _ _ E)|done|done].
    eexists. split; [done|]. apply tight_skip.
    by rewrite <- adv_adv, rest_adv, (rest_adv_app _ _ _ E).
  - destruct Hn as (Hv & _ & Hc).
    assert (rest p = (a :: tb) ++ "." ++ (c ++ " " ++ t)) as E'
      by (rewrite E; cbn [app]; by rewrite <- app_assoc).
    rewrite (expectIdent_hit p (a :: tb) _ E' Hv) by done.
    pose proof (rest_adv_app _ _ _ E') as E2.
    rewrite (consume_hit "." _ (c ++ " " ++ t)) by done.
    pose proof (rest_adv_app _ _ _ E2) as E3.
    destruct (Hlast c _ E3 Hc) as [-> Hs]. eexists. split; [done|].
    rewrite Hs, !adv_adv. f_equal. cbn [length app]. rewrite length_app. simpl. lia.
Qed.

(** ** Operators *)

Lemma consumeAny_symbol op p t :
  op ∈ symbolOps -> rest p = op ++ " " ++ t ->
  consumeAny symbolOps p = (Some op, adv (length op) p).
Proof.
  intros Hop E. unfold symbolOps in *.
  repeat (apply elem_of_cons in Hop as [->|Hop]); [..|by apply elem_of_nil in Hop];
    cbn [consumeAny];
    repeat first
      [ rewrite (consume_miss _ p _ E) by done
      | rewrite (consume_hit _ p _ E) by done ]; done.
Qed.

Lemma consumeAny_none p c t :
  rest p = c :: t -> isIdentStart c = true -> consumeAny symbolOps p = (None, p).
Proof.
  intros E Hc. unfold symbolOps. cbn [consumeAny].
  rewrite !(consume_miss _ p _ E); [done|..]; revert Hc; by_byte c; done.
Qed.

Lemma consumeAny_eqs ops p q :
  ops <> [] -> eqs p q -> consumeAny ops p = consumeAny ops q.
Proof.
  destruct ops as [|op ops]; [done|]. intros _ E. cbn [consumeAny].
  by rewrite (consume_eqs _ _ _ E).
Qed.

Lemma join_cons_cons sep (a b : gostring) l :
  join sep (a :: b :: l) = a ++ sep ++ join sep (b :: l).
Proof. done. Qed.

Lemma inValues_print fuel acc vs p t :
  rest p = join ", " (map printLit vs) ++ ")" ++ t -> vs <> [] ->
  Forall wfLiteral vs -> length (rest p) < fuel ->
  inValues fuel acc p =
    Ok (acc ++ vs, adv (length (join ", " (map printLit vs)) + 1) p).
Proof.
  revert fuel acc p; induction vs as [|l vs IH]; intros fuel acc p E Hne Hw Hf; [done|].
  apply Forall_cons in Hw as [Hl Hw]. destruct fuel as [|fuel]; [lia|].
  cbn [inValues]. destruct vs as [|l2 vs].
  - cbn [map join] in *. rewrite (parseLiteral_print p l _ E) by done.
    cbn [mbind result_bind].
    rewrite (consume_hit ")" _ t); [by rewrite adv_adv| |done..].
    by rewrite (rest_adv_app _ _ _ E).
  - cbn [map] in *. rewrite join_cons_cons in *. rewrite <- !app_assoc in E.
    rewrite (parseLiteral_print p l _ E) by done. cbn [mbind result_bind].
    set (q := adv (length (printLit l)) p) in *.
    pose proof (rest_adv_app _ _ _ E) as E1. fold q in E1.
    rewrite (consume_miss ")" q _ E1) by done.
    rewrite (consume_hit "," q _ E1) by done.
    pose proof (rest_adv_app q "," _ E1) as E2. cbn [length] in E2 |- *.
    set (u := join ", " _ ++ ")" ++ t) in E2.
    assert (tight u) as Hu.
    { subst u. apply Forall_cons in Hw as [Hl2 _]. cbn [map].
      destruct vs; cbn [map]; rewrite ?join_cons_cons; cbn [join];
        rewrite <- ?app_assoc; by apply printLit_tight. }
    rewrite (inValues_eqs _ _ _ _ (eqs_blank _ u E2 Hu)).
    assert (rest (adv 1 (adv 1 q)) = u) as E3 by (by rewrite rest_adv, E2).
    rewrite IH; [|exact E3|done|done|].
    + rewrite <- app_assoc, !adv_adv. cbn [app]. f_equal. f_equal.
      subst q. rewrite adv_adv. f_equal. rewrite !length_app. simpl. lia.
    + rewrite E in Hf. rewrite E3. subst u. rewrite !length_app in *. simpl in *. lia.
Qed.

(** ** Comparisons *)

Lemma parseBinary_print op lhs l p t :
  rest p = " " ++ printLit l ++ t -> wfLiteral l -> literalEnd t ->
  parseBinary op lhs p =
    Ok (BinaryOp op lhs (NLiteral l), adv (1 + length (printLit l)) p).
Proof.
  intros E Hl Ht. unfold parseBinary, parseValue.
  rewrite (parseLiteral_eqs _ _ (eqs_blank p _ E (printLit_tight l t Hl))).
  rewrite (parseLiteral_print _ l t); [|by rewrite rest_adv, E|done|done].
  cbn [mbind result_bind]. by rewrite adv_adv.
Qed.

Lemma parseComparison_op op lhs l p t :
  rest p = printNode lhs ++ " " ++ op ++ " " ++ printLit l ++ t ->
  op ∈ cmpOps -> wfColumn lhs -> wfLiteral l -> literalEnd t ->
  parseComparison p =
    Ok (BinaryOp op lhs (NLiteral l),
        adv (length (printNode lhs ++ " " ++ op ++ " " ++ printLit l)) p).
Proof.
  intros E Hop Hc Hl Ht. unfold parseComparison.
  set (u := op ++ " " ++ printLit l ++ t) in E.
  assert (tight u /\ hasPrefix "." u = false) as [Hu Hd].
  { subst u. unfold cmpOps, symbolOps in Hop. cbn [app] in Hop.
    repeat (apply elem_of_cons in Hop as [->|Hop]); [done..|by apply elem_of_nil in Hop]. }
  destruct (parseColumnRef_print p lhs u E Hc Hu Hd) as (p1 & -> & Hs).
  cbn [mbind result_bind]. set (q := adv (length (printNode lhs) + 1) p) in *.
  assert (rest q = u) as Eq
    by (subst q; by rewrite <- adv_adv, rest_adv, (rest_adv_app _ _ _ E)).
  assert (eqs p1 q) as Eqs
    by (unfold eqs; rewrite Hs; symmetry; apply tight_skip; by rewrite Eq).
  rewrite (consumeAny_eqs symbolOps p1 q) by done.
  assert (forall k, adv (1 + length (printLit l)) (adv k q) =
    adv (length (printNode lhs) + 1 + k + 1 + length (printLit l)) p) as Eadv
    by (intros k; subst q; rewrite !adv_adv; f_equal; lia).
  apply elem_of_app in Hop as [Hop|Hop].
  - rewrite (consumeAny_symbol op q _ Hop Eq).
    rewrite (parseBinary_print op lhs l _ t); [|by rewrite (rest_adv_app _ _ _ Eq)|done..].
    rewrite Eadv. do 3 f_equal. rewrite !length_app. simpl. lia.
  - apply elem_of_cons in Hop as [->|Hop]; [|by apply elem_of_nil in Hop].
    rewrite (consumeAny_none q "L" _ Eq) by done.
    rewrite (expectKeyword_miss "IN" q u) by done.
    rewrite (expectKeyword_hit_at "LIKE" q "LIKE" (" " ++ printLit l ++ t)) by done.
    rewrite (parseBinary_print "LIKE" lhs l _ t);
      [|by rewrite (rest_adv_app q "LIKE" _ Eq)|done..].
    rewrite Eadv. do 3 f_equal. rewrite !length_app. simpl. lia.
Qed.

Lemma parseComparison_in lhs vs p t :
  rest p = printNode (InList lhs vs) ++ t -> wfColumn lhs -> vs <> [] ->
  Forall wfLiteral vs ->
  parseComparison p =
    Ok (InList lhs vs, adv (length (printNode (InList lhs vs))) p).
Proof.
  intros E Hc Hne Hvs. unfold parseComparison. cbn [printNode] in *.
  set (v := join ", " (map printLit vs)) in *.
  rewrite <- !app_assoc in E.
  assert (rest p = printNode lhs ++ " " ++ ("IN (" ++ v ++ ")" ++ t)) as E' by exact E.
  destruct (parseColumnRef_print p lhs _ E' Hc) as (p1 & -> & Hs); [done..|].
  cbn [mbind result_bind]. remember (adv (length (printNode lhs) + 1) p) as q eqn:Hq.
  assert (rest q = "IN (" ++ v ++ ")" ++ t) as Eq
    by (rewrite Hq; by rewrite <- adv_adv, rest_adv, (rest_adv_app _ _ _ E')).
  assert (eqs p1 q) as Eqs
    by (unfold eqs; rewrite Hs; symmetry; apply tight_skip; by rewrite Eq).
  rewrite (consumeAny_eqs symbolOps p1 q) by done.
  rewrite (consumeAny_none q "I" _ Eq) by done.
  rewrite (expectKeyword_hit_at "IN" q "IN" (" (" ++ v ++ ")" ++ t)) by done.
  pose proof (rest_adv_app q "IN" (" (" ++ v ++ ")" ++ t) Eq) as E2. cbn [length] in *.
  unfold parseInList.
  rewrite (consume_eqs _ _ _ (eqs_blank (adv 2 q) ("(" ++ v ++ ")" ++ t) E2 ltac:(done))).
  assert (rest (adv 1 (adv 2 q)) = "(" ++ v ++ ")" ++ t) as E3
    by (by rewrite rest_adv, E2).
  rewrite (consume_hit "(" _ _ E3) by done.
  pose proof (rest_adv_app _ "(" _ E3) as E4. cbn [length] in *.
  rewrite (inValues_print _ [] vs _ t E4 Hne Hvs) by lia.
  cbn [mbind result_bind app]. rewrite !adv_adv. rewrite Hq, !adv_adv.
  subst v. do 3 f_equal. rewrite !length_app. simpl. rewrite !length_app. simpl. lia.
Qed.

(** ** Predicates *)

Lemma andLoop_stop f lhs p s :
  rest p = s -> tight s -> equalFold (take 3 s) "AND" = false ->
  andLoop (S f) lhs p = Ok (lhs, p).
Proof. intros E Ht Hf. cbn [andLoop]. by rewrite (expectKeyword_miss "AND" p s). Qed.

Lemma orLoop_stop f lhs p s :
  rest p = s -> tight s -> equalFold (take 2 s) "OR" = false ->
  orLoop (S f) lhs p = Ok (lhs, p).
Proof. intros E Ht Hf. cbn [orLoop]. by rewrite (expectKeyword_miss "OR" p s). Qed.

(** A connective after a blank, and the blank after it. *)
Lemma connective_hit kw p u :
  rest p = " " ++ kw ++ " " ++ u -> kw <> [] -> tight (kw ++ " " ++ u) -> tight u ->
  exists q, expectKeyword kw p = (true, q) /\ eqs q (adv (length kw + 2) p) /\
    rest (adv (length kw + 2) p) = u.
Proof.
  intros E Hkw Hk Hu. exists (adv (length kw) (adv 1 p)).
  assert (rest (adv 1 p) = kw ++ " " ++ u) as E1 by (by rewrite rest_adv, E).
  assert (rest (adv (length kw) (adv 1 p)) = " " ++ u) as E2
    by (by rewrite (rest_adv_app _ _ _ E1)).
  split_and!.
  - rewrite (expectKeyword_eqs _ _ _ (eqs_blank p _ E Hk)).
    apply (expectKeyword_hit_at kw _ kw (" " ++ u));
      [done|done|done|auto with go|done].
  - replace (adv (length kw + 2) p) with (adv 1 (adv (length kw) (adv 1 p)))
      by (rewrite !adv_adv; f_equal; lia).
    by apply (eqs_blank _ u).
  - replace (adv (length kw + 2) p) with (adv 1 (adv (length kw) (adv 1 p)))
      by (rewrite !adv_adv; f_equal; lia).
    by rewrite rest_adv, E2.
Qed.

Lemma parseNot_paren f p inner q u t :
  rest p = "(" ++ u -> parseOr f (adv 1 p) = Ok (inner, q) -> rest q = ")" ++ t ->
  parseNot (S (S f)) p = Ok (inner, adv 1 q).
Proof.
  intros E Ho Eq. cbn [parseNot parsePrimary].
  rewrite (expectKeyword_miss "NOT" p _ E) by done.
  rewrite (consume_hit "(" p _ E) by done. cbn [length]. rewrite Ho.
  cbn [mbind result_bind]. by rewrite (consume_hit ")" q _ Eq).
Qed.

Lemma parseOr_single f p n q t :
  parseNot (S f) p = Ok (n, q) -> rest q = ")" ++ t ->
  parseOr (S (S (S f))) p = Ok (n, q).
Proof.
  intros Hn Eq. cbn [parseOr]. change (parseAnd (S (S f)) p) with
    ('(lhs, p) ← parseNot (S f) p; andLoop (S f) lhs p).
  rewrite Hn. cbn [mbind result_bind].
  rewrite (andLoop_stop _ _ _ _ Eq) by done. cbn [mbind result_bind].
  by rewrite (orLoop_stop _ _ _ _ Eq).
Qed.

Lemma parseOr_and f p l r pl pr u t :
  parseNot (S (S f)) p = Ok (l, pl) -> rest pl = " AND " ++ u -> tight u ->
  parseNot (S f) (adv 5 pl) = Ok (r, pr) -> rest pr = ")" ++ t ->
  parseOr (S (S (S (S f)))) p = Ok (BinaryOp "AND" l r, pr).
Proof.
  intros Hl El Hu Hr Er. cbn [parseOr]. change (parseAnd (S (S (S f))) p) with
    ('(lhs, p) ← parseNot (S (S f)) p; andLoop (S (S f)) lhs p).
  rewrite Hl. cbn [mbind result_bind].
  change (andLoop (S (S f)) l pl) with
   (let '(b, p) := expectKeyword "AND" pl in
      if b then
        '(rhs, p) ← parseNot (S f) p; andLoop (S f) (BinaryOp "AND" l rhs) p
      else Ok (l, p)).
  destruct (connective_hit "AND" pl u El) as (q & -> & Hq & _); [done..|].
  change (length "AND" + 2) with 5 in Hq.
  cbv beta iota. rewrite (parseNot_eqs _ _ _ Hq), Hr. cbn [mbind result_bind].
  rewrite (andLoop_stop _ _ _ _ Er) by done. cbn [mbind result_bind].
  by rewrite (orLoop_stop _ _ _ _ Er).
Qed.

Lemma parseOr_or f p l r pl pr u t :
  parseNot (S (S (S f))) p = Ok (l, pl) -> rest pl = " OR " ++ u -> tight u ->
  parseNot (S (S f)) (adv 4 pl) = Ok (r, pr) -> rest pr = ")" ++ t ->
  parseOr (S (S (S (S (S f))))) p = Ok (BinaryOp "OR" l r, pr).
Proof.
  intros Hl El Hu Hr Er. cbn [parseOr]. change (parseAnd (S (S (S (S f)))) p) with
    ('(lhs, p) ← parseNot (S (S (S f))) p; andLoop (S (S (S f))) lhs p).
  rewrite Hl. cbn [mbind result_bind].
  change (andLoop (S (S (S f))) l pl) with
   (let '(b, p) := expectKeyword "AND" pl in
      if b then
        '(rhs, p) ← parseNot (S (S f)) p; andLoop (S (S f)) (BinaryOp "AND" l rhs) p
      else Ok (l, p)).
  assert (rest (adv 1 pl) = "OR " ++ u) as E1 by (by rewrite rest_adv, El).
  assert (eqs pl (adv 1 pl)) as Hpl by (by apply (eqs_blank pl ("OR " ++ u))).
  rewrite (expectKeyword_eqs _ _ _ Hpl).
  rewrite (expectKeyword_miss "AND" _ _ E1) by done. cbn [mbind result_bind orLoop].
  rewrite (expectKeyword_eqs "OR" _ _ (eq_sym Hpl)).
  destruct (connective_hit "OR" pl u El) as (q & -> & Hq & _); [done..|].
  change (length "OR" + 2) with 4 in Hq.
  change (parseAnd (S (S (S f))) q) with
    ('(lhs, p) ← parseNot (S (S f)) q; andLoop (S (S f)) lhs p).
  rewrite (parseNot_eqs _ _ _ Hq), Hr. cbn [mbind result_bind].
  rewrite (andLoop_stop _ _ _ _ Er) by done. cbn [mbind result_bind].
  rewrite (expectKeyword_miss "OR" pr _ Er) by done. done.
Qed.

Lemma printNode_tight n t : wfNode n -> tight (printNode n ++ t).
Proof.
  destruct n as [op l r|op x| | |l vs|]; try done.
  intros [Hc _]. cbn [printNode].
  apply wfColumn_print in Hc as (Hv & _ & s & -> & _).
  rewrite <- !app_assoc. by apply validIdent_tight.
Qed.

Lemma parseNot_word f p n t :
  rest p = printNode n ++ " " ++ t -> wfColumn n ->
  parseNot (S (S f)) p = parseComparison p.
Proof.
  intros E Hc. apply wfColumn_print in Hc as (Hv & HN & s & Hs & Hdot).
  rewrite Hs, <- app_assoc in E. cbn [parseNot parsePrimary].
  rewrite (expectKeyword_miss_ident "NOT" p _ _ E) by
    (done || destruct Hdot as [-> | [? ->]]; done).
  rewrite (consume_miss "(" p _ E); [done|by apply validIdent_tight|].
  destruct (firstIdent n) as [|c id]; [done|]. cbn [app hasPrefix].
  rewrite bool_decide_eq_false_2; [done|]. intros <-. done.
Qed.

(** [parseNot] reads the printed text of [n] back, to its last byte. *)
Definition readable (n : Node) : Prop := forall fuel p t,
  rest p = printNode n ++ t -> 6 * length (rest p) + 3 <= fuel ->
  parseNot fuel p = Ok (n, adv (length (printNode n)) p).

Ltac len := repeat first [rewrite length_app | progress cbn [length app]]; lia.

(** Opens the parenthesis of a printed node and leaves the [parseOr] inside. *)
Ltac open_paren E :=
  cbn [printNode] in E |- *; rewrite <- !app_assoc in E; cbn [app] in E;
  match type of E with
  | rest ?p = _ => assert (1 <= length (rest p)) by (rewrite E; cbn [length]; lia)
  end.

Lemma readable_and l r :
  wfNode r -> readable l -> readable r -> readable (BinaryOp "AND" l r).
Proof.
  intros Hr IHl IHr fuel p t E Hf. open_paren E.
  do 6 (destruct fuel as [|fuel]; [lia|]).
  pose proof (rest_adv_app p "(" _ E) as E1. cbn [length] in E1.
  pose proof (rest_adv_app _ _ _ E1) as E2.
  set (pl := adv (length (printNode l)) (adv 1 p)) in *.
  assert (rest (adv 5 pl) = printNode r ++ ")" ++ t) as E3
    by (rewrite rest_adv, E2; reflexivity).
  pose proof (f_equal length E) as L. pose proof (f_equal length E1) as L1.
  pose proof (f_equal length E3) as L3. revert L L1 L3.
  repeat first [rewrite length_app | progress cbn [length app]]. intros L L1 L3.
  rewrite (parseNot_paren (S (S (S (S fuel)))) p (BinaryOp "AND" l r)
    (adv (length (printNode r)) (adv 5 pl)) _ t E).
  - do 2 f_equal. subst pl. rewrite !adv_adv. f_equal; len.
  - eapply parseOr_and; [eapply IHl; [exact E1|lia]|exact E2| | |].
    + by apply printNode_tight.
    + eapply IHr; [exact E3|lia].
    + by rewrite (rest_adv_app _ _ _ E3).
  - by rewrite (rest_adv_app _ _ _ E3).
Qed.

Lemma readable_or l r :
  wfNode r -> readable l -> readable r -> readable (BinaryOp "OR" l r).
Proof.
  intros Hr IHl IHr fuel p t E Hf. open_paren E.
  do 7 (destruct fuel as [|fuel]; [lia|]).
  pose proof (rest_adv_app p "(" _ E) as E1. cbn [length] in E1.
  pose proof (rest_adv_app _ _ _ E1) as E2.
  set (pl := adv (length (printNode l)) (adv 1 p)) in *.
  assert (rest (adv 4 pl) = printNode r ++ ")" ++ t) as E3
    by (rewrite rest_adv, E2; reflexivity).
  pose proof (f_equal length E) as L. pose proof (f_equal length E1) as L1.
  pose proof (f_equal length E3) as L3. revert L L1 L3.
  repeat first [rewrite length_app | progress cbn [length app]]. intros L L1 L3.
  rewrite (parseNot_paren (S (S (S (S (S fuel))))) p (BinaryOp "OR" l r)
    (adv (length (printNode r)) (adv 4 pl)) _ t E).
  - do 2 f_equal. subst pl. rewrite !adv_adv. f_equal; len.
  - eapply parseOr_or; [eapply IHl; [exact E1|lia]|exact E2| | |].
    + by apply printNode_tight.
    + eapply IHr; [exact E3|lia].
    + by rewrite (rest_adv_app _ _ _ E3).
  - by rewrite (rest_adv_app _ _ _ E3).
Qed.

Lemma readable_not x :
  wfNode x -> readable x -> readable (UnaryOp "NOT" x).
Proof.
  intros Hx IHx fuel p t E Hf. open_paren E.
  do 6 (destruct fuel as [|fuel]; [lia|]).
  pose proof (rest_adv_app p "(" _ E) as E1. cbn [length] in E1.
  set (u := printNode x ++ ")" ++ t) in *.
  assert (expectKeyword "NOT" (adv 1 p) = (true, adv 3 (adv 1 p))) as HN
    by (apply (expectKeyword_hit_at "NOT" _ "NOT" (" " ++ u)); done).
  assert (rest (adv 3 (adv 1 p)) = " " ++ u) as E2 by (rewrite rest_adv, E1; done).
  assert (rest (adv 1 (adv 3 (adv 1 p))) = u) as E3 by (rewrite rest_adv, E2; done).
  set (q := adv 1 (adv 3 (adv 1 p))) in *.
  pose proof (f_equal length E) as L. pose proof (f_equal length E3) as L3.
  revert L L3. subst u.
  repeat first [rewrite length_app | progress cbn [length app]]. intros L L3.
  rewrite (parseNot_paren (S (S (S (S fuel)))) p (UnaryOp "NOT" x)
    (adv (length (printNode x)) q) _ t E).
  - do 2 f_equal. subst q. rewrite !adv_adv. f_equal; len.
  - apply (parseOr_single _ _ _ _ t); [|by rewrite (rest_adv_app _ _ _ E3)].
    change (parseNot (S (S fuel)) (adv 1 p)) with
      (let '(b, p) := expectKeyword "NOT" (adv 1 p) in
       if b then '(operand, p) ← parseNot (S fuel) p; Ok (UnaryOp "NOT" operand, p)
       else parsePrimary (S fuel) p).
    rewrite HN. cbv beta iota.
    rewrite (parseNot_eqs _ _ q) by (by apply (eqs_blank _ _ E2), printNode_tight).
    rewrite (IHx (S fuel) q (")" ++ t)) by (done || lia). done.
  - by rewrite (rest_adv_app _ _ _ E3).
Qed.

Lemma readable_cmp op lhs l :
  op ∈ cmpOps -> wfColumn lhs -> wfLiteral l ->
  readable (BinaryOp op lhs (NLiteral l)).
Proof.
  intros Hop Hc Hl fuel p t E Hf. open_paren E.
  do 6 (destruct fuel as [|fuel]; [lia|]).
  pose proof (rest_adv_app p "(" _ E) as E1. cbn [length] in E1.
  assert (parseNot (S (S fuel)) (adv 1 p) = Ok (BinaryOp op lhs (NLiteral l),
    adv (length (printNode lhs ++ " " ++ op ++ " " ++ printLit l)) (adv 1 p))) as Hp.
  { rewrite (parseNot_word _ _ _ _ E1 Hc).
    by apply (parseComparison_op op lhs l _ (")" ++ t) E1). }
  set (q := adv (length (printNode lhs ++ _)) (adv 1 p)) in *.
  assert (rest q = ")" ++ t) as Eq.
  { subst q. apply rest_adv_app. rewrite E1. by rewrite <- !app_assoc. }
  rewrite (parseNot_paren (S (S (S (S fuel)))) p
    (BinaryOp op lhs (NLiteral l)) q _ t E).
  - do 2 f_equal. subst q. rewrite !adv_adv. f_equal; len.
  - by apply (parseOr_single _ _ _ _ t).
  - done.
Qed.

Lemma readable_in lhs vs :
  wfColumn lhs -> vs <> [] -> Forall wfLiteral vs -> readable (InList lhs vs).
Proof.
  intros Hc Hne Hvs fuel p t E Hf. do 2 (destruct fuel as [|fuel]; [lia|]).
  rewrite (parseNot_word _ _ lhs ("IN (" ++ join ", " (map printLit vs) ++ ")" ++ t)).
  - by apply (parseComparison_in lhs vs p t).
  - rewrite E. cbn [printNode]. by rewrite <- !app_assoc.
  - done.
Qed.

Lemma wfNode_readable n : wfNode n -> readable n.
Proof.
  induction n as [op l IHl r IHr|op x IHx| | |l IHl vs|]; try done.
  - intros [([-> | ->] & Hl & Hr)|(Hop & Hc & Hr)].
    + by apply readable_and; auto.
    + by apply readable_or; auto.
    + destruct r; try done. by apply readable_cmp.
  - intros [-> Hx]. by apply readable_not; auto.
  - intros (Hc & Hne & Hvs). by apply readable_in.
Qed.

(** The round trip of the whole parser. *)
Lemma ParseRowFilter_print n :
  wfNode n ->
  ParseRowFilter (printNode n) = Ok (mkFragment FragmentRowFilter (Some n) []).
Proof.
  intros Hw. unfold ParseRowFilter, parsePred, parse_fuel.
  rewrite rest_newParser. set (k := 6 * length (printNode n) + 6).
  set (p := newParser (printNode n)).
  assert (rest p = printNode n ++ []) as E by (by rewrite app_nil_r).
  assert (parseOr k p = Ok (n, adv (length (printNode n)) p)) as ->.
  { pose proof (wfNode_readable n Hw) as R.
    assert (rest (adv (length (printNode n)) p) = []) as E2
      by (by apply rest_adv_app).
    assert (length (rest p) = length (printNode n)) as L by done.
    assert (6 * length (printNode n) + 6 <= k) as Hk by lia. clearbody k.
    do 3 (destruct k as [|k]; [lia|]).
    cbn [parseOr]. change (parseAnd (S (S k)) p) with
      ('(lhs, p) ← parseNot (S k) p; andLoop (S k) lhs p).
    rewrite (R (S k) p [] E) by lia. cbn [mbind result_bind].
    rewrite (andLoop_stop _ _ _ _ E2) by done. cbn [mbind result_bind].
    by rewrite (orLoop_stop _ _ _ _ E2). }
  cbn [mbind result_bind]. unfold atEnd.
  rewrite tight_skip by (by rewrite (rest_adv_app _ _ _ E)).
  rewrite bool_decide_eq_true_2; [done|]. simpl. lia.
Qed.
