(* ===== verification/Dialect.v ===== *)
(** * The per-engine SQL emitters of the compiler

    [internal/policy/compiler/dialect]: the Trino and SparkSQL emitters and the
    Dremio stub, and [adaptNodeForDialect] / [adaptMaskForDialect] of
    [compiler.go], which translate the parser's AST into the emitters'.  The
    theorems: on a well-formed predicate both live emitters produce the same
    text, the parser reads that text back to the same AST, and a mask is
    emitted exactly when its functions are whitelisted. *)

From S2P Require Import Prelude SqlGrammar SqlPrint.
From Stdlib Require Import Lia.

(** ** The dialect-facing AST *)

Record AstLiteral := mkAstLiteral { al_Kind : gostring; al_Value : gostring }.

(** A Go [any] that holds one of the [Ast*] values, or [nil]. *)
Inductive any :=
  | AstNil
  | AstBinaryOp (Op : gostring) (Left Right : any)
  | AstUnaryOp (Op : gostring) (Operand : any)
  | AstColumnRef (Table Column : gostring)
  | AstLit (l : AstLiteral)
  | AstInList (Left : any) (Values : list AstLiteral)
  | AstFuncCall (Name : gostring) (Arg : any).

Record AstMaskProject := mkAstMaskProject { am_Column : gostring; am_Expr : any }.

(** The errors of the emitters, [ErrDialectStub] among them. *)
Inductive dialect_err :=
  | ErrDialectStub
  | NilPredicate
  | EmptyMask
  | UnsupportedLiteral (kind : gostring)
  | NotWhitelisted (name : gostring)
  | UnsupportedNode.

(** ** Adapting the parser's AST *)

Definition adaptLiteral (l : Literal) : AstLiteral :=
  mkAstLiteral (lit_Kind l) (lit_Value l).

Fixpoint adaptNodeForDialect (n : Node) : any :=
  match n with
  | BinaryOp op l r => AstBinaryOp op (adaptNodeForDialect l) (adaptNodeForDialect r)
  | UnaryOp op x => AstUnaryOp op (adaptNodeForDialect x)
  | ColumnRef t c => AstColumnRef t c
  | NLiteral l => AstLit (adaptLiteral l)
  | InList l vs => AstInList (adaptNodeForDialect l) (map adaptLiteral vs)
  | FuncCall f arg => AstFuncCall f (adaptNodeForDialect arg)
  end.

Definition adaptMaskForDialect (mask : list MaskProject) : list AstMaskProject :=
  map (fun p => mkAstMaskProject (mp_Column p) (adaptNodeForDialect (mp_Expr p))) mask.

(** ** What both live emitters share

    The [switch] of [emitPred] is the same Go code in [trino.go] and
    [spark.go] but for the expansion of [hash]; the shared cases are the
    helpers below and each emitter has its own [emitPred]. *)

Definition emitColumn (t c : gostring) : gostring :=
  (if bool_decide (t = []) then [] else t ++ ".") ++ c.

Definition emitLiteral (l : AstLiteral) : result dialect_err gostring :=
  if bool_decide (al_Kind l = "string") then
    Ok ("'" ++ doubleQuotes (al_Value l) ++ "'")
  else if bool_decide (al_Kind l = "number") then Ok (al_Value l)
  else if bool_decide (al_Kind l = "null") then Ok "NULL"
  else Err (UnsupportedLiteral (al_Kind l)).

(** The loop over [v.Values]: [", "] before every value but the first. *)
Fixpoint emitValues (first : bool) (vs : list AstLiteral) : result dialect_err gostring :=
  match vs with
  | [] => Ok []
  | l :: vs =>
      s ← emitLiteral l;
      rest ← emitValues false vs;
      Ok ((if first then [] else ", ") ++ s ++ rest)
  end.

Definition passthroughFuncs : list gostring := ["lower"; "upper"; "length"].

(** [CompileColumnMask]'s loop: [fmt.Sprintf("%s AS %s", sb, p.Column)]. *)
Fixpoint emitMaskParts (emit : any -> result dialect_err gostring)
    (projects : list AstMaskProject) : result dialect_err (list gostring) :=
  match projects with
  | [] => Ok []
  | p :: ps =>
      s ← emit (am_Expr p);
      parts ← emitMaskParts emit ps;
      Ok ((s ++ " AS " ++ am_Column p) :: parts)
  end.

Module Trino.

Fixpoint emitPred (n : any) : result dialect_err gostring :=
  match n with
  | AstBinaryOp op l r =>
      sl ← emitPred l; sr ← emitPred r;
      Ok ("(" ++ sl ++ " " ++ op ++ " " ++ sr ++ ")")
  | AstUnaryOp op x =>
      sx ← emitPred x; Ok ("(" ++ op ++ " " ++ sx ++ ")")
  | AstColumnRef t c => Ok (emitColumn t c)
  | AstLit l => emitLiteral l
  | AstInList l vs =>
      sl ← emitPred l; sv ← emitValues true vs;
      Ok (sl ++ " IN (" ++ sv ++ ")")
  | AstFuncCall name arg =>
      if bool_decide (name = "hash") then
        s ← emitPred arg;
        Ok ("to_hex(sha256(to_utf8(CAST(" ++ s ++ " AS VARCHAR))))")
      else if bool_decide (name ∈ passthroughFuncs) then
        s ← emitPred arg; Ok (name ++ "(" ++ s ++ ")")
      else Err (NotWhitelisted name)
  | AstNil => Err UnsupportedNode
  end.

Definition CompileRowFilter (table : gostring) (predicate : any) : result dialect_err gostring :=
  match predicate with
  | AstNil => Err NilPredicate
  | _ => emitPred predicate
  end.

Definition CompileColumnMask (table : gostring) (projects : list AstMaskProject)
  : result dialect_err gostring :=
  match projects with
  | [] => Err EmptyMask
  | _ => parts ← emitMaskParts emitPred projects; Ok (join ", " parts)
  end.

End Trino.

Module Spark.

Fixpoint emitPred (n : any) : result dialect_err gostring :=
  match n with
  | AstBinaryOp op l r =>
      sl ← emitPred l; sr ← emitPred r;
      Ok ("(" ++ sl ++ " " ++ op ++ " " ++ sr ++ ")")
  | AstUnaryOp op x =>
      sx ← emitPred x; Ok ("(" ++ op ++ " " ++ sx ++ ")")
  | AstColumnRef t c => Ok (emitColumn t c)
  | AstLit l => emitLiteral l
  | AstInList l vs =>
      sl ← emitPred l; sv ← emitValues true vs;
      Ok (sl ++ " IN (" ++ sv ++ ")")
  | AstFuncCall name arg =>
      if bool_decide (name = "hash") then
        s ← emitPred arg; Ok ("sha2(CAST(" ++ s ++ " AS STRING), 256)")
      else if bool_decide (name ∈ passthroughFuncs) then
        s ← emitPred arg; Ok (name ++ "(" ++ s ++ ")")
      else Err (NotWhitelisted name)
  | AstNil => Err UnsupportedNode
  end.

Definition CompileRowFilter (table : gostring) (predicate : any) : result dialect_err gostring :=
  match predicate with
  | AstNil => Err NilPredicate
  | _ => emitPred predicate
  end.

Definition CompileColumnMask (table : gostring) (projects : list AstMaskProject)
  : result dialect_err gostring :=
  match projects with
  | [] => Err EmptyMask
  | _ => parts ← emitMaskParts emitPred projects; Ok (join ", " parts)
  end.

End Spark.

Module Dremio.

Definition CompileRowFilter (table : gostring) (predicate : any) : result dialect_err gostring :=
  Err ErrDialectStub.

Definition CompileColumnMask (table : gostring) (projects : list AstMaskProject)
  : result dialect_err gostring :=
  Err ErrDialectStub.

End Dremio.

(** ** The interface the compiler dispatches on *)

(** [DialectCompiler]: an emitter as the compiler sees it. *)
Record DialectCompiler := mkDialect {
  dc_Kind : gostring;
  dc_CompileRowFilter : gostring -> any -> result dialect_err gostring;
  dc_CompileColumnMask : gostring -> list AstMaskProject -> result dialect_err gostring
}.

Definition TrinoCompiler : DialectCompiler :=
  mkDialect "trino" Trino.CompileRowFilter Trino.CompileColumnMask.
Definition SparkCompiler : DialectCompiler :=
  mkDialect "spark" Spark.CompileRowFilter Spark.CompileColumnMask.
Definition DremioCompiler : DialectCompiler :=
  mkDialect "dremio" Dremio.CompileRowFilter Dremio.CompileColumnMask.

(** A live emitter: on every predicate the grammar can produce, it writes the
    reference text. *)
Class LiveDialect (d : DialectCompiler) : Prop := {
  live_row_filter : forall table n, wfNode n ->
    dc_CompileRowFilter d table (adaptNodeForDialect n) = Ok (printNode n)
}.

(** ** Emitting a well-formed predicate *)

Lemma emitLiteral_print l :
  wfLiteral l -> emitLiteral (adaptLiteral l) = Ok (printLit l).
Proof.
  unfold emitLiteral, printLit, adaptLiteral. cbn [al_Kind al_Value].
  by intros [[-> _]|[[-> _]| ->]].
Qed.

Lemma emitValues_print vs :
  Forall wfLiteral vs ->
  emitValues false (map adaptLiteral vs) =
    Ok (concat (map (fun l => ", " ++ printLit l) vs)) /\
  emitValues true (map adaptLiteral vs) = Ok (join ", " (map printLit vs)).
Proof.
  induction vs as [|l vs IH]; intros Hw; [done|].
  apply Forall_cons in Hw as [Hl Hw]. destruct (IH Hw) as [E1 _].
  cbn [map emitValues]. rewrite (emitLiteral_print _ Hl), E1. cbn [mbind result_bind].
  split; [done|]. f_equal. cbn [app].
  clear. revert l. induction vs as [|l2 vs IH]; intros l; cbn [map].
  - apply app_nil_r.
  - rewrite join_cons_cons, <- (IH l2). done.
Qed.

Lemma emitColumn_print n :
  wfColumn n -> exists t c, n = ColumnRef t c /\ emitColumn t c = printNode n.
Proof.
  destruct n as [| |t c| | |]; try done. intros _. exists t, c. split; [done|].
  unfold emitColumn. destruct t; [done|]. cbn [printNode].
  rewrite bool_decide_eq_false_2 by done. by rewrite <- app_assoc.
Qed.

(** Any emitter that follows the shared cases writes the reference text. *)
Lemma emit_print (emit : any -> result dialect_err gostring) :
  (forall op l r, emit (AstBinaryOp op l r) =
     sl ← emit l; sr ← emit r; Ok ("(" ++ sl ++ " " ++ op ++ " " ++ sr ++ ")")) ->
  (forall op x, emit (AstUnaryOp op x) =
     sx ← emit x; Ok ("(" ++ op ++ " " ++ sx ++ ")")) ->
  (forall t c, emit (AstColumnRef t c) = Ok (emitColumn t c)) ->
  (forall l, emit (AstLit l) = emitLiteral l) ->
  (forall l vs, emit (AstInList l vs) =
     sl ← emit l; sv ← emitValues true vs; Ok (sl ++ " IN (" ++ sv ++ ")")) ->
  forall n, wfNode n -> emit (adaptNodeForDialect n) = Ok (printNode n).
Proof.
  intros Hb Hu Hc Hl Hi n.
  assert (forall n, wfColumn n -> emit (adaptNodeForDialect n) = Ok (printNode n)) as Hcol.
  { intros m Hm. destruct (emitColumn_print m Hm) as (t & c & -> & E).
    cbn [adaptNodeForDialect]. by rewrite Hc, E. }
  induction n as [op l IHl r IHr|op x IHx| | |l IHl vs|]; try done;
    cbn [adaptNodeForDialect printNode].
  - rewrite Hb. intros [(_ & Wl & Wr)|(_ & Wc & Wr)].
    + by rewrite IHl, IHr.
    + rewrite (Hcol _ Wc). destruct r as [| | |l'| |]; try done.
      cbn [adaptNodeForDialect]. by rewrite Hl, (emitLiteral_print _ Wr).
  - rewrite Hu. intros [_ Wx]. by rewrite IHx.
  - rewrite Hi. intros (Wc & _ & Wv). rewrite (Hcol _ Wc).
    by rewrite (proj2 (emitValues_print vs Wv)).
Qed.

#[export] Instance TrinoCompiler_live : LiveDialect TrinoCompiler.
Proof.
  constructor. intros table n Hn. cbn.
  transitivity (Trino.emitPred (adaptNodeForDialect n)).
  - by destruct n.
  - by apply emit_print.
Qed.

#[export] Instance SparkCompiler_live : LiveDialect SparkCompiler.
Proof.
  constructor. intros table n Hn. cbn.
  transitivity (Spark.emitPred (adaptNodeForDialect n)).
  - by destruct n.
  - by apply emit_print.
Qed.

(** ** Emitting a well-formed mask *)

Definition maskAllowed (n : Node) : bool :=
  match n with
  | FuncCall f _ => bool_decide (f = "hash" \/ f ∈ passthroughFuncs)
  | _ => true
  end.

(** The reference text of a mask expression; [hash] is the engine's expansion
    of the hash function. *)
Definition maskExprText (hash : gostring -> gostring) (n : Node) : gostring :=
  match n with
  | FuncCall f arg =>
      if bool_decide (f = "hash") then hash (printNode arg)
      else f ++ "(" ++ printNode arg ++ ")"
  | _ => printNode n
  end.

Definition maskText (hash : gostring -> gostring) (m : MaskProject) : gostring :=
  maskExprText hash (mp_Expr m) ++ " AS " ++ mp_Column m.

Definition trinoHash (s : gostring) : gostring :=
  "to_hex(sha256(to_utf8(CAST(" ++ s ++ " AS VARCHAR))))".
Definition sparkHash (s : gostring) : gostring := "sha2(CAST(" ++ s ++ " AS STRING), 256)".

(** What a mask emitter does with one expression of the grammar. *)
Definition emits_masks (emit : any -> result dialect_err gostring)
    (hash : gostring -> gostring) : Prop :=
  forall n, wfMaskExpr n ->
    emit (adaptNodeForDialect n) =
      if maskAllowed n then Ok (maskExprText hash n)
      else Err (NotWhitelisted (match n with FuncCall f _ => f | _ => [] end)).

Lemma isColumn_emit n :
  isColumn n -> exists t c, n = ColumnRef t c /\ emitColumn t c = printNode n.
Proof.
  intros (t & c & -> & _). exists t, c. split; [done|].
  unfold emitColumn. destruct t; [done|]. cbn [printNode].
  rewrite bool_decide_eq_false_2 by done. by rewrite <- app_assoc.
Qed.

(** The case analysis the two emitters share. *)
Ltac emit_mask_cases n :=
  intros Hn; destruct n as [| |t c|l| |f arg]; try done;
  [ apply isColumn_emit in Hn as (? & ? & [= <- <-] & E); cbn; by rewrite E
  | cbn; by rewrite (emitLiteral_print l Hn)
  | destruct Hn as [_ Ha]; apply isColumn_emit in Ha as (t & c & -> & E);
    cbn [adaptNodeForDialect maskAllowed maskExprText];
    destruct (decide (f = "hash")) as [->|Hf];
    [ rewrite <- E; done
    | destruct (decide (f ∈ passthroughFuncs)) as [Hp|Hp];
      [ rewrite (bool_decide_eq_true_2 (f = "hash" \/ _)) by (by right)
      | rewrite (bool_decide_eq_false_2 (f = "hash" \/ _)) by (by intros [?|?]) ];
      try rewrite <- E; cbn; rewrite (bool_decide_eq_false_2 (f = "hash")) by done;
      [ rewrite (bool_decide_eq_true_2 (f ∈ _)) by done
      | rewrite (bool_decide_eq_false_2 (f ∈ _)) by done ]; done ] ].

Lemma Trino_emits_masks : emits_masks Trino.emitPred trinoHash.
Proof. intros n. emit_mask_cases n. Qed.

Lemma Spark_emits_masks : emits_masks Spark.emitPred sparkHash.
Proof. intros n. emit_mask_cases n. Qed.

Lemma emitMaskParts_spec emit hash ms :
  emits_masks emit hash -> Forall wfMask ms ->
  match emitMaskParts emit (adaptMaskForDialect ms) with
  | Ok parts => forallb (fun m => maskAllowed (mp_Expr m)) ms = true /\
                parts = map (maskText hash) ms
  | Err e => exists m f arg, m ∈ ms /\ mp_Expr m = FuncCall f arg /\
               maskAllowed (mp_Expr m) = false /\ e = NotWhitelisted f
  end.
Proof.
  intros He. induction ms as [|m ms IH]; intros Hw; [done|].
  apply Forall_cons in Hw as [[_ Hm] Hw]. specialize (IH Hw). cbn.
  rewrite (He _ Hm). destruct (maskAllowed (mp_Expr m)) eqn:Ea; cbn.
  - destruct (emitMaskParts _ _) as [parts|e]; cbn.
    + destruct IH as [-> ->]. done.
    + destruct IH as (m' & f & arg & ? & ? & ? & ?).
      exists m', f, arg. split_and!; [by right|done..].
  - destruct (mp_Expr m) as [| | | | |f arg] eqn:Em; try done.
    exists m, f, arg. rewrite Em. split_and!; [by left|done..].
Qed.

(** ** Properties *)

(** (C37) A row filter the parser accepts is emitted by both live engines, as
    the same text, and parsing the emitted text gives the fragment that was
    emitted: the emitter neither fails on, nor changes the meaning of, an
    accepted filter. *)
Theorem row_filter_roundtrip table src f n :
  ParseRowFilter src = Ok f -> frag_Row f = Some n ->
  exists body,
    Trino.CompileRowFilter table (adaptNodeForDialect n) = Ok body /\
    Spark.CompileRowFilter table (adaptNodeForDialect n) = Ok body /\
    ParseRowFilter body = Ok f.
Proof.
  intros Hp Hn. unfold ParseRowFilter in Hp.
  pose proof (parsePred_good _ (inRange_new src)) as G.
  destruct (parsePred _) as [[m p]|e]; simpl in *; [|done].
  destruct (bool_decide _); [|done]. injection Hp as <-. injection Hn as <-.
  destruct G as [Hw _]. exists (printNode m).
  split_and!; [| |by apply ParseRowFilter_print].
  - by apply (live_row_filter (d := TrinoCompiler)).
  - by apply (live_row_filter (d := SparkCompiler)).
Qed.

Definition rf_ast : Node :=
  BinaryOp "AND"
    (BinaryOp "=" (ColumnRef "a" "b") (NLiteral (mkLiteral "string" "x'y")))
    (UnaryOp "NOT" (BinaryOp "OR"
       (InList (ColumnRef [] "c") [mkLiteral "number" "1"; mkLiteral "number" "-2.5"])
       (BinaryOp "LIKE" (ColumnRef [] "d") (NLiteral nullLiteral)))).

Lemma row_filter_roundtrip_witness :
  exists body,
    Trino.CompileRowFilter "p1" (adaptNodeForDialect rf_ast) = Ok body /\
    Spark.CompileRowFilter "p1" (adaptNodeForDialect rf_ast) = Ok body /\
    ParseRowFilter body = Ok (mkFragment FragmentRowFilter (Some rf_ast) []).
Proof.
  apply (row_filter_roundtrip "p1"
    "a.b = 'x''y' and NOT (c IN (1, -2.5) or d like null)"
    (mkFragment FragmentRowFilter (Some rf_ast) []) rf_ast);
    vm_compute; reflexivity.
Defined.

(** A column mask the parser accepts is emitted by Trino and by Spark
    exactly when every function it applies is whitelisted; the text is then
    [expr AS col] per entry, and otherwise the error names a function that is
    not whitelisted. *)
Theorem column_mask_emission table src f :
  ParseColumnMask src = Ok f ->
  let ms := frag_Mask f in
  let emitted hash r :=
    match r with
    | Ok body => forallb (fun m => maskAllowed (mp_Expr m)) ms = true /\
                 body = join ", " (map (maskText hash) ms)
    | Err e => exists m g arg, m ∈ ms /\ mp_Expr m = FuncCall g arg /\
                 maskAllowed (mp_Expr m) = false /\ e = NotWhitelisted g
    end in
  emitted trinoHash (Trino.CompileColumnMask table (adaptMaskForDialect ms)) /\
  emitted sparkHash (Spark.CompileColumnMask table (adaptMaskForDialect ms)).
Proof.
  intros Hp. pose proof (ParseColumnMask_good src) as G. rewrite Hp in G.
  destruct G as (ms & -> & Hne & Hw). cbn [frag_Mask].
  destruct ms as [|m ms]; [done|].
  pose proof (emitMaskParts_spec _ _ _ Trino_emits_masks Hw) as Ht.
  pose proof (emitMaskParts_spec _ _ _ Spark_emits_masks Hw) as Hs.
  split; unfold Trino.CompileColumnMask, Spark.CompileColumnMask;
    cbn [adaptMaskForDialect map] in *.
  - destruct (emitMaskParts Trino.emitPred _) as [parts|e]; [|exact Ht].
    destruct Ht as [-> ->]. done.
  - destruct (emitMaskParts Spark.emitPred _) as [parts|e]; [|exact Hs].
    destruct Hs as [-> ->]. done.
Qed.

Lemma column_mask_emission_witness :
  Trino.CompileColumnMask "t" (adaptMaskForDialect
    [mkMaskProject "ssn" (FuncCall "hash" (ColumnRef [] "ssn"));
     mkMaskProject "name" (NLiteral nullLiteral)]) =
  Ok "to_hex(sha256(to_utf8(CAST(ssn AS VARCHAR)))) AS ssn, NULL AS name" /\
  Spark.CompileColumnMask "t" (adaptMaskForDialect
    [mkMaskProject "ssn" (FuncCall "hash" (ColumnRef [] "ssn"));
     mkMaskProject "name" (NLiteral nullLiteral)]) =
  Ok "sha2(CAST(ssn AS STRING), 256) AS ssn, NULL AS name".
Proof.
  pose proof (column_mask_emission "t" "ssn AS hash(ssn), name AS NULL"
    (mkFragment FragmentColumnMask None
      [mkMaskProject "ssn" (FuncCall "hash" (ColumnRef [] "ssn"));
       mkMaskProject "name" (NLiteral nullLiteral)]) ltac:(vm_compute; reflexivity))
    as [H1 H2].
  split.
  - exact (f_equal Ok (proj2 H1)).
  - exact (f_equal Ok (proj2 H2)).
Defined.
