(* ===== verification/Splice.v ===== *)
(** * The SQL proxy's splicer

    [internal/sqlproxy/dialect/splice.go]: the single-table SELECT parser, the
    row-filter and column-mask splices and the snapshot-pin rewrite of the FROM
    clause.  [spliceParser] is the struct of SqlGrammar's [parser]; offsets are
    absolute, as in the code. *)

From S2P Require Import Prelude SqlGrammar SqlPrint Dialect.
From Stdlib Require Import Lia.

(** ** Errors of the proxy ([internal/sqlproxy/errors.go]) *)

Inductive sqlproxy_err :=
  | ErrPolicyEngineUnavailable
  | ErrEngineNotSupported
  | ErrInjectionFailed
  | ErrUnsupportedQueryShape
  | ErrSpliceMismatch.

#[export] Instance sqlproxy_err_eq_dec : EqDecision sqlproxy_err.
Proof. solve_decision. Defined.

Definition errMalformed {A} : result sqlproxy_err A := Err ErrInjectionFailed.
Definition errUnsupported {A} : result sqlproxy_err A := Err ErrUnsupportedQueryShape.

(** ** Artifact kinds ([internal/policy/store/compiled.go]) *)

Definition KindRowFilter : gostring := "row-filter".
Definition KindColumnMask : gostring := "column-mask".
Definition KindPredicate : gostring := "predicate".

(** [s[a:b]]. *)
Definition slice (a b : nat) (s : gostring) : gostring := take (b - a) (drop a s).

(** ** Lexer primitives *)

Module Lexer.

Definition isBlank (c : ascii) : bool :=
  let n := ord c in ((n =? 32) || (n =? 9) || (n =? 10) || (n =? 13))%N.

Definition skipSpace (p : parser) : parser := adv (countWhile isBlank (rest p)) p.

(** The keyword test at the head of [s]: as many bytes as [kw], equal to it up
    to case, and no word byte after them. *)
Definition matchKeyword (kw s : gostring) : bool :=
  bool_decide (length kw <= length s)
  && equalFold (take (length kw) s) kw
  && negb (starts_word (drop (length kw) s)).

Definition peekKeyword (kw : gostring) (p : parser) : bool :=
  matchKeyword kw (rest (skipSpace p)).

Definition peekAnyKeyword (kws : list gostring) (p : parser) : bool :=
  existsb (fun kw => peekKeyword kw p) kws.

Definition consumeKeyword (kw : gostring) (p : parser) : bool * parser :=
  if peekKeyword kw p then (true, adv (length kw) (skipSpace p)) else (false, p).

(** The [switch] the scanning loops share: the paren depth and whether the
    byte is inside a string literal, after the byte [c] (a doubled quote inside
    a string is handled by the loops).  A [)] at depth 0 is an error in a
    [strict] loop and ignored in the others. *)
Definition step (strict : bool) (c : ascii) (st : nat * bool) : option (nat * bool) :=
  let '(depth, inStr) := st in
  if inStr then Some (depth, negb (bool_decide (c = quote)))
  else if bool_decide (c = quote) then Some (depth, true)
  else if bool_decide (c = "("%char) then Some (S depth, false)
  else if bool_decide (c = ")"%char) then
    match depth with
    | 0 => if strict then None else Some (0, false)
    | S d => Some (d, false)
    end
  else Some (depth, false).

Inductive scanned :=
  | Found (i : nat)
  | Unbalanced
  | NotFound (st : nat * bool).

(** The scanning loop of [scanToKeyword], [findKeywordAtDepth0] and
    [scanToTailKeyword]: the first index, outside strings and at depth 0, that
    is not preceded by a word byte ([prev]) and where [hit] holds. *)
Fixpoint scan (strict : bool) (hit : gostring -> bool) (s : gostring) (i : nat)
    (prev : bool) (st : nat * bool) : scanned :=
  match s with
  | [] => NotFound st
  | c :: s' =>
      let next :=
        match step strict c st with
        | None => Unbalanced
        | Some st' =>
            if bool_decide (st' = (0, false)) && negb prev && hit s then Found i
            else scan strict hit s' (S i) (isWordChar c) st'
        end in
      if st.2 && bool_decide (c = quote) then
        match s' with
        | c2 :: s'' =>
            if bool_decide (c2 = quote) then scan strict hit s'' (S (S i)) false st
            else next
        | [] => next
        end
      else next
  end.

(** [scanToKeyword(kw, true)], which is how the only call site calls it.
    [strings.ToUpper(a) == strings.ToUpper(kw)] is [equalFold] for an ASCII
    keyword. *)
Definition scanToKeyword (kw : gostring) (p : parser) : result sqlproxy_err nat :=
  match scan true (matchKeyword kw) (rest p) (p_pos p) false (0, false) with
  | Found i => Ok i
  | Unbalanced => errMalformed
  | NotFound _ => errMalformed
  end.

Definition tailKeywords : list gostring := ["GROUP"; "HAVING"; "ORDER"; "LIMIT"].

Definition hitTail (s : gostring) : bool :=
  existsb (fun kw => matchKeyword kw s) tailKeywords.

(** The byte before [p.pos] is a word byte. *)
Definition prevWord (p : parser) : bool :=
  match p_pos p with
  | 0 => false
  | S i => match p_src p !! i with Some c => isWordChar c | None => false end
  end.

Definition scanToTailKeyword (p : parser) : nat :=
  match scan false hitTail (rest p) (p_pos p) (prevWord p) (0, false) with
  | Found i => i
  | _ => length (p_src p)
  end.

(** [findKeywordAtDepth0]; [None] is -1. *)
Definition findKeywordAtDepth0 (s kw : gostring) : option nat :=
  match scan false (matchKeyword kw) s 0 false (0, false) with
  | Found i => Some i
  | _ => None
  end.

Definition findKeyword (s kw : gostring) : option nat := findKeywordAtDepth0 s kw.

(** The loop of [splitTopLevelCommas]; [cur] is [s[start:i]]. *)
Fixpoint splitLoop (s cur : gostring) (st : nat * bool)
  : result sqlproxy_err (list gostring) :=
  match s with
  | [] =>
      if st.2 then errMalformed
      else if bool_decide (st.1 = 0) then Ok [cur] else errMalformed
  | c :: s' =>
      let next :=
        if bool_decide (c = ","%char) && bool_decide (st = (0, false)) then
          parts ← splitLoop s' [] st; Ok (cur :: parts)
        else
          match step true c st with
          | None => errMalformed
          | Some st' => splitLoop s' (cur ++ [c]) st'
          end in
      if st.2 && bool_decide (c = quote) then
        match s' with
        | c2 :: s'' =>
            if bool_decide (c2 = quote) then splitLoop s'' (cur ++ [c; c2]) st
            else next
        | [] => next
        end
      else next
  end.

Definition splitTopLevelCommas (s : gostring) : result sqlproxy_err (list gostring) :=
  splitLoop s [] (0, false).

Definition isSimpleIdent (s : gostring) : bool :=
  match s with
  | [] => false
  | c :: s => isIdentStart c && forallb isWordChar s
  end.

End Lexer.

Import Lexer.

(** ** The SELECT parser *)

Record selectShape := mkSelect {
  projection : gostring;
  table : gostring;
  where_ : gostring;
  tail : gostring
}.

Definition validateTail (tl : gostring) : result sqlproxy_err unit :=
  let p := Lexer.skipSpace (newParser tl) in
  if negb (peekAnyKeyword tailKeywords p) then errUnsupported
  else if existsb (fun kw => bool_decide (findKeyword tl kw <> None))
            ["JOIN"; "UNION"; "INTERSECT"; "EXCEPT"]
  then errUnsupported
  else Ok tt.

Definition joinKeywords : list gostring :=
  ["JOIN"; "INNER"; "LEFT"; "RIGHT"; "FULL"; "CROSS"; "OUTER"; "NATURAL"].

Definition setKeywords : list gostring := ["UNION"; "INTERSECT"; "EXCEPT"].

(** The checks on what follows the table. *)
Definition checkAfterTable (p : parser) : result sqlproxy_err unit :=
  match rest p with
  | [] => Ok tt
  | c :: _ =>
      if bool_decide (c = ","%char) then errUnsupported
      else if peekAnyKeyword joinKeywords p then errUnsupported
      else if peekAnyKeyword setKeywords p then errUnsupported
      else if negb (peekAnyKeyword ("WHERE" :: tailKeywords) p)
              && (peekKeyword "AS" p || isIdentStart c)
      then errUnsupported
      else Ok tt
  end.

(** From the byte after the table: the WHERE clause and the tail. *)
Definition parseAfterTable (proj tab : gostring) (p : parser)
  : result sqlproxy_err selectShape :=
  let p := Lexer.skipSpace p in
  _ ← checkAfterTable p;
  let '(w, p) := consumeKeyword "WHERE" p in
  let '(wh, p) :=
    if w then
      let tailStart := scanToTailKeyword p in
      (slice (p_pos p) tailStart (p_src p), mkParser (p_src p) tailStart)
    else ([], p) in
  if peekAnyKeyword setKeywords p then errUnsupported
  else
    let tl := trimSpace (rest p) in
    _ ← (if bool_decide (tl = []) then Ok tt else validateTail tl);
    Ok (mkSelect proj tab wh tl).

Definition isTableChar (c : ascii) : bool := isWordChar c || bool_decide (c = "."%char).

(** From the byte after [FROM]. *)
Definition parseFromClause (proj : gostring) (p : parser) : result sqlproxy_err selectShape :=
  let p := Lexer.skipSpace p in
  match rest p with
  | [] => errMalformed
  | c :: _ =>
      if bool_decide (c = "("%char) then errUnsupported
      else if negb (isIdentStart c) then errMalformed
      else
        let n := countWhile isTableChar (rest p) in
        parseAfterTable proj (take n (rest p)) (adv n p)
  end.

Definition parseSelect (query : gostring) : result sqlproxy_err selectShape :=
  let p := Lexer.skipSpace (newParser query) in
  if peekKeyword "WITH" p then errUnsupported
  else if peekAnyKeyword ["INSERT"; "UPDATE"; "DELETE"] p then errUnsupported
  else
    let '(b, p) := consumeKeyword "SELECT" p in
    if negb b then errMalformed
    else
      fromOffset ← scanToKeyword "FROM" p;
      let proj := trimSpace (slice (p_pos p) fromOffset (p_src p)) in
      if bool_decide (proj = []) then errMalformed
      else parseFromClause proj (mkParser (p_src p) (fromOffset + length "FROM")).

(** ** The splices *)

(** The tail as the three writers append it. *)
Definition tailText (s : selectShape) : gostring :=
  let t := trimSpace (tail s) in if bool_decide (t = []) then [] else " " ++ t.

(** [ WHERE w], the user's clause as the mask and pin writers keep it. *)
Definition whereText (s : selectShape) : gostring :=
  let w := trimSpace (where_ s) in if bool_decide (w = []) then [] else " WHERE " ++ w.

Definition spliceRowFilter (query body : gostring) : result sqlproxy_err gostring :=
  s ← parseSelect query;
  Ok ("SELECT " ++ projection s ++ " FROM " ++ table s
      ++ (if bool_decide (trimSpace (where_ s) = []) then " WHERE (" ++ body ++ ")"
          else " WHERE (" ++ trimSpace (where_ s) ++ ") AND (" ++ body ++ ")")
      ++ tailText s).

Record maskProj := mkMaskProj { col : gostring; expr : gostring }.

(** The loop of [parseMaskProjections]. *)
Fixpoint maskSegments (parts : list gostring) : result sqlproxy_err (list maskProj) :=
  match parts with
  | [] => Ok []
  | part :: parts =>
      let seg := trimSpace part in
      if bool_decide (seg = []) then maskSegments parts
      else
        match findKeywordAtDepth0 seg "AS" with
        | None => errMalformed
        | Some idx =>
            let c := trimSpace (take idx seg) in
            let e := trimSpace (drop (idx + length "AS") seg) in
            if bool_decide (c = []) || bool_decide (e = []) then errMalformed
            else if negb (isSimpleIdent c) then errMalformed
            else out ← maskSegments parts; Ok (mkMaskProj c e :: out)
        end
  end.

Definition parseMaskProjections (body : gostring) : result sqlproxy_err (list maskProj) :=
  parts ← splitTopLevelCommas body;
  out ← maskSegments parts;
  match out with [] => errMalformed | _ => Ok out end.

Fixpoint trimParts (parts : list gostring) : result sqlproxy_err (list gostring) :=
  match parts with
  | [] => Ok []
  | p :: parts =>
      let t := trimSpace p in
      if bool_decide (t = []) then errMalformed
      else out ← trimParts parts; Ok (t :: out)
  end.

Definition parseProjectionList (proj : gostring) : result sqlproxy_err (list gostring) :=
  parts ← splitTopLevelCommas proj; trimParts parts.

(** [idxByCol]: a later slot overwrites an earlier one of the same name. *)
Fixpoint indexCols (i : nat) (cols : list gostring) (m : gmap gostring nat)
  : gmap gostring nat :=
  match cols with
  | [] => m
  | c :: cols =>
      let t := trimSpace c in
      indexCols (S i) cols (if isSimpleIdent t then <[t := i]> m else m)
  end.

Fixpoint maskLoop (idx : gmap gostring nat) (rewritten : list gostring)
    (masks : list maskProj) : result sqlproxy_err (list gostring) :=
  match masks with
  | [] => Ok rewritten
  | m :: masks =>
      match idx !! col m with
      | None => Err ErrSpliceMismatch
      | Some i => maskLoop idx (<[i := expr m ++ " AS " ++ col m]> rewritten) masks
      end
  end.

Definition applyMasks (projCols : list gostring) (masks : list maskProj)
  : result sqlproxy_err (list gostring) :=
  maskLoop (indexCols 0 projCols ∅) projCols masks.

Definition spliceColumnMask (query body : gostring) : result sqlproxy_err gostring :=
  s ← parseSelect query;
  if bool_decide (trimSpace (projection s) = "*") then Err ErrSpliceMismatch
  else
    masks ← parseMaskProjections body;
    projCols ← parseProjectionList (projection s);
    rewritten ← applyMasks projCols masks;
    Ok ("SELECT " ++ join ", " rewritten ++ " FROM " ++ table s
        ++ whereText s ++ tailText s).

Definition SpliceArtifact (query artifactBody kind : gostring) : result sqlproxy_err gostring :=
  if bool_decide (kind = KindRowFilter \/ kind = []) then spliceRowFilter query artifactBody
  else if bool_decide (kind = KindColumnMask) then spliceColumnMask query artifactBody
  else Err ErrInjectionFailed.

(** ** The snapshot pin *)

Inductive PinFromDialect := PinDialectTrino | PinDialectDremio.

Definition isDecimalInt (s : gostring) : bool :=
  let digits := match s with
                | c :: s' => if bool_decide (c = "-"%char) then s' else s
                | [] => []
                end in
  negb (bool_decide (digits = [])) && forallb isDigit digits.

Definition pinClause (d : PinFromDialect) (snapshotID : gostring) : gostring :=
  match d with
  | PinDialectTrino => " FOR VERSION AS OF " ++ snapshotID
  | PinDialectDremio => " AT SNAPSHOT '" ++ snapshotID ++ "'"
  end.

Definition RewriteFromForSnapshotPin (query snapshotID : gostring) (d : PinFromDialect)
  : result sqlproxy_err gostring :=
  if negb (isDecimalInt snapshotID) then Err ErrInjectionFailed
  else
    s ← parseSelect query;
    Ok ("SELECT " ++ projection s ++ " FROM " ++ table s ++ pinClause d snapshotID
        ++ whereText s ++ tailText s).
