(* ===== verification/SpliceLemmas.v ===== *)
(** * Lemmas on the splicer's lexer

    Trimming, the scanning loops and the SELECT parser of Splice: a scan over a
    prefix, what a scan finds, and that a parsed SELECT written back is parsed
    to the same parts ([parseSelect_wf], [parseSelect_read]). *)

From S2P Require Import Prelude SqlGrammar SqlPrint Dialect Splice.
From Stdlib Require Import Lia.
Import Lexer.

(** ** Trimming *)

Definition trimmed (t : gostring) : Prop :=
  findPrefix spaceRunes t = None /\
  findPrefix (map reverse spaceRunes) (reverse t) = None.

Definition isSpaceRuneByte (c : ascii) : bool :=
  bool_decide (c ∈ mjoin spaceRunes).

Lemma findPrefix_some ws s n :
  findPrefix ws s = Some n -> exists w t, w ∈ ws /\ s = w ++ t /\ n = length w.
Proof.
  induction ws as [|w ws IH]; simpl; [done|].
  destruct (hasPrefix w s) eqn:E.
  - intros [= <-]. apply hasPrefix_spec in E as [t ->].
    exists w, t. split_and!; [by left|done|done].
  - intros H. destruct (IH H) as (w' & t & ? & ? & ?). exists w', t.
    split_and!; [by right|done|done].
Qed.

Lemma findPrefix_none_app ws s t :
  findPrefix ws (s ++ t) = None -> findPrefix ws s = None.
Proof.
  induction ws as [|w ws IH]; simpl; [done|].
  destruct (hasPrefix w s) eqn:E.
  - apply hasPrefix_spec in E as [u ->]. by rewrite <- app_assoc, hasPrefix_app.
  - by destruct (hasPrefix w (s ++ t)).
Qed.

Lemma trimPrefixes_spec ws fuel s :
  Forall (fun w => w <> []) ws -> length s <= fuel ->
  findPrefix ws (trimPrefixes ws fuel s) = None /\
  exists l, s = l ++ trimPrefixes ws fuel s /\ Forall (fun c => c ∈ mjoin ws) l.
Proof.
  intros Hws. revert s; induction fuel as [|fuel IH]; intros s Hf.
  - destruct s; [|simpl in Hf; lia]. simpl. split; [|by exists []].
    induction Hws as [|w ws Hw _ IH]; [done|]. by destruct w.
  - simpl. destruct (findPrefix ws s) as [n|] eqn:E; [|by split; [|exists []]].
    apply findPrefix_some in E as (w & t & Hw & -> & ->).
    rewrite drop_app_length. rewrite Forall_forall in Hws.
    pose proof (Hws w Hw) as Hne.
    destruct (IH t) as (H1 & l & H2 & H3).
    { rewrite length_app in Hf. destruct w; [done|]. simpl in Hf. lia. }
    split; [done|]. exists (w ++ l). rewrite <- app_assoc, <- H2. split; [done|].
    apply Forall_app. split; [|done]. apply Forall_forall. intros c Hc.
    apply list_elem_of_join. by exists w.
Qed.

Lemma spaceRunes_nonempty : Forall (fun w : gostring => w <> []) spaceRunes.
Proof. repeat constructor; done. Qed.

Lemma spaceRunes_rev_nonempty :
  Forall (fun w : gostring => w <> []) (map reverse spaceRunes).
Proof. repeat constructor; done. Qed.

Lemma trimSpace_spec s :
  trimmed (trimSpace s) /\
  exists l r, s = l ++ trimSpace s ++ r /\
    Forall (fun c => isSpaceRuneByte c = true) l /\
    Forall (fun c => isSpaceRuneByte c = true) r.
Proof.
  unfold trimSpace, trimRight, trimLeft.
  destruct (trimPrefixes_spec spaceRunes (length s) s spaceRunes_nonempty)
    as (H1 & l & H2 & H3); [lia|].
  set (u := trimPrefixes spaceRunes (length s) s) in *.
  destruct (trimPrefixes_spec (map reverse spaceRunes) (length u) (reverse u)
    spaceRunes_rev_nonempty) as (H4 & r & H5 & H6); [by rewrite length_reverse|].
  set (v := trimPrefixes (map reverse spaceRunes) (length u) (reverse u)) in *.
  assert (u = reverse v ++ reverse r) as Eu
    by (by rewrite <- reverse_app, <- H5, reverse_involutive).
  split; [split|].
  - rewrite Eu in H1. by apply findPrefix_none_app in H1.
  - by rewrite reverse_involutive.
  - exists l, (reverse r). rewrite <- Eu. split_and!; [done| |].
    + eapply Forall_impl; [exact H3|]. intros c Hc. by apply bool_decide_eq_true.
    + apply Forall_reverse. eapply Forall_impl; [exact H6|]. intros c Hc.
      apply bool_decide_eq_true. revert Hc. clear.
      rewrite !list_elem_of_join. intros (w & Hc & Hw).
      apply list_elem_of_fmap in Hw as (w' & -> & Hw). exists w'.
      split; [|done]. by rewrite elem_of_reverse in Hc.
Qed.

Lemma trimPrefixes_none ws fuel s :
  findPrefix ws s = None -> trimPrefixes ws fuel s = s.
Proof. intros H. destruct fuel; simpl; [done|]. by rewrite H. Qed.

Lemma trimSpace_id t : trimmed t -> trimSpace t = t.
Proof.
  intros [H1 H2]. unfold trimSpace, trimRight, trimLeft.
  rewrite (trimPrefixes_none _ _ _ H1), trimPrefixes_none by done.
  apply reverse_involutive.
Qed.

Lemma trimSpace_idemp s : trimSpace (trimSpace s) = trimSpace s.
Proof. apply trimSpace_id, trimSpace_spec. Qed.

Lemma trimLeft_blank s : trimLeft (" " ++ s) = trimLeft s.
Proof. reflexivity. Qed.

Lemma trimRight_blank s : trimRight (s ++ " ") = trimRight s.
Proof.
  unfold trimRight. rewrite reverse_app, length_app, Nat.add_comm.
  change (reverse " ") with " ". cbn [length plus app].
  reflexivity.
Qed.

Lemma spaceRunes_blank :
  Forall (fun w => w = " " \/ " "%char ∉ w) spaceRunes.
Proof.
  apply (bool_decide_eq_true_1 (Forall (fun w => w = " " \/ " "%char ∉ w) spaceRunes)).
  vm_compute. reflexivity.
Qed.

Lemma findPrefix_none ws s :
  findPrefix ws s = None <-> Forall (fun w => hasPrefix w s = false) ws.
Proof.
  induction ws as [|w ws IH]; simpl; [by split|].
  rewrite Forall_cons. destruct (hasPrefix w s); [by split; [|intros [? _]]|].
  rewrite IH. tauto.
Qed.

Lemma findPrefix_blank s :
  s <> [] -> findPrefix spaceRunes s = None -> findPrefix spaceRunes (s ++ " ") = None.
Proof.
  intros Hne Hn. rewrite findPrefix_none in Hn |- *.
  pose proof spaceRunes_blank as Hb. rewrite Forall_forall in Hn, Hb |- *.
  intros w Hw. destruct (hasPrefix w (s ++ " ")) eqn:E; [|done].
  apply hasPrefix_spec in E as [t E]. specialize (Hn w Hw).
  destruct t as [|c t _] using rev_ind.
  - rewrite app_nil_r in E. subst w. destruct (Hb _ Hw) as [Hs|Hs].
    + destruct s; [done|]. injection Hs as _ Hs. by destruct s.
    + exfalso. apply Hs. apply elem_of_app. right. by left.
  - rewrite app_assoc in E. apply app_inj_tail in E as [-> _].
    by rewrite hasPrefix_app in Hn.
Qed.

Lemma trimSpace_blanks s : trimmed s -> trimSpace (" " ++ s ++ " ") = s.
Proof.
  intros Ht. unfold trimSpace. rewrite trimLeft_blank.
  destruct (decide (s = [])) as [->|Hne]; [reflexivity|].
  assert (trimLeft (s ++ " ") = s ++ " ") as ->
    by (apply trimPrefixes_none, findPrefix_blank; [done|apply Ht]).
  rewrite trimRight_blank. unfold trimRight. rewrite trimPrefixes_none by apply Ht.
  apply reverse_involutive.
Qed.

Lemma spaceRuneByte_neutral c :
  isSpaceRuneByte c = true ->
  isWordChar c = false /\ c <> quote /\ c <> "("%char /\ c <> ")"%char /\ c <> ","%char.
Proof.
  intros Hc%bool_decide_eq_true. revert c Hc. apply Forall_forall.
  apply (bool_decide_eq_true_1 (Forall (fun c => isWordChar c = false /\ c <> quote /\
    c <> "("%char /\ c <> ")"%char /\ c <> ","%char) (mjoin spaceRunes))).
  vm_compute. reflexivity.
Qed.

(** ** The scanning loops *)

(** The lexer state after [s]. *)
Fixpoint run (strict : bool) (s : gostring) (st : nat * bool) : option (nat * bool) :=
  match s with
  | [] => Some st
  | c :: s => st' ← step strict c st; run strict s st'
  end.

(** Parentheses and quotes match, and no [)] comes before its [(]. *)
Definition balanced (s : gostring) : bool :=
  bool_decide (run true s (0, false) = Some (0, false)).

Lemma run_app strict s t st :
  run strict (s ++ t) st = st' ← run strict s st; run strict t st'.
Proof.
  revert st; induction s as [|c s IH]; intros st; [done|]. cbn [run app].
  destruct (step strict c st) as [st'|]; [|done]. cbn [mbind option_bind]. apply IH.
Qed.

(** No scanning loop looks for text that starts with a quote. *)
Definition hit_ok (hit : gostring -> bool) : Prop :=
  forall c s, hit (c :: s) = true -> isWordChar c = true.

(** Without the look-ahead at doubled quotes: it never hides a hit. *)
Lemma scan_cons strict hit c s i prev st :
  hit_ok hit ->
  scan strict hit (c :: s) i prev st =
    match step strict c st with
    | None => Unbalanced
    | Some st' =>
        if bool_decide (st' = (0, false)) && negb prev && hit (c :: s) then Found i
        else scan strict hit s (S i) (isWordChar c) st'
    end.
Proof.
  intros Hh. cbn [scan]. destruct st as [d b]. simpl.
  destruct (b && bool_decide (c = quote)) eqn:E; [|done].
  apply andb_true_iff in E as [-> ->%bool_decide_eq_true].
  assert (forall s', hit (quote :: s') = false) as Hq.
  { intros s'. destruct (hit _) eqn:E; [|done]. by apply Hh in E. }
  destruct s as [|c2 s]; [done|].
  destruct (bool_decide_reflect (c2 = quote)) as [->|Hc2]; [|done].
  cbn [step]. rewrite (bool_decide_eq_true_2 (quote = quote)) by done. cbn [negb].
  rewrite Hq, andb_false_r. cbn [scan snd andb step].
  rewrite (bool_decide_eq_true_2 (quote = quote)) by done.
  rewrite Hq, andb_false_r. done.
Qed.

(** Scanning over [u] with [s] ahead: the state after [u], when no hit and no
    stray [)] is met. *)
Fixpoint scanOver (strict : bool) (hit : gostring -> bool) (u s : gostring)
    (prev : bool) (st : nat * bool) : option (bool * (nat * bool)) :=
  match u with
  | [] => Some (prev, st)
  | c :: u' =>
      match step strict c st with
      | None => None
      | Some st' =>
          if bool_decide (st' = (0, false)) && negb prev && hit (u ++ s) then None
          else scanOver strict hit u' s (isWordChar c) st'
      end
  end.

Lemma scan_over strict hit u s i prev st prev' st' :
  hit_ok hit -> scanOver strict hit u s prev st = Some (prev', st') ->
  scan strict hit (u ++ s) i prev st = scan strict hit s (i + length u) prev' st'.
Proof.
  intros Hh. revert i prev st; induction u as [|c u IH]; intros i prev st; cbn [scanOver].
  - intros [= -> ->]. cbn [app length]. by rewrite Nat.add_0_r.
  - cbn [app]. rewrite scan_cons by done.
    destruct (step strict c st) as [st1|]; [|done].
    destruct (_ && hit _); [done|]. intros H. rewrite (IH (S i) _ _ H).
    f_equal. cbn [length]. lia.
Qed.

Lemma scanOver_run strict hit u s prev st prev' st' :
  scanOver strict hit u s prev st = Some (prev', st') -> run strict u st = Some st'.
Proof.
  revert prev st; induction u as [|c u IH]; intros prev st; cbn [scanOver run].
  - by intros [= _ ->].
  - destruct (step strict c st) as [st1|]; [|done].
    destruct (_ && hit _); [done|]. cbn [mbind option_bind]. apply IH.
Qed.

Lemma scanOver_app strict hit u v s prev st :
  scanOver strict hit (u ++ v) s prev st =
    match scanOver strict hit u (v ++ s) prev st with
    | Some (prev', st') => scanOver strict hit v s prev' st'
    | None => None
    end.
Proof.
  revert prev st; induction u as [|c u IH]; intros prev st; [done|].
  cbn [scanOver app]. destruct (step strict c st) as [st1|]; [|done].
  rewrite <- app_assoc. destruct (_ && hit _); [done|]. apply IH.
Qed.

(** What the loop found. *)
Lemma scan_found strict hit s i prev st j :
  hit_ok hit -> scan strict hit s i prev st = Found j ->
  exists u v, s = u ++ v /\ j = i + length u /\ hit v = true /\
    scanOver strict hit u v prev st = Some (false, (0, false)).
Proof.
  intros Hh. revert i prev st; induction s as [|c s IH]; intros i prev st; [done|].
  rewrite scan_cons by done. destruct (step strict c st) as [st1|] eqn:Es; [|done].
  destruct (_ && hit _) eqn:E.
  - intros [= <-]. rewrite !andb_true_iff in E. destruct E as [[E1 E2] E3].
    apply bool_decide_eq_true in E1 as ->. apply negb_true_iff in E2 as ->.
    exists [], (c :: s). split_and!; [done|simpl; lia|done|]. cbn [scanOver].
    do 2 f_equal. apply Hh in E3. destruct st as [d b]. revert Es E3.
    clear. unfold step. destruct b; [intros [= <- E]; revert E; by_byte c; done|].
    repeat case_bool_decide; subst; try done. by intros [= <-].
  - intros H. destruct (IH _ _ _ H) as (u & v & -> & -> & Hv & Hu).
    exists (c :: u), v. split_and!; [done|simpl; lia|done|]. cbn [scanOver].
    rewrite Es. cbn [app]. by rewrite E.
Qed.

(** Only what a hit can see ahead matters. *)
Lemma scanOver_ahead strict hit t s s' prev st r :
  scanOver strict hit t s prev st = Some r ->
  (forall w1 w2, t = w1 ++ w2 -> w2 <> [] -> hit (w2 ++ s') = true -> hit (w2 ++ s) = true) ->
  scanOver strict hit t s' prev st = Some r.
Proof.
  revert prev st; induction t as [|c t IH]; intros prev st H Hw; [done|].
  cbn [scanOver] in *. destruct (step strict c st) as [st1|]; [|done].
  assert (scanOver strict hit t s (isWordChar c) st1 = Some r ->
    scanOver strict hit t s' (isWordChar c) st1 = Some r) as Hrec.
  { intros H'. apply IH; [done|]. intros w1 w2 ->. by apply (Hw (c :: w1)). }
  destruct (bool_decide _ && negb prev); cbn [andb] in *; [|by auto].
  destruct (hit ((c :: t) ++ s)) eqn:E; [done|].
  destruct (hit ((c :: t) ++ s')) eqn:E'; [|by auto].
  by rewrite (Hw [] (c :: t)) in E.
Qed.

(** Text outside strings and parentheses without word bytes. *)
Definition neutral (c : ascii) : Prop :=
  isWordChar c = false /\ c <> quote /\ c <> "("%char /\ c <> ")"%char.

Lemma step_neutral strict c d : neutral c -> step strict c (d, false) = Some (d, false).
Proof.
  intros (_ & ? & ? & ?). unfold step. by rewrite !bool_decide_eq_false_2.
Qed.

Lemma step_word strict c d :
  isWordChar c = true -> step strict c (d, false) = Some (d, false).
Proof. intros H. unfold step. rewrite !bool_decide_eq_false_2; [done|..]; by intros ->. Qed.

Lemma step_neutral_inv strict c st st' :
  neutral c -> step strict c st = Some st' -> st' = st.
Proof.
  intros Hn. destruct st as [d []].
  - destruct Hn as (_ & ? & _). unfold step. rewrite bool_decide_eq_false_2 by done.
    by intros [= <-].
  - rewrite (step_neutral _ _ _ Hn). by intros [= <-].
Qed.

Lemma scanOver_neutral strict hit l s prev d :
  hit_ok hit -> Forall neutral l ->
  exists p, scanOver strict hit l s prev (d, false) = Some (p, (d, false)) /\
    (l = [] -> p = prev) /\ (l <> [] -> p = false).
Proof.
  intros Hh Hl. revert prev; induction Hl as [|c l Hc Hl IH]; intros prev.
  { exists prev. done. }
  cbn [scanOver]. rewrite (step_neutral _ _ _ Hc).
  assert (hit ((c :: l) ++ s) = false) as ->.
  { cbn [app]. destruct (hit _) eqn:E; [|done]. apply Hh in E.
    destruct Hc as [Hc _]. congruence. }
  rewrite andb_false_r. destruct Hc as [Hw _]. rewrite Hw.
  destruct (IH false) as (p & -> & H1 & H2). exists p. split_and!; [done|done|].
  intros _. destruct l; [by apply H1|by apply H2].
Qed.

Lemma scanOver_neutral_inv strict hit l s prev st p st' :
  Forall neutral l -> scanOver strict hit l s prev st = Some (p, st') ->
  st' = st /\ (l = [] -> p = prev).
Proof.
  intros Hl. revert prev st; induction Hl as [|c l Hc Hl IH]; intros prev st;
    cbn [scanOver].
  - by intros [= -> ->].
  - destruct (step strict c st) as [st1|] eqn:E; [|done].
    apply (step_neutral_inv _ _ _ _ Hc) in E as ->.
    destruct (_ && hit _); [done|]. intros H. apply IH in H as [-> _]. done.
Qed.

(** Inside parentheses nothing is found. *)
Lemma step_lift strict c d b st' k :
  step true c (d, b) = Some st' ->
  step strict c (k + d, b) = Some (k + st'.1, st'.2).
Proof.
  unfold step. destruct b; [by intros [= <-]|].
  repeat case_bool_decide; try (by intros [= <-]).
  - intros [= <-]. simpl. by rewrite Nat.add_succ_r.
  - destruct d as [|d]; [done|]. intros [= <-]. by rewrite Nat.add_succ_r.
Qed.

Lemma scanOver_inside strict hit u s prev d b st' k :
  run true u (d, b) = Some st' ->
  exists p, scanOver strict hit u s prev (S k + d, b) = Some (p, (S k + st'.1, st'.2)).
Proof.
  revert prev d b; induction u as [|c u IH]; intros prev d b; cbn [run scanOver].
  - intros [= <-]. by exists prev.
  - destruct (step true c (d, b)) as [[d1 b1]|] eqn:E; [|done].
    cbn [mbind option_bind]. intros H. rewrite (step_lift _ _ _ _ _ (S k) E).
    rewrite bool_decide_eq_false_2 by done. cbn [andb fst snd]. by apply IH.
Qed.

(** ** Keywords *)

Lemma matchKeyword_head kw c s :
  forallb isWordChar kw = true -> kw <> [] -> matchKeyword kw (c :: s) = true ->
  isWordChar c = true.
Proof.
  unfold matchKeyword. intros Hk Hne. destruct kw as [|k kw]; [done|].
  rewrite !andb_true_iff. intros [[_ He] _]. apply equalFold_word in He.
  rewrite Hk in He. cbn [length take forallb] in He.
  by apply andb_true_iff in He as [? _].
Qed.

Lemma matchKeyword_ok kw :
  forallb isWordChar kw = true -> kw <> [] -> hit_ok (matchKeyword kw).
Proof. intros ? ? c s. by apply matchKeyword_head. Qed.

Lemma hitTail_ok : hit_ok hitTail.
Proof.
  intros c s H. unfold hitTail in H. apply existsb_exists in H as (kw & Hin & H).
  apply (matchKeyword_head kw c s); [..|done].
  - by repeat (destruct Hin as [<-|Hin]; [done|]).
  - by repeat (destruct Hin as [<-|Hin]; [done|]).
Qed.

(** What a keyword match can see ahead of a word [w]. *)
Lemma matchKeyword_ahead kw w s s' :
  forallb isWordChar kw = true -> kw <> [] ->
  starts_word s = false -> starts_word s' = false \/
    match last w with Some c => isWordChar c = false | None => True end ->
  w <> [] ->
  matchKeyword kw (w ++ s) = true -> matchKeyword kw (w ++ s') = true.
Proof.
  unfold matchKeyword. intros Hk Hkne Hs Hs' Hne.
  rewrite !andb_true_iff. intros [[Hl He] Hr]. apply bool_decide_eq_true in Hl.
  assert (length kw <= length w) as L.
  { destruct (decide (length kw <= length w)) as [|Hgt]; [done|exfalso].
    apply equalFold_word in He. rewrite Hk in He.
    rewrite take_app_ge in He by lia. rewrite forallb_app in He.
    apply andb_true_iff in He as [_ He].
    destruct (length kw - length w) as [|k] eqn:Ek; [lia|].
    destruct s as [|c s]; [rewrite length_app in Hl; simpl in Hl; lia|].
    simpl in Hs, He. by rewrite Hs in He. }
  rewrite take_app_le in He |- * by done.
  split; [split|]; [|done|].
  - apply bool_decide_eq_true. rewrite length_app. lia.
  - rewrite drop_app_le in Hr |- * by done.
    destruct (drop (length kw) w) as [|c w'] eqn:Ew; [|done]. cbn [app] in *.
    destruct Hs' as [-> |Hlast]; [done|exfalso].
    assert (length kw = length w) as Lw.
    { apply (f_equal length) in Ew. rewrite length_drop in Ew. simpl in Ew. lia. }
    rewrite Lw, take_ge in He by lia. apply equalFold_word in He.
    rewrite Hk in He. destruct (last w) as [c|] eqn:El.
    + apply last_Some in El as [w' ->]. rewrite forallb_app in He.
      apply andb_true_iff in He as [_ He]. cbn in He. by rewrite Hlast in He.
    + by apply last_None in El.
Qed.

Lemma blank_tight s : 
  match s with [] => True | c :: _ => isBlank c = false end ->
  forall p, rest p = s -> Lexer.skipSpace p = p.
Proof.
  intros H p E. unfold Lexer.skipSpace. rewrite E. destruct s as [|c s].
  - apply adv_0.
  - rewrite countWhile_stop by done. apply adv_0.
Qed.

Lemma blank_one p c s :
  rest p = " " ++ c :: s -> isBlank c = false -> Lexer.skipSpace p = adv 1 p.
Proof.
  intros E H. unfold Lexer.skipSpace. rewrite E. cbn [app].
  cbn [countWhile]. change (isBlank " ") with true. cbv iota.
  by rewrite H.
Qed.

Lemma skipSpace_blank_idemp p : Lexer.skipSpace (Lexer.skipSpace p) = Lexer.skipSpace p.
Proof.
  eapply blank_tight; [|reflexivity]. unfold Lexer.skipSpace. rewrite rest_adv.
  pose proof (countWhile_head isBlank (rest p)) as H. by destruct (drop _ (rest p)).
Qed.

Lemma identStart_blank c : isIdentStart c = true -> isBlank c = false.
Proof. by_byte c; done. Qed.

Lemma spaceRune_neutral c : isSpaceRuneByte c = true -> neutral c.
Proof. intros H%spaceRuneByte_neutral. unfold neutral. tauto. Qed.

(** ** A parsed SELECT, written back *)

Definition isFrom : gostring -> bool := matchKeyword "FROM".

Lemma isFrom_ok : hit_ok isFrom.
Proof. by apply matchKeyword_ok. Qed.

(** A projection between blanks hides no [FROM] and closes what it opens. *)
Definition cleanProjection (proj : gostring) : Prop :=
  proj <> [] /\ trimmed proj /\
  forall y, scanOver true isFrom (" " ++ proj ++ " ") y false (0, false) =
    Some (false, (0, false)).

Definition validTable (tab : gostring) : Prop :=
  exists c s, tab = c :: s /\ isIdentStart c = true /\ forallb isTableChar tab = true.

Definition validTail (tl : gostring) : Prop :=
  trimmed tl /\ (tl = [] \/ validateTail tl = Ok tt).

Record wfSelect (s : selectShape) : Prop := {
  wf_projection : cleanProjection (projection s);
  wf_table : validTable (table s);
  wf_tail : validTail (tail s)
}.

Lemma cleanProjection_trim x v :
  scanOver true isFrom x v false (0, false) = Some (false, (0, false)) ->
  isFrom v = true -> trimSpace x <> [] -> cleanProjection (trimSpace x).
Proof.
  intros Hx Hv Hne. destruct (trimSpace_spec x) as [Ht (l & r & Ex & Hl & Hr)].
  split_and!; [done|done|]. intros y. set (t := trimSpace x) in *.
  assert (Forall neutral l) as Nl by (eapply Forall_impl; [exact Hl|apply spaceRune_neutral]).
  assert (Forall neutral r) as Nr by (eapply Forall_impl; [exact Hr|apply spaceRune_neutral]).
  rewrite Ex, scanOver_app in Hx.
  destruct (scanOver_neutral true isFrom l ((t ++ r) ++ v) false 0 isFrom_ok Nl)
    as (p & El & Hp1 & Hp2). rewrite El in Hx.
  assert (p = false) as -> by (destruct l; [by apply Hp1|by apply Hp2]).
  rewrite scanOver_app in Hx.
  destruct (scanOver true isFrom t (r ++ v) false (0, false)) as [[pw st]|] eqn:Et; [|done].
  apply scanOver_neutral_inv in Hx as [Hst Hpw]; [|done]. symmetry in Hst. subst st.
  rewrite scanOver_app. cbn [scanOver app].
  change (step true " " (0, false)) with (Some (0, false)).
  assert (forall s, isFrom (" "%char :: s) = false) as Hb.
  { intros s. destruct (isFrom (" "%char :: s)) eqn:E; [|done]. by apply isFrom_ok in E. }
  rewrite Hb, andb_false_r. change (isWordChar " ") with false.
  rewrite scanOver_app, (scanOver_ahead _ _ _ _ _ _ _ _ Et).
  - cbn [scanOver app]. change (step true " " (0, false)) with (Some (0, false)).
    by rewrite Hb, andb_false_r.
  - intros w1 w2 Hw Hne2. apply matchKeyword_ahead; try done.
    destruct r as [|c r].
    + right. rewrite <- (Hpw eq_refl) in Et. clear -Et Hw Hne2 Hv.
      assert (last t = last w2) as El.
      { rewrite Hw, last_app. destruct (last w2) eqn:E; [done|].
        by apply last_None in E. }
      rewrite <- El. clear -Et.
      generalize dependent (@nil ascii ++ v). intros s.
      assert (forall u prev st st', scanOver true isFrom u s prev st = Some (false, st') ->
        match last u with Some c => isWordChar c = false | None => True end) as H.
      { induction u as [|c u IH]; [done|]. intros prev st st'. cbn [scanOver].
        destruct (step true c st) as [st1|]; [|done].
        destruct (_ && isFrom _); [done|]. intros E. apply IH in E as E'.
        rewrite last_cons. destruct (last u) eqn:El; [done|].
        apply last_None in El as ->. cbn in E. by injection E. }
      intros Et. by apply H in Et.
    + left. simpl. apply Forall_cons in Nr as [[Hc _] _]. exact Hc.
Qed.

Lemma slice_rest p k : slice (p_pos p) (p_pos p + k) (p_src p) = take k (rest p).
Proof. unfold slice, rest. f_equal. lia. Qed.

Lemma parseAfterTable_ok proj tab p s :
  parseAfterTable proj tab p = Ok s ->
  projection s = proj /\ table s = tab /\ validTail (tail s).
Proof.
  unfold parseAfterTable. destruct (checkAfterTable _); [|done]. cbn [mbind result_bind].
  destruct (consumeKeyword "WHERE" _) as [w p1].
  destruct (if w then _ else _) as [wh p2].
  destruct (peekAnyKeyword setKeywords p2); [done|].
  set (tl := trimSpace (rest p2)).
  assert (trimmed tl) as Ht by apply trimSpace_spec.
  destruct (bool_decide_reflect (tl = [])) as [E|E]; cbn [mbind result_bind].
  - intros [= <-]. split_and!; [done|done|split; [done|by left]].
  - destruct (validateTail tl) as [[]|] eqn:Ev; [|done]. cbn [mbind result_bind].
    intros [= <-]. split_and!; [done|done|split; [done|by right]].
Qed.

Lemma parseFromClause_ok proj p s :
  parseFromClause proj p = Ok s ->
  projection s = proj /\ validTable (table s) /\ validTail (tail s).
Proof.
  unfold parseFromClause. set (q := Lexer.skipSpace p).
  destruct (rest q) as [|c r] eqn:Er; [done|].
  destruct (bool_decide _); [done|]. destruct (isIdentStart c) eqn:Ec; [|done].
  cbn [negb]. intros (-> & -> & Ht)%parseAfterTable_ok.
  split_and!; [done| |done].
  exists c, (take (countWhile isTableChar r) r).
  assert (isTableChar c = true) as Hc
    by (unfold isTableChar, isWordChar; by rewrite Ec).
  cbn [countWhile take]. rewrite Hc. cbn [take].
  split_and!; [done|done|]. cbn [forallb]. rewrite Hc.
  apply forallb_Forall_true, countWhile_all.
Qed.

(** Whatever [parseSelect] accepts can be written back and read again. *)
Lemma parseSelect_wf q s : parseSelect q = Ok s -> wfSelect s.
Proof.
  unfold parseSelect. destruct (peekKeyword "WITH" _); [done|].
  destruct (peekAnyKeyword _ _); [done|].
  destruct (consumeKeyword "SELECT" _) as [b p]. destruct b; [|done]. cbn [negb].
  unfold scanToKeyword. change (matchKeyword "FROM") with isFrom.
  destruct (scan true isFrom (rest p) (p_pos p) false (0, false)) as [j| |] eqn:E;
    [|done..].
  cbn [mbind result_bind]. apply scan_found in E as (u & v & Er & -> & Hv & Hu);
    [|apply isFrom_ok].
  assert (slice (p_pos p) (p_pos p + length u) (p_src p) = u) as ->.
  { by rewrite slice_rest, Er, take_app_length. }
  destruct (bool_decide_reflect (trimSpace u = [])) as [|Hne]; [done|].
  intros (Ep & Ht & Htl)%parseFromClause_ok. split; [|done|done].
  rewrite Ep. by apply (cleanProjection_trim u v).
Qed.

Lemma countWhile_prefix f s t :
  forallb f s = true -> match t with [] => True | c :: _ => f c = false end ->
  countWhile f (s ++ t) = length s.
Proof. apply countWhile_exact. Qed.

(** A rendered SELECT up to the byte after its table. *)
Definition selectHead (s : selectShape) : gostring :=
  "SELECT " ++ projection s ++ " FROM " ++ table s.

Lemma parseFromClause_read proj tab u p :
  rest p = " " ++ tab ++ u -> validTable tab ->
  match u with [] => True | c :: _ => isTableChar c = false end ->
  parseFromClause proj p = parseAfterTable proj tab (adv (1 + length tab) p).
Proof.
  intros E (c & t & -> & Hc & Hall) Hu. unfold parseFromClause.
  cbn [app] in E. rewrite (blank_one p c _ E) by (by apply identStart_blank).
  rewrite !rest_adv, E. cbn [app drop]. rewrite Hc. cbn [negb].
  rewrite bool_decide_eq_false_2 by (by intros ->).
  change (c :: t ++ u) with ((c :: t) ++ u).
  rewrite (countWhile_prefix _ (c :: t) u) by done.
  by rewrite take_app_length, adv_adv.
Qed.

Lemma parseSelect_read s u :
  wfSelect s -> match u with [] => True | c :: _ => isTableChar c = false end ->
  let p := adv (length (selectHead s)) (newParser (selectHead s ++ u)) in
  rest p = u /\
  parseSelect (selectHead s ++ u) = parseAfterTable (projection s) (table s) p.
Proof.
  intros [(Hne & Htr & Hcl) Htab _] Hu. cbn zeta.
  set (q := newParser (selectHead s ++ u)).
  split; [by apply rest_adv_app|].
  set (y := " " ++ table s ++ u).
  assert (rest q = "SELECT" ++ (" " ++ projection s ++ " ") ++ "FROM" ++ y) as Eq.
  { subst q y. rewrite rest_newParser. unfold selectHead.
    cbn [app]. do 7 f_equal. rewrite <- !app_assoc. done. }
  unfold parseSelect. fold q.
  assert (Lexer.skipSpace q = q) as Hs by (by apply (blank_tight (rest q)); rewrite ?Eq).
  rewrite Hs. unfold peekAnyKeyword, existsb, peekKeyword, consumeKeyword, peekKeyword.
  rewrite Hs, Eq. cbn [app].
  set (z := (projection s ++ _) ++ _).
  change (matchKeyword "WITH" _) with false. change (matchKeyword "INSERT" _) with false.
  change (matchKeyword "UPDATE" _) with false. change (matchKeyword "DELETE" _) with false.
  change (matchKeyword "SELECT" _) with true. cbn [orb negb].
  assert (rest (adv 6 q) = (" " ++ projection s ++ " ") ++ "FROM" ++ y) as E6
    by (by rewrite rest_adv, Eq).
  unfold scanToKeyword. cbn [length]. rewrite E6.
  change (matchKeyword "FROM") with isFrom.
  rewrite (scan_over _ _ _ _ _ _ _ _ _ isFrom_ok (Hcl _)).
  cbn [app]. rewrite scan_cons by apply isFrom_ok.
  change (step true "F" (0, false)) with (Some (0, false)).
  assert (isFrom ("F" :: "R" :: "O" :: "M" :: y)%char = true) as ->.
  { unfold isFrom, matchKeyword. rewrite bool_decide_eq_true_2 by (simpl; lia).
    done. }
  rewrite bool_decide_eq_true_2 by done. cbn [andb negb mbind result_bind].
  rewrite slice_rest, E6.
  rewrite (take_app_length (" " ++ projection s ++ " ")), trimSpace_blanks by done.
  rewrite bool_decide_eq_false_2 by done.
  set (k := length (" "%char :: projection s ++ " ")).
  change (mkParser (p_src (adv 6 q)) (p_pos (adv 6 q) + k + 4)) with
    (adv 4 (adv k (adv 6 q))).
  rewrite (parseFromClause_read _ (table s) u); [| |done|done].
  - rewrite !adv_adv. f_equal. subst k. unfold selectHead. f_equal; len.
  - rewrite rest_adv.
    by rewrite (rest_adv_app (adv 6 q) (" " ++ projection s ++ " ") _ E6 : rest (adv k _) = _).
Qed.
