(* ===== verification/SpliceSpec.v ===== *)
(** * What the splicer guarantees

    The properties of Splice's entry points: the row filter it writes is
    enforced when the user's predicate is balanced and can be escaped when it
    is not, a pinned query is never spliced, the pin embeds only decimal ids,
    and masks and comma splitting do what they say. *)

From S2P Require Import Prelude SqlGrammar SqlPrint Dialect Splice SpliceLemmas.
From Stdlib Require Import Lia.
Import Lexer.

(** ** Clauses in parentheses *)

Lemma matchKeyword_miss k kw c s :
  toLower c <> toLower k -> matchKeyword (k :: kw) (c :: s) = false.
Proof.
  intros H. unfold matchKeyword. cbn [length take equalFold].
  rewrite (bool_decide_eq_false_2 (toLower c = toLower k)) by done.
  by rewrite andb_false_l, andb_false_r.
Qed.

Lemma hitTail_nonword c s : isWordChar c = false -> hitTail (c :: s) = false.
Proof.
  intros Hc. destruct (hitTail (c :: s)) eqn:E; [|done].
  apply hitTail_ok in E. congruence.
Qed.

Lemma scanOver_cons_miss strict hit c u s prev st st' :
  step strict c st = Some st' -> hit ((c :: u) ++ s) = false \/ prev = true ->
  scanOver strict hit (c :: u) s prev st = scanOver strict hit u s (isWordChar c) st'.
Proof.
  intros Es H. cbn [scanOver]. rewrite Es.
  destruct H as [-> | ->]; [by rewrite andb_false_r|by rewrite andb_false_r].
Qed.

Lemma scanOver_parens w y prev :
  balanced w = true ->
  scanOver false hitTail ("(" ++ w ++ ")") y prev (0, false) = Some (false, (0, false)).
Proof.
  intros Hw%bool_decide_eq_true. cbn [app].
  rewrite (scanOver_cons_miss _ _ _ _ _ _ _ (1, false)) by
    (done || (left; by apply hitTail_nonword)).
  rewrite scanOver_app.
  destruct (scanOver_inside false hitTail w (")" ++ y) (isWordChar "(") 0 false _ 0 Hw)
    as (p & E). cbn [plus fst snd] in E. rewrite E.
  rewrite (scanOver_cons_miss _ _ _ _ _ _ _ (0, false)) by
    (done || (left; by apply hitTail_nonword)). done.
Qed.

Lemma scanOver_blank y prev :
  scanOver false hitTail " " y prev (0, false) = Some (false, (0, false)).
Proof.
  rewrite (scanOver_cons_miss _ _ _ _ _ _ _ (0, false)) by
    (done || (left; by apply hitTail_nonword)). done.
Qed.

Lemma scanOver_and y :
  scanOver false hitTail " AND " y false (0, false) = Some (false, (0, false)).
Proof.
  rewrite (scanOver_cons_miss _ _ " " _ _ _ _ (0, false)) by
    (done || (left; by apply hitTail_nonword)).
  assert (hitTail ("AND " ++ y) = false) as H.
  { unfold hitTail, tailKeywords. cbn [app existsb].
    by rewrite !matchKeyword_miss. }
  rewrite (scanOver_cons_miss _ _ "A" _ _ _ _ (0, false)) by (done || by left).
  rewrite (scanOver_cons_miss _ _ "N" _ _ _ _ (0, false)) by (done || by right).
  rewrite (scanOver_cons_miss _ _ "D" _ _ _ _ (0, false)) by (done || by right).
  apply scanOver_blank.
Qed.

(** The predicate the row-filter splice writes after [WHERE]. *)
Definition conjunction (w body : gostring) : gostring :=
  if bool_decide (w = []) then "(" ++ body ++ ")" else "(" ++ w ++ ") AND (" ++ body ++ ")".

Lemma scanOver_conjunction w body y prev :
  balanced w = true -> balanced body = true ->
  scanOver false hitTail (" " ++ conjunction w body) y prev (0, false) =
    Some (false, (0, false)).
Proof.
  intros Hw Hb. rewrite scanOver_app, scanOver_blank. unfold conjunction.
  destruct (bool_decide (w = [])); [by apply scanOver_parens|].
  change ("(" ++ w ++ ") AND (" ++ body ++ ")") with
    ("(" ++ w ++ ")" ++ " AND " ++ "(" ++ body ++ ")").
  replace ("(" ++ w ++ ")" ++ " AND " ++ "(" ++ body ++ ")") with
    (("(" ++ w ++ ")") ++ " AND " ++ "(" ++ body ++ ")") by (by rewrite <- !app_assoc).
  rewrite scanOver_app, scanOver_parens by done.
  rewrite scanOver_app, scanOver_and. by apply scanOver_parens.
Qed.

(** ** The tail *)

Lemma validTail_hit tl :
  trimmed tl -> validateTail tl = Ok tt -> tl <> [] /\ hitTail tl = true.
Proof.
  intros [Ht _] Hv. unfold validateTail in Hv.
  destruct (peekAnyKeyword tailKeywords _) eqn:E; [|done].
  assert (Lexer.skipSpace (newParser tl) = newParser tl) as Hs.
  { apply (blank_tight tl); [|done]. destruct tl as [|c tl]; [done|].
    destruct (isBlank c) eqn:Ec; [|done]. exfalso. clear -Ht Ec.
    apply findPrefix_none in Ht. rewrite Forall_forall in Ht.
    assert (forall w, w = [c] -> w ∈ spaceRunes -> False) as H.
    { intros w -> Hin. apply Ht in Hin. simpl in Hin.
      by rewrite bool_decide_eq_true_2 in Hin. }
    apply (H [c] eq_refl). revert Ec. clear. unfold isBlank.
    rewrite !orb_true_iff, !N.eqb_eq. unfold ord.
    assert (forall n, N_of_ascii c = n -> c = ascii_of_N n) as Hn
      by (intros n <-; symmetry; apply ascii_N_embedding).
    intros [[[H|H]|H]|H]; apply Hn in H; subst c;
      apply (bool_decide_eq_true_1 (_ ∈ spaceRunes)); vm_compute; reflexivity. }
  rewrite !Hs in E. unfold peekAnyKeyword, peekKeyword in E. rewrite Hs in E.
  split; [|exact E]. by intros ->.
Qed.

Lemma hitTail_no_set tl : hitTail tl = true -> existsb (fun kw => matchKeyword kw tl) setKeywords = false.
Proof.
  destruct tl as [|c tl]; [done|]. unfold hitTail, tailKeywords, setKeywords.
  intros H. destruct (decide (toLower c = "u"%char \/ toLower c = "i"%char \/ toLower c = "e"%char)) as [Hc|Hc].
  - exfalso. revert H. cbn [existsb].
    rewrite !matchKeyword_miss; [done|..];
      intros E; rewrite E in Hc; by destruct Hc as [?|[?|?]].
  - cbn [existsb]. by rewrite !matchKeyword_miss by (intros E; apply Hc; rewrite E; tauto).
Qed.

(** ** Reading a WHERE clause *)

Lemma prevWord_any p : prevWord p = true \/ prevWord p = false.
Proof. destruct (prevWord p); auto. Qed.

Lemma scanToTailKeyword_found p c t :
  rest p = c ++ t ->
  (forall prev, scanOver false hitTail c t prev (0, false) = Some (false, (0, false))) ->
  hitTail t = true -> scanToTailKeyword p = p_pos p + length c.
Proof.
  intros E Hc Ht. unfold scanToTailKeyword.
  rewrite E, (scan_over _ _ _ _ _ _ _ _ _ hitTail_ok (Hc _)).
  destruct t as [|a t]; [done|]. rewrite scan_cons by apply hitTail_ok.
  apply hitTail_ok in Ht as Ha.
  assert (step false a (0, false) = Some (0, false)) as ->.
  { apply (step_word false). exact Ha. }
  by rewrite Ht, bool_decide_eq_true_2.
Qed.

Lemma matchKeyword_hit kw s :
  starts_word s = false -> matchKeyword kw (kw ++ s) = true.
Proof.
  intros Hs. unfold matchKeyword. rewrite bool_decide_eq_true_2 by (rewrite length_app; lia).
  by rewrite take_app_length, drop_app_length, equalFold_refl, Hs.
Qed.

Lemma checkAfterTable_where p s :
  rest p = "WHERE " ++ s -> Lexer.skipSpace p = p -> checkAfterTable p = Ok tt.
Proof.
  intros E Hs. unfold checkAfterTable. rewrite E. cbn [app].
  rewrite bool_decide_eq_false_2 by done.
  unfold peekAnyKeyword, peekKeyword, joinKeywords, setKeywords, tailKeywords.
  rewrite Hs, E. cbn [app existsb].
  rewrite !(matchKeyword_miss _ _ "W") by done.
  change ("W" :: "H" :: "E" :: "R" :: "E" :: " " :: s)%char with ("WHERE" ++ " " ++ s).
  by rewrite matchKeyword_hit.
Qed.

(** The text the writers put after the table is read back clause by clause. *)
Lemma parseAfterTable_where proj tab p cond tl :
  rest p = " WHERE " ++ cond ++ (if bool_decide (tl = []) then [] else " " ++ tl) ->
  (forall y prev, scanOver false hitTail (" " ++ cond) y prev (0, false) =
     Some (false, (0, false))) ->
  validTail tl ->
  parseAfterTable proj tab p =
    Ok (mkSelect proj tab (" " ++ cond ++ (if bool_decide (tl = []) then [] else " ")) tl).
Proof.
  intros E Hc [Htr Hv]. unfold parseAfterTable.
  rewrite (blank_one p "W" _ E) by done. set (q := adv 1 p).
  set (w := cond ++ _) in E.
  assert (rest q = "WHERE " ++ w) as Eq by (subst q; by rewrite rest_adv, E).
  assert (Lexer.skipSpace q = q) as Hq by (apply (blank_tight (rest q)); rewrite ?Eq; done).
  rewrite (checkAfterTable_where q _ Eq Hq). cbn [mbind result_bind].
  unfold consumeKeyword, peekKeyword. rewrite Hq, Eq.
  change ("WHERE " ++ w) with ("WHERE" ++ " " ++ w).
  rewrite matchKeyword_hit by done. cbn [length].
  set (p1 := adv 5 q).
  assert (rest p1 = " " ++ w) as E1 by (subst p1; by rewrite rest_adv, Eq).
  subst w.
  destruct (decide (tl = [])) as [Htl|Hne];
    [rewrite bool_decide_eq_true_2 in * by done; rewrite Htl|
     rewrite bool_decide_eq_false_2 in * by done].
  - assert (scanToTailKeyword p1 = length (p_src p1)) as ->.
    { unfold scanToTailKeyword. rewrite E1.
      rewrite (scan_over _ _ _ [] _ _ _ _ _ hitTail_ok (Hc [] _)). done. }
    assert (slice (p_pos p1) (length (p_src p1)) (p_src p1) = " " ++ cond ++ []) as ->.
    { unfold slice. fold (rest p1). rewrite take_ge; [done|]. unfold rest.
      rewrite length_drop. lia. }
    assert (rest (mkParser (p_src p1) (length (p_src p1))) = []) as Er.
    { unfold rest. simpl. apply drop_ge. lia. }
    assert (peekAnyKeyword setKeywords (mkParser (p_src p1) (length (p_src p1))) = false) as ->.
    { unfold peekAnyKeyword, peekKeyword.
      by rewrite (blank_tight [] I _ Er), Er. }
    by rewrite Er.
  - destruct Hv as [|Hv]; [done|].
    destruct (validTail_hit tl Htr Hv) as [_ Hh].
    assert (rest p1 = (" " ++ cond ++ " ") ++ tl) as E2
      by (rewrite E1; cbn [app]; by rewrite <- app_assoc).
    assert (forall prev, scanOver false hitTail (" " ++ cond ++ " ") tl prev (0, false) =
      Some (false, (0, false))) as Hc'.
    { intros prev. rewrite app_assoc, scanOver_app, Hc. apply scanOver_blank. }
    rewrite (scanToTailKeyword_found p1 _ _ E2 Hc' Hh).
    rewrite slice_rest, E2, take_app_length.
    set (p2 := mkParser _ _).
    assert (rest p2 = tl) as Er by (apply (rest_adv_app p1 _ _ E2)).
    assert (peekAnyKeyword setKeywords p2 = false) as ->.
    { unfold peekAnyKeyword, peekKeyword.
      assert (Lexer.skipSpace p2 = p2) as ->.
      { apply (blank_tight tl); [|done]. destruct tl as [|a tl]; [done|].
        apply hitTail_ok in Hh. revert Hh. by_byte a; done. }
      rewrite Er. by apply hitTail_no_set. }
    rewrite Er, (trimSpace_id tl Htr), bool_decide_eq_false_2, Hv by done.
    done.
Qed.

Lemma tailText_wf s :
  validTail (tail s) ->
  tailText s = if bool_decide (tail s = []) then [] else " " ++ tail s.
Proof. intros [Ht _]. unfold tailText. by rewrite (trimSpace_id _ Ht). Qed.

Lemma selectHead_stop (u : gostring) :
  match " " ++ u with [] => True | c :: _ => isTableChar c = false end.
Proof. done. Qed.

Lemma spliceRowFilter_text query body s :
  parseSelect query = Ok s ->
  spliceRowFilter query body =
    Ok (selectHead s ++ " WHERE " ++ conjunction (trimSpace (where_ s)) body ++ tailText s).
Proof.
  intros E. unfold spliceRowFilter, selectHead, conjunction. rewrite E.
  cbn [mbind result_bind]. f_equal. rewrite <- !app_assoc. do 3 f_equal.
  destruct (bool_decide _); cbn [app]; by rewrite <- ?app_assoc.
Qed.

(** Whether a pin clause can follow a table: its first word is an alias. *)
Lemma parseAfterTable_pin proj tab p d id u :
  rest p = pinClause d id ++ u ->
  parseAfterTable proj tab p = Err ErrUnsupportedQueryShape.
Proof.
  intros E. unfold parseAfterTable.
  assert (exists c s, rest p = " " ++ c :: s /\ (c = "F"%char \/ c = "A"%char) /\
    matchKeyword "FULL" (c :: s) = false)
    as (c & s & Ep & Hc & Hf).
  { destruct d; [exists "F"%char|exists "A"%char]; eexists; rewrite E; split; try done.
    - split; [by left|]. unfold matchKeyword. cbn. by rewrite andb_false_r.
    - split; [by right|]. by apply matchKeyword_miss. }
  assert (isBlank c = false) as Hb by (by destruct Hc as [-> | ->]).
  rewrite (blank_one p c s Ep Hb). set (q := adv 1 p).
  assert (rest q = c :: s) as Eq by (subst q; by rewrite rest_adv, Ep).
  assert (Lexer.skipSpace q = q) as Hq by (apply (blank_tight (c :: s)); done).
  assert (checkAfterTable q = errUnsupported) as ->; [|done].
  unfold checkAfterTable. rewrite Eq.
  rewrite bool_decide_eq_false_2 by (by destruct Hc as [-> | ->]).
  destruct (peekAnyKeyword joinKeywords q); [done|].
  destruct (peekAnyKeyword setKeywords q); [done|].
  assert (peekAnyKeyword ("WHERE" :: tailKeywords) q = false) as ->.
  { unfold peekAnyKeyword, peekKeyword, tailKeywords. rewrite Hq, Eq. cbn [existsb].
    destruct Hc as [-> | ->]; by rewrite !matchKeyword_miss. }
  assert (isIdentStart c = true) as -> by (by destruct Hc as [-> | ->]).
  by rewrite orb_true_r.
Qed.

(** A pinned query does not parse. *)
Lemma pinned_unparsed query id d query' :
  RewriteFromForSnapshotPin query id d = Ok query' ->
  parseSelect query' = Err ErrUnsupportedQueryShape.
Proof.
  intros H. unfold RewriteFromForSnapshotPin in H.
  destruct (isDecimalInt id); [|done]. cbn [negb] in H.
  destruct (parseSelect query) as [s|] eqn:E; [|done]. cbn [mbind result_bind] in H.
  assert (query' = selectHead s ++ pinClause d id ++ whereText s ++ tailText s) as Eq
    by (injection H as <-; unfold selectHead; by rewrite <- !app_assoc).
  pose proof (parseSelect_wf _ _ E) as Hwf. rewrite Eq.
  destruct (parseSelect_read s (pinClause d id ++ whereText s ++ tailText s) Hwf)
    as [Er ->]; [by destruct d|].
  by apply (parseAfterTable_pin _ _ _ d id (whereText s ++ tailText s)).
Qed.

(** ** Reading the spliced predicate *)

(** The text up to the [)] that closes the group the text is in, and what
    follows it. *)
Fixpoint closeGroup (s : gostring) (st : nat * bool) : option (gostring * gostring) :=
  match s with
  | [] => None
  | c :: s' =>
      if bool_decide (c = ")"%char) && bool_decide (st = (0, false)) then Some ([], s')
      else
        st' ← step true c st;
        '(g, rest) ← closeGroup s' st';
        Some (c :: g, rest)
  end.

(** The predicate as a list of parenthesised conjuncts joined by [AND]; [None]
    when it does not read that way. *)
Fixpoint conjuncts (fuel : nat) (s : gostring) : option (list gostring) :=
  match fuel, s with
  | S fuel, c :: s' =>
      if bool_decide (c = "("%char) then
        '(g, rest) ← closeGroup s' (0, false);
        match rest with
        | [] => Some [g]
        | _ =>
            if hasPrefix " AND " rest then
              gs ← conjuncts fuel (drop 5 rest); Some (g :: gs)
            else None
        end
      else None
  | _, _ => None
  end.

Definition topConjuncts (s : gostring) : option (list gostring) :=
  conjuncts (length s) s.

Lemma closeGroup_run u t st st' :
  run true u st = Some st' ->
  closeGroup (u ++ t) st =
    '(g, rest) ← closeGroup t st'; Some (u ++ g, rest).
Proof.
  revert st; induction u as [|c u IH]; intros st; cbn [run app closeGroup].
  - intros [= ->]. by destruct (closeGroup t st') as [[]|].
  - destruct (step true c st) as [st1|] eqn:Es; [|done]. cbn [mbind option_bind].
    intros H. rewrite (IH _ H).
    destruct (bool_decide (c = ")"%char) && _) eqn:E.
    + rewrite andb_true_iff, !bool_decide_eq_true in E. destruct E as [-> ->]. done.
    + by destruct (closeGroup t st') as [[]|].
Qed.

Lemma closeGroup_balanced w t :
  balanced w = true -> closeGroup (w ++ ")" ++ t) (0, false) = Some (w, t).
Proof.
  intros Hw%bool_decide_eq_true. rewrite (closeGroup_run _ _ _ _ Hw).
  cbn [app closeGroup]. rewrite !bool_decide_eq_true_2 by done.
  cbn [andb mbind option_bind]. by rewrite app_nil_r.
Qed.

Lemma conjuncts_group fuel g rest :
  balanced g = true ->
  conjuncts (S fuel) ("(" ++ g ++ ")" ++ rest) =
    match rest with
    | [] => Some [g]
    | _ => if hasPrefix " AND " rest
           then gs ← conjuncts fuel (drop 5 rest); Some (g :: gs) else None
    end.
Proof.
  intros Hg. cbn [conjuncts app]. rewrite bool_decide_eq_true_2 by done.
  change (g ++ _ :: rest) with (g ++ ")" ++ rest). by rewrite closeGroup_balanced.
Qed.

Lemma topConjuncts_conjunction w body :
  balanced w = true -> balanced body = true ->
  topConjuncts (conjunction w body) =
    Some (if bool_decide (w = []) then [body] else [w; body]).
Proof.
  intros Hw Hb. unfold topConjuncts, conjunction.
  destruct (bool_decide (w = [])).
  { cbn [length app]. by apply (conjuncts_group _ body []). }
  assert (length ("(" ++ w ++ ") AND (" ++ body ++ ")") =
    S (S (length w + 7 + length body))) as -> by len.
  generalize (length w + 7 + length body). intros f.
  change ("(" ++ w ++ ") AND (" ++ body ++ ")") with
    ("(" ++ w ++ ")" ++ (" AND (" ++ body ++ ")")).
  rewrite conjuncts_group by done.
  change (hasPrefix " AND " (" AND (" ++ body ++ ")")) with true.
  change (drop 5 (" AND (" ++ body ++ ")")) with
    ("(" ++ body ++ ")" ++ ([] : gostring)).
  by rewrite conjuncts_group.
Qed.

Lemma trimmed_group s t :
  trimmed ("(" ++ s ++ ")") /\ trimmed ("(" ++ s ++ ") AND (" ++ t ++ ")").
Proof.
  assert (forall u, trimmed ("(" ++ u ++ ")")) as H.
  { intros u. split; [reflexivity|].
    rewrite !reverse_app. reflexivity. }
  split; [apply H|].
  replace (s ++ ") AND (" ++ t ++ ")") with ((s ++ ") AND (" ++ t) ++ ")")
    by (by rewrite <- !app_assoc).
  apply H.
Qed.

Lemma trimSpace_conjunction w body (tl : gostring) :
  trimSpace (" " ++ conjunction w body ++ (if bool_decide (tl = []) then [] else " ")) =
    conjunction w body.
Proof.
  assert (trimmed (conjunction w body)) as Ht.
  { unfold conjunction. destruct (bool_decide _); apply trimmed_group; done. }
  destruct (bool_decide (tl = [])); [|by apply trimSpace_blanks].
  rewrite app_nil_r. unfold trimSpace. rewrite trimLeft_blank.
  by apply trimSpace_id.
Qed.

(** ** Predicates the compiler emits are balanced *)

Definition flat (s : gostring) : Prop := forall d, run true s (d, false) = Some (d, false).

Lemma flat_nil : flat [].
Proof. done. Qed.

Lemma flat_app s t : flat s -> flat t -> flat (s ++ t).
Proof. intros Hs Ht d. rewrite run_app, Hs. apply Ht. Qed.

Lemma flat_parens s : flat s -> flat ("(" ++ s ++ ")").
Proof.
  intros Hs d. cbn [app run]. change (step true "(" (d, false)) with (Some (S d, false)).
  cbn [mbind option_bind]. by rewrite run_app, Hs.
Qed.

Lemma flat_plain s :
  forallb (fun c => negb (bool_decide (c = quote \/ c = "("%char \/ c = ")"%char))) s = true ->
  flat s.
Proof.
  intros H d. induction s as [|c s IH]; [done|]. cbn [forallb] in H.
  apply andb_true_iff in H as [Hc Hs]. apply negb_true_iff, bool_decide_eq_false in Hc.
  cbn [run]. unfold step. rewrite !bool_decide_eq_false_2 by tauto. by apply IH.
Qed.

Lemma flat_word s : forallb isWordChar s = true -> flat s.
Proof.
  intros H d. induction s as [|c s IH]; [done|]. cbn [forallb] in H.
  apply andb_true_iff in H as [Hc Hs]. cbn [run]. rewrite (step_word _ _ _ Hc).
  by apply IH.
Qed.

Lemma run_doubleQuotes v d : run true (doubleQuotes v) (d, true) = Some (d, true).
Proof.
  induction v as [|c v IH]; [done|]. cbn [doubleQuotes].
  destruct (bool_decide_reflect (c = quote)) as [->|Hc]; cbn [run].
  - exact IH.
  - unfold step at 1. rewrite bool_decide_eq_false_2 by done. exact IH.
Qed.

Lemma flat_literal l : wfLiteral l -> flat (printLit l).
Proof.
  unfold printLit. intros [[-> _]|[[-> H]| ->]].
  - rewrite bool_decide_eq_true_2 by done. intros d.
    cbn [run]. change (step true quote (d, false)) with (Some (d, true)).
    cbn [mbind option_bind]. by rewrite run_app, run_doubleQuotes.
  - rewrite bool_decide_eq_false_2, bool_decide_eq_true_2 by done.
    destruct H as (sg & d1 & fr & d2 & -> & Hsg & H1 & H2 & Hf & _).
    assert (forall x, allDigits x = true -> flat x) as Hd.
    { intros x Hx. apply flat_word, forallb_Forall_true.
      apply forallb_Forall_true in Hx. eapply Forall_impl; [exact Hx|].
      intros c Hc. by apply isDigit_word. }
    repeat apply flat_app; auto.
    + by destruct Hsg as [-> |[-> | ->]]; apply flat_plain.
    + by destruct Hf as [-> |[-> _]]; apply flat_plain.
  - by apply flat_plain.
Qed.

Lemma flat_column n : wfColumn n -> flat (printNode n).
Proof.
  destruct n as [| |t c| | |]; try done. destruct t as [|a t].
  - intros [H _]. by apply flat_word, validIdent_word.
  - intros (H1 & _ & H2). cbn [printNode].
    apply flat_app; [by apply flat_word, validIdent_word|].
    apply flat_app; [by apply flat_plain|by apply flat_word, validIdent_word].
Qed.

Lemma flat_join sep ps : flat sep -> Forall flat ps -> flat (join sep ps).
Proof.
  intros Hs. induction 1 as [|p ps Hp Hps IH]; [done|].
  destruct ps as [|q ps]; [done|]. rewrite join_cons_cons.
  by repeat apply flat_app.
Qed.

Lemma flat_cmpOp op : op ∈ cmpOps -> flat op.
Proof.
  unfold cmpOps, symbolOps. cbn [app]. intros H.
  repeat (apply elem_of_cons in H as [->|H]; [by apply flat_plain|]).
  by apply elem_of_nil in H.
Qed.

Lemma flat_node n : wfNode n -> flat (printNode n).
Proof.
  assert (flat " ") as Hsp by (by apply flat_plain).
  induction n as [op l IHl r IHr|op x IHx| | |l IHl vs|]; try done;
    cbn [printNode]; intros Hw.
  - replace ("(" ++ printNode l ++ " " ++ op ++ " " ++ printNode r ++ ")") with
      ("(" ++ (printNode l ++ " " ++ op ++ " " ++ printNode r) ++ ")")
      by (rewrite <- !app_assoc; done).
    apply flat_parens. destruct Hw as [(Hop & Hl & Hr)|(Hop & Hl & Hr)].
    + repeat apply flat_app; auto.
      destruct Hop as [-> | ->]; by apply flat_plain.
    + repeat apply flat_app; auto; [by apply flat_column|by apply flat_cmpOp|].
      destruct r; try done. by apply flat_literal.
  - destruct Hw as [-> Hx].
    change ("(" ++ "NOT" ++ " " ++ printNode x ++ ")") with
      ("(" ++ ("NOT " ++ printNode x) ++ ")").
    apply flat_parens, flat_app; [by apply flat_plain|auto].
  - destruct Hw as (Hc & _ & Hv).
    change (" IN (" ++ join ", " (map printLit vs) ++ ")") with
      (" IN " ++ ("(" ++ join ", " (map printLit vs) ++ ")")).
    apply flat_app; [by apply flat_column|]. apply flat_app; [by apply flat_plain|].
    apply flat_parens, flat_join; [by apply flat_plain|].
    apply Forall_map. eapply Forall_impl; [exact Hv|]. apply flat_literal.
Qed.

Lemma flat_balanced s : flat s -> balanced s = true.
Proof. intros H. apply bool_decide_eq_true, H. Qed.

(** ** Splitting at commas *)

Lemma splitLoop_cons c s cur st :
  splitLoop (c :: s) cur st =
    if bool_decide (c = ","%char) && bool_decide (st = (0, false)) then
      parts ← splitLoop s [] st; Ok (cur :: parts)
    else
      match step true c st with
      | None => errMalformed
      | Some st' => splitLoop s (cur ++ [c]) st'
      end.
Proof.
  cbn [splitLoop]. destruct st as [d b]. cbn [snd].
  destruct (b && bool_decide (c = quote)) eqn:E; [|done].
  apply andb_true_iff in E as [-> ->%bool_decide_eq_true].
  destruct s as [|c2 s]; [done|].
  destruct (bool_decide_reflect (c2 = quote)) as [->|]; [|done].
  cbn. by rewrite <- app_assoc.
Qed.

(** The parts, glued with commas, are the text, and each part is balanced;
    it fails exactly on unbalanced text. *)
Lemma splitLoop_spec s cur st :
  run true cur (0, false) = Some st ->
  match splitLoop s cur st with
  | Ok parts => join "," parts = cur ++ s /\ Forall (fun p => balanced p = true) parts /\
                run true s st = Some (0, false)
  | Err e => e = ErrInjectionFailed /\ run true s st <> Some (0, false)
  end.
Proof.
  revert cur st; induction s as [|c s IH]; intros cur [d b] Hc.
  - cbn [splitLoop run fst snd]. destruct b; [by split|].
    destruct (bool_decide_reflect (d = 0)) as [->|Hd].
    + rewrite app_nil_r. split_and!; [done| |done].
      repeat constructor. by apply bool_decide_eq_true.
    + split; [done|]. by intros [= ->].
  - rewrite splitLoop_cons. cbn [run].
    destruct (bool_decide (c = ","%char) && _) eqn:E.
    + rewrite andb_true_iff, !bool_decide_eq_true in E. destruct E as [-> [= -> ->]].
      specialize (IH [] (0, false) eq_refl).
      change (step true "," (0, false)) with (Some (0, false)). cbn [mbind option_bind].
      destruct (splitLoop s [] (0, false)) as [parts|e] eqn:El; cbn [mbind result_bind].
      * destruct IH as (Ej & Hp & Hr). split_and!; [|by constructor; [apply bool_decide_eq_true|]|done].
        destruct parts as [|p parts].
        { exfalso. cbn in Ej. by subst s. }
        rewrite join_cons_cons. rewrite Ej. done.
      * exact IH.
    + destruct (step true c (d, b)) as [st'|] eqn:Es; cbn [mbind option_bind]; [|done].
      assert (run true (cur ++ [c]) (0, false) = Some st') as Hc'
        by (rewrite run_app, Hc; cbn [mbind option_bind run]; by rewrite Es).
      specialize (IH _ _ Hc'). destruct (splitLoop s (cur ++ [c]) st') as [parts|e]; [|exact IH].
      destruct IH as (-> & ? & ?). split_and!; [by rewrite <- app_assoc|done|done].
Qed.

(** ** Masking a projection list *)

Definition maskedText (m : maskProj) : gostring := expr m ++ " AS " ++ col m.

(** Slot [i] is a bare column and no later slot is the same bare column. *)
Definition lastSlot (cols : list gostring) (i : nat) (c : gostring) : Prop :=
  exists x, cols !! i = Some x /\ trimSpace x = c /\ isSimpleIdent c = true /\
    forall j y, i < j -> cols !! j = Some y -> trimSpace y <> c.

Lemma lastSlot_S x cols i c : lastSlot (x :: cols) (S i) c <-> lastSlot cols i c.
Proof.
  unfold lastSlot. cbn [lookup list_lookup]. split.
  - intros (y & H1 & H2 & H3 & H4). exists y. split_and!; [done..|].
    intros j z Hj. apply (H4 (S j)). lia.
  - intros (y & H1 & H2 & H3 & H4). exists y. split_and!; [done..|].
    intros [|j] z Hj; [lia|]. apply H4. lia.
Qed.

Lemma indexCols_spec cols i0 m c i :
  indexCols i0 cols m !! c = Some i <->
  (exists k, i = i0 + k /\ lastSlot cols k c) \/
  (m !! c = Some i /\ forall x, x ∈ cols -> isSimpleIdent c = true -> trimSpace x <> c).
Proof.
  revert i0 m; induction cols as [|x cols IH]; intros i0 m; cbn [indexCols].
  - split; [intros H; right; split; [done|]; intros y Hy; by apply elem_of_nil in Hy|].
    intros [(k & _ & x & Hx & _)|[H _]]; [done|done].
  - rewrite IH. split.
    + intros [(k & -> & Hk)|[Hm Hno]].
      { left. exists (S k). split; [lia|]. by apply lastSlot_S. }
      destruct (isSimpleIdent (trimSpace x)) eqn:Ei.
      * destruct (decide (trimSpace x = c)) as [Ec|Hne].
        -- rewrite Ec, lookup_insert_eq in Hm. injection Hm as <-. left. exists 0.
           split; [lia|]. exists x. rewrite Ec in Ei. split_and!; [done..|].
           intros [|j] y Hj Hy; [lia|]. apply Hno; [|done].
           by apply (list_elem_of_lookup_2 cols j).
        -- rewrite lookup_insert_ne in Hm by done. right. split; [done|].
           intros y Hy Hc. apply elem_of_cons in Hy as [->|Hy]; [done|by apply Hno].
      * right. split; [done|]. intros y Hy Hc. apply elem_of_cons in Hy as [->|Hy].
        -- intros <-. congruence.
        -- by apply Hno.
    + intros [([|k] & -> & Hk)|[Hm Hno]].
      * right. destruct Hk as (y & [= ->] & <- & Hi & Hlater). rewrite Hi.
        split; [rewrite lookup_insert_eq; f_equal; lia|].
        intros z Hz _. apply list_elem_of_lookup in Hz as [j Hj].
        apply (Hlater (S j)); [lia|done].
      * left. exists k. split; [lia|]. by apply lastSlot_S in Hk.
      * right. split.
        -- destruct (isSimpleIdent (trimSpace x)) eqn:Ei; [|done].
           rewrite lookup_insert_ne; [done|]. intros <-. by apply (Hno x (list_elem_of_here _ _)).
        -- intros y Hy. apply Hno. by right.
Qed.

Lemma indexCols_last cols c i :
  indexCols 0 cols ∅ !! c = Some i <-> lastSlot cols i c.
Proof.
  rewrite indexCols_spec. split.
  - intros [(k & -> & H)|[H _]]; [done|by rewrite lookup_empty in H].
  - intros H. left. by exists i.
Qed.

Lemma maskLoop_spec idx rew masks :
  match maskLoop idx rew masks with
  | Ok r => length r = length rew /\ (forall m, m ∈ masks -> is_Some (idx !! col m)) /\
      forall i x, rew !! i = Some x ->
        r !! i = Some (match last (filter (fun m => idx !! col m = Some i) masks) with
                       | Some m => maskedText m | None => x end)
  | Err e => e = ErrSpliceMismatch /\ exists m, m ∈ masks /\ idx !! col m = None
  end.
Proof.
  revert rew; induction masks as [|m masks IH]; intros rew; cbn [maskLoop].
  - split_and!; [done| |by intros]. intros m Hm. by apply elem_of_nil in Hm.
  - destruct (idx !! col m) as [k|] eqn:Ek.
    2: { split; [done|]. exists m. by split; [left|]. }
    specialize (IH (<[k:=maskedText m]> rew)). unfold maskedText at 1 in IH.
    destruct (maskLoop idx _ masks) as [r|e].
    + destruct IH as (Hl & Hs & Hi). rewrite length_insert in Hl. split_and!; [done| |].
      * intros m' Hm. apply elem_of_cons in Hm as [->|Hm]; [by eexists|by apply Hs].
      * intros i x Hx. rewrite filter_cons.
        destruct (decide (idx !! col m = Some i)) as [Hd|Hd].
        -- rewrite Ek in Hd. injection Hd as ->.
           rewrite (Hi i (maskedText m)).
           2: { rewrite list_lookup_insert_eq; [done|]. by apply lookup_lt_Some in Hx. }
           rewrite last_cons. by destruct (last (filter _ masks)).
        -- apply Hi. rewrite list_lookup_insert_ne; [done|]. congruence.
    + destruct IH as (-> & m' & Hm & Hn). split; [done|]. exists m'. by split; [right|].
Qed.

(** A row filter spliced next to a balanced predicate is read back, by the
    proxy's own parser, with the conjunction as its predicate. *)
Lemma row_filter_spliced query body kind s :
  kind = KindRowFilter \/ kind = [] ->
  parseSelect query = Ok s ->
  balanced (trimSpace (where_ s)) = true -> balanced body = true ->
  exists query' w',
    SpliceArtifact query body kind = Ok query' /\
    parseSelect query' = Ok (mkSelect (projection s) (table s) w' (tail s)) /\
    trimSpace w' = conjunction (trimSpace (where_ s)) body.
Proof.
  intros Hk E Hw Hb. pose proof (parseSelect_wf _ _ E) as Hwf.
  eexists _, _. split; [|split].
  - unfold SpliceArtifact. rewrite bool_decide_eq_true_2 by done.
    by apply spliceRowFilter_text.
  - rewrite (tailText_wf s) by apply Hwf.
    destruct (parseSelect_read s (" WHERE " ++ conjunction (trimSpace (where_ s)) body ++
      (if bool_decide (tail s = []) then [] else " " ++ tail s)) Hwf) as [Er ->]; [done|].
    apply parseAfterTable_where; [exact Er| |apply Hwf].
    intros y prev. by apply scanOver_conjunction.
  - apply trimSpace_conjunction.
Qed.

(** ** Properties *)

(** A row filter spliced into a query whose WHERE clause is balanced is
    enforced: the rewritten query reads back, by the proxy's own SELECT parser,
    as the same projection, table and tail, and its WHERE clause is the
    conjunction of exactly two groups, the user's predicate and the policy's
    (of the policy's alone when the user wrote none). *)
Theorem row_filter_enforced query body kind s :
  kind = KindRowFilter \/ kind = [] ->
  parseSelect query = Ok s ->
  balanced (trimSpace (where_ s)) = true -> balanced body = true ->
  exists query' w',
    SpliceArtifact query body kind = Ok query' /\
    parseSelect query' = Ok (mkSelect (projection s) (table s) w' (tail s)) /\
    topConjuncts (trimSpace w') =
      Some (if bool_decide (trimSpace (where_ s) = []) then [body]
            else [trimSpace (where_ s); body]).
Proof.
  intros Hk Hq Hw Hb.
  destruct (row_filter_spliced query body kind s Hk Hq Hw Hb) as (q & w & Hs & Hr & Ew).
  exists q, w. split_and!; [done|done|]. rewrite Ew. by apply topConjuncts_conjunction.
Qed.

Lemma row_filter_enforced_witness :
  exists query' w',
    SpliceArtifact "select a from s.t where x = 1 or y = 'a)' limit 3" "(r = 'eu')" KindRowFilter = Ok query' /\
    parseSelect query' = Ok (mkSelect "a" "s.t" w' "limit 3") /\
    topConjuncts (trimSpace w') = Some ["x = 1 or y = 'a)'"; "(r = 'eu')"].
Proof.
  apply (row_filter_enforced "select a from s.t where x = 1 or y = 'a)' limit 3"
    "(r = 'eu')" KindRowFilter (mkSelect "a" "s.t" " x = 1 or y = 'a)' " "limit 3"));
    [by left|vm_compute; reflexivity..].
Defined.

(** What the compiler emits for an accepted row filter is balanced, for
    both live engines: spliced between parentheses it cannot close them. *)
Theorem compiled_filter_balanced tab src f n body :
  ParseRowFilter src = Ok f -> frag_Row f = Some n ->
  Trino.CompileRowFilter tab (adaptNodeForDialect n) = Ok body \/
  Spark.CompileRowFilter tab (adaptNodeForDialect n) = Ok body ->
  balanced body = true.
Proof.
  intros Hp Hn Hc. destruct (ParseRowFilter_row _ _ Hp) as (m & -> & Hw).
  injection Hn as ->. apply flat_balanced.
  assert (body = printNode n) as ->; [|by apply flat_node].
  pose proof (live_row_filter (d := TrinoCompiler) tab n Hw) as Ht.
  pose proof (live_row_filter (d := SparkCompiler) tab n Hw) as Hs.
  cbn [dc_CompileRowFilter TrinoCompiler SparkCompiler] in Ht, Hs.
  destruct Hc as [Hc|Hc]; congruence.
Qed.

Lemma compiled_filter_balanced_witness :
  balanced "((a = 'x)') AND (NOT (b > 3)))" = true.
Proof.
  apply (compiled_filter_balanced "p" "a = 'x)' and not b > 3"
    (mkFragment FragmentRowFilter (Some (BinaryOp "AND"
      (BinaryOp "=" (ColumnRef [] "a") (NLiteral (mkLiteral "string" "x)")))
      (UnaryOp "NOT" (BinaryOp ">" (ColumnRef [] "b") (NLiteral (mkLiteral "number" "3")))))) [])
    (BinaryOp "AND"
      (BinaryOp "=" (ColumnRef [] "a") (NLiteral (mkLiteral "string" "x)")))
      (UnaryOp "NOT" (BinaryOp ">" (ColumnRef [] "b") (NLiteral (mkLiteral "number" "3"))))));
    [vm_compute; reflexivity|reflexivity|left; vm_compute; reflexivity].
Defined.

(** The row filter can be escaped: [scanToTailKeyword] does not reject a
    stray closing parenthesis, so a user predicate that closes the group early
    makes the filter one operand of an OR, and the rewritten WHERE clause does
    not read as a conjunction with the policy. *)
Theorem row_filter_bypass body :
  let query := "SELECT a FROM t WHERE 1=1) OR (1=1" in
  let w := "(1=1) OR (1=1) AND (" ++ body ++ ")" in
  SpliceArtifact query body KindRowFilter = Ok ("SELECT a FROM t WHERE " ++ w) /\
  topConjuncts w = None /\
  exists s, parseSelect query = Ok s /\ balanced (trimSpace (where_ s)) = false.
Proof.
  cbn zeta.
  assert (parseSelect "SELECT a FROM t WHERE 1=1) OR (1=1" =
    Ok (mkSelect "a" "t" " 1=1) OR (1=1" [])) as E by (vm_compute; reflexivity).
  split; [|split].
  - unfold SpliceArtifact. rewrite bool_decide_eq_true_2 by (by left).
    rewrite (spliceRowFilter_text _ _ _ E).
    change (tailText (mkSelect "a" "t" " 1=1) OR (1=1" [])) with ([] : gostring).
    rewrite app_nil_r. reflexivity.
  - unfold topConjuncts. cbn [app length].
    exact (conjuncts_group _ "1=1" (" OR (1=1) AND (" ++ body ++ ")") eq_refl).
  - eexists. split; [exact E|]. vm_compute. reflexivity.
Qed.

(** A query pinned to a snapshot is always refused by the splice that
    follows: the time-travel clause the pin rewrite puts after the table is
    taken for a table alias, whatever the policy and its kind. *)
Theorem pinned_query_never_spliced query id d query' body kind :
  RewriteFromForSnapshotPin query id d = Ok query' ->
  kind = KindRowFilter \/ kind = [] \/ kind = KindColumnMask ->
  SpliceArtifact query' body kind = Err ErrUnsupportedQueryShape.
Proof.
  intros H%pinned_unparsed Hk.
  unfold SpliceArtifact, spliceRowFilter, spliceColumnMask. rewrite H.
  destruct Hk as [-> |[-> | ->]]; reflexivity.
Qed.

Lemma pinned_query_never_spliced_witness :
  SpliceArtifact "SELECT a FROM t FOR VERSION AS OF 42 WHERE x = 1" "y = 2" KindRowFilter =
    Err ErrUnsupportedQueryShape.
Proof.
  apply (pinned_query_never_spliced "SELECT a FROM t WHERE x = 1" "42" PinDialectTrino);
    [vm_compute; reflexivity|by left].
Defined.

(** The pin rewrite embeds nothing but a decimal integer: it succeeds
    exactly on an accepted query with a decimal snapshot id, and its output is
    the query with the pin clause after the table. *)
Theorem pin_rewrite_spec query id d :
  match RewriteFromForSnapshotPin query id d with
  | Ok query' =>
      (exists sg ds, id = sg ++ ds /\ (sg = [] \/ sg = "-") /\ ds <> [] /\
         forallb isDigit ds = true) /\
      exists s, parseSelect query = Ok s /\
        query' = selectHead s ++ pinClause d id ++ whereText s ++ tailText s
  | Err e =>
      (isDecimalInt id = false /\ e = ErrInjectionFailed) \/ parseSelect query = Err e
  end.
Proof.
  unfold RewriteFromForSnapshotPin. destruct (isDecimalInt id) eqn:Ed; cbn [negb].
  2: by left.
  destruct (parseSelect query) as [s|e]; cbn [mbind result_bind]; [|by right].
  split.
  - unfold isDecimalInt in Ed. destruct id as [|c id]; [done|].
    destruct (bool_decide_reflect (c = "-"%char)) as [->|Hc];
      apply andb_true_iff in Ed as [Hne%negb_true_iff%bool_decide_eq_false Hd].
    + exists "-", id. auto.
    + exists [], (c :: id). auto.
  - exists s. split; [done|]. unfold selectHead. by rewrite <- !app_assoc.
Qed.

(** [applyMasks] rewrites, for every mask, the last bare slot of its
    column (with the last mask of that column) and no other slot; it fails
    exactly when a masked column has no bare slot. *)
Theorem applyMasks_spec cols masks :
  match applyMasks cols masks with
  | Ok r => length r = length cols /\
      (forall m, m ∈ masks -> exists i, lastSlot cols i (col m)) /\
      forall i x, cols !! i = Some x ->
        (lastSlot cols i (trimSpace x) /\ exists m,
           last (filter (fun m => col m = trimSpace x) masks) = Some m /\
           r !! i = Some (maskedText m)) \/
        ((forall m, m ∈ masks -> ~ lastSlot cols i (col m)) /\ r !! i = Some x)
  | Err e => e = ErrSpliceMismatch /\
      exists m, m ∈ masks /\ forall i, ~ lastSlot cols i (col m)
  end.
Proof.
  unfold applyMasks. pose proof (maskLoop_spec (indexCols 0 cols ∅) cols masks) as H.
  destruct (maskLoop _ cols masks) as [r|e].
  - destruct H as (Hl & Hs & Hi). split_and!; [done| |].
    + intros m Hm. destruct (Hs m Hm) as [i E]. exists i. by apply indexCols_last.
    + intros i x Hx. rewrite (Hi i x Hx).
      assert (forall m, indexCols 0 cols ∅ !! col m = Some i ->
        col m = trimSpace x /\ lastSlot cols i (trimSpace x)) as Hcol.
      { intros m Hm. apply indexCols_last in Hm as Hm'.
        destruct Hm' as (y & Hy & Ey & _). rewrite Hx in Hy. injection Hy as <-.
        split; [done|]. rewrite Ey. by apply indexCols_last. }
      set (sel := filter (fun m => indexCols 0 cols ∅ !! col m = Some i) masks).
      destruct (last sel) as [m|] eqn:El; subst sel.
      * left. assert (m ∈ filter (fun m => indexCols 0 cols ∅ !! col m = Some i) masks) as Hm
          by (apply last_Some in El as [l ->]; apply elem_of_app; right; by left).
        apply list_elem_of_filter in Hm as [Hm _]. destruct (Hcol m Hm) as [Em Hlast].
        split; [done|]. exists m. split; [|done]. rewrite <- El.
        apply (f_equal last), list_filter_iff. intros m'. split.
        -- intros E. rewrite E. by apply indexCols_last.
        -- intros E. by apply Hcol in E as [].
      * right. split; [|done]. intros m Hm Hlast. apply indexCols_last in Hlast.
        apply last_None in El. assert (m ∈ @nil maskProj) as Hin; [|by apply elem_of_nil in Hin].
        rewrite <- El. by apply list_elem_of_filter.
  - destruct H as (-> & m & Hm & Hn). split; [done|]. exists m. split; [done|].
    intros i Hi. apply indexCols_last in Hi. congruence.
Qed.

(** A column mask covers one occurrence only: of a column projected
    twice, the first slot is left as it is, for every masking expression. *)
Theorem column_mask_misses_duplicate e :
  applyMasks ["ssn"; "ssn"] [mkMaskProj "ssn" e] = Ok ["ssn"; e ++ " AS ssn"].
Proof. reflexivity. Qed.

(** [splitTopLevelCommas] succeeds exactly on balanced text; the parts are
    balanced and, joined with commas, give the text back. *)
Theorem splitTopLevelCommas_spec s :
  match splitTopLevelCommas s with
  | Ok parts => balanced s = true /\ join "," parts = s /\
                Forall (fun p => balanced p = true) parts
  | Err e => balanced s = false /\ e = ErrInjectionFailed
  end.
Proof.
  unfold splitTopLevelCommas. pose proof (splitLoop_spec s [] (0, false) eq_refl) as H.
  unfold balanced at 1. unfold balanced at 2.
  destruct (splitLoop s [] (0, false)) as [parts|e].
  - destruct H as (Hj & Hp & Hr). split_and!; [by apply bool_decide_eq_true|done|done].
  - destruct H as [-> Hr]. split; [by apply bool_decide_eq_false|done].
Qed.
