(* ===== verification/SqlText.v ===== *)
(** * How an engine reads a query's text

    The splicer of Splice tracks parentheses and single quotes only.  An engine
    also knows quoted identifiers, comments and, for Spark, backslash escapes in
    strings.  This file is the specification side: SQL's lexical structure as a
    state machine, on what text the two readings agree, and that an emitted row
    filter is such text. *)

From S2P Require Import Prelude SqlGrammar SqlPrint Dialect Splice SpliceLemmas SpliceSpec.
From Stdlib Require Import Lia.
Import Lexer.

(** ** SQL's lexical structure *)

(** Where an engine's lexer is: in plain code, in a string, after a backslash
    in a string, in an identifier quoted by [q], after a dash or a slash that
    may open a comment, in a comment, after a star in a block comment. *)
Inductive sqlMode :=
  | InCode | InString | InEscape | InName (q : ascii)
  | AfterDash | AfterSlash | InLine | InBlock | AfterStar.

#[export] Instance sqlMode_eq_dec : EqDecision sqlMode.
Proof. solve_decision. Defined.

Definition dquote : ascii := ascii_of_N 34.
Definition backquote : ascii := "`".
Definition backslash : ascii := "\".

Definition codeStep (c : ascii) : sqlMode :=
  if bool_decide (c = quote) then InString
  else if bool_decide (c = dquote \/ c = backquote) then InName c
  else if bool_decide (c = "-"%char) then AfterDash
  else if bool_decide (c = "/"%char) then AfterSlash
  else InCode.

(** [esc]: a backslash escapes the next byte of a string, as in Spark. *)
Definition modeStep (esc : bool) (m : sqlMode) (c : ascii) : sqlMode :=
  match m with
  | InCode => codeStep c
  | InString =>
      if bool_decide (c = quote) then InCode
      else if esc && bool_decide (c = backslash) then InEscape else InString
  | InEscape => InString
  | InName q => if bool_decide (c = q) then InCode else InName q
  | AfterDash => if bool_decide (c = "-"%char) then InLine else codeStep c
  | AfterSlash => if bool_decide (c = "*"%char) then InBlock else codeStep c
  | InLine => if bool_decide (ord c = 10%N \/ ord c = 13%N) then InCode else InLine
  | InBlock => if bool_decide (c = "*"%char) then AfterStar else InBlock
  | AfterStar =>
      if bool_decide (c = "/"%char) then InCode
      else if bool_decide (c = "*"%char) then AfterStar else InBlock
  end.

Definition inCode (m : sqlMode) : bool :=
  bool_decide (m = InCode \/ m = AfterDash \/ m = AfterSlash).

(** The parenthesis depth and the mode after [c]; [None] at a [)] that closes
    nothing. *)
Definition sqlStep (esc : bool) (c : ascii) (st : nat * sqlMode) : option (nat * sqlMode) :=
  let '(d, m) := st in
  let m' := modeStep esc m c in
  if inCode m && bool_decide (c = "("%char) then Some (S d, m')
  else if inCode m && bool_decide (c = ")"%char) then
    match d with 0 => None | S d => Some (d, m') end
  else Some (d, m').

Fixpoint sqlRun (esc : bool) (s : gostring) (st : nat * sqlMode) : option (nat * sqlMode) :=
  match s with
  | [] => Some st
  | c :: s => st' ← sqlStep esc c st; sqlRun esc s st'
  end.

(** As the engine reads it, the text closes every group, string, quoted
    identifier and comment it opens, and no other group. *)
Definition sqlBalanced (esc : bool) (s : gostring) : bool :=
  bool_decide (sqlRun esc s (0, InCode) = Some (0, InCode)).

(** The text up to the [)] that closes the group the text is in, and what
    follows it. *)
Fixpoint sqlCloseGroup (esc : bool) (s : gostring) (st : nat * sqlMode)
  : option (gostring * gostring) :=
  match s with
  | [] => None
  | c :: s' =>
      if bool_decide (c = ")"%char) && bool_decide (st.1 = 0) && inCode st.2 then Some ([], s')
      else
        st' ← sqlStep esc c st;
        '(g, rest) ← sqlCloseGroup esc s' st';
        Some (c :: g, rest)
  end.

(** The predicate as the engine reads it, when it is parenthesised groups
    joined by [AND]. *)
Fixpoint sqlConjuncts (esc : bool) (fuel : nat) (s : gostring) : option (list gostring) :=
  match fuel, s with
  | S fuel, c :: s' =>
      if bool_decide (c = "("%char) then
        '(g, rest) ← sqlCloseGroup esc s' (0, InCode);
        match rest with
        | [] => Some [g]
        | _ =>
            if hasPrefix " AND " rest then
              gs ← sqlConjuncts esc fuel (drop 5 rest); Some (g :: gs)
            else None
        end
      else None
  | _, _ => None
  end.

Definition sqlTopConjuncts (esc : bool) (s : gostring) : option (list gostring) :=
  sqlConjuncts esc (length s) s.

(** ** Plain text *)

Definition plainMode (m : sqlMode) : bool := inCode m || bool_decide (m = InString).

(** The mode after [s], if on the way no backslash, quoted identifier or
    comment was met. *)
Fixpoint plainRun (m : sqlMode) (s : gostring) : option sqlMode :=
  match s with
  | [] => Some m
  | c :: s =>
      let m' := modeStep false m c in
      if bool_decide (c <> backslash) && plainMode m' then plainRun m' s else None
  end.

(** No backslash, no quoted identifier and no comment, every string closed and
    nothing at the end that could open a comment. *)
Definition plainText (s : gostring) : bool := bool_decide (plainRun InCode s = Some InCode).

Lemma plainRun_app m s t :
  plainRun m (s ++ t) = m' ← plainRun m s; plainRun m' t.
Proof.
  revert m; induction s as [|c s IH]; intros m; [done|]. cbn [plainRun app].
  destruct (_ && plainMode _); [apply IH|done].
Qed.

Lemma plainText_app s t :
  plainText s = true -> plainText t = true -> plainText (s ++ t) = true.
Proof.
  unfold plainText. rewrite !bool_decide_eq_true, plainRun_app. by intros ->.
Qed.

Lemma modeStep_plain esc m c :
  plainMode m = true -> c <> backslash -> modeStep esc m c = modeStep false m c.
Proof.
  intros _ Hc. destruct m; try done. cbn [modeStep].
  by rewrite (bool_decide_eq_false_2 (c = backslash)), andb_false_r.
Qed.

(** The splicer's state that stands for an engine's. *)
Definition asSplicer (st : nat * sqlMode) : nat * bool := (st.1, bool_decide (st.2 = InString)).

Lemma codeStep_paren c : c = "("%char \/ c = ")"%char -> codeStep c = InCode.
Proof. by intros [-> | ->]. Qed.

Lemma codeStep_string c : bool_decide (codeStep c = InString) = bool_decide (c = quote).
Proof.
  unfold codeStep. destruct (bool_decide_reflect (c = quote)); [done|].
  by repeat case_bool_decide.
Qed.

(** In code every byte but the second of a comment's opening is read alike. *)
Lemma step_code strict d c m :
  inCode m = true -> plainMode (modeStep false m c) = true ->
  modeStep false m c = codeStep c /\
  step strict c (d, false) =
    if bool_decide (c = "("%char) then Some (S d, false)
    else if bool_decide (c = ")"%char) then
      match d with 0 => if strict then None else Some (0, false) | S d => Some (d, false) end
    else Some (d, bool_decide (codeStep c = InString)).
Proof.
  intros Hm Hp. split.
  - destruct m; try done; cbn [modeStep] in *; by case_bool_decide.
  - rewrite codeStep_string. cbn [step].
    destruct (bool_decide_reflect (c = quote)) as [->|]; [done|].
    by repeat case_bool_decide.
Qed.

(** On plain text the two lexers move alike. *)
Lemma sqlStep_plain esc c d m :
  plainMode m = true -> c <> backslash -> plainMode (modeStep false m c) = true ->
  step true c (asSplicer (d, m)) = asSplicer <$> sqlStep esc c (d, m) /\
  (forall st', sqlStep esc c (d, m) = Some st' -> st'.2 = modeStep false m c).
Proof.
  intros Hm Hc Hp. unfold sqlStep, asSplicer. rewrite (modeStep_plain _ _ _ Hm Hc).
  cbn [fst snd]. destruct (inCode m) eqn:Ei; cbn [andb].
  - rewrite (bool_decide_eq_false_2 (m = InString)) by (by intros ->).
    destruct (step_code true d c m Ei Hp) as [-> ->].
    destruct (bool_decide_reflect (c = "("%char)) as [->|];
      [|destruct (bool_decide_reflect (c = ")"%char)) as [->|]];
      [|destruct d|]; split; cbn; try done; by intros ? [= <-].
  - destruct m; try done. cbn [modeStep].
    rewrite (bool_decide_eq_true_2 (InString = InString)) by done. cbn [step andb].
    split; [|by intros ? [= <-]]. destruct (bool_decide_reflect (c = quote)); done.
Qed.

Lemma plainRun_cons m c s m2 :
  plainRun m (c :: s) = Some m2 ->
  c <> backslash /\ plainMode (modeStep false m c) = true /\
  plainRun (modeStep false m c) s = Some m2.
Proof.
  cbn [plainRun]. destruct (bool_decide_reflect (c <> backslash)); [|done].
  by destruct (plainMode _).
Qed.

Lemma sqlRun_plain esc s d m m2 :
  plainMode m = true -> plainRun m s = Some m2 ->
  run true s (asSplicer (d, m)) = asSplicer <$> sqlRun esc s (d, m) /\
  (forall st', sqlRun esc s (d, m) = Some st' -> st'.2 = m2).
Proof.
  revert d m; induction s as [|c s IH]; intros d m Hm Hs.
  - injection Hs as ->. split; [done|]. by intros ? [= <-].
  - apply plainRun_cons in Hs as (Hc & Hp & Hs).
    destruct (sqlStep_plain esc c d m Hm Hc Hp) as [E Em]. cbn [run sqlRun].
    rewrite E. destruct (sqlStep esc c (d, m)) as [[d' m']|]; [|done].
    specialize (Em _ eq_refl). cbn [snd] in Em. rewrite <- Em in Hp, Hs.
    exact (IH d' m' Hp Hs).
Qed.

(** A plain text is balanced for the engine exactly when it is for the splicer. *)
Lemma sqlBalanced_plain esc s : plainText s = true -> sqlBalanced esc s = balanced s.
Proof.
  intros H%bool_decide_eq_true. unfold sqlBalanced, balanced.
  destruct (sqlRun_plain esc s 0 InCode InCode eq_refl H) as [E Em].
  change (asSplicer (0, InCode)) with (0, false) in E. rewrite E.
  destruct (sqlRun esc s (0, InCode)) as [[d m]|]; [|done].
  specialize (Em _ eq_refl). cbn [snd] in Em. subst m. apply bool_decide_ext.
  unfold asSplicer. cbn. split; by intros [= ->].
Qed.

(** ** Reading groups *)

Lemma sqlCloseGroup_plain esc s d m m2 :
  plainMode m = true -> plainRun m s = Some m2 ->
  sqlCloseGroup esc s (d, m) = closeGroup s (asSplicer (d, m)) /\
  forall g rest, sqlCloseGroup esc s (d, m) = Some (g, rest) ->
    plainRun InCode rest = Some m2.
Proof.
  revert d m; induction s as [|c s IH]; intros d m Hm Hs; [done|].
  apply plainRun_cons in Hs as (Hc & Hp & Hs). cbn [sqlCloseGroup closeGroup].
  assert (bool_decide (asSplicer (d, m) = (0, false)) = bool_decide (d = 0) && inCode m) as ->.
  { unfold asSplicer. cbn [fst snd]. unfold plainMode in Hm. destruct d as [|d], m; try done. }
  cbn [fst snd]. rewrite andb_assoc.
  destruct (bool_decide (c = ")"%char) && _ && _) eqn:E.
  - rewrite !andb_true_iff in E. destruct E as [[Hc'%bool_decide_eq_true _] Hi].
    split; [done|]. intros g rest [= <- <-].
    destruct (step_code true d c m Hi Hp) as [Ec _]. subst c. rewrite Ec in Hs. exact Hs.
  - destruct (sqlStep_plain esc c d m Hm Hc Hp) as [Est Em]. rewrite Est.
    destruct (sqlStep esc c (d, m)) as [[d' m']|]; [|done].
    specialize (Em _ eq_refl). cbn [snd] in Em. rewrite <- Em in Hp, Hs.
    destruct (IH d' m' Hp Hs) as [Eg Hg]. cbn [fmap option_fmap option_map mbind option_bind].
    rewrite <- Eg. destruct (sqlCloseGroup esc s (d', m')) as [[g rest]|]; [|done].
    split; [done|]. intros ? ? [= <- <-]. by apply (Hg g).
Qed.

Lemma sqlConjuncts_plain esc fuel s :
  plainRun InCode s = Some InCode -> sqlConjuncts esc fuel s = conjuncts fuel s.
Proof.
  revert s; induction fuel as [|fuel IH]; intros [|c s] Hs; try done.
  cbn [sqlConjuncts conjuncts]. destruct (bool_decide_reflect (c = "("%char)) as [->|]; [|done].
  apply plainRun_cons in Hs as (_ & _ & Hs). change (modeStep false InCode "(") with InCode in Hs.
  destruct (sqlCloseGroup_plain esc s 0 InCode InCode eq_refl Hs) as [Eg Hg].
  change (asSplicer (0, InCode)) with (0, false) in Eg. rewrite <- Eg.
  destruct (sqlCloseGroup esc s (0, InCode)) as [[g rest]|]; [|done].
  specialize (Hg _ _ eq_refl). cbn [mbind option_bind]. destruct rest as [|a rest]; [done|].
  destruct (hasPrefix " AND " (a :: rest)) eqn:Ep; [|done].
  apply hasPrefix_spec in Ep as [t Et]. rewrite Et in Hg |- *.
  change (drop 5 (" AND " ++ t)) with t. by rewrite IH.
Qed.

(** The conjuncts of a plain predicate are the same for the engine and for the
    splicer. *)
Lemma sqlTopConjuncts_plain esc s :
  plainText s = true -> sqlTopConjuncts esc s = topConjuncts s.
Proof. intros H%bool_decide_eq_true. by apply sqlConjuncts_plain. Qed.

(** ** Reading a whole query *)

Definition modeAfter (esc : bool) (s : gostring) : sqlMode := foldl (modeStep esc) InCode s.

(** At every point of the text the engine's lexer is in no comment and no
    quoted identifier, and inside a string exactly where the splicer is: each
    keyword, comma and parenthesis the one finds is one for the other. *)
Definition readsAlike (esc : bool) (s : gostring) : Prop :=
  forall u v, s = u ++ v ->
  plainMode (modeAfter esc u) = true /\
  exists d, run false u (0, false) = Some (d, bool_decide (modeAfter esc u = InString)).

Lemma step_alike esc c d m :
  plainMode m = true -> c <> backslash -> plainMode (modeStep false m c) = true ->
  exists d', step false c (d, bool_decide (m = InString)) =
    Some (d', bool_decide (modeStep esc m c = InString)).
Proof.
  intros Hm Hc Hp. rewrite (modeStep_plain _ _ _ Hm Hc). destruct (inCode m) eqn:Ei.
  - rewrite (bool_decide_eq_false_2 (m = InString)) by (by intros ->).
    destruct (step_code false d c m Ei Hp) as [-> ->]. rewrite codeStep_string.
    destruct (bool_decide_reflect (c = "("%char)) as [->|]; [by eexists|].
    destruct (bool_decide_reflect (c = ")"%char)) as [->|]; [destruct d; by eexists|by eexists].
  - destruct m; try done. exists d. cbn [modeStep step andb].
    rewrite (bool_decide_eq_true_2 (InString = InString)) by done.
    by destruct (bool_decide_reflect (c = quote)).
Qed.

Lemma plainText_alike esc s : plainText s = true -> readsAlike esc s.
Proof.
  intros H%bool_decide_eq_true u v ->.
  assert (forall m d, plainMode m = true -> is_Some (plainRun m u) ->
    plainMode (foldl (modeStep esc) m u) = true /\
    exists d', run false u (d, bool_decide (m = InString)) =
      Some (d', bool_decide (foldl (modeStep esc) m u = InString))) as Hu.
  { clear H. induction u as [|c u IH]; intros m d Hm [m2 Hr]; [split; [done|by exists d]|].
    apply plainRun_cons in Hr as (Hc & Hp & Hr).
    destruct (step_alike esc c d m Hm Hc Hp) as [d' Es]. cbn [foldl run]. rewrite Es.
    cbn [mbind option_bind]. rewrite (modeStep_plain _ _ _ Hm Hc).
    apply IH; [done|by eexists]. }
  apply (Hu InCode 0 eq_refl). rewrite plainRun_app in H.
  destruct (plainRun InCode u); [by eexists|done].
Qed.

(** ** Emitted row filters are plain *)

Lemma plainText_word s : forallb isWordChar s = true -> plainText s = true.
Proof.
  intros H. apply bool_decide_eq_true. induction s as [|c s IH]; [done|].
  cbn [forallb] in H. apply andb_true_iff in H as [Hc Hs]. cbn [plainRun].
  assert (modeStep false InCode c = InCode /\ c <> backslash) as [-> Hb]
    by (revert Hc; by_byte c; done).
  rewrite bool_decide_eq_true_2 by done. by apply IH.
Qed.

Definition noBackslash (s : gostring) : bool := forallb (fun c => bool_decide (c <> backslash)) s.

Lemma noBackslash_app s t : noBackslash (s ++ t) = noBackslash s && noBackslash t.
Proof. apply forallb_app. Qed.

Lemma plainRun_string v t :
  noBackslash (doubleQuotes v) = true ->
  plainRun InString (doubleQuotes v ++ quote :: t) = plainRun InCode t.
Proof.
  induction v as [|c v IH]; [done|]. cbn [doubleQuotes].
  destruct (bool_decide_reflect (c = quote)) as [->|Hc]; cbn [app noBackslash forallb].
  - intros H. exact (IH H).
  - intros [Hb Hv]%andb_true_iff. cbn [plainRun modeStep]. rewrite Hb.
    rewrite (bool_decide_eq_false_2 (c = quote)) by done. exact (IH Hv).
Qed.

Lemma plainText_number v : numberLexeme v -> plainText v = true.
Proof.
  intros (sg & d1 & fr & d2 & -> & Hsg & H1 & H2 & Hf & Hl).
  assert (forall x, allDigits x = true -> forallb isWordChar x = true) as Hd.
  { intros x Hx. apply forallb_Forall_true. apply forallb_Forall_true in Hx.
    eapply Forall_impl; [exact Hx|]. intros c Hc. by apply isDigit_word. }
  apply Hd in H1, H2.
  assert (forall x, x = d1 \/ x = d2 -> plainText x = true) as Hp
    by (intros x [-> | ->]; by apply plainText_word).
  assert (plainText fr = true) as Hfr by (by destruct Hf as [-> |[-> _]]).
  assert (plainText (d1 ++ fr ++ d2) = true) as Hu by (repeat apply plainText_app; auto).
  destruct Hsg as [-> |[-> | ->]]; [exact Hu|by apply (plainText_app "+")|].
  apply bool_decide_eq_true. apply bool_decide_eq_true in Hu.
  change (plainRun AfterDash (d1 ++ fr ++ d2) = Some InCode).
  assert (exists c u, d1 ++ fr ++ d2 = c :: u /\ c <> "-"%char) as (c & u & E & Hc).
  { destruct d1 as [|c d1].
    - destruct Hf as [-> |[_ ->]]; [|cbn in Hl; lia]. exists "."%char, d2. done.
    - exists c, (d1 ++ fr ++ d2). split; [done|]. intros ->. done. }
  rewrite E in Hu |- *. cbn [plainRun modeStep] in Hu |- *.
  by rewrite (bool_decide_eq_false_2 (c = "-"%char)).
Qed.

Lemma plainText_literal l :
  wfLiteral l -> noBackslash (printLit l) = true -> plainText (printLit l) = true.
Proof.
  unfold printLit. intros [[-> _]|[[-> H]| ->]].
  - rewrite bool_decide_eq_true_2 by done. intros Hb.
    cbn [noBackslash forallb] in Hb. apply andb_true_iff in Hb as [_ Hb].
    change (forallb _ ?v) with (noBackslash v) in Hb.
    rewrite noBackslash_app in Hb. apply andb_true_iff in Hb as [Hb _].
    apply bool_decide_eq_true. cbn [plainRun].
    change (modeStep false InCode quote) with InString. by rewrite plainRun_string.
  - rewrite bool_decide_eq_false_2, bool_decide_eq_true_2 by done. intros _.
    by apply plainText_number.
  - done.
Qed.

Lemma plainText_column n : wfColumn n -> plainText (printNode n) = true.
Proof.
  destruct n as [| |t c| | |]; try done. destruct t as [|a t].
  - intros [H _]. by apply plainText_word, validIdent_word.
  - intros (H1 & _ & H2). cbn [printNode].
    apply plainText_app; [by apply plainText_word, validIdent_word|].
    by apply (plainText_app "."), plainText_word, validIdent_word.
Qed.

Lemma plainText_literals vs :
  Forall wfLiteral vs -> noBackslash (join ", " (map printLit vs)) = true ->
  plainText (join ", " (map printLit vs)) = true.
Proof.
  induction 1 as [|l vs Hl Hvs IH]; [done|]. destruct vs as [|l2 vs].
  - by apply plainText_literal.
  - cbn [map]. rewrite join_cons_cons. rewrite !noBackslash_app, !andb_true_iff.
    intros (H1 & _ & H2). apply plainText_app; [by apply plainText_literal|].
    apply (plainText_app ", "); [done|by apply IH].
Qed.

Lemma plainText_cmpOp op : op ∈ cmpOps -> plainText op = true.
Proof.
  unfold cmpOps, symbolOps. cbn [app]. intros H.
  repeat (apply elem_of_cons in H as [->|H]; [done|]). by apply elem_of_nil in H.
Qed.

(** The text emitted for a fragment is plain unless a string of it holds a
    backslash. *)
Lemma plainText_node n :
  wfNode n -> noBackslash (printNode n) = true -> plainText (printNode n) = true.
Proof.
  induction n as [op l IHl r IHr|op x IHx| | |l IHl vs|]; try done;
    cbn [printNode]; intros Hw; rewrite !noBackslash_app, !andb_true_iff.
  - intros (_ & Hl & _ & _ & _ & Hr & _). destruct Hw as [(Hop & Hwl & Hwr)|(Hop & Hwl & Hwr)].
    + repeat apply plainText_app; auto. by destruct Hop as [-> | ->].
    + repeat apply plainText_app; try done.
      * by apply plainText_column.
      * by apply plainText_cmpOp.
      * destruct r; try done. by apply plainText_literal.
  - destruct Hw as [-> Hx]. intros (_ & _ & _ & Hb & _).
    repeat apply plainText_app; auto.
  - destruct Hw as (Hc & _ & Hv). intros (_ & _ & Hb & _).
    repeat apply plainText_app; try done; [by apply plainText_column|by apply plainText_literals].
Qed.

(** ** A spliced query is plain *)

Lemma plainText_conjunction w body :
  plainText w = true -> plainText body = true -> plainText (conjunction w body) = true.
Proof.
  intros Hw Hb. unfold conjunction. destruct (bool_decide (w = []));
    repeat apply plainText_app; done.
Qed.

(** The parts of a query the splicer copies are plain. *)
Definition plainSelect (s : selectShape) : bool :=
  plainText (projection s) && plainText (trimSpace (where_ s)) && plainText (tail s).

Lemma plainText_table tab : validTable tab -> plainText tab = true.
Proof.
  intros (_ & _ & _ & _ & H). revert H. generalize tab. clear. intros tab H.
  apply bool_decide_eq_true. induction tab as [|c s IH]; [done|].
  cbn [forallb] in H. apply andb_true_iff in H as [Hc Hs]. cbn [plainRun].
  assert (modeStep false InCode c = InCode /\ c <> backslash) as [-> Hb]
    by (revert Hc; by_byte c; done).
  rewrite bool_decide_eq_true_2 by done. by apply IH.
Qed.

Lemma plainText_spliced s body :
  wfSelect s -> plainSelect s = true -> plainText body = true ->
  plainText (selectHead s ++ " WHERE " ++ conjunction (trimSpace (where_ s)) body ++ tailText s)
    = true.
Proof.
  unfold plainSelect. rewrite !andb_true_iff. intros [_ Ht Htl] [[Hp Hw] Hl] Hb.
  rewrite tailText_wf by done. unfold selectHead.
  assert (plainText (if bool_decide (tail s = []) then [] else " " ++ tail s) = true) as Htail
    by (case_bool_decide; [done|by apply (plainText_app " ")]).
  pose proof (plainText_table _ Ht).
  repeat apply plainText_app; try done. by apply plainText_conjunction.
Qed.

(** A row filter spliced into plain clauses is a conjunct for the engine. *)
Lemma row_filter_reads esc query body kind s :
  kind = KindRowFilter \/ kind = [] ->
  parseSelect query = Ok s -> plainSelect s = true ->
  sqlBalanced esc (trimSpace (where_ s)) = true ->
  plainText body = true -> balanced body = true ->
  exists query' w',
    SpliceArtifact query body kind = Ok query' /\
    parseSelect query' = Ok (mkSelect (projection s) (table s) w' (tail s)) /\
    sqlTopConjuncts esc (trimSpace w') =
      Some (if bool_decide (trimSpace (where_ s) = []) then [body]
            else [trimSpace (where_ s); body]) /\
    readsAlike esc query'.
Proof.
  intros Hk Hq Hp Hw Hb Hbal. pose proof (parseSelect_wf _ _ Hq) as Hwf.
  assert (plainText (trimSpace (where_ s)) = true) as Hpw
    by (unfold plainSelect in Hp; rewrite !andb_true_iff in Hp; tauto).
  rewrite sqlBalanced_plain in Hw by done.
  destruct (row_filter_spliced query body kind s Hk Hq Hw Hbal)
    as (query' & w' & Hs & Hr & Ew).
  exists query', w'. split_and!; [done|done| |].
  - rewrite Ew, sqlTopConjuncts_plain by (by apply plainText_conjunction).
    by apply topConjuncts_conjunction.
  - apply plainText_alike. unfold SpliceArtifact in Hs.
    rewrite bool_decide_eq_true_2, (spliceRowFilter_text _ _ _ Hq) in Hs by done.
    injection Hs as <-. by apply plainText_spliced.
Qed.

(** ** Where the two readings part

    Outside plain text the splicer loses track.  [quoted s] is [s] as a quoted
    identifier. *)

Definition quoted (s : gostring) : gostring := dquote :: s ++ [dquote].

(** A parenthesis in a quoted identifier counts for the splicer: the predicate
    below is balanced for it although it closes the splicer's group, and the
    filter becomes one operand of an OR. *)
Lemma quoted_name_escapes :
  let w := quoted "a(" ++ " = 1) OR (" ++ quoted "b)" ++ " = 1" in
  balanced w = true /\ sqlBalanced false w = false /\
  SpliceArtifact ("SELECT a FROM t WHERE " ++ w) "r = 1" KindRowFilter =
    Ok ("SELECT a FROM t WHERE (" ++ w ++ ") AND (r = 1)") /\
  topConjuncts (conjunction w "r = 1") = Some [w; "r = 1"] /\
  sqlTopConjuncts false (conjunction w "r = 1") = None.
Proof. repeat split; vm_compute; reflexivity. Qed.

(** A quoted parenthesis hides a set operation of the tail: its second query
    is not filtered. *)
Lemma quoted_name_hides_union :
  let tl := "GROUP BY a, " ++ quoted "(" ++ " UNION ALL SELECT a FROM t" in
  SpliceArtifact ("SELECT a FROM t WHERE a = 1 " ++ tl) "r = 1" KindRowFilter =
    Ok ("SELECT a FROM t WHERE (a = 1) AND (r = 1) " ++ tl).
Proof. vm_compute. reflexivity. Qed.

(** A line comment swallows the policy. *)
Lemma comment_drops_filter :
  let query := "SELECT a FROM t WHERE 1 = 1) -- x" in
  let w := "(1 = 1) -- x) AND (r = 1)" in
  SpliceArtifact query "r = 1" KindRowFilter = Ok ("SELECT a FROM t WHERE " ++ w) /\
  modeAfter false ("SELECT a FROM t WHERE " ++ w) = InLine /\
  modeAfter false "SELECT a FROM t WHERE (1 = 1) " = InCode.
Proof. repeat split; vm_compute; reflexivity. Qed.

(** The emitters double the quotes of a string and leave its backslashes: the
    filter [name = 'x\'] is balanced for the splicer and an open string for an
    engine where a backslash escapes, which Spark is by default. *)
Lemma backslash_opens_string :
  let src := "name = 'x" ++ [backslash] ++ "'" in
  exists n, ParseRowFilter src = Ok (mkFragment FragmentRowFilter (Some n) []) /\
  Spark.CompileRowFilter "p" (adaptNodeForDialect n) = Ok (printNode n) /\
  balanced (printNode n) = true /\ sqlBalanced true (printNode n) = false.
Proof. eexists. repeat split; vm_compute; reflexivity. Qed.
