(* ===== verification/Cypher.v ===== *)
(** * The graph client

    [internal/graph]: the allowlist for spliced Cypher literals, the traversal
    depth check, the typed traversal fragments, the label whitelist, SQL quoting
    and the tenant transaction of [ExecuteInTenant].  A function that panics
    returns [None]. *)

From S2P Require Import Prelude Effects.
From Stdlib Require Import Lia.

(** ** Literals ([safe_cypher.go]) *)

Definition isLetter (b : ascii) : bool := isLower b || isUpper b.

Definition literalPunctuation : gostring := "._-/:@+=~%?&,[]()* ".

Definition cypherLiteralAllow (b : ascii) : bool :=
  isLetter b || isDigit b || bool_decide (b ∈ literalPunctuation).

(** [ErrCypherUnsafeLiteral] with the offending byte and its offset. *)
Inductive cypher_err :=
  | ErrCypherUnsafeLiteral (b : ascii) (offset : nat)
  | ErrUnboundedTraversal (offending : gostring).

Fixpoint sanitizeLoop (s : gostring) (i : nat) : option cypher_err :=
  match s with
  | [] => None
  | b :: s' =>
      if negb (cypherLiteralAllow b) then Some (ErrCypherUnsafeLiteral b i)
      else sanitizeLoop s' (S i)
  end.

Definition SanitizeCypherLiteral (s : gostring) : result cypher_err gostring :=
  match sanitizeLoop s 0 with
  | Some e => Err e
  | None => Ok s
  end.

Definition MustSanitizeCypherLiteral (s : gostring) : option gostring :=
  match SanitizeCypherLiteral s with Ok s => Some s | Err _ => None end.

Definition IsSafeCypherLiteral (s : gostring) : bool := is_ok (SanitizeCypherLiteral s).

(** ** Traversal depth ([client.go]) *)

(** [\s|\]|\)|,|\|] of the regular expression, on a byte. *)
Definition isVLPTerminator (c : ascii) : bool :=
  let n := ord c in
  ((n =? 9) || (n =? 10) || (n =? 12) || (n =? 13) || (n =? 32))%N
  || bool_decide (c ∈ ("]),|" : gostring)).

(** A terminator or the end of the input. *)
Definition atTerminator (s : gostring) : bool :=
  match s with [] => true | c :: _ => isVLPTerminator c end.

(** The three alternatives after the asterisk: a terminator, [\d+\.\.] and a
    terminator, [\.\.] and a terminator. *)
Definition vlpAlternatives (s : gostring) : bool :=
  atTerminator s
  || (let n := countWhile isDigit s in
      negb (bool_decide (n = 0)) && hasPrefix ".." (drop n s)
      && atTerminator (drop 2 (drop n s)))
  || (hasPrefix ".." s && atTerminator (drop 2 s)).

(** [unboundedVLPRegex.MatchString]. *)
Fixpoint unboundedVLP (s : gostring) : bool :=
  match s with
  | [] => false
  | c :: s' => (bool_decide (c = "*"%char) && vlpAlternatives s') || unboundedVLP s'
  end.

(** [ValidateTraversalDepth]; the offending substring of the message is left
    out. *)
Definition ValidateTraversalDepth (stmt : gostring) : option cypher_err :=
  if unboundedVLP stmt then Some (ErrUnboundedTraversal []) else None.

(** ** SQL text *)

(** The loop of [quoteSQLString]. *)
Definition quoteSQLString (s : gostring) : gostring := "'" ++ doubleQuotes s ++ "'".

(** The AGE call shape [Cypher] submits. *)
Definition ageCall (graph stmt : gostring) : gostring :=
  "SELECT * FROM ag_catalog.cypher(" ++ quoteSQLString graph ++ ", $$ " ++ stmt ++
  " $$) AS (result ag_catalog.agtype)".

Definition Cypher (graph stmt : gostring) : result cypher_err gostring :=
  match ValidateTraversalDepth stmt with
  | Some e => Err e
  | None => Ok (ageCall graph stmt)
  end.

(** ** Typed traversal fragments ([helpers.go]) *)

Definition BoundedDepthMax : Z := 3.

(** [%d] of a depth from 1 to 3. *)
Definition depthDigit (d : Z) : gostring := [ascii_of_N (Z.to_N (48 + d))].

Definition BoundedAncestors (label : gostring) (depth : Z) : option gostring :=
  if bool_decide (depth < 1)%Z then None
  else if bool_decide (BoundedDepthMax < depth)%Z then None
  else Some ("(n:" ++ label ++ ")<-[:LINEAGE_OF*1.." ++ depthDigit depth ++ "]-(ancestor)").

Definition BoundedDescendants (label : gostring) (depth : Z) : option gostring :=
  if bool_decide (depth < 1)%Z then None
  else if bool_decide (BoundedDepthMax < depth)%Z then None
  else Some ("(n:" ++ label ++ ")-[:LINEAGE_OF*1.." ++ depthDigit depth ++ "]->(descendant)").

(** ** Labels ([labels.go]) *)

Definition NodeLabels : list gostring :=
  ["Table"; "Column"; "Snapshot"; "Metric"; "Dimension";
   "View"; "Dashboard"; "Pipeline"; "Query"; "Person";
   "Team"; "Policy"; "GlossaryTerm"; "Tag"; "DataContract";
   "Engine"; "Catalog"; "WriteEvent"; "DetectionRun"].

Definition MandatoryEdgeLabels : list gostring :=
  ["LINEAGE_OF"; "OWNS"; "MEMBER_OF"; "DEPENDS_ON"; "CLASSIFIED_AS";
   "APPLIES_TO"; "DEFINED_BY"; "WROTE"; "READ"; "PRODUCES";
   "CONSUMES"; "GOVERNED_BY"; "STORED_IN"; "RUNS_ON"; "SUPERSEDES";
   "INTENDED_WRITE"; "ACTUAL_WRITE"; "VIOLATION_DETECTED_BY"].

Definition SupplementEdgeLabels : list gostring :=
  ["BELONGS_TO"; "OF_TABLE"; "USED_ENGINE"; "USES_DIMENSION"; "RAN_ON"; "GOVERNS"].

Definition LabelWhitelist : gset gostring :=
  list_to_set (NodeLabels ++ MandatoryEdgeLabels ++ SupplementEdgeLabels).

Definition IsAllowedLabel (name : gostring) : bool := bool_decide (name ∈ LabelWhitelist).

(** ** The tenant transaction ([client.go], [tenant.go]) *)

(** The calls on the pool, the connection and the transaction; [Fn] is the
    caller's function. *)
Inductive dbcall :=
  | Acquire
  | Begin
  | SetTenantContext (tenantID : gostring)
  | Fn
  | Commit
  | Rollback
  | ResetSession
  | Release.

(** Every call answers whether it failed. *)
Inductive dbanswer := Fine | Failed.

Definition dbR (_ : dbcall) : Type := dbanswer.

Inductive exec_err := EAcquire | EBegin | ESetTenant | EFn | ECommit | EReset.

(** [fmt.Errorf] on the first failure; the deferred functions run in reverse
    order: the rollback when an error is returned, then the reset and release. *)
Definition ExecuteInTenant (tenantID : gostring) : prog dbR (option exec_err) :=
  let rollback e := Do (R := dbR) Rollback (fun _ => Ret (Some e)) in
  let body : prog dbR (option exec_err) :=
    Do (R := dbR) Begin (fun r =>
    match r with
    | Failed => Ret (Some EBegin)
    | Fine =>
        Do (R := dbR) (SetTenantContext tenantID) (fun r =>
        match r with
        | Failed => rollback ESetTenant
        | Fine =>
            Do (R := dbR) Fn (fun r =>
            match r with
            | Failed => rollback EFn
            | Fine =>
                Do (R := dbR) Commit (fun r =>
                match r with
                | Failed => rollback ECommit
                | Fine => Ret None
                end)
            end)
        end)
    end) in
  Do (R := dbR) Acquire (fun r =>
  match r with
  | Failed => Ret (Some EAcquire)
  | Fine =>
      bind body (fun retErr =>
      Do (R := dbR) ResetSession (fun r =>
      let retErr := match r, retErr with
                    | Failed, None => Some EReset
                    | _, _ => retErr
                    end in
      Do (R := dbR) Release (fun _ => Ret retErr)))
  end).

(** ** Lemmas *)

Lemma sanitizeLoop_spec s i :
  match sanitizeLoop s i with
  | None => forallb cypherLiteralAllow s = true
  | Some (ErrCypherUnsafeLiteral b off) =>
      exists u v, s = u ++ b :: v /\ off = i + length u /\
        forallb cypherLiteralAllow u = true /\ cypherLiteralAllow b = false
  | Some (ErrUnboundedTraversal _) => False
  end.
Proof.
  revert i; induction s as [|b s IH]; intros i; cbn [sanitizeLoop]; [done|].
  destruct (cypherLiteralAllow b) eqn:Eb; cbn [negb].
  - specialize (IH (S i)). destruct (sanitizeLoop s (S i)) as [[b' off|]|]; [|done|].
    + destruct IH as (u & v & -> & -> & Hu & Hb). exists (b :: u), v.
      split_and!; [done|simpl; lia|simpl; by rewrite Eb|done].
    + cbn [forallb]. by rewrite Eb.
  - exists [], s. split_and!; [done|simpl; lia|done|done].
Qed.

(** The bytes that could end a quoted literal, open an escape or a
    dollar-quoted block, or start a statement. *)
Definition cypherMeta : gostring :=
  ["'"; ascii_of_N 34; "\"; "$"; "{"; "}"; "`"; ";"; "<"; ">"; "|"; "#"]%char.

Definition cypherInert (b : ascii) : bool :=
  negb (bool_decide (b ∈ cypherMeta)) && ((32 <=? ord b) && (ord b <=? 126))%N.

Lemma allow_inert b : cypherLiteralAllow b = true -> cypherInert b = true.
Proof. by_byte b; vm_compute; try done. Qed.

(** ** Ranges *)

(** The range of a variable-length pattern, read after the asterisk: the lower
    bound, whether [..] is there, the upper bound, and the rest. *)
Record vlpRange := mkRange {
  vlp_lower : gostring; vlp_dots : bool; vlp_upper : gostring; vlp_rest : gostring
}.

Definition readRange (s : gostring) : vlpRange :=
  let n := countWhile isDigit s in
  let s1 := drop n s in
  if hasPrefix ".." s1 then
    let s2 := drop 2 s1 in
    let m := countWhile isDigit s2 in
    mkRange (take n s) true (take m s2) (drop m s2)
  else mkRange (take n s) false [] s1.

(** [*], [*N..] and [*..]. *)
Definition rangeUnbounded (r : vlpRange) : bool :=
  if vlp_dots r then bool_decide (vlp_upper r = []) else bool_decide (vlp_lower r = []).

Lemma terminator_not_digit c : isVLPTerminator c = true -> isDigit c = false.
Proof. by_byte c; vm_compute; try done. Qed.

Lemma take_nil_countWhile f s : take (countWhile f s) s = [] -> countWhile f s = 0.
Proof. destruct s as [|c s]; simpl; [done|]. by destruct (f c). Qed.

Lemma vlpAlternatives_spec s :
  vlpAlternatives s =
    rangeUnbounded (readRange s) && atTerminator (vlp_rest (readRange s)).
Proof.
  unfold vlpAlternatives, readRange, rangeUnbounded.
  destruct (countWhile isDigit s) as [|n] eqn:En.
  - rewrite drop_0. cbn [negb bool_decide andb orb take].
    rewrite bool_decide_eq_true_2 by done. cbn [negb andb]. rewrite orb_false_r.
    destruct (hasPrefix ".." s) eqn:Ed; cbn [vlp_dots vlp_lower vlp_upper vlp_rest andb].
    + assert (atTerminator s = false) as ->.
      { apply hasPrefix_spec in Ed as [t ->]. done. }
      cbn [orb]. set (s2 := drop 2 s).
      destruct (countWhile isDigit s2) as [|m] eqn:Em.
      * cbn [take drop]. rewrite drop_0. by rewrite bool_decide_eq_true_2.
      * destruct s2 as [|c s2]; [done|]. cbn [take countWhile] in *.
        destruct (isDigit c) eqn:Ec; [|done]. cbn [atTerminator].
        rewrite bool_decide_eq_false_2 by done. cbn [andb].
        destruct (isVLPTerminator c) eqn:Et; [|done].
        apply terminator_not_digit in Et. congruence.
    + rewrite bool_decide_eq_true_2 by done. by rewrite orb_false_r.
  - destruct s as [|c s]; [done|]. cbn [countWhile] in En.
    destruct (isDigit c) eqn:Ec; [|done]. injection En as En.
    assert (atTerminator (c :: s) = false) as ->.
    { cbn [atTerminator]. destruct (isVLPTerminator c) eqn:Et; [|done].
      apply terminator_not_digit in Et. congruence. }
    assert (hasPrefix ".." (c :: s) = false) as ->.
    { cbn [hasPrefix]. rewrite bool_decide_eq_false_2; [done|]. by intros <-. }
    rewrite bool_decide_eq_false_2 by done. cbn [negb andb orb]. rewrite orb_false_r.
    cbn [drop take].
    destruct (hasPrefix ".." (drop n s)) eqn:Ed; cbn [vlp_dots vlp_lower vlp_upper vlp_rest andb].
    + set (s2 := drop 2 (drop n s)).
      destruct (countWhile isDigit s2) as [|m] eqn:Em.
      * cbn [take drop]. rewrite drop_0. by rewrite bool_decide_eq_true_2.
      * destruct s2 as [|d s2]; [done|]. cbn [take countWhile] in *.
        destruct (isDigit d) eqn:Ec2; [|done]. cbn [atTerminator].
        rewrite bool_decide_eq_false_2 by done. cbn [andb].
        destruct (isVLPTerminator d) eqn:Et; [|done].
        apply terminator_not_digit in Et. congruence.
    + by rewrite bool_decide_eq_false_2.
Qed.

Lemma unboundedVLP_spec s :
  unboundedVLP s = true <->
  exists u v, s = u ++ "*" ++ v /\ rangeUnbounded (readRange v) = true /\
    atTerminator (vlp_rest (readRange v)) = true.
Proof.
  induction s as [|c s IH]; cbn [unboundedVLP].
  - split; [done|]. by intros ([|] & v & ? & _).
  - rewrite orb_true_iff, andb_true_iff, bool_decide_eq_true, IH, vlpAlternatives_spec,
      andb_true_iff. split.
    + intros [(-> & H1 & H2)|(u & v & -> & H1 & H2)].
      * by exists [], s.
      * by exists (c :: u), v.
    + intros ([|a u] & v & E & H1 & H2); injection E as -> ->; [by left|].
      right. by exists u, v.
Qed.

(** ** Properties *)

(** [SanitizeCypherLiteral] returns its input unchanged or fails at the
    first byte outside the allowlist; what it accepts holds no quote, no
    escape, no dollar and no control or non-ASCII byte, so it cannot leave the
    literal or the dollar-quoted block it is spliced into. *)
Theorem SanitizeCypherLiteral_spec s :
  match SanitizeCypherLiteral s with
  | Ok s' => s' = s /\ forallb cypherInert s = true
  | Err (ErrCypherUnsafeLiteral b off) =>
      exists u v, s = u ++ b :: v /\ off = length u /\
        forallb cypherLiteralAllow u = true /\ cypherLiteralAllow b = false
  | Err (ErrUnboundedTraversal _) => False
  end.
Proof.
  unfold SanitizeCypherLiteral. pose proof (sanitizeLoop_spec s 0) as H.
  destruct (sanitizeLoop s 0) as [[b off|]|]; [exact H|done|].
  split; [done|]. apply forallb_forall. intros b Hb. apply allow_inert.
  rewrite forallb_forall in H. by apply H.
Qed.

(** The depth check rejects a statement exactly when some asterisk is
    followed by an unbounded range ([*], [*N..] or [*..]) and then by a
    terminator of the regular expression. *)
Theorem ValidateTraversalDepth_spec stmt :
  ValidateTraversalDepth stmt = Some (ErrUnboundedTraversal []) <->
  exists u v, stmt = u ++ "*" ++ v /\ rangeUnbounded (readRange v) = true /\
    atTerminator (vlp_rest (readRange v)) = true.
Proof.
  rewrite <- unboundedVLP_spec. unfold ValidateTraversalDepth.
  by destruct (unboundedVLP stmt).
Qed.

(** The depth check misses an unbounded pattern that carries a property
    map: a brace is no terminator, so the statement is submitted, whatever the
    properties. *)
Theorem ValidateTraversalDepth_misses_map props :
  "*"%char ∉ props ->
  let stmt := "MATCH p=(a)-[:LINEAGE_OF*{" ++ props ++ "}]->(b) RETURN p" in
  rangeUnbounded (readRange ("{" ++ props ++ "}]->(b) RETURN p")) = true /\
  Cypher "neksur" stmt = Ok (ageCall "neksur" stmt).
Proof.
  cbn zeta. intros Hp. split; [done|]. unfold Cypher, ValidateTraversalDepth.
  assert (unboundedVLP ("MATCH p=(a)-[:LINEAGE_OF*{" ++ props ++ "}]->(b) RETURN p") =
    unboundedVLP (props ++ "}]->(b) RETURN p")) as -> by reflexivity.
  assert (unboundedVLP (props ++ "}]->(b) RETURN p") = false) as ->; [|done].
  induction props as [|c s IH]; [done|]. cbn [app unboundedVLP].
  rewrite bool_decide_eq_false_2 by (intros ->; apply Hp; by left).
  cbn [andb orb]. apply IH. intros H. apply Hp. by right.
Qed.

Lemma ValidateTraversalDepth_misses_map_witness :
  let stmt := "MATCH p=(a)-[:LINEAGE_OF*{since: 2020}]->(b) RETURN p" in
  Cypher "neksur" stmt = Ok (ageCall "neksur" stmt).
Proof.
  apply (ValidateTraversalDepth_misses_map "since: 2020").
  apply (bool_decide_eq_true_1 ("*"%char ∉ ("since: 2020" : gostring))).
  vm_compute. reflexivity.
Defined.

(** A typed traversal fragment always passes the depth check, and one is
    produced exactly for the depths 1 to 3. *)
Theorem BoundedTraversal_bounded label depth :
  "*"%char ∉ label ->
  match BoundedAncestors label depth, BoundedDescendants label depth with
  | Some a, Some d => (1 <= depth <= BoundedDepthMax)%Z /\
      ValidateTraversalDepth a = None /\ ValidateTraversalDepth d = None
  | None, None => ~ (1 <= depth <= BoundedDepthMax)%Z
  | _, _ => False
  end.
Proof.
  intros Hl. unfold BoundedAncestors, BoundedDescendants, BoundedDepthMax.
  destruct (bool_decide_reflect (depth < 1)%Z) as [H1|H1]; [lia|].
  destruct (bool_decide_reflect (3 < depth)%Z) as [H2|H2]; [lia|].
  split; [lia|].
  assert (forall t, unboundedVLP (label ++ t) = unboundedVLP t) as Hskip.
  { intros t. clear H1 H2. induction label as [|c s IH]; [done|]. cbn [app unboundedVLP].
    rewrite bool_decide_eq_false_2 by (intros ->; apply Hl; by left).
    cbn [andb orb]. apply IH. intros H. apply Hl. by right. }
  assert (depth = 1 \/ depth = 2 \/ depth = 3)%Z as Hd by lia.
  unfold ValidateTraversalDepth. cbn [app unboundedVLP].
  rewrite !bool_decide_eq_false_2 by done. cbn [andb orb].
  rewrite !Hskip. by destruct Hd as [-> |[-> | ->]].
Qed.

Lemma BoundedTraversal_bounded_witness :
  BoundedAncestors "Table" 3 = Some "(n:Table)<-[:LINEAGE_OF*1..3]-(ancestor)" /\
  ValidateTraversalDepth "(n:Table)<-[:LINEAGE_OF*1..3]-(ancestor)" = None.
Proof.
  split; [reflexivity|].
  apply (BoundedTraversal_bounded "Table" 3).
  apply (bool_decide_eq_true_1 ("*"%char ∉ ("Table" : gostring))). vm_compute. reflexivity.
Defined.

(** ** The tenant transaction *)

Definition failed (e : event dbR) : bool :=
  match projT2 e with Failed => true | Fine => false end.

Definition isFn (c : dbcall) : bool := match c with Fn => true | _ => false end.
Definition isRollback (c : dbcall) : bool := match c with Rollback => true | _ => false end.
Definition isSetTenant (c : dbcall) : bool :=
  match c with SetTenantContext _ => true | _ => false end.

(** The protocol of one tenant transaction, over its result and its trace. *)
Record txProtocol (tenantID : gostring) (err : option exec_err) (t : trace dbR) : Prop := {
  (* no error exactly when every call succeeded, in this order *)
  tx_success : err = None <->
    calls t = [Acquire; Begin; SetTenantContext tenantID; Fn; Commit; ResetSession; Release]
    /\ existsb failed (take 6 t) = false;
  (* the caller's function runs only inside a transaction of the tenant *)
  tx_scoped : existsb isFn (calls t) = true ->
    take 3 (calls t) = [Acquire; Begin; SetTenantContext tenantID] /\
    existsb failed (take 3 t) = false;
  (* a rollback is never followed by success, and a failure inside the
     transaction always rolls back *)
  tx_rollback : existsb isRollback (calls t) = true -> err <> None;
  tx_rolled_back : existsb isSetTenant (calls t) = true -> err <> None ->
    err <> Some EReset -> existsb isRollback (calls t) = true;
  (* an acquired connection is reset and then released, last *)
  tx_released : err = Some EAcquire \/ exists u, calls t = u ++ [ResetSession; Release]
}.

(** [ExecuteInTenant] follows the protocol of a tenant transaction,
    whatever the database answers: success means every call succeeded in
    order, the caller's function runs only in a transaction whose tenant was
    set to [tenantID], a failure after that rolls back, and an acquired
    connection is reset ([DISCARD ALL]) and then released, last. *)
Theorem ExecuteInTenant_protocol tenantID (o : env dbR) :
  let '(err, t) := run o [] (ExecuteInTenant tenantID) in txProtocol tenantID err t.
Proof.
  apply (always_run (ExecuteInTenant tenantID) (txProtocol tenantID) [] o).
  unfold ExecuteInTenant. cbn [always bind app].
  repeat (intros []; cbn [always bind app]); split; cbn; try done;
    try (split; [done|by intros []]); try (by left); right;
    match goal with
    | |- exists u, ?l = u ++ _ => exists (take (length l - 2) l); reflexivity
    end.
Qed.
