(* ===== verification/Ingest.v ===== *)
(** * Lineage ingest

    [internal/ingest]: the upsert of a [LINEAGE_OF] edge with its advisory lock
    and its bounded cycle check, the reconstruction of a cycle's path, and the
    periodic sweep, as programs of statements inside the tenant transaction of
    [Cypher.ExecuteInTenant]; what the statements do on the graph a tenant sees;
    and any number of processes that run them interleaved ([step]).  An instant
    is kept in nanoseconds, as RFC 3339 with nanoseconds in UTC keeps it. *)

From S2P Require Import Prelude Effects Cypher.
From Stdlib Require Import Lia.

(** ** Errors ([errors.go]) *)

(** The sentinels, an unsafe field, and any error of the database. *)
Inductive ingest_err :=
  | ErrSnapshotNotFound
  | ErrLineageBatchEmpty
  | LineageCycleError (SourceID TargetID : gostring) (Cycle : list gostring)
  | ErrUnsafeField (field : gostring)
  | ErrEmptyLocation
  | ErrDatabase.

(** A nil error, an error, or the panic of [MustSanitizeCypherLiteral]. *)
Inductive ingestOut := Done | Failed (e : ingest_err) | Panicked.

(** [LineageCycleError.Is]. *)
Definition IsLineageCycle (o : ingestOut) : bool :=
  match o with Failed (LineageCycleError _ _ _) => true | _ => false end.

(** [LineageCycleError.Error]. *)
Definition cycleMessage (src tgt : gostring) (cycle : list gostring) : gostring :=
  "ingest: lineage cycle detected: " ++ join " -> " cycle ++ " (source=" ++ src ++
  ", target=" ++ tgt ++ ")".

(** [escapeCypher] panics on a literal outside the allowlist. *)
Definition escapable (l : list gostring) : bool := forallb IsSafeCypherLiteral l.

(** The first field of a list that the allowlist rejects. *)
Fixpoint unsafeField (fields : list (gostring * gostring)) : option gostring :=
  match fields with
  | [] => None
  | (name, value) :: fields =>
      if IsSafeCypherLiteral value then unsafeField fields else Some name
  end.

(** ** Calls *)

(** [tx.Query] of the cycle check and what follows it: an error, no row (also
    when the query fails while rows are read, which [rows.Next] reports as the
    end), a row, or a row and then an error. *)
Inductive checked := CheckQueryErr | CheckNoRow | CheckRow | CheckRowErr.

(** [OpenTx] is the first half of [ExecuteInTenant] (acquire, begin, set the
    tenant), [Reset] its last (reset the session, release). *)
Inductive ingestCall :=
  | OpenTx (tenantID : gostring)
  | AdvisoryLock (uri : gostring)
  | CycleCheck (tgtURI srcURI : gostring)
  | NextHop (uri : gostring)
  | MergeEdge (srcURI tgtURI tenantID runID : gostring) (ts : Z)
  | SweepQuery
  | CommitTx
  | RollbackTx
  | Reset.

Definition ingestR (c : ingestCall) : Type :=
  match c with
  | CycleCheck _ _ => checked
  | NextHop _ => option gostring
  | SweepQuery => option (list gostring)
  | RollbackTx => unit
  | _ => bool
  end.

Abbreviation ingestProg := (prog ingestR).

(** ** The tenant transaction around a function ([graph/client.go]) *)

Definition resetWith (o : ingestOut) : ingestProg ingestOut :=
  Do (R := ingestR) Reset (fun ok : bool =>
    Ret (match o with
         | Done => if ok then Done else Failed ErrDatabase
         | _ => o
         end)).

Definition rollbackWith (o : ingestOut) : ingestProg ingestOut :=
  Do (R := ingestR) RollbackTx (fun _ : unit => resetWith o).

(** What happens after the function: a panic unwinds without a rollback. *)
Definition finishTx (o : ingestOut) : ingestProg ingestOut :=
  match o with
  | Done =>
      Do (R := ingestR) CommitTx (fun ok : bool =>
        if ok then resetWith Done else rollbackWith (Failed ErrDatabase))
  | Failed e => rollbackWith (Failed e)
  | Panicked => resetWith Panicked
  end.

Definition executeInTenant (tenantID : gostring) (fn : ingestProg ingestOut)
  : ingestProg ingestOut :=
  Do (R := ingestR) (OpenTx tenantID) (fun ok : bool =>
    if ok then bind fn finishTx else Ret (Failed ErrDatabase)).

(** ** The cycle check ([cycle.go]) *)

Definition cycleMaxDepth : nat := 5.

Definition trimSuffixLonger (suf s : gostring) : gostring :=
  if (length suf <? length s)%nat && hasSuffix s suf
  then take (length s - length suf) s else s.

(** [stripAgtypeQuotes]. *)
Definition stripAgtypeQuotes (s : gostring) : gostring :=
  let s := trimSuffixLonger "::numeric" (trimSuffixLonger "::text" s) in
  let dq := ascii_of_N 34 in
  if (2 <=? length s)%nat && bool_decide (head s = Some dq) && bool_decide (last s = Some dq)
  then drop 1 (take (length s - 1) s) else s.

(** The loop of [fetchCyclePath], with the hops left and the chain so far. *)
Fixpoint fetchHops (hops : nat) (srcURI tgtURI current : gostring) (chain : list gostring)
  : ingestProg (list gostring) :=
  match hops with
  | 0 => Ret (chain ++ [srcURI; tgtURI])
  | S hops =>
      Do (R := ingestR) (NextHop current) (fun raw : option gostring =>
      match raw with
      | None => Ret (chain ++ [srcURI; tgtURI])
      | Some raw =>
          let next := stripAgtypeQuotes raw in
          let chain := chain ++ [next] in
          if bool_decide (next = srcURI) then Ret (chain ++ [tgtURI])
          else fetchHops hops srcURI tgtURI next chain
      end)
  end.

Definition fetchCyclePath (srcURI tgtURI : gostring) : ingestProg (list gostring) :=
  fetchHops cycleMaxDepth srcURI tgtURI tgtURI [tgtURI].

Definition checkStmt (srcURI tgtURI : gostring) : ingestProg ingestOut :=
  if escapable [tgtURI; srcURI] then
    Do (R := ingestR) (CycleCheck tgtURI srcURI) (fun r : checked =>
    match r with
    | CheckQueryErr | CheckRowErr => Ret (Failed ErrDatabase)
    | CheckNoRow => Ret Done
    | CheckRow =>
        bind (fetchCyclePath srcURI tgtURI) (fun cycle =>
        Ret (Failed (LineageCycleError srcURI tgtURI cycle)))
    end)
  else Ret Panicked.

Definition locked (srcURI : gostring) (k : ingestProg ingestOut) : ingestProg ingestOut :=
  Do (R := ingestR) (AdvisoryLock srcURI) (fun ok : bool =>
    if ok then k else Ret (Failed ErrDatabase)).

Definition validateNoCycleTx (srcURI tgtURI : gostring) : ingestProg ingestOut :=
  locked srcURI (checkStmt srcURI tgtURI).

Definition ValidateNoCycle (tenantID srcURI tgtURI : gostring) : ingestProg ingestOut :=
  match unsafeField [("src_uri", srcURI); ("tgt_uri", tgtURI); ("tenant_id", tenantID)] with
  | Some f => Ret (Failed (ErrUnsafeField f))
  | None => executeInTenant tenantID (validateNoCycleTx srcURI tgtURI)
  end.

(** ** The upsert of an edge ([lineage.go]) *)

Definition mergeStmt (srcURI tgtURI tenantID runID : gostring) (ts : Z)
  : ingestProg ingestOut :=
  if escapable [srcURI; tgtURI; tenantID; runID] then
    Do (R := ingestR) (MergeEdge srcURI tgtURI tenantID runID ts) (fun ok : bool =>
      Ret (if ok then Done else Failed ErrDatabase))
  else Ret Panicked.

Definition thenMerge (srcURI tgtURI tenantID runID : gostring) (ts : Z) (o : ingestOut)
  : ingestProg ingestOut :=
  match o with
  | Done => mergeStmt srcURI tgtURI tenantID runID ts
  | o => Ret o
  end.

Definition mergeBody (srcURI tgtURI tenantID runID : gostring) (ts : Z)
  : ingestProg ingestOut :=
  locked srcURI
    (bind (validateNoCycleTx srcURI tgtURI) (thenMerge srcURI tgtURI tenantID runID ts)).

Definition MergeLineageEdge (tenantID srcURI tgtURI runID : gostring) (ts : Z)
  : ingestProg ingestOut :=
  if bool_decide (srcURI = []) || bool_decide (tgtURI = [])
  then Ret (Failed ErrLineageBatchEmpty)
  else
    match unsafeField [("src_uri", srcURI); ("tgt_uri", tgtURI); ("tenant_id", tenantID);
                       ("run_id", runID)] with
    | Some f => Ret (Failed (ErrUnsafeField f))
    | None =>
        if bool_decide (srcURI = tgtURI)
        then Ret (Failed (LineageCycleError srcURI tgtURI [srcURI; tgtURI]))
        else executeInTenant tenantID (mergeBody srcURI tgtURI tenantID runID ts)
    end.

(** ** The sweep ([cycle_sweep.go]) *)

(** The reports of one pass: the anchor and its path, one by one; each also
    increments the counter. *)
Fixpoint reportAnchors (anchors : list gostring) (reports : list (gostring * list gostring))
  : ingestProg (list (gostring * list gostring)) :=
  match anchors with
  | [] => Ret reports
  | uri :: anchors =>
      bind (fetchCyclePath uri uri) (fun cycle =>
      reportAnchors anchors (reports ++ [(uri, cycle)]))
  end.

(** [runCycleSweepOnce]: its error and its reports.  The transaction is
    committed although only read. *)
Definition runCycleSweepOnce (tenantID : gostring)
  : ingestProg (ingestOut * list (gostring * list gostring)) :=
  Do (R := ingestR) (OpenTx tenantID) (fun ok : bool =>
  if ok then
    Do (R := ingestR) SweepQuery (fun rows : option (list gostring) =>
    match rows with
    | None => bind (finishTx (Failed ErrDatabase)) (fun o => Ret (o, []))
    | Some rows =>
        bind (reportAnchors (map stripAgtypeQuotes rows) []) (fun reports =>
        bind (finishTx Done) (fun o => Ret (o, reports)))
    end)
  else Ret (Failed ErrDatabase, [])).

(** ** What the statements do *)

(** A [LINEAGE_OF] edge; a property may be null. *)
Record edge := mkEdge {
  e_src : N; e_tgt : N; e_tenant : gostring;
  created_at : option Z; run_id : option gostring; last_seen_at : option Z
}.

#[export] Instance edge_eq_dec : EqDecision edge.
Proof. solve_decision. Defined.

(** Every way to take one element out of a list. *)
Fixpoint picks {A} (l : list A) : list (A * list A) :=
  match l with
  | [] => []
  | x :: l => (x, l) :: map (fun '(y, r) => (y, x :: r)) (picks l)
  end.

(** The paths [-[:LINEAGE_OF*1..n]->] from a vertex: no edge occurs twice. *)
Fixpoint trails (n : nat) (es : list edge) (u : N) : list (list edge) :=
  match n with
  | 0 => []
  | S n =>
      flat_map (fun '(e, rest) =>
        if bool_decide (e_src e = u) then [e] :: map (cons e) (trails n rest (e_tgt e))
        else [])
        (picks es)
  end.

Definition pathEnd (u : N) (p : list edge) : N :=
  match last p with Some e => e_tgt e | None => u end.

(** The edges by their ids, the sequence that numbers them, and the holders of
    the advisory locks. *)
Record world := mkWorld { edges : gmap N edge; nextId : N; locks : gmap Z nat }.

(** A transaction reads what is committed when a statement starts, under its own
    writes; after an error it is aborted. *)
Record txn := mkTxn { writes : gmap N edge; aborted : bool }.

Definition view (w : world) (t : txn) : gmap N edge := writes t ∪ edges w.
Definition listed (es : gmap N edge) : list edge := map snd (map_to_list es).
Definition abort (t : option txn) : option txn :=
  match t with Some t => Some (mkTxn (writes t) true) | None => None end.

(** The lock of a process, and the end of its transaction. *)
Definition release (i : nat) (w : world) : world :=
  mkWorld (edges w) (nextId w) (filter (fun e => e.2 <> i) (locks w)).

(** [RETURN next.iceberg_id] of a string: its agtype text, for the texts that
    need no escape. *)
Definition agtypeText (s : gostring) : gostring :=
  ascii_of_N 34 :: s ++ [ascii_of_N 34].

Section semantics.
(** The vertices that carry an [iceberg_id]; this package makes none. *)
Context (vertices : gmap N gostring) (hashtext : gostring -> Z).

Definition named (uri : gostring) : list N :=
  map fst (filter (fun e => e.2 = uri) (map_to_list vertices)).

(** [MATCH (target {..})-[:LINEAGE_OF*1..5]->(ancestor {..}) ... LIMIT 1]. *)
Definition cycleFound (es : gmap N edge) (tgtURI srcURI : gostring) : bool :=
  existsb (fun t =>
    existsb (fun p => bool_decide (vertices !! pathEnd t p = Some srcURI))
      (trails cycleMaxDepth (listed es) t))
    (named tgtURI).

(** The candidates of [MATCH (n {..})-[:LINEAGE_OF]->(next) RETURN ... LIMIT 1]. *)
Definition nextHops (es : gmap N edge) (uri : gostring) : list gostring :=
  omap (fun e => if bool_decide (vertices !! e_src e = Some uri)
                 then vertices !! e_tgt e else None) (listed es).

(** [MATCH (start)-[:LINEAGE_OF*1..5]->(end) WHERE id(start) = id(end) RETURN
    start.iceberg_id LIMIT 1000]: a row for every closed path. *)
Definition sweepRows (es : gmap N edge) : list gostring :=
  take 1000 (flat_map (fun '(u, uri) =>
    map (fun _ => uri)
      (List.filter (fun p => bool_decide (pathEnd u p = u)) (trails 5 (listed es) u)))
    (map_to_list vertices)).

(** [SET r.created_at = COALESCE(...), ...]. *)
Definition touch (runID : gostring) (ts : Z) (e : edge) : edge :=
  mkEdge (e_src e) (e_tgt e) (e_tenant e)
    (Some (default ts (created_at e))) (Some (default runID (run_id e))) (Some ts).

Definition matches (s t : N) (tenantID : gostring) (e : edge) : Prop :=
  e_src e = s /\ e_tgt e = t /\ e_tenant e = tenantID.

#[export] Instance matches_dec s t tenantID e : Decision (matches s t tenantID e).
Proof. unfold matches. apply _. Defined.

(** [MERGE (src)-[r:LINEAGE_OF {tenant_id}]->(tgt)] of one pair: the edges that
    match, or a new one. *)
Definition mergePair (tenantID runID : gostring) (ts : Z) (base : gmap N edge)
    (acc : gmap N edge * N) (st : N * N) : gmap N edge * N :=
  let '(ws, next) := acc in
  let found := filter (fun e => matches st.1 st.2 tenantID e.2) (ws ∪ base) in
  if bool_decide (found = ∅)
  then (<[next := touch runID ts (mkEdge st.1 st.2 tenantID None None None)]> ws, (next + 1)%N)
  else ((touch runID ts <$> found) ∪ ws, next).

(** [MATCH (src),(tgt)]: every pair. *)
Definition mergeEdges (srcURI tgtURI tenantID runID : gostring) (ts : Z) (w : world) (t : txn)
  : world * txn :=
  let '(ws, next) :=
    fold_left (mergePair tenantID runID ts (edges w)) (list_prod (named srcURI) (named tgtURI))
      (writes t, nextId w) in
  (mkWorld (edges w) next (locks w), mkTxn ws (aborted t)).

(** The answer and effect of a call of process [i] that nothing disturbs. *)
Definition serve (i : nat) (c : ingestCall) (w : world) (t : option txn)
  : ingestR c * world * option txn :=
  match c return ingestR c * world * option txn with
  | OpenTx _ => (true, w, Some (mkTxn ∅ false))
  | AdvisoryLock uri =>
      (true, mkWorld (edges w) (nextId w) (<[hashtext uri := i]> (locks w)), t)
  | CycleCheck tgtURI srcURI =>
      match t with
      | Some tx =>
          (if cycleFound (view w tx) tgtURI srcURI then CheckRow else CheckNoRow, w, t)
      | None => (CheckQueryErr, w, t)
      end
  | NextHop uri =>
      match t with
      | Some tx => (agtypeText <$> head (nextHops (view w tx) uri), w, t)
      | None => (None, w, t)
      end
  | MergeEdge s d tenantID runID ts =>
      match t with
      | Some tx =>
          let '(w', tx') := mergeEdges s d tenantID runID ts w tx in (true, w', Some tx')
      | None => (false, w, t)
      end
  | SweepQuery =>
      match t with
      | Some tx => (Some (map agtypeText (sweepRows (view w tx))), w, t)
      | None => (None, w, t)
      end
  | CommitTx =>
      match t with
      | Some tx => (true, release i (mkWorld (view w tx) (nextId w) (locks w)), None)
      | None => (false, w, t)
      end
  | RollbackTx => (tt, release i w, None)
  | Reset => (true, release i w, None)
  end.

(** The answers of a statement that fails. *)
Definition failing (c : ingestCall) : ingestR c -> Prop :=
  match c return ingestR c -> Prop with
  | CycleCheck _ _ => fun r => r <> CheckRow
  | NextHop _ => fun r => r = None
  | SweepQuery => fun r => r = None
  | RollbackTx => fun _ => True
  | _ => fun r => r = false
  end.

(** A statement other than the ones that end a transaction needs one that is
    open and not aborted. *)
Definition runnable (c : ingestCall) (t : option txn) : Prop :=
  match c with
  | OpenTx _ => t = None
  | RollbackTx | Reset => True
  | _ => match t with Some tx => aborted tx = false | None => False end
  end.

(** A lock is granted when it is free or already held by the process. *)
Definition granted (i : nat) (c : ingestCall) (w : world) : Prop :=
  match c with
  | AdvisoryLock uri => locks w !! hashtext uri = None \/ locks w !! hashtext uri = Some i
  | _ => True
  end.

(** What a call of process [i] may answer and leave behind: it succeeds (with
    any of the next hops), or fails and aborts the transaction; a commit that
    fails ends it, with or without its writes. *)
Definition performs (i : nat) (c : ingestCall) (w : world) (t : option txn)
    (r : ingestR c) (w' : world) (t' : option txn) : Prop :=
  (runnable c t /\ granted i c w /\ (r, w', t') = serve i c w t) \/
  (match c return ingestR c -> Prop with
   | NextHop uri => fun r =>
       exists tx s, t = Some tx /\ aborted tx = false /\ s ∈ nextHops (view w tx) uri /\
         r = Some (agtypeText s) /\ w' = w /\ t' = t
   | _ => fun _ => False
   end r) \/
  (failing c r /\
   match c with
   | CommitTx => t' = None /\
       (w' = release i w \/ runnable CommitTx t /\ w' = (serve i CommitTx w t).1.2)
   | RollbackTx | Reset => w' = release i w /\ t' = None
   | _ => w' = w /\ t' = abort t
   end).

(** ** Processes *)

Record process := mkProc { p_src : gostring; p_tx : option txn; p_prog : ingestProg ingestOut }.

(** The transactions that are open have the lock key of [uri]. *)
Definition sameKey (uri : gostring) (ps : list process) : Prop :=
  forall p, p ∈ ps -> p_tx p <> None -> hashtext (p_src p) = hashtext uri.

(** An edge is submitted, or a process makes its next call.  In a coordinated
    run a transaction opens only among transactions of its own lock key: one at
    a time, or any number with one source. *)
Inductive step (coordinated : bool) : world * list process -> world * list process -> Prop :=
  | step_submit w ps tenantID srcURI tgtURI runID ts :
      step coordinated (w, ps)
        (w, ps ++ [mkProc srcURI None (MergeLineageEdge tenantID srcURI tgtURI runID ts)])
  | step_call w w' ps i s t t' c k r :
      ps !! i = Some (mkProc s t (Do c k)) ->
      performs i c w t r w' t' ->
      (coordinated = true -> match c with OpenTx _ => sameKey s ps | _ => True end) ->
      step coordinated (w, ps) (w', <[i := mkProc s t' (k r)]> ps).

(** One process, undisturbed: the result, the world and the transaction. *)
Fixpoint alone {A} (p : ingestProg A) (w : world) (t : option txn) : A * world * option txn :=
  match p with
  | Ret a => (a, w, t)
  | Do c k => let '(r, w, t) := serve 0 c w t in alone (k r) w t
  end.
End semantics.
