(* ===== verification/IngestSpec.v ===== *)
(** * Lineage ingest: what the cycle check guarantees

    The bounded path query finds a path exactly when one of at most five edges
    exists; runs that are serialised by one lock key never close a cycle of up
    to six edges, whatever fails; two sources in parallel, or a seventh edge, do;
    the sweep reports the cycles of up to five edges; what a reported path says;
    the outcome of an undisturbed upsert. *)

From S2P Require Import Prelude Effects Cypher Ingest.
From stdpp Require Import relations.
From Stdlib Require Import Lia.
#[local] Open Scope go_scope.

(** ** Paths *)

(** An edge from [u] to [v]. *)
Definition adj (es : gmap N edge) (u v : N) : Prop :=
  exists e, e ∈ listed es /\ e_src e = u /\ e_tgt e = v.

Lemma listed_elem es e : e ∈ listed es <-> exists i, es !! i = Some e.
Proof.
  unfold listed. rewrite list_elem_of_fmap. split.
  - intros ([i e'] & -> & H). exists i. by apply elem_of_map_to_list in H.
  - intros [i H]. exists (i, e). split; [done|]. by apply elem_of_map_to_list.
Qed.

Fixpoint chain (u : N) (p : list edge) : Prop :=
  match p with
  | [] => True
  | e :: p => e_src e = u /\ chain (e_tgt e) p
  end.

Lemma pathEnd_cons u e p : pathEnd u (e :: p) = pathEnd (e_tgt e) p.
Proof.
  unfold pathEnd. destruct p as [|e' p]; [done|].
  change (last (e :: e' :: p)) with (last (e' :: p)).
  destruct (last (e' :: p)) eqn:E; [done|]. by apply last_None in E.
Qed.

Lemma pathEnd_app u p q : pathEnd u (p ++ q) = pathEnd (pathEnd u p) q.
Proof.
  revert u; induction p as [|e p IH]; intros u; [done|].
  cbn [app]. by rewrite !pathEnd_cons, IH.
Qed.

Lemma chain_app u p q : chain u (p ++ q) <-> chain u p /\ chain (pathEnd u p) q.
Proof.
  revert u; induction p as [|e p IH]; intros u; cbn [app chain].
  - unfold pathEnd. cbn. tauto.
  - rewrite pathEnd_cons, IH. tauto.
Qed.

Lemma nsteps_chain es n u v :
  nsteps (adj es) n u v <->
  exists p, length p = n /\ chain u p /\ pathEnd u p = v /\ forall e, e ∈ p -> e ∈ listed es.
Proof.
  split.
  - induction 1 as [u|n u w v (e & He & <- & <-) _ (p & <- & Hc & Hp & Hin)].
    + exists []. split_and!; try done. intros e He. by apply elem_of_nil in He.
    + exists (e :: p). split_and!; [done|done|by rewrite pathEnd_cons|].
      intros e' [->|H]%elem_of_cons; auto.
  - intros (p & <- & Hc & <- & Hin). revert u Hc; induction p as [|e p IH]; intros u Hc.
    + apply nsteps_O.
    + destruct Hc as [<- Hc]. rewrite pathEnd_cons. cbn [length].
      eapply nsteps_l; [exists e; split_and!; [apply Hin; by left|done|done]|].
      apply IH; [|done]. intros e' H. apply Hin. by right.
Qed.

Lemma picks_elem {A} (l : list A) x r : (x, r) ∈ picks l -> x ∈ l /\ (forall y, y ∈ r -> y ∈ l).
Proof.
  revert x r; induction l as [|a l IH]; intros x r H; cbn [picks] in H.
  { by apply elem_of_nil in H. }
  apply elem_of_cons in H as [[= -> ->]|H].
  { split; [by left|]. intros y Hy. by right. }
  apply list_elem_of_fmap in H as ([y r'] & [= -> ->] & [H1 H2]%IH).
  split; [by right|]. intros z [->|Hz]%elem_of_cons; [by left|right; auto].
Qed.

Lemma picks_complete `{EqDecision A} (l : list A) x :
  x ∈ l -> exists r, (x, r) ∈ picks l /\ forall y, y ∈ l -> y <> x -> y ∈ r.
Proof.
  induction l as [|a l IH]; intros H; [by apply elem_of_nil in H|].
  destruct (decide (x = a)) as [->|Hne].
  - exists l. split; [by left|]. intros y [->|Hy]%elem_of_cons Hn; done.
  - apply elem_of_cons in H as [->|H]; [done|]. destruct (IH H) as (r & Hr & Hy).
    exists (a :: r). split.
    + right. apply list_elem_of_fmap. by exists (x, r).
    + intros y [->|Hl]%elem_of_cons Hn; [by left|]. right. auto.
Qed.

Lemma trails_sound n es u p :
  p ∈ trails n es u ->
  p <> [] /\ length p <= n /\ chain u p /\ forall e, e ∈ p -> e ∈ es.
Proof.
  revert es u p; induction n as [|n IH]; intros es u p H; cbn [trails] in H.
  { by apply elem_of_nil in H. }
  apply list_elem_of_In, in_flat_map in H as ([e rest] & Hp & H).
  apply list_elem_of_In, picks_elem in Hp as [He Hrest].
  destruct (bool_decide_reflect (e_src e = u)) as [Hu|]; [|done].
  destruct H as [<-|H].
  { split_and!; [done|cbn; lia|done|]. by intros e' ->%list_elem_of_singleton. }
  apply in_map_iff in H as (q & <- & Hq). apply list_elem_of_In, IH in Hq as (_ & Hl & Hc & Hin).
  split_and!; [done|cbn; lia|done|]. intros e' [->|H]%elem_of_cons; auto.
Qed.

Lemma trails_complete n es u p :
  p <> [] -> length p <= n -> chain u p -> NoDup p -> (forall e, e ∈ p -> e ∈ es) ->
  p ∈ trails n es u.
Proof.
  revert es u p; induction n as [|n IH]; intros es u p Hne Hl Hc Hd Hin.
  { destruct p; [done|]. cbn in Hl. lia. }
  destruct p as [|e p]; [done|]. destruct Hc as [Hu Hc]. inversion Hd as [|? ? Hni Hd']; subst.
  destruct (picks_complete es e) as (rest & Hp & Hrest); [apply Hin; by left|].
  cbn [trails]. apply list_elem_of_In, in_flat_map. exists (e, rest).
  split; [by apply list_elem_of_In|]. rewrite bool_decide_eq_true_2 by done.
  destruct p as [|e2 p]; [by left|]. right. apply in_map, list_elem_of_In, IH; try done.
  - cbn in *. lia.
  - intros e' He'. apply Hrest; [apply Hin; by right|]. by intros ->.
Qed.

Lemma dup_split (p : list edge) :
  NoDup p \/ exists a e b c, p = a ++ e :: b ++ e :: c.
Proof.
  induction p as [|e p [IH|(a & e' & b & c & ->)]].
  - left. constructor.
  - destruct (decide (e ∈ p)) as [(b & c & ->)%list_elem_of_split|Hn].
    + right. by exists [], e, b, c.
    + left. by constructor.
  - right. by exists (e :: a), e', b, c.
Qed.

(** A path has one between the same ends that repeats no edge. *)
Lemma shorten p u :
  chain u p -> p <> [] ->
  exists q, q <> [] /\ length q <= length p /\ chain u q /\ NoDup q /\
    pathEnd u q = pathEnd u p /\ forall e, e ∈ q -> e ∈ p.
Proof.
  remember (length p) as n eqn:En. assert (length p <= n) as Hn by lia. clear En.
  revert p Hn; induction n as [|n IH]; intros p Hn Hc Hne.
  { destruct p; [done|]. cbn in Hn. lia. }
  destruct (dup_split p) as [Hd|(a & e & b & c & ->)].
  { by exists p. }
  destruct (IH (a ++ e :: c)) as (q & Hq & Hl & Hcq & Hd & He & Hin).
  - rewrite !length_app in *. cbn [length] in *. rewrite length_app in Hn. cbn [length] in Hn. lia.
  - apply chain_app in Hc as [Ha [Hs Hc]]. apply chain_app in Hc as [_ [_ Hc]].
    apply chain_app. split; [done|]. by split.
  - by destruct a.
  - exists q. split_and!; [done|lia|done|done| |].
    + rewrite He, !pathEnd_app, !pathEnd_cons, !pathEnd_app, !pathEnd_cons. done.
    + intros e' H%Hin. apply elem_of_app in H as [H|H]; apply elem_of_app; [by left|right].
      apply elem_of_cons in H as [->|H]; [by left|]. right. apply elem_of_app. right. by right.
Qed.

(** The trails end where the bounded walks end. *)
Lemma trails_nsteps n es u v :
  (exists p, p ∈ trails n (listed es) u /\ pathEnd u p = v) <->
  exists m, 1 <= m <= n /\ nsteps (adj es) m u v.
Proof.
  split.
  - intros (p & (Hne & Hl & Hc & Hin)%trails_sound & He). exists (length p). split.
    + destruct p; [done|]. cbn in *. lia.
    + apply nsteps_chain. by exists p.
  - intros (m & Hm & (p & <- & Hc & He & Hin)%nsteps_chain).
    destruct (shorten p u) as (q & Hq & Hl & Hcq & Hd & Heq & Hiq); [done|by intros ->; cbn in Hm; lia|].
    exists q. split; [|by rewrite Heq]. apply trails_complete; auto. lia.
Qed.

(** ** Cycles of bounded length *)

(** No closed walk of one to [n] edges. *)
Definition acyclicUpTo (n : nat) (R : relation N) : Prop :=
  forall m u, 1 <= m <= n -> ~ nsteps R m u u.

Lemma nsteps_split (R R' : relation N) (S T : N -> Prop) n u v :
  (forall u v, R' u v -> R u v \/ S u /\ T v) ->
  nsteps R' n u v ->
  nsteps R n u v \/
  exists n1 n2 s t, n = n1 + (1 + n2) /\ nsteps R n1 u s /\ nsteps R' n1 u s /\
    S s /\ T t /\ nsteps R' n2 t v.
Proof.
  intros HR. induction 1 as [u|n u w v Huw Hwv IH]; [left; apply nsteps_O|].
  destruct (HR _ _ Huw) as [Hold|[Hs Ht]].
  - destruct IH as [IH|(n1 & n2 & s & t & -> & H1 & H2 & Hs & Ht & H3)].
    + left. by eapply nsteps_l.
    + right. exists (Datatypes.S n1), n2, s, t.
      split_and!; [done|by eapply nsteps_l|by eapply nsteps_l|done|done|done].
  - right. exists 0, n, u, w. split_and!; [done|apply nsteps_O|apply nsteps_O|done|done|done].
Qed.

(** New edges from [S] to [T] make no walk from [T] to [S] of up to [n] edges when
    there was none. *)
Lemma new_edges_no_walk (R R' : relation N) (S T : N -> Prop) n :
  (forall u v, R' u v -> R u v \/ S u /\ T v) ->
  (forall m t s, m <= n -> T t -> S s -> ~ nsteps R m t s) ->
  forall m t s, m <= n -> T t -> S s -> ~ nsteps R' m t s.
Proof.
  intros HR Hno m t s Hm Ht Hs H. destruct (nsteps_split R R' S T m t s HR H)
    as [Hold|(n1 & n2 & s' & t' & -> & H1 & _ & Hs' & _ & _)].
  - exact (Hno _ _ _ Hm Ht Hs Hold).
  - eapply Hno; [|exact Ht|exact Hs'|exact H1]. lia.
Qed.

(** Then they close no cycle of up to [n + 1] edges. *)
Lemma new_edges_acyclic (R R' : relation N) (S T : N -> Prop) n :
  (forall u v, R' u v -> R u v \/ S u /\ T v) ->
  (forall m t s, m <= n -> T t -> S s -> ~ nsteps R m t s) ->
  acyclicUpTo (Datatypes.S n) R -> acyclicUpTo (Datatypes.S n) R'.
Proof.
  intros HR Hno Hac m u Hm H. pose proof (new_edges_no_walk R R' S T n HR Hno) as Hno'.
  destruct (nsteps_split R R' S T m u u HR H)
    as [Hold|(n1 & n2 & s & t & -> & _ & H1 & Hs & Ht & H2)].
  - exact (Hac _ _ Hm Hold).
  - eapply Hno'; [|exact Ht|exact Hs|]; [|by eapply nsteps_trans]. lia.
Qed.

Section spec.
Context (vertices : gmap N gostring) (hashtext : gostring -> Z).

Abbreviation named := (Ingest.named vertices).
Abbreviation cycleFound := (Ingest.cycleFound vertices).
Abbreviation performs := (Ingest.performs vertices hashtext).
Abbreviation step := (Ingest.step vertices hashtext).

Lemma named_spec uri u : u ∈ named uri <-> vertices !! u = Some uri.
Proof.
  unfold Ingest.named. rewrite list_elem_of_fmap. split.
  - intros ([v s] & -> & [Hs H]%list_elem_of_filter). cbn in *. subst s.
    by apply elem_of_map_to_list.
  - intros H. exists (u, uri). split; [done|]. apply list_elem_of_filter.
    split; [done|]. by apply elem_of_map_to_list.
Qed.

(** The cycle check as reachability. *)
Lemma cycleFound_nsteps es tgtURI srcURI :
  cycleFound es tgtURI srcURI = true <->
  exists t s m, vertices !! t = Some tgtURI /\ vertices !! s = Some srcURI /\
    1 <= m <= 5 /\ nsteps (adj es) m t s.
Proof.
  unfold Ingest.cycleFound. rewrite existsb_exists. split.
  - intros (t & Ht & (p & Hp & He)%existsb_exists).
    apply list_elem_of_In, named_spec in Ht. apply bool_decide_eq_true in He.
    apply list_elem_of_In in Hp.
    destruct (proj1 (trails_nsteps 5 es t (pathEnd t p))) as (m & Hm & Hn); [by exists p|].
    by exists t, (pathEnd t p), m.
  - intros (t & s & m & Ht & Hs & Hm & Hn).
    destruct (proj2 (trails_nsteps 5 es t s)) as (p & Hp & He); [by exists m|].
    exists t. split; [by apply list_elem_of_In, named_spec|].
    apply existsb_exists. exists p. split; [by apply list_elem_of_In|].
    rewrite He. by apply bool_decide_eq_true_2.
Qed.

(** ** What a merge adds *)

Lemma mergePair_adj tenantID runID ts base ws next st ws' next' :
  mergePair tenantID runID ts base (ws, next) st = (ws', next') ->
  forall u v, adj (ws' ∪ base) u v -> adj (ws ∪ base) u v \/ (u, v) = st.
Proof.
  destruct st as [s t]. unfold mergePair. cbn [fst snd].
  set (found := filter _ _). intros H u v (e & He & <- & <-).
  apply listed_elem in He as [i Hi].
  destruct (bool_decide (found = ∅)); injection H as <- <-.
  - apply lookup_union_Some_raw in Hi as [Hi|[Hn Hi]].
    + destruct (decide (i = next)) as [->|Hne].
      * rewrite lookup_insert_eq in Hi. injection Hi as <-. by right.
      * rewrite lookup_insert_ne in Hi by done. left. exists e. split_and!; try done.
        apply listed_elem. exists i. apply lookup_union_Some_raw. by left.
    + left. exists e. split_and!; try done. apply listed_elem. exists i.
      apply lookup_union_Some_raw. right. split; [|done].
      destruct (decide (i = next)) as [->|Hne]; [by rewrite lookup_insert_eq in Hn|].
      by rewrite lookup_insert_ne in Hn.
  - apply lookup_union_Some_raw in Hi as [Hi|[Hn Hi]].
    + apply lookup_union_Some_raw in Hi as [Hi|[_ Hi]].
      * rewrite lookup_fmap, fmap_Some in Hi. destruct Hi as (e0 & Hi & ->).
        apply map_lookup_filter_Some in Hi as [_ (<- & <- & _)]. by right.
      * left. exists e. split_and!; try done. apply listed_elem. exists i.
        apply lookup_union_Some_raw. by left.
    + apply lookup_union_None in Hn as [_ Hn].
      left. exists e. split_and!; try done. apply listed_elem. exists i.
      apply lookup_union_Some_raw. by right.
Qed.

Lemma mergeFold_adj tenantID runID ts base l ws next ws' next' :
  fold_left (mergePair tenantID runID ts base) l (ws, next) = (ws', next') ->
  forall u v, adj (ws' ∪ base) u v -> adj (ws ∪ base) u v \/ (u, v) ∈ l.
Proof.
  revert ws next; induction l as [|st l IH]; intros ws next H u v Ha; cbn [fold_left] in H.
  { injection H as <- <-. by left. }
  destruct (mergePair tenantID runID ts base (ws, next) st) as [ws1 next1] eqn:E.
  destruct (IH _ _ H _ _ Ha) as [Ha'|Hl]; [|right; by right].
  destruct (mergePair_adj _ _ _ _ _ _ _ _ _ E _ _ Ha') as [?| <-]; [by left|].
  right. by left.
Qed.

(** A merge adds edges from the source's vertices to the target's only. *)
Lemma mergeEdges_adj srcURI tgtURI tenantID runID ts w t w' t' :
  mergeEdges vertices srcURI tgtURI tenantID runID ts w t = (w', t') ->
  edges w' = edges w /\ locks w' = locks w /\ aborted t' = aborted t /\
  forall u v, adj (view w' t') u v ->
    adj (view w t) u v \/ vertices !! u = Some srcURI /\ vertices !! v = Some tgtURI.
Proof.
  unfold mergeEdges.
  destruct (fold_left _ _ _) as [ws next] eqn:E. intros [= <- <-].
  split_and!; try done. intros u v Ha. unfold view in *. cbn [writes edges] in *.
  destruct (mergeFold_adj _ _ _ _ _ _ _ _ _ E _ _ Ha) as [?|H]; [by left|right].
  apply list_elem_of_In, in_prod_iff in H as [H1 H2].
  by rewrite <- list_elem_of_In, named_spec in H1, H2.
Qed.

Lemma check_no_walk es srcURI tgtURI :
  srcURI <> tgtURI -> cycleFound es tgtURI srcURI = false ->
  forall m a b, m <= 5 -> vertices !! a = Some tgtURI -> vertices !! b = Some srcURI ->
    ~ nsteps (adj es) m a b.
Proof.
  intros Hne Hc m a b Hm Ha Hb Hn. destruct m as [|m].
  { inversion Hn; subst. congruence. }
  assert (cycleFound es tgtURI srcURI = true) as E; [|congruence].
  apply cycleFound_nsteps. exists a, b, (S m). split_and!; try done; lia.
Qed.

(** After a check that found nothing, the merge keeps the graph acyclic, and the
    check would find nothing again. *)
Lemma merge_after_check srcURI tgtURI tenantID runID ts w t w' t' :
  srcURI <> tgtURI ->
  cycleFound (view w t) tgtURI srcURI = false ->
  mergeEdges vertices srcURI tgtURI tenantID runID ts w t = (w', t') ->
  (acyclicUpTo 6 (adj (view w t)) -> acyclicUpTo 6 (adj (view w' t'))) /\
  cycleFound (view w' t') tgtURI srcURI = false.
Proof.
  intros Hne Hc (_ & _ & _ & Hadj)%mergeEdges_adj.
  pose proof (check_no_walk _ _ _ Hne Hc) as Hno. split.
  - intros Hac. eapply (new_edges_acyclic _ _ (fun u => vertices !! u = Some srcURI)
      (fun v => vertices !! v = Some tgtURI) 5); [exact Hadj| |exact Hac].
    intros m a b Hm Ha Hb. by apply Hno.
  - destruct (cycleFound (view w' t') tgtURI srcURI) eqn:E; [|done].
    apply cycleFound_nsteps in E as (a & b & m & Ha & Hb & Hm & Hn). exfalso.
    eapply (new_edges_no_walk _ _ (fun u => vertices !! u = Some srcURI)
      (fun v => vertices !! v = Some tgtURI) 5); [exact Hadj| | |exact Ha|exact Hb|exact Hn].
    + intros m' a' b' Hm' Ha' Hb'. by apply Hno.
    + lia.
Qed.

(** ** Interleaved upserts *)

Definition quiet (c : ingestCall) : bool :=
  match c with MergeEdge _ _ _ _ _ | CommitTx | OpenTx _ => false | _ => true end.

Definition holds (w : world) (i : nat) (s : gostring) : Prop :=
  locks w !! hashtext s = Some i.

(** Where process [i] may be, and what it relies on: after the first lock it
    holds the lock, after the check no path closes a cycle, before the commit
    its view has none; or its transaction is aborted. *)
Inductive pointOk (w : world) (i : nat) (s : gostring) :
    option txn -> ingestProg ingestOut -> Prop :=
  | pt_start tenantID d runID ts :
      s <> d ->
      pointOk w i s None (executeInTenant tenantID (mergeBody s d tenantID runID ts))
  | pt_lock tenantID d runID ts ab :
      s <> d ->
      pointOk w i s (Some (mkTxn ∅ ab)) (bind (mergeBody s d tenantID runID ts) finishTx)
  | pt_relock tenantID d runID ts ab :
      s <> d -> ab = true \/ holds w i s ->
      pointOk w i s (Some (mkTxn ∅ ab))
        (bind (bind (validateNoCycleTx s d) (thenMerge s d tenantID runID ts)) finishTx)
  | pt_check tenantID d runID ts ab :
      s <> d -> ab = true \/ holds w i s ->
      pointOk w i s (Some (mkTxn ∅ ab))
        (bind (bind (checkStmt s d) (thenMerge s d tenantID runID ts)) finishTx)
  | pt_merge tenantID d runID ts ab :
      s <> d -> ab = true \/ holds w i s /\ cycleFound (edges w) d s = false ->
      pointOk w i s (Some (mkTxn ∅ ab)) (bind (mergeStmt s d tenantID runID ts) finishTx)
  | pt_commit tx :
      aborted tx = true \/ holds w i s /\ acyclicUpTo 6 (adj (view w tx)) ->
      pointOk w i s (Some tx) (finishTx Done)
  | pt_quiet t p : only quiet p -> pointOk w i s t p.

Lemma performs_locks i j c w t r w' t' k :
  performs j c w t r w' t' -> i <> j -> locks w !! k = Some i -> locks w' !! k = Some i.
Proof.
  intros Hp Hij Hk.
  assert (locks (release j w) !! k = Some i) as Hrel.
  { cbn. apply map_lookup_filter_Some. split; [done|]. cbn. congruence. }
  assert (forall w0, locks w0 = locks w -> locks (release j w0) !! k = Some i) as Hrel'.
  { intros w0 E. cbn. rewrite E. exact Hrel. }
  destruct Hp as [(_ & Hg & Hs)|[Hn|(_ & Hf)]].
  - destruct c; cbn in Hs; try (destruct t as [tx|]); try (injection Hs as -> -> ->); try done.
    + cbn in *. destruct (decide (hashtext uri = k)) as [<-|Hne].
      * rewrite Hk in Hg. by destruct Hg as [Hg|[= <-]].
      * by rewrite lookup_insert_ne.
    + cbn in *. destruct (decide (hashtext uri = k)) as [<-|Hne].
      * rewrite Hk in Hg. by destruct Hg as [Hg|[= <-]].
      * by rewrite lookup_insert_ne.
    + destruct (mergeEdges _ _ _ _ _ _ _ _) as [w1 t1] eqn:E. injection Hs as -> -> ->.
      apply mergeEdges_adj in E as (_ & -> & _). done.
  - destruct c; try done. destruct Hn as (tx & s0 & _ & _ & _ & _ & -> & _). done.
  - destruct c; cbn in Hf; try (by destruct Hf as [-> _]).
    destruct Hf as (_ & [->|(_ & ->)]); [done|]. destruct t as [tx|]; [|done]. by apply Hrel'.
Qed.

Lemma performs_edges i c w t r w' t' :
  performs i c w t r w' t' -> c <> CommitTx -> edges w' = edges w.
Proof.
  intros Hp Hc. destruct Hp as [(_ & _ & Hs)|[Hn|(_ & Hf)]].
  - destruct c; cbn in Hs; try (destruct t as [tx|]); try (injection Hs as -> -> ->); try done.
    destruct (mergeEdges _ _ _ _ _ _ _ _) as [w1 t1] eqn:E. injection Hs as -> -> ->.
    by apply mergeEdges_adj in E as (-> & _).
  - destruct c; try done. by destruct Hn as (tx & s0 & _ & _ & _ & _ & -> & _).
  - destruct c; cbn in Hf; try done; by destruct Hf as [-> _].
Qed.

Lemma performs_closed i c w t r w' t' :
  performs i c w t r w' t' -> t = None -> t' <> None -> exists tid, c = OpenTx tid.
Proof.
  intros Hp -> Ht. destruct Hp as [(Hr & _ & Hs)|[Hn|(_ & Hf)]].
  - destruct c; cbn in Hs, Hr; try done; [by eexists| |]; by injection Hs as -> -> ->.
  - destruct c; try done. by destruct Hn as (tx & s0 & Ht0 & _).
  - destruct c; cbn in Hf; try (by destruct Hf as [_ ->]); by destruct Hf as [-> _].
Qed.

Lemma finishTx_quiet o : o <> Done -> only quiet (finishTx o).
Proof. destruct o; [done| |]; intros _; cbn; repeat (split; [done|intros _]); done. Qed.

Lemma fetchHops_quiet n s d cur ch :
  only_to quiet (fun _ => True) (fetchHops n s d cur ch).
Proof.
  revert cur ch; induction n as [|n IH]; intros cur ch; cbn; [done|].
  split; [done|]. intros [raw|]; [|done]. destruct (bool_decide _); [done|apply IH].
Qed.

Lemma report_quiet s d (g : ingestOut -> ingestProg ingestOut) :
  (forall e, g (Failed e) = Ret (Failed e)) ->
  only quiet (bind (bind (bind (fetchCyclePath s d) (fun cycle =>
    Ret (Failed (LineageCycleError s d cycle)))) g) finishTx).
Proof.
  intros Hg. apply (only_to_only _ (fun _ => True)).
  apply only_to_bind with (Q := fun o => o <> Done);
    [apply only_to_bind with (Q := fun o => exists e, o = Failed e)|].
  - eapply only_to_bind; [apply fetchHops_quiet|]. intros l _. by eexists.
  - intros o [e ->]. by rewrite Hg.
  - intros o Ho. destruct o; [done| |]; cbn; repeat (split; [done|intros _]); done.
Qed.

Lemma lock_true i u w t w' t' :
  performs i (AdvisoryLock u) w t true w' t' ->
  t' = t /\ edges w' = edges w /\ holds w' i u.
Proof.
  intros [(_ & _ & Hs)|[[]|(Hf & _)]]; [|done]. cbn in Hs. injection Hs as -> ->.
  split_and!; [done|done|]. unfold holds. cbn. by rewrite lookup_insert_eq.
Qed.

Lemma view_empty w ab : view w (mkTxn ∅ ab) = edges w.
Proof. unfold view. cbn. apply map_empty_union. Qed.

(** A call of a process keeps its point and the committed graph acyclic. *)
Lemma point_call w i s t p :
  pointOk w i s t p -> acyclicUpTo 6 (adj (edges w)) ->
  match p with
  | Ret _ => True
  | Do c k => forall r w' t', performs i c w t r w' t' ->
      pointOk w' i s t' (k r) /\
      (edges w' = edges w \/ acyclicUpTo 6 (adj (edges w')) /\ holds w i s /\ t <> None)
  end.
Proof.
  intros Hp Hac. destruct Hp as [tid d run ts Hne|tid d run ts ab Hne|tid d run ts ab Hne Hab
    |tid d run ts ab Hne Hab|tid d run ts ab Hne Hab|tx Hab|t p Hq].
  - cbn. intros r w' t' Hp. split; [|left; by eapply performs_edges].
    destruct Hp as [(_ & _ & Hs)|[[]|(Hf & _)]].
    + cbn in Hs. injection Hs as -> -> ->. by apply pt_lock.
    + cbn in Hf. subst r. by apply pt_quiet.
  - cbn. intros [] w' t' Hp; (split; [|left; by eapply performs_edges]).
    + apply lock_true in Hp as (-> & _ & Hh). apply pt_relock; [done|by right].
    + by apply pt_quiet, finishTx_quiet.
  - cbn. intros [] w' t' Hp; (split; [|left; by eapply performs_edges]).
    + apply lock_true in Hp as (-> & _ & Hh). apply pt_check; [done|by right].
    + by apply pt_quiet, finishTx_quiet.
  - unfold checkStmt. destruct (escapable _); cbn; [|intros; split; [by apply pt_quiet|left];
      by eapply performs_edges].
    intros r w' t' Hp. split; [|left; by eapply performs_edges].
    destruct r; try (by apply pt_quiet, finishTx_quiet).
    2: { apply pt_quiet. by apply (report_quiet s d (thenMerge s d tid run ts)). }
    destruct Hp as [(Hr & _ & Hs)|[[]|(_ & -> & ->)]].
    + cbn [serve] in Hs. rewrite view_empty in Hs.
      destruct (cycleFound (edges w) d s) eqn:Ec; [discriminate Hs|]. injection Hs as -> ->.
      apply pt_merge; [done|]. destruct Hab as [Hab|Hab]; [by left|right]. split; [done|exact Ec].
    + apply pt_merge; [done|by left].
  - unfold mergeStmt. destruct (escapable _); cbn; [|intros; split; [by apply pt_quiet|left];
      by eapply performs_edges].
    intros r w' t' Hp. split; [|left; by eapply performs_edges].
    destruct Hp as [(Hr & _ & Hs)|[[]|(Hf & _)]]; [|cbn in Hf; subst r; by apply pt_quiet].
    cbn in Hs, Hr. destruct (mergeEdges _ _ _ _ _ _ _ _) as [w1 t1] eqn:E.
    injection Hs as -> -> ->. cbn in *. apply pt_commit. right.
    destruct Hab as [->|[Hh Hc]]; [done|]. pose proof E as (_ & El & _ & _)%mergeEdges_adj.
    split; [unfold holds; by rewrite El|].
    apply (merge_after_check _ _ _ _ _ _ _ _ _ Hne) in E as [Hv _]; [|by rewrite view_empty].
    apply Hv. by rewrite view_empty.
  - cbn. intros r w' t' Hp.
    assert (only quiet (if r then resetWith Done else rollbackWith (Failed ErrDatabase))) as Hq.
    { destruct r; cbn; repeat (split; [done|intros _]); done. }
    split; [by apply pt_quiet|].
    assert (w' = release i w \/ aborted tx = false /\ edges w' = view w tx) as [->|[Ha He]].
    { destruct Hp as [(Hr & _ & Hs)|[[]|(_ & _ & [->|[Hr ->]])]]; [|by left|].
      - cbn in *. injection Hs as -> -> ->. by right.
      - cbn in Hr. by right. }
    + by left.
    + right. rewrite He. destruct Hab as [?|[Hh Hv]]; [congruence|]. done.
  - destruct p as [a|c k]; [done|]. destruct Hq as [Hc Hk]. intros r w' t' Hp.
    split; [by apply pt_quiet|]. left. eapply performs_edges; [exact Hp|]. by intros ->.
Qed.

Lemma submit_point w i tid s d run ts :
  pointOk w i s None (MergeLineageEdge tid s d run ts).
Proof.
  unfold MergeLineageEdge. destruct (_ || _); [by apply pt_quiet|].
  destruct (unsafeField _); [by apply pt_quiet|].
  destruct (bool_decide_reflect (s = d)); [by apply pt_quiet|]. by apply pt_start.
Qed.

Lemma point_stable w w' i s t p :
  pointOk w i s t p ->
  (holds w i s -> holds w' i s) ->
  (edges w' = edges w \/ (t <> None -> ~ holds w i s)) ->
  pointOk w' i s t p.
Proof.
  intros Hp Hl He.
  destruct Hp as [tid d run ts Hne|tid d run ts ab Hne|tid d run ts ab Hne Hab
    |tid d run ts ab Hne Hab|tid d run ts ab Hne Hab|tx Hab|t p Hq];
    [by apply pt_start|by apply pt_lock|apply pt_relock|apply pt_check|apply pt_merge
    |apply pt_commit|by apply pt_quiet]; try done; try tauto.
  - destruct He as [->|He]; [tauto|]. destruct Hab as [?|[Hh _]]; [by left|].
    by destruct (He ltac:(done)).
  - destruct He as [He|He]; [unfold view in *; rewrite He; tauto|].
    destruct Hab as [?|[Hh _]]; [by left|]. by destruct (He ltac:(done)).
Qed.

Definition runOk (st : world * list process) : Prop :=
  let '(w, ps) := st in
  acyclicUpTo 6 (adj (edges w)) /\
  (forall i p, ps !! i = Some p -> pointOk w i (p_src p) (p_tx p) (p_prog p)) /\
  (forall p q, p ∈ ps -> q ∈ ps -> p_tx p <> None -> p_tx q <> None ->
     hashtext (p_src p) = hashtext (p_src q)).

Lemma elem_of_insert_inv {A} (l : list A) i x y : y ∈ <[i := x]> l -> y = x \/ y ∈ l.
Proof.
  intros (j & H)%list_elem_of_lookup. destruct (decide (i = j)) as [->|Hne].
  - destruct (decide (j < length l)) as [Hl|Hl].
    + rewrite list_lookup_insert_eq in H by done. injection H as <-. by left.
    + rewrite list_insert_ge in H by lia. right. by eapply list_elem_of_lookup_2.
  - rewrite list_lookup_insert_ne in H by done. right. by eapply list_elem_of_lookup_2.
Qed.

Lemma step_runOk st st' : step true st st' -> runOk st -> runOk st'.
Proof.
  intros [w ps tid s d run ts|w w' ps i s t t' c k r Hi Hp Hg] (Hac & Hpt & Hk).
  - split_and!; [done| |].
    + intros i p [Hi|[Hl Hi]]%lookup_app_Some; [by apply Hpt|].
      apply list_lookup_singleton_Some in Hi as [_ <-]. apply submit_point.
    + intros p q [Hp|Hp]%elem_of_app [Hq|Hq]%elem_of_app;
        try (apply list_elem_of_singleton in Hp as ->); try (apply list_elem_of_singleton in Hq as ->);
        try done. by apply Hk.
  - pose proof (Hpt _ _ Hi) as Hpi. cbn in Hpi.
    destruct (point_call _ _ _ _ _ Hpi Hac _ _ _ Hp) as [Hpi' He].
    pose proof (list_elem_of_lookup_2 _ _ _ Hi) as Hin.
    split_and!.
    + destruct He as [->|[He _]]; done.
    + intros j p. destruct (decide (i = j)) as [<-|Hne].
      * rewrite list_lookup_insert_eq by (by eapply lookup_lt_Some). by intros [= <-].
      * rewrite list_lookup_insert_ne by done. intros Hj. eapply point_stable; [by apply Hpt| |].
        -- intros Hh. unfold holds in *. by eapply performs_locks; [exact Hp| |exact Hh].
        -- destruct He as [He|(_ & Hh & Ht)]; [by left|right]. intros Htj Hhj.
           unfold holds in *.
           rewrite (Hk p _ (list_elem_of_lookup_2 _ _ _ Hj) Hin Htj Ht) in Hhj.
           cbn in Hhj. rewrite Hh in Hhj. by injection Hhj.
    + assert (forall p, p ∈ ps -> p_tx p <> None -> t' <> None ->
        hashtext (p_src p) = hashtext s) as Hnew.
      { intros p Hpin Hpt' Ht'. destruct (decide (t = None)) as [Ht|Ht].
        - destruct (performs_closed _ _ _ _ _ _ _ Hp Ht Ht') as [tid ->].
          by apply (Hg eq_refl).
        - by apply (Hk p _ Hpin Hin). }
      intros p q [->|Hpin]%elem_of_insert_inv [->|Hqin]%elem_of_insert_inv Htp Htq; cbn in *;
        try done; [symmetry; by apply Hnew|by apply Hnew|by apply Hk].
Qed.

(** (C4) Whatever statements fail, as long as concurrent upserts share a lock key
    (or run one at a time) no interleaving commits a cycle of one to six edges:
    the check looks at most five edges back, and the new edge is the sixth. *)
Theorem coordinated_acyclic w0 w ps :
  acyclicUpTo 6 (adj (edges w0)) ->
  rtc (step true) (w0, []) (w, ps) ->
  acyclicUpTo 6 (adj (edges w)).
Proof.
  intros Hac Hr.
  assert (forall st, rtc (step true) st (w, ps) -> runOk st -> runOk (w, ps)) as H.
  { intros st H. remember (w, ps) as st' eqn:E. clear E Hr.
    induction H as [st|st1 st2 st3 H1 _ IH]; [done|]. intros Hok. apply IH.
    by eapply step_runOk. }
  apply (H _ Hr). split_and!; [done| |]; intros; by apply elem_of_nil in H0 || done.
Qed.
Lemma alone_bind {A B} (p : ingestProg A) (f : A -> ingestProg B) w t :
  alone vertices hashtext (bind p f) w t =
    let '(a, w', t') := alone vertices hashtext p w t in alone vertices hashtext (f a) w' t'.
Proof.
  revert w t; induction p as [a|c k IH]; intros w t; [done|]. cbn [bind alone].
  destruct (serve vertices hashtext 0 c w t) as [[r w'] t']. apply IH.
Qed.

Lemma strip_agtypeText s : stripAgtypeQuotes (agtypeText s) = s.
Proof.
  assert (forall suf c, last suf = Some c -> c <> ascii_of_N 34 ->
    trimSuffixLonger suf (agtypeText s) = agtypeText s) as Htrim.
  { intros suf c Hl Hc. unfold trimSuffixLonger, hasSuffix.
    assert (hasPrefix (reverse suf) (reverse (agtypeText s)) = false) as ->.
    - apply last_Some in Hl as [l ->]. unfold agtypeText.
      rewrite reverse_snoc, reverse_cons, reverse_snoc. by apply hasPrefix_neq.
    - by rewrite andb_false_r. }
  unfold stripAgtypeQuotes.
  rewrite (Htrim "::text" "t"%char), (Htrim "::numeric" "c"%char) by done.
  unfold agtypeText. cbn [length head]. rewrite length_app, app_comm_cons, last_snoc.
  rewrite !bool_decide_eq_true_2 by done. cbn [length andb].
  replace (S (length s + 1) - 1) with (length (ascii_of_N 34 :: s)) by (cbn; lia).
  rewrite take_app_length. replace (2 <=? S (length s + 1))%nat with true; [done|].
  symmetry. apply Nat.leb_le. lia.
Qed.

(** The path of a cycle only reads. *)
Lemma fetchHops_alone n s d cur ch w tx :
  exists l, alone vertices hashtext (fetchHops n s d cur ch) w (Some tx) = (l, w, Some tx).
Proof.
  revert cur ch; induction n as [|n IH]; intros cur ch; cbn [fetchHops alone serve]; [by eexists|].
  destruct (head _) as [nx|]; cbn [fmap option_fmap option_map]; [|by eexists].
  destruct (bool_decide _); [by eexists|]. apply IH.
Qed.
End spec.

(** ** An undisturbed upsert *)

Section upsert.
Context (vertices : gmap N gostring) (hashtext : gostring -> Z).
Context (tenantID runID : gostring) (ts : Z).

Abbreviation pair := (mergePair tenantID runID ts).

(** The sequence is ahead of the edges. *)
Definition ahead (es : gmap N edge) (next : N) : Prop :=
  forall i e, es !! i = Some e -> (i < next)%N.

(** An edge afterwards: as it was, or with its null properties and its last sight
    set. *)
Definition kept (e e' : edge) : Prop := e' = e \/ e' = touch runID ts e.

Lemma kept_trans e1 e2 e3 : kept e1 e2 -> kept e2 e3 -> kept e1 e3.
Proof.
  unfold kept. intros [->| ->] [->| ->]; auto.
Qed.

Definition joined (es : gmap N edge) (st : N * N) : Prop :=
  exists i e, es !! i = Some e /\ matches st.1 st.2 tenantID e.

Lemma kept_matches s t e e' : kept e e' -> matches s t tenantID e -> matches s t tenantID e'.
Proof. by intros [->| ->]. Qed.

Lemma mergePair_keeps base ws next st ws' next' :
  ahead (ws ∪ base) next -> pair base (ws, next) st = (ws', next') ->
  ahead (ws' ∪ base) next' /\ joined (ws' ∪ base) st /\
  (forall i e, (ws ∪ base) !! i = Some e -> exists e', (ws' ∪ base) !! i = Some e' /\ kept e e') /\
  (joined (ws ∪ base) st -> dom (ws' ∪ base) = dom (ws ∪ base)).
Proof.
  intros Hf. unfold mergePair. set (found := filter _ _).
  destruct (bool_decide_reflect (found = ∅)) as [He|Hne]; intros [= <- <-].
  - rewrite <- insert_union_l. split_and!.
    + intros i e Hi. apply lookup_insert_Some in Hi as [[<- _]|[_ Hi]]; [lia|].
      apply Hf in Hi. lia.
    + eexists next, _. by rewrite lookup_insert_eq.
    + intros i e Hi. exists e. split; [|by left]. rewrite lookup_insert_ne; [done|].
      intros <-. apply Hf in Hi. lia.
    + intros (i & e & Hi & Hm). exfalso.
      assert (found !! i = Some e) as E; [by apply map_lookup_filter_Some|].
      by rewrite He, lookup_empty in E.
  - assert (forall i, ((touch runID ts <$> found) ∪ ws ∪ base) !! i =
      match found !! i with Some e => Some (touch runID ts e) | None => (ws ∪ base) !! i end) as Hl.
    { intros i. rewrite <- map_union_assoc, lookup_union, lookup_fmap.
      destruct (found !! i) as [e|]; cbn; by destruct ((ws ∪ base) !! i). }
    assert (forall i e, found !! i = Some e -> (ws ∪ base) !! i = Some e) as Hsub.
    { intros i e Hi. by apply map_lookup_filter_Some in Hi as [? _]. }
    split_and!.
    + intros i e Hi. rewrite Hl in Hi. destruct (found !! i) as [e0|] eqn:E.
      * by eapply Hf, Hsub.
      * by eapply Hf.
    + apply map_choose in Hne as (i & e & Hi). exists i, (touch runID ts e).
      rewrite Hl, Hi. split; [done|]. by apply map_lookup_filter_Some in Hi as [_ Hm].
    + intros i e Hi. rewrite Hl. destruct (found !! i) as [e0|] eqn:E.
      * apply Hsub in E. rewrite Hi in E. injection E as <-. eexists. split; [done|by right].
      * exists e. split; [done|by left].
    + intros _. apply set_eq. intros i. rewrite !elem_of_dom, Hl.
      destruct (found !! i) as [e0|] eqn:E; [|done]. apply Hsub in E. rewrite E.
      split; intros _; by eexists.
Qed.

Lemma mergeFold_keeps base l ws next ws' next' :
  ahead (ws ∪ base) next -> fold_left (pair base) l (ws, next) = (ws', next') ->
  ahead (ws' ∪ base) next' /\ (forall st, st ∈ l -> joined (ws' ∪ base) st) /\
  (forall i e, (ws ∪ base) !! i = Some e -> exists e', (ws' ∪ base) !! i = Some e' /\ kept e e') /\
  ((forall st, st ∈ l -> joined (ws ∪ base) st) -> dom (ws' ∪ base) = dom (ws ∪ base)).
Proof.
  revert ws next; induction l as [|st l IH]; intros ws next Hf H; cbn [fold_left] in H.
  { injection H as <- <-. split_and!; [done|by intros ? []%elem_of_nil| |done].
    intros i e Hi. exists e. split; [done|by left]. }
  destruct (pair base (ws, next) st) as [ws1 next1] eqn:E.
  destruct (mergePair_keeps _ _ _ _ _ _ Hf E) as (Hf1 & Hj & Hk & Hd).
  destruct (IH _ _ Hf1 H) as (Hf2 & Hj2 & Hk2 & Hd2).
  assert (forall st', joined (ws1 ∪ base) st' -> joined (ws' ∪ base) st') as Hmono.
  { intros st' (i & e & Hi & Hm). destruct (Hk2 _ _ Hi) as (e' & Hi' & Hke).
    exists i, e'. split; [done|by eapply kept_matches]. }
  assert (forall st', joined (ws ∪ base) st' -> joined (ws1 ∪ base) st') as Hmono1.
  { intros st' (i & e & Hi & Hm). destruct (Hk _ _ Hi) as (e' & Hi' & Hke).
    exists i, e'. split; [done|by eapply kept_matches]. }
  split_and!; [done| | |].
  - intros st' [->|Hl]%elem_of_cons; auto.
  - intros i e Hi. destruct (Hk _ _ Hi) as (e1 & Hi1 & Hk1).
    destruct (Hk2 _ _ Hi1) as (e2 & Hi2 & Hke2). exists e2. split; [done|by eapply kept_trans].
  - intros Hall. rewrite Hd2, Hd; [done| |].
    + apply Hall. by left.
    + intros st' Hl. apply Hmono1, Hall. by right.
Qed.

Abbreviation run1 p w := (alone vertices hashtext p w None).
Abbreviation upsert s d := (MergeLineageEdge tenantID s d runID ts).
Abbreviation checkedFields s d :=
  [("src_uri", s); ("tgt_uri", d); ("tenant_id", tenantID); ("run_id", runID)].

Lemma unsafeField_None fields :
  unsafeField fields = None <-> escapable (map snd fields) = true.
Proof.
  unfold escapable. induction fields as [|[n v] fields IH]; cbn; [done|].
  destruct (IsSafeCypherLiteral v); cbn; [exact IH|done].
Qed.

(** The transaction of an upsert: what its end leaves committed. *)
Lemma transaction_alone s d w :
  unsafeField (checkedFields s d) = None -> s <> d ->
  let '(o, w', t') := run1 (executeInTenant tenantID (mergeBody s d tenantID runID ts)) w in
  t' = None /\
  if cycleFound vertices (edges w) d s
  then edges w' = edges w /\ exists path, o = Failed (LineageCycleError s d path)
  else o = Done /\ exists w1 tx1,
    mergeEdges vertices s d tenantID runID ts
      (mkWorld (edges w) (nextId w) (<[hashtext s := 0]> (<[hashtext s := 0]> (locks w))))
      (mkTxn ∅ false) = (w1, tx1) /\
    edges w' = view w1 tx1 /\ nextId w' = nextId w1.
Proof.
  intros Hf Hne. apply unsafeField_None in Hf. cbn [map snd] in Hf.
  assert (escapable [d; s] = true) as Hds.
  { revert Hf. unfold escapable. cbn. destruct (IsSafeCypherLiteral s), (IsSafeCypherLiteral d); done. }
  unfold executeInTenant, mergeBody, locked, validateNoCycleTx, locked, checkStmt.
  cbn [alone serve bind]. rewrite Hds. cbn [alone serve bind].
  unfold view at 1. cbn [writes edges]. rewrite map_empty_union.
  destruct (cycleFound vertices (edges w) d s) eqn:Ec.
  - rewrite !alone_bind. unfold fetchCyclePath.
    set (w1 := mkWorld _ _ _).
    destruct (fetchHops_alone vertices hashtext cycleMaxDepth s d d [d] w1 (mkTxn ∅ false)) as [l El].
    rewrite El. cbn. split; [done|]. split; [done|]. by eexists.
  - cbn [bind thenMerge]. unfold mergeStmt. rewrite Hf. cbn [alone serve bind].
    destruct (mergeEdges _ _ _ _ _ _ _ _) as [w1 tx1] eqn:Em. cbn.
    split_and!; [done|done|]. by exists w1, tx1.
Qed.

(** Every edge of this package carries its creation and its run. *)
Definition dated (es : gmap N edge) : Prop :=
  forall i e, es !! i = Some e -> created_at e <> None /\ run_id e <> None.

Lemma mergePair_dated base ws next st ws' next' :
  dated (ws ∪ base) -> pair base (ws, next) st = (ws', next') -> dated (ws' ∪ base).
Proof.
  intros Hd. unfold mergePair. set (found := filter _ _).
  destruct (bool_decide (found = ∅)); intros [= <- <-] i e Hi.
  - rewrite <- insert_union_l in Hi.
    apply lookup_insert_Some in Hi as [[_ <-]|[_ Hi]]; [done|by eapply Hd].
  - apply lookup_union_Some_raw in Hi as [Hi|[Hn Hi]].
    + apply lookup_union_Some_raw in Hi as [Hi|[_ Hi]].
      * apply lookup_fmap_Some in Hi as (e0 & <- & _). done.
      * eapply Hd, lookup_union_Some_raw. by left.
    + apply lookup_union_None in Hn as [_ Hn]. eapply Hd, lookup_union_Some_raw. by right.
Qed.

Lemma mergeFold_dated base l ws next ws' next' :
  dated (ws ∪ base) -> fold_left (pair base) l (ws, next) = (ws', next') -> dated (ws' ∪ base).
Proof.
  revert ws next; induction l as [|st l IH]; intros ws next Hd H; cbn [fold_left] in H.
  { by injection H as <- <-. }
  destruct (pair base (ws, next) st) as [ws1 next1] eqn:E.
  eapply IH; [|exact H]. by eapply mergePair_dated.
Qed.

(** What an upsert that finds no cycle commits, without the order of the calls. *)
Lemma upsert_edges s d w w1 tx1 ls :
  ahead (edges w) (nextId w) ->
  mergeEdges vertices s d tenantID runID ts (mkWorld (edges w) (nextId w) ls) (mkTxn ∅ false)
    = (w1, tx1) ->
  ahead (view w1 tx1) (nextId w1) /\ (dated (edges w) -> dated (view w1 tx1)) /\
  (forall u v, vertices !! u = Some s -> vertices !! v = Some d -> joined (view w1 tx1) (u, v)) /\
  (forall i e, edges w !! i = Some e -> exists e', view w1 tx1 !! i = Some e' /\ kept e e') /\
  ((forall u v, vertices !! u = Some s -> vertices !! v = Some d -> joined (edges w) (u, v)) ->
   dom (view w1 tx1) = dom (edges w)).
Proof.
  intros Ha Hm. unfold mergeEdges in Hm. cbn [edges nextId writes] in Hm.
  destruct (fold_left _ _ _) as [ws next] eqn:E. injection Hm as <- <-.
  assert (dated (edges w) -> dated (ws ∪ edges w)) as Hd.
  { intros Hd. eapply mergeFold_dated; [|exact E]. by rewrite map_empty_union. }
  apply mergeFold_keeps in E as (H1 & H2 & H3 & H4); [|by rewrite map_empty_union].
  rewrite map_empty_union in H3. rewrite !map_empty_union in H4. unfold view. cbn [writes edges].
  assert (forall u v, (u, v) ∈ list_prod (named vertices s) (named vertices d) <->
    vertices !! u = Some s /\ vertices !! v = Some d) as Hin.
  { intros u v. by rewrite list_elem_of_In, in_prod_iff, <- !list_elem_of_In, !named_spec. }
  split_and!; [done|done| |done|].
  - intros u v Hu Hv. by apply H2, Hin.
  - intros Hall. apply H4. intros [u v] [Hu Hv]%Hin. rewrite ?map_empty_union. by apply Hall.
Qed.

(** An undisturbed [MergeLineageEdge], on every branch: the checks in order;
    with a path of up to five edges back from the target the error carries both
    URIs and nothing is committed; otherwise it answers nil, every vertex of
    the source has an edge to every vertex of the target, no other edge is
    added, each edge that was there keeps its id, its ends and its creation -
    and nothing at all is written when either URI names no vertex. *)
Theorem MergeLineageEdge_outcome s d w :
  ahead (edges w) (nextId w) ->
  let '(o, w', t') := run1 (upsert s d) w in
  t' = None /\
  if bool_decide (s = []) || bool_decide (d = [])
  then o = Failed ErrLineageBatchEmpty /\ w' = w
  else match unsafeField (checkedFields s d) with
  | Some f => o = Failed (ErrUnsafeField f) /\ w' = w
  | None =>
      if bool_decide (s = d) then o = Failed (LineageCycleError s d [s; d]) /\ w' = w
      else if cycleFound vertices (edges w) d s
      then edges w' = edges w /\ exists path, o = Failed (LineageCycleError s d path)
      else o = Done /\
        (forall u v, vertices !! u = Some s -> vertices !! v = Some d -> joined (edges w') (u, v)) /\
        (forall u v, adj (edges w') u v ->
           adj (edges w) u v \/ vertices !! u = Some s /\ vertices !! v = Some d) /\
        (forall i e, edges w !! i = Some e -> exists e', edges w' !! i = Some e' /\ kept e e') /\
        (named vertices s = [] \/ named vertices d = [] -> edges w' = edges w)
  end.
Proof.
  intros Ha. unfold MergeLineageEdge.
  destruct (bool_decide (s = []) || bool_decide (d = [])); [by cbn|].
  destruct (unsafeField _) as [f|] eqn:Ef; [by cbn|].
  destruct (bool_decide_reflect (s = d)) as [->|Hne]; [by cbn|].
  pose proof (transaction_alone s d w Ef Hne) as H.
  destruct (run1 _ w) as [[o w'] t']. destruct H as [Ht H]. split; [done|].
  destruct (cycleFound vertices (edges w) d s); [done|].
  destruct H as (-> & w1 & tx1 & Em & -> & _). split; [done|].
  destruct (upsert_edges _ _ _ _ _ _ Ha Em) as (_ & _ & H2 & H3 & _).
  pose proof (mergeEdges_adj _ _ _ _ _ _ _ _ _ _ Em) as (_ & _ & _ & Hadj).
  split_and!; [done| |done|].
  - intros u v Hv. destruct (Hadj u v Hv) as [Hold|Hnew]; [left|by right].
    unfold view in Hold. cbn in Hold. by rewrite map_empty_union in Hold.
  - intros Hnone. revert Em. unfold mergeEdges.
    assert (list_prod (named vertices s) (named vertices d) = []) as ->.
    { destruct Hnone as [->| ->]; [done|]. by induction (named vertices s). }
    cbn. intros [= <- <-]. unfold view. cbn. by rewrite map_empty_union.
Qed.
End upsert.

(** Cases of an upsert that answers nil. *)
Lemma upsert_done vertices hashtext tenantID runID ts s d w w1 t1 :
  alone vertices hashtext (MergeLineageEdge tenantID s d runID ts) w None = (Done, w1, t1) ->
  unsafeField [("src_uri", s); ("tgt_uri", d); ("tenant_id", tenantID); ("run_id", runID)] = None /\
  s <> [] /\ d <> [] /\ s <> d /\ cycleFound vertices (edges w) d s = false /\
  exists w2 tx2 ls,
    mergeEdges vertices s d tenantID runID ts (mkWorld (edges w) (nextId w) ls)
      (mkTxn ∅ false) = (w2, tx2) /\
    edges w1 = view w2 tx2 /\ nextId w1 = nextId w2.
Proof.
  unfold MergeLineageEdge.
  destruct (bool_decide_reflect (s = [])); [done|]. destruct (bool_decide_reflect (d = [])); [done|].
  cbn [orb]. destruct (unsafeField _) as [f|] eqn:Ef; [done|].
  destruct (bool_decide_reflect (s = d)) as [->|Hne]; [done|]. intros E.
  pose proof (transaction_alone vertices hashtext tenantID runID ts s d w Ef Hne) as H.
  rewrite E in H. destruct H as [_ H]. destruct (cycleFound vertices (edges w) d s).
  { by destruct H as (_ & ? & ?). }
  destruct H as (_ & w2 & tx2 & Em & He & Hn). split_and!; try done.
  by eexists w2, tx2, _.
Qed.

(** The same edges, up to the time they were last seen. *)
Definition sameEdges (es es' : gmap N edge) : Prop :=
  dom es' = dom es /\
  forall i e e', es !! i = Some e -> es' !! i = Some e' ->
    e_src e' = e_src e /\ e_tgt e' = e_tgt e /\ e_tenant e' = e_tenant e /\
    created_at e' = created_at e /\ run_id e' = run_id e.

Lemma sameEdges_refl es : sameEdges es es.
Proof. split; [done|]. intros i e e' H1 H2. rewrite H1 in H2. by injection H2 as <-. Qed.

Lemma sameEdges_trans es1 es2 es3 : sameEdges es1 es2 -> sameEdges es2 es3 -> sameEdges es1 es3.
Proof.
  intros [Hd1 H1] [Hd2 H2]. split; [by rewrite Hd2|]. intros i e1 e3 He1 He3.
  assert (i ∈ dom es2) as [e2 He2]%elem_of_dom.
  { rewrite Hd1. apply elem_of_dom. by eexists. }
  destruct (H1 _ _ _ He1 He2) as (E1 & E2 & E3 & E4 & E5).
  destruct (H2 _ _ _ He2 He3) as (F1 & F2 & F3 & F4 & F5).
  split_and!; congruence.
Qed.

Lemma sameEdges_adj es es' u v : sameEdges es es' -> adj es' u v -> adj es u v.
Proof.
  intros [Hd H] (e' & [i Hi]%listed_elem & <- & <-).
  assert (i ∈ dom es) as [e He]%elem_of_dom.
  { rewrite <- Hd. apply elem_of_dom. by eexists. }
  destruct (H _ _ _ He Hi) as (-> & -> & _). exists e.
  split_and!; [|done|done]. apply listed_elem. by exists i.
Qed.

Lemma sameEdges_joined tenantID es es' st :
  sameEdges es es' -> joined tenantID es st -> joined tenantID es' st.
Proof.
  intros [Hd H] (i & e & He & Hm).
  assert (i ∈ dom es') as [e' He']%elem_of_dom.
  { rewrite Hd. apply elem_of_dom. by eexists. }
  exists i, e'. split; [done|]. destruct (H _ _ _ He He') as (E1 & E2 & E3 & _).
  unfold matches in *. by rewrite E1, E2, E3.
Qed.

Lemma cycleFound_mono vertices es es' d s :
  (forall u v, adj es' u v -> adj es u v) ->
  cycleFound vertices es d s = false -> cycleFound vertices es' d s = false.
Proof.
  intros Hadj Hc. destruct (cycleFound vertices es' d s) eqn:E; [|done].
  apply cycleFound_nsteps in E as (a & b & m & Ha & Hb & Hm & Hn).
  assert (cycleFound vertices es d s = true) as E2; [|congruence].
  apply cycleFound_nsteps. exists a, b, m. split_and!; try done; try lia.
  clear -Hadj Hn. induction Hn; [apply nsteps_O|]. eapply nsteps_l; eauto.
Qed.

(** An upsert whose edges are all there. *)
Lemma upsert_again vertices hashtext tenantID runID ts s d w :
  ahead (edges w) (nextId w) -> dated (edges w) ->
  unsafeField [("src_uri", s); ("tgt_uri", d); ("tenant_id", tenantID); ("run_id", runID)] = None ->
  s <> [] -> d <> [] -> s <> d -> cycleFound vertices (edges w) d s = false ->
  (forall u v, vertices !! u = Some s -> vertices !! v = Some d -> joined tenantID (edges w) (u, v)) ->
  exists w', alone vertices hashtext (MergeLineageEdge tenantID s d runID ts) w None
      = (Done, w', None) /\
    ahead (edges w') (nextId w') /\ dated (edges w') /\ sameEdges (edges w) (edges w').
Proof.
  intros Ha Hdt Hf Hs Hd Hne Hc Hj.
  pose proof (transaction_alone vertices hashtext tenantID runID ts s d w Hf Hne) as H.
  unfold MergeLineageEdge. rewrite !bool_decide_eq_false_2 by done. cbn [orb].
  rewrite Hf. destruct (alone _ _ _ w None) as [[o w3] t3].
  destruct H as [-> H]. rewrite Hc in H. destruct H as (-> & w4 & tx4 & Em & He & Hn).
  exists w3. split; [done|].
  destruct (upsert_edges _ _ _ _ _ _ _ _ _ _ Ha Em) as (Ha1 & Hd1 & _ & Hk & Hdom).
  rewrite He, Hn. split; [done|]. split; [by apply Hd1|]. split; [by apply Hdom|].
  intros i e1 e2 H1 H2. destruct (Hk _ _ H1) as (e2' & H2' & Hke).
  rewrite H2 in H2'. injection H2' as <-. destruct (Hdt _ _ H1) as [Hcr Hru].
  destruct Hke as [->| ->]; [done|]. cbn. split_and!; [done|done|done| |].
  - by destruct (created_at e1).
  - by destruct (run_id e1).
Qed.

(** What an upsert that answers nil leaves. *)
Lemma upsert_first vertices hashtext tenantID runID ts s d w w1 t1 :
  ahead (edges w) (nextId w) -> dated (edges w) ->
  alone vertices hashtext (MergeLineageEdge tenantID s d runID ts) w None = (Done, w1, t1) ->
  unsafeField [("src_uri", s); ("tgt_uri", d); ("tenant_id", tenantID); ("run_id", runID)] = None /\
  s <> [] /\ d <> [] /\ s <> d /\
  cycleFound vertices (edges w) d s = false /\ cycleFound vertices (edges w1) d s = false /\
  ahead (edges w1) (nextId w1) /\ dated (edges w1) /\
  (forall u v, vertices !! u = Some s -> vertices !! v = Some d -> joined tenantID (edges w1) (u, v)) /\
  (forall i e, edges w !! i = Some e -> exists e', edges w1 !! i = Some e' /\ kept runID ts e e') /\
  (forall u v, adj (edges w1) u v ->
     adj (edges w) u v \/ vertices !! u = Some s /\ vertices !! v = Some d).
Proof.
  intros Ha Hdt E. apply upsert_done in E as (Hf & Hs & Hd' & Hne & Hc & w2 & tx2 & ls & Em & He & Hn).
  destruct (upsert_edges _ _ _ _ _ _ _ _ _ _ Ha Em) as (Ha1 & Hd1 & Hj1 & Hk1 & _).
  rewrite He, Hn. split_and!; auto.
  - apply (merge_after_check _ _ _ _ _ _ _ _ _ _ Hne) in Em as [_ Em]; [done|].
    unfold view. cbn. by rewrite map_empty_union.
  - apply mergeEdges_adj in Em as (_ & _ & _ & Hadj). intros u v Hv.
    destruct (Hadj u v Hv) as [Hold|Hnew]; [left|by right].
    unfold view in Hold. cbn in Hold. by rewrite map_empty_union in Hold.
Qed.

Lemma unsafe_run s d tenantID runID runID2 :
  unsafeField [("src_uri", s); ("tgt_uri", d); ("tenant_id", tenantID); ("run_id", runID)] = None ->
  IsSafeCypherLiteral runID2 = true ->
  unsafeField [("src_uri", s); ("tgt_uri", d); ("tenant_id", tenantID); ("run_id", runID2)] = None.
Proof.
  rewrite !unsafeField_None. unfold escapable. cbn. intros Hf ->. revert Hf.
  by repeat (destruct (IsSafeCypherLiteral _); cbn).
Qed.

(** ** Schedules: runs by the index of the process that makes the next call *)

Inductive action :=
  | Submit (tenantID srcURI tgtURI runID : gostring) (ts : Z)
  | Turn (i : nat).

#[export] Instance runnable_dec c t : Decision (runnable c t).
Proof. destruct c; cbn; try (destruct t); apply _. Defined.

#[export] Instance granted_dec hashtext i c w : Decision (granted hashtext i c w).
Proof. destruct c; cbn; apply _. Defined.

Section schedule.
Context (vertices : gmap N gostring) (hashtext : gostring -> Z) (coordinated : bool).

Definition coordinates (c : ingestCall) (s : gostring) (ps : list process) : bool :=
  match c with
  | OpenTx _ =>
      negb coordinated ||
      forallb (fun p => bool_decide (p_tx p = None) || bool_decide (hashtext (p_src p) = hashtext s)) ps
  | _ => true
  end.

Definition act (a : action) (st : world * list process) : option (world * list process) :=
  let '(w, ps) := st in
  match a with
  | Submit tid s d run ts =>
      Some (w, ps ++ [mkProc s None (MergeLineageEdge tid s d run ts)])
  | Turn i =>
      match ps !! i with
      | Some (mkProc s t (Do c k)) =>
          if bool_decide (runnable c t) && bool_decide (granted hashtext i c w) && coordinates c s ps
          then let '(r, w', t') := serve vertices hashtext i c w t in
               Some (w', <[i := mkProc s t' (k r)]> ps)
          else None
      | _ => None
      end
  end.

Fixpoint schedule (l : list action) (st : world * list process)
  : option (world * list process) :=
  match l with
  | [] => Some st
  | a :: l => match act a st with Some st => schedule l st | None => None end
  end.

Lemma act_step a st st' :
  act a st = Some st' -> step vertices hashtext coordinated st st'.
Proof.
  destruct st as [w ps], a as [tid s d run ts|i]; cbn [act].
  { intros [= <-]. apply step_submit. }
  destruct (ps !! i) as [[s t [a|c k]]|] eqn:Ei; try done.
  destruct (bool_decide_reflect (runnable c t)) as [Hr|]; [|done].
  destruct (bool_decide_reflect (granted hashtext i c w)) as [Hg|]; [|done].
  destruct (coordinates c s ps) eqn:Ec; [|done]. cbn [andb].
  destruct (serve vertices hashtext i c w t) as [[r w'] t'] eqn:Es. intros [= <-].
  eapply step_call; [exact Ei|left; by rewrite Es|].
  intros Hco. destruct c; try done. cbn in Ec. rewrite Hco in Ec. cbn in Ec.
  rewrite forallb_forall in Ec.
  intros p Hp Ht. apply list_elem_of_In, Ec in Hp.
  apply orb_true_iff in Hp as [Hp|Hp]; by apply bool_decide_eq_true in Hp.
Qed.

Lemma schedule_rtc l st st' :
  schedule l st = Some st' -> rtc (step vertices hashtext coordinated) st st'.
Proof.
  revert st; induction l as [|a l IH]; intros st; cbn [schedule].
  - intros [= <-]. apply rtc_refl.
  - destruct (act a st) as [st1|] eqn:E; [|done]. intros H.
    eapply rtc_l; [by eapply act_step|auto].
Qed.
End schedule.

(** ** What escapes the check *)

(** Vertices [v0] to [v6], by their index. *)
Definition uriOf (n : nat) : gostring := "iceberg://t/v" ++ [ascii_of_nat (48 + n)].
Definition sevenVertices : gmap N gostring :=
  list_to_map (map (fun n => (N.of_nat n, uriOf n)) (seq 0 7)).

(** A hash for the examples that tells the seven apart. *)
Definition lastByte (s : gostring) : Z :=
  match last s with Some c => Z.of_N (ord c) | None => 0 end.

Definition emptyWorld : world := mkWorld ∅ 0 ∅.

(** The calls of one upsert without a cycle: open, lock twice, check, merge,
    commit, reset. *)
Definition upsertTurns : nat := 7.
Definition serialUpsert (i s d : nat) : list action :=
  Submit "t" (uriOf s) (uriOf d) [] 0 :: replicate upsertTurns (Turn i).

Lemma coordinated_acyclic_witness :
  exists w ps,
    acyclicUpTo 6 (adj (edges emptyWorld)) /\
    rtc (step sevenVertices lastByte true) (emptyWorld, []) (w, ps) /\
    size (edges w) = 2 /\
    acyclicUpTo 6 (adj (edges w)).
Proof.
  assert (acyclicUpTo 6 (adj (edges emptyWorld))) as H0.
  { intros m u Hm H. inversion H as [|? ? ? ? (e & He & _)]; subst; [lia|].
    by apply elem_of_nil in He. }
  destruct (schedule sevenVertices lastByte true (serialUpsert 0 0 1 ++ serialUpsert 1 1 2)
    (emptyWorld, [])) as [[w ps]|] eqn:E; [|vm_compute in E; discriminate E].
  exists w, ps. split_and!; [exact H0|by eapply schedule_rtc| |].
  - revert E. vm_compute. by intros [= <- _].
  - eapply (coordinated_acyclic sevenVertices lastByte); [exact H0|by eapply schedule_rtc].
Defined.

Definition closedWalk (n : nat) (es : gmap N edge) (u : N) : bool :=
  existsb (fun p => bool_decide (length p = n) && bool_decide (pathEnd u p = u))
    (trails n (listed es) u).

Lemma closedWalk_nsteps n es u : closedWalk n es u = true -> nsteps (adj es) n u u.
Proof.
  intros (p & Hp & H)%existsb_exists. apply andb_true_iff in H as [Hl He].
  apply bool_decide_eq_true in Hl, He.
  apply list_elem_of_In, trails_sound in Hp as (_ & _ & Hc & Hin).
  apply nsteps_chain. by exists p.
Qed.

Definition answeredNil (p : process) : bool :=
  match p_prog p with Ret Done => true | _ => false end.

Lemma answeredNil_all ps :
  forallb answeredNil ps = true -> Forall (fun p => p_prog p = Ret Done) ps.
Proof.
  rewrite forallb_forall. intros H. apply Forall_forall. intros p Hp%list_elem_of_In%H.
  unfold answeredNil in Hp. by destruct (p_prog p) as [[]|].
Qed.

(** What a schedule ends in, tested. *)
Lemma schedule_test vertices hashtext co l st (test : world -> list process -> bool) :
  match schedule vertices hashtext co l st with Some (w, ps) => test w ps | None => false end = true ->
  exists w ps, rtc (step vertices hashtext co) st (w, ps) /\ test w ps = true.
Proof.
  destruct (schedule vertices hashtext co l st) as [[w ps]|] eqn:E; [|done].
  intros H. exists w, ps. split; [by eapply schedule_rtc|done].
Qed.

(** Two processes with different sources: each checks before the other commits. *)
Definition raceActions : list action :=
  [Submit "t" (uriOf 0) (uriOf 1) [] 0; Submit "t" (uriOf 1) (uriOf 0) [] 0]
  ++ replicate 5 (Turn 0) ++ replicate upsertTurns (Turn 1) ++ replicate 2 (Turn 0).

(** The lock is per source: two upserts in opposite directions hold different
    locks, both checks find nothing, both commit and both answer nil; the
    committed graph has a cycle of two edges. *)
Theorem race_closes_cycle :
  exists w ps,
    rtc (step sevenVertices lastByte false) (emptyWorld, []) (w, ps) /\
    length ps = 2 /\ Forall (fun p => p_prog p = Ret Done) ps /\
    ~ acyclicUpTo 2 (adj (edges w)).
Proof.
  destruct (schedule_test sevenVertices lastByte false raceActions (emptyWorld, [])
    (fun w ps => bool_decide (length ps = 2) && forallb answeredNil ps && closedWalk 2 (edges w) 0%N))
    as (w & ps & Hr & H); [vm_compute; reflexivity|].
  apply andb_true_iff in H as [[Hl Hn]%andb_true_iff Hc].
  exists w, ps. split_and!; [done|by apply bool_decide_eq_true in Hl|by apply answeredNil_all|].
  intros Hac. apply (Hac 2 0%N); [lia|by apply closedWalk_nsteps].
Qed.

(** One process at a time, around the seven vertices. *)
Definition ringActions : list action :=
  flat_map (fun n => serialUpsert n n ((n + 1) mod 7)) (seq 0 7).

Definition silentSweep (w : world) : bool :=
  match alone sevenVertices lastByte (runCycleSweepOnce "t") w None with
  | ((Done, []), _, None) => true
  | _ => false
  end.

(** Seven edges close a cycle that nothing reports: seven upserts one after
    the other all answer nil, the committed graph has a cycle of seven edges,
    and the sweep of that graph, whose query is bounded by five like the
    check, ends without a report. *)
Theorem long_cycle_unreported :
  exists w ps w',
    rtc (step sevenVertices lastByte true) (emptyWorld, []) (w, ps) /\
    length ps = 7 /\ Forall (fun p => p_prog p = Ret Done) ps /\
    nsteps (adj (edges w)) 7 0%N 0%N /\
    alone sevenVertices lastByte (runCycleSweepOnce "t") w None = ((Done, []), w', None).
Proof.
  destruct (schedule_test sevenVertices lastByte true ringActions (emptyWorld, [])
    (fun w ps => bool_decide (length ps = 7) && forallb answeredNil ps &&
       closedWalk 7 (edges w) 0%N && silentSweep w))
    as (w & ps & Hr & H); [vm_compute; reflexivity|].
  apply andb_true_iff in H as [[[Hl Hn]%andb_true_iff Hc]%andb_true_iff Hs].
  exists w, ps. unfold silentSweep in Hs.
  destruct (alone _ _ _ w None) as [[[[| |] [|]] w'] [|]]; try done. exists w'.
  split_and!; [done|by apply bool_decide_eq_true in Hl|by apply answeredNil_all| |done].
  by apply closedWalk_nsteps.
Qed.

(** ** The sweep *)

(** The paths the sweep may return rows for, before its limit. *)
Lemma sweepRows_in vertices es uri :
  uri ∈ sweepRows vertices es ->
  exists u m, vertices !! u = Some uri /\ 1 <= m <= 5 /\ nsteps (adj es) m u u.
Proof.
  unfold sweepRows. intros H%list_elem_of_In.
  assert (forall n (l : list gostring), In uri (take n l) -> In uri l) as Htake.
  { intros n l Hl. rewrite <- (take_drop n l). apply in_or_app. by left. }
  apply Htake, in_flat_map in H as ([u uri'] & Hu & H).
  apply in_map_iff in H as (p & <- & [Hp He]%filter_In).
  apply bool_decide_eq_true in He. apply list_elem_of_In, elem_of_map_to_list in Hu.
  destruct (proj1 (trails_nsteps 5 es u u)) as (m & Hm & Hn).
  { exists p. split; [by apply list_elem_of_In|done]. }
  by exists u, m.
Qed.

Lemma sweepRows_complete vertices es u uri m :
  length (sweepRows vertices es) < 1000 ->
  vertices !! u = Some uri -> 1 <= m <= 5 -> nsteps (adj es) m u u ->
  uri ∈ sweepRows vertices es.
Proof.
  unfold sweepRows. rewrite length_take. intros Hl Hu Hm Hn.
  rewrite take_ge by lia. apply list_elem_of_In, in_flat_map. exists (u, uri).
  split; [by apply list_elem_of_In, elem_of_map_to_list|].
  destruct (proj2 (trails_nsteps 5 es u u)) as (p & Hp & He); [by exists m|].
  apply in_map_iff. exists p. split; [done|]. apply filter_In.
  split; [by apply list_elem_of_In|]. by apply bool_decide_eq_true_2.
Qed.

(** A path that was not cut short names the URI it looked for before the last. *)
Lemma fetchHops_ends vertices hashtext n s d cur ch w tx l w' t' :
  alone vertices hashtext (fetchHops n s d cur ch) w (Some tx) = (l, w', t') ->
  exists q, l = ch ++ q ++ [s; d].
Proof.
  revert cur ch; induction n as [|n IH]; intros cur ch; cbn [fetchHops alone serve].
  { intros [= <- _ _]. by exists []. }
  destruct (head _) as [nx|]; cbn [fmap option_fmap option_map].
  2: { intros [= <- _ _]. by exists []. }
  destruct (bool_decide_reflect (stripAgtypeQuotes (agtypeText nx) = s)) as [E|E].
  - intros [= <- _ _]. exists []. by rewrite E, <- app_assoc.
  - intros [q ->]%IH. exists (stripAgtypeQuotes (agtypeText nx) :: q). by rewrite <- app_assoc.
Qed.

Lemma reportAnchors_alone vertices hashtext anchors reports w tx :
  exists more,
    alone vertices hashtext (reportAnchors anchors reports) w (Some tx)
      = (reports ++ more, w, Some tx) /\
    map fst more = anchors /\
    forall uri path, (uri, path) ∈ more -> exists l, path = uri :: l ++ [uri; uri].
Proof.
  revert reports; induction anchors as [|uri anchors IH]; intros reports; cbn [reportAnchors].
  { exists []. cbn. rewrite app_nil_r. split_and!; try done. by intros ? ? []%elem_of_nil. }
  rewrite alone_bind. unfold fetchCyclePath.
  destruct (fetchHops_alone vertices hashtext cycleMaxDepth uri uri uri [uri] w tx) as [l El].
  rewrite El. destruct (IH (reports ++ [(uri, l)])) as (more & -> & Hm & Hl).
  exists ((uri, l) :: more). rewrite <- app_assoc. split_and!; [done|cbn; by f_equal|].
  intros u path [[= -> ->]|Hin]%elem_of_cons; [|by apply Hl].
  apply fetchHops_ends in El as [q ->]. by exists q.
Qed.

(** An undisturbed sweep changes nothing and reports exactly the vertices on a
    cycle of up to five edges, all of them below its limit of 1000 rows; and
    every path it reports ends with its anchor twice, an edge from the anchor
    to itself that is not there. *)
Theorem sweep_reports vertices hashtext tenantID w :
  let '(o, reports, w', t') := alone vertices hashtext (runCycleSweepOnce tenantID) w None in
  o = Done /\ edges w' = edges w /\ t' = None /\
  (forall uri path, (uri, path) ∈ reports ->
     (exists u m, vertices !! u = Some uri /\ 1 <= m <= 5 /\ nsteps (adj (edges w)) m u u) /\
     exists l, path = uri :: l ++ [uri; uri]) /\
  (length reports < 1000 -> forall u uri m,
     vertices !! u = Some uri -> 1 <= m <= 5 -> nsteps (adj (edges w)) m u u ->
     uri ∈ map fst reports).
Proof.
  unfold runCycleSweepOnce. cbn [alone serve]. rewrite (view_empty w false).
  rewrite map_map.
  assert (forall l, map (fun x => stripAgtypeQuotes (agtypeText x)) l = l) as ->.
  { intros l. rewrite <- (map_id l) at 2. apply map_ext. apply strip_agtypeText. }
  rewrite alone_bind.
  destruct (reportAnchors_alone vertices hashtext (sweepRows vertices (edges w)) [] w (mkTxn ∅ false))
    as (more & -> & Hm & Hl).
  cbn [app]. rewrite alone_bind. cbn. split_and!; [done|by rewrite map_empty_union|done| |].
  - intros uri path Hin. split; [|by apply Hl].
    apply sweepRows_in. rewrite <- Hm. apply list_elem_of_fmap. by exists (uri, path).
  - intros Hlen u uri m Hu Hm' Hn. rewrite Hm.
    apply (sweepRows_complete _ _ u uri m); try done. by rewrite <- Hm, length_map.
Qed.

(** (C36) The answer of the cycle check is reachability: its query for paths without
    a repeated edge finds a row exactly when a walk of one to five edges leads
    from a vertex of the target to a vertex of the source. *)
Theorem cycle_check_reachability vertices es tgtURI srcURI :
  cycleFound vertices es tgtURI srcURI = true <->
  exists t s m, vertices !! t = Some tgtURI /\ vertices !! s = Some srcURI /\
    1 <= m <= 5 /\ nsteps (adj es) m t s.
Proof. apply cycleFound_nsteps. Qed.

(** ** The reported path *)

(** Two edges leave the target, one of them towards the source. *)
Definition forkVertices : gmap N gostring :=
  {[ 0%N := "iceberg://t/target"; 1%N := "iceberg://t/aside"; 2%N := "iceberg://t/source" ]}.
Definition forkWorld : world :=
  mkWorld {[ 0%N := mkEdge 0 2 "t" (Some 0%Z) (Some []) (Some 0%Z);
             1%N := mkEdge 0 1 "t" (Some 0%Z) (Some []) (Some 0%Z) ]} 2 ∅.

(** The path of a [LineageCycleError] need not be one: at a fork the first
    next hop is followed, whichever it is, and the source is appended where
    the walk ends; the error then names an edge that does not exist. *)
Theorem cycle_path_fabricated :
  exists w', alone forkVertices lastByte
    (MergeLineageEdge "t" "iceberg://t/source" "iceberg://t/target" [] 0) forkWorld None
    = (Failed (LineageCycleError "iceberg://t/source" "iceberg://t/target"
        ["iceberg://t/target"; "iceberg://t/aside"; "iceberg://t/source"; "iceberg://t/target"]),
       w', None) /\
  forall v, ~ adj (edges forkWorld) 1%N v.
Proof.
  eexists. split; [vm_compute; reflexivity|].
  intros v (e & [i He]%listed_elem & Hs & _). cbn in He.
  apply lookup_insert_Some in He as [[_ <-]|[_ He]]; [done|].
  by apply lookup_singleton_Some in He as [_ <-].
Qed.

Lemma MergeLineageEdge_outcome_witness :
  ahead (edges emptyWorld) (nextId emptyWorld) /\
  exists w', alone sevenVertices lastByte (MergeLineageEdge "t" (uriOf 0) (uriOf 1) [] 0)
      emptyWorld None = (Done, w', None) /\
    joined "t" (edges w') (0%N, 1%N).
Proof.
  assert (ahead (edges emptyWorld) (nextId emptyWorld)) as Ha by done. split; [exact Ha|].
  pose proof (MergeLineageEdge_outcome sevenVertices lastByte "t" [] 0 (uriOf 0) (uriOf 1)
    emptyWorld Ha) as H.
  destruct (alone _ _ _ emptyWorld None) as [[o w'] t']. destruct H as [-> H]. exists w'.
  assert (bool_decide (uriOf 0 = []) || bool_decide (uriOf 1 = []) = false) as E1 by reflexivity.
  assert (unsafeField [("src_uri", uriOf 0); ("tgt_uri", uriOf 1); ("tenant_id", "t");
    ("run_id", [])] = None) as E2 by reflexivity.
  assert (bool_decide (uriOf 0 = uriOf 1) = false) as E3 by reflexivity.
  assert (cycleFound sevenVertices (edges emptyWorld) (uriOf 1) (uriOf 0) = false) as E4
    by (vm_compute; reflexivity).
  rewrite E1, E2, E3, E4 in H. destruct H as (-> & H & _). split; [done|].
  apply H; vm_compute; reflexivity.
Defined.
