(* ===== verification/IngestMeta.v ===== *)
(** * Ingest of snapshots and columns

    [internal/ingest/snapshot.go] and [column.go]: the upserts of a [Snapshot],
    of its [Column]s and their [HAS_COLUMN] edges, as functions on the graph one
    tenant sees.  A transaction works on a copy; a fault may hit any statement,
    the opening, the commit (whose effect may survive its lost answer) or the
    reset of the session.  An instant is kept in nanoseconds. *)

From S2P Require Import Prelude Cypher Ingest.
From Stdlib Require Import Lia.

(** ** Data ([iceberg/client.go]); the fields the upserts use *)

Record Snapshot := mkSnapshot {
  SnapshotID : Z; ParentSnapshotID : Z; TimestampMs : Z; Operation : gostring;
  MetadataLocation : gostring
}.

Record SchemaField := mkField {
  field_ID : Z; field_Name : gostring; field_Type : gostring; field_Required : bool;
  field_Doc : gostring
}.

(** Nodes and edges with nullable properties. *)
Record snapNode := mkSnapNode {
  snapshot_id : option Z; parent_snap_id : option Z; committed_at : option Z;
  operation : option gostring; snap_last_seen_at : option Z
}.

Record colNode := mkColNode {
  iceberg_id : option Z; data_type : option gostring; required : option bool;
  doc : option gostring
}.

(** The snapshots by location, the columns and the edges by location and name. *)
Record metaGraph := mkMeta {
  snapshots : gmap gostring snapNode;
  columns : gmap (gostring * gostring) colNode;
  has_column : gmap (gostring * gostring) (option Z)
}.

(** ** The transaction *)

Inductive txFault := TxFine | OpenFails | CommitFails | CommitLost | ResetFails.

(** [ExecuteInTenant] around a body that works on a copy; the error of the reset
    only replaces success. *)
Definition inTenant {E G} (dbErr : E) (f : txFault) (body : G -> result E G) (g : G)
  : option E * G :=
  match f with
  | OpenFails => (Some dbErr, g)
  | _ =>
      match body g with
      | Err e => (Some e, g)
      | Ok g' =>
          match f with
          | CommitFails => (Some dbErr, g)
          | CommitLost | ResetFails => (Some dbErr, g')
          | _ => (None, g')
          end
      end
  end.

(** [COALESCE]. *)
Definition coalesce {A} (old : option A) (new : A) : option A := Some (default new old).

(** ** Snapshots *)

(** [MERGE (s:Snapshot {..}) WITH s SET ...]. *)
Definition mergeSnapshotStmt (snap : Snapshot) (g : metaGraph) : metaGraph :=
  let committedAt := (TimestampMs snap * 1000000)%Z in
  let s := default (mkSnapNode None None None None None) (snapshots g !! MetadataLocation snap) in
  mkMeta
    (<[MetadataLocation snap :=
        mkSnapNode (coalesce (snapshot_id s) (SnapshotID snap))
          (coalesce (parent_snap_id s) (ParentSnapshotID snap))
          (coalesce (committed_at s) committedAt)
          (coalesce (operation s) (Operation snap))
          (Some committedAt)]> (snapshots g))
    (columns g) (has_column g).

(** [stmtOk] tells whether the statement succeeds. *)
Definition MergeSnapshot (tenantID : gostring) (snap : Snapshot) (f : txFault) (stmtOk : bool)
    (g : metaGraph) : option ingest_err * metaGraph :=
  if bool_decide (MetadataLocation snap = []) then (Some ErrEmptyLocation, g)
  else
    match unsafeField [("metadata_location", MetadataLocation snap); ("tenant_id", tenantID);
                       ("operation", Operation snap)] with
    | Some fld => (Some (ErrUnsafeField fld), g)
    | None =>
        inTenant ErrDatabase f
          (fun g => if stmtOk then Ok (mergeSnapshotStmt snap g) else Err ErrDatabase) g
    end.

(** ** Columns *)

(** [MATCH (s:Snapshot ..) MERGE (c:Column ..) WITH c SET ... RETURN id(c)]: the
    rows it returns and the graph. *)
Definition mergeColumnNode (loc : gostring) (col : SchemaField) (g : metaGraph)
  : nat * metaGraph :=
  match snapshots g !! loc with
  | None => (0, g)
  | Some _ =>
      let key := (loc, field_Name col) in
      let c := default (mkColNode None None None None) (columns g !! key) in
      (1, mkMeta (snapshots g)
            (<[key := mkColNode (coalesce (iceberg_id c) (field_ID col))
                (coalesce (data_type c) (field_Type col))
                (coalesce (required c) (field_Required col))
                (coalesce (doc c) (field_Doc col))]> (columns g))
            (has_column g))
  end.

(** [MATCH (s:Snapshot ..), (c:Column ..) MERGE (s)-[r:HAS_COLUMN ..]->(c) ...]. *)
Definition mergeHasColumnEdge (loc name : gostring) (ordinal : nat) (g : metaGraph) : metaGraph :=
  match snapshots g !! loc, columns g !! (loc, name) with
  | Some _, Some _ =>
      mkMeta (snapshots g) (columns g)
        (<[(loc, name) :=
            coalesce (mjoin (has_column g !! (loc, name))) (Z.of_nat ordinal)]> (has_column g))
  | _, _ => g
  end.

(** The loop; statements are counted, [ok] tells which succeed. *)
Fixpoint mergeColumnLoop (ok : nat -> bool) (loc : gostring) (idx : nat) (cols : list SchemaField)
    (g : metaGraph) : result ingest_err metaGraph :=
  match cols with
  | [] => Ok g
  | col :: cols =>
      if ok (2 * idx) then
        let '(matched, g) := mergeColumnNode loc col g in
        if (matched =? 0)%nat then Err ErrSnapshotNotFound
        else if ok (2 * idx + 1) then
          mergeColumnLoop ok loc (S idx) cols (mergeHasColumnEdge loc (field_Name col) idx g)
        else Err ErrDatabase
      else Err ErrDatabase
  end.

Fixpoint unsafeColumn (cols : list SchemaField) : option gostring :=
  match cols with
  | [] => None
  | col :: cols =>
      match unsafeField [("name", field_Name col); ("type", field_Type col);
                         ("doc", field_Doc col)] with
      | Some f => Some f
      | None => unsafeColumn cols
      end
  end.

(** A query that fails while rows are read looks like no row. *)
Definition assertSnapshotExists (snapMetaLoc : gostring) (queryErr lazyErr : bool)
    (f : txFault) (g : metaGraph) : option ingest_err * metaGraph :=
  match unsafeField [("metadata_location", snapMetaLoc)] with
  | Some fld => (Some (ErrUnsafeField fld), g)
  | None =>
      inTenant ErrDatabase f (fun g =>
        if queryErr then Err ErrDatabase
        else if lazyErr || bool_decide (snapshots g !! snapMetaLoc = None)
        then Err ErrSnapshotNotFound
        else Ok g) g
  end.

Definition MergeColumns (tenantID snapMetaLoc : gostring) (cols : list SchemaField) (f : txFault)
    (ok : nat -> bool) (g : metaGraph) : option ingest_err * metaGraph :=
  if bool_decide (snapMetaLoc = []) then (Some ErrEmptyLocation, g)
  else
    match unsafeField [("metadata_location", snapMetaLoc); ("tenant_id", tenantID)] with
    | Some fld => (Some (ErrUnsafeField fld), g)
    | None =>
        match unsafeColumn cols with
        | Some fld => (Some (ErrUnsafeField fld), g)
        | None =>
            match cols with
            | [] => assertSnapshotExists snapMetaLoc (negb (ok 0)) (negb (ok 1)) f g
            | _ => inTenant ErrDatabase f (mergeColumnLoop ok snapMetaLoc 0 cols) g
            end
        end
    end.

(** ** Snapshots: the first delivery wins *)

Lemma coalesce_twice {A} (old : option A) x y : coalesce (coalesce old x) y = coalesce old x.
Proof. by destruct old. Qed.

(** A transaction that fails leaves the graph as it was, except when only the
    answer of its commit, or the reset after it, was lost. *)
Lemma inTenant_atomic {E G} (err : E) f body (g : G) e g' :
  inTenant err f body g = (Some e, g') -> f <> CommitLost -> f <> ResetFails -> g' = g.
Proof.
  unfold inTenant. destruct f; try done; try (by intros [= <- <-]);
    destruct (body g); try done; by intros [= <- <-].
Qed.

Lemma inTenant_done {E G} (err : E) f body (g : G) g' :
  inTenant err f body g = (None, g') -> f = TxFine /\ body g = Ok g'.
Proof.
  unfold inTenant. destruct f; try done; destruct (body g) as [g1|e]; try done.
  by intros [= <-].
Qed.

(** Deliveries one after the other, each undisturbed. *)
Definition mergeSnapshots (tenantID : gostring) (l : list Snapshot) (g : metaGraph) : metaGraph :=
  fold_left (fun g snap => (MergeSnapshot tenantID snap TxFine true g).2) l g.

Definition snapSafe (tenantID : gostring) (snap : Snapshot) : Prop :=
  MetadataLocation snap <> [] /\
  unsafeField [("metadata_location", MetadataLocation snap); ("tenant_id", tenantID);
               ("operation", Operation snap)] = None.

Lemma MergeSnapshot_done tenantID snap g :
  snapSafe tenantID snap ->
  MergeSnapshot tenantID snap TxFine true g = (None, mergeSnapshotStmt snap g).
Proof.
  intros [Hl Hf]. unfold MergeSnapshot. rewrite bool_decide_eq_false_2 by done. by rewrite Hf.
Qed.

(** The deliveries of one metadata location, in any number and whatever else
    they say: the node keeps the ids, the commit time and the operation of the
    first, its last sight is the commit time of the last, and no other
    snapshot, no column and no edge changes. *)
Theorem MergeSnapshot_first_wins tenantID first rest loc g :
  snapshots g !! loc = None ->
  Forall (fun s => MetadataLocation s = loc /\ snapSafe tenantID s) (first :: rest) ->
  let ms s := (TimestampMs s * 1000000)%Z in
  mergeSnapshots tenantID (first :: rest) g =
    mkMeta (<[loc := mkSnapNode (Some (SnapshotID first)) (Some (ParentSnapshotID first))
                (Some (ms first)) (Some (Operation first)) (Some (ms (List.last rest first)))]>
              (snapshots g))
      (columns g) (has_column g).
Proof.
  intros Hn Hall. cbn zeta. unfold mergeSnapshots. cbn [fold_left].
  apply Forall_cons in Hall as [[Hloc Hs] Hall]. rewrite MergeSnapshot_done by done. cbn [snd].
  unfold mergeSnapshotStmt at 1. rewrite Hloc, Hn. cbn [default from_option coalesce
    snapshot_id parent_snap_id committed_at operation].
  assert (forall ls g0, snapshots g0 !! loc = Some (mkSnapNode (Some (SnapshotID first))
      (Some (ParentSnapshotID first)) (Some (TimestampMs first * 1000000)%Z)
      (Some (Operation first)) ls) ->
    fold_left (fun g snap => (MergeSnapshot tenantID snap TxFine true g).2) rest g0 =
    mkMeta (<[loc := mkSnapNode (Some (SnapshotID first)) (Some (ParentSnapshotID first))
        (Some (TimestampMs first * 1000000)%Z) (Some (Operation first))
        (match rest with [] => ls | _ => Some (TimestampMs (List.last rest first) * 1000000)%Z end)]>
      (snapshots g0)) (columns g0) (has_column g0)) as H.
  { clear Hn Hs Hloc. induction rest as [|s rest IH]; intros ls g0 Hg; cbn [fold_left].
    { rewrite insert_id by done. by destruct g0. }
    apply Forall_cons in Hall as [[Hloc Hs] Hall]. rewrite MergeSnapshot_done by done. cbn [snd].
    rewrite (IH Hall (Some (TimestampMs s * 1000000)%Z)).
    - unfold mergeSnapshotStmt. cbn. rewrite Hloc, insert_insert_eq. f_equal. f_equal.
      destruct rest as [|s' rest]; done.
    - unfold mergeSnapshotStmt. cbn. rewrite Hloc, lookup_insert_eq, Hg. done. }
  rewrite (H (Some (TimestampMs first * 1000000)%Z)) by (cbn; by rewrite lookup_insert_eq).
  cbn. rewrite insert_insert_eq. f_equal. f_equal. by destruct rest.
Qed.

Lemma MergeSnapshot_first_wins_witness :
  let s1 := mkSnapshot 7 3 1000 "append" "s3://b/m1.json" in
  let s2 := mkSnapshot 8 0 2000 "delete" "s3://b/m1.json" in
  snapshots (mergeSnapshots "t" [s1; s2] (mkMeta ∅ ∅ ∅)) !! ("s3://b/m1.json" : gostring)
  = Some (mkSnapNode (Some 7%Z) (Some 3%Z) (Some 1000000000%Z) (Some ("append" : gostring))
      (Some 2000000000%Z)).
Proof.
  cbn zeta.
  rewrite (MergeSnapshot_first_wins "t" (mkSnapshot 7 3 1000 "append" "s3://b/m1.json")
    [mkSnapshot 8 0 2000 "delete" "s3://b/m1.json"] "s3://b/m1.json"); [reflexivity|reflexivity|].
  repeat constructor; done.
Defined.

(** ** Columns *)

(** The properties of a node after a merge of [col]. *)
Definition fillColumn (old : option colNode) (col : SchemaField) : colNode :=
  let c := default (mkColNode None None None None) old in
  mkColNode (coalesce (iceberg_id c) (field_ID col)) (coalesce (data_type c) (field_Type col))
    (coalesce (required c) (field_Required col)) (coalesce (doc c) (field_Doc col)).

Lemma fillColumn_twice old c1 c2 : fillColumn (Some (fillColumn old c1)) c2 = fillColumn old c1.
Proof. unfold fillColumn. cbn. by rewrite !coalesce_twice. Qed.

(** The first column of a name, with its position. *)
Definition firstNamed (n : gostring) (cols : list SchemaField) : option (nat * SchemaField) :=
  list_find (fun c => field_Name c = n) cols.

(** What the loop should leave, from position [idx]. *)
Definition columnsAfter (loc : gostring) (idx : nat) (cols : list SchemaField) (g g' : metaGraph)
  : Prop :=
  snapshots g' = snapshots g /\
  (forall l n, l <> loc -> columns g' !! (l, n) = columns g !! (l, n) /\
     has_column g' !! (l, n) = has_column g !! (l, n)) /\
  forall n,
    columns g' !! (loc, n) =
      match firstNamed n cols with
      | Some (_, col) => Some (fillColumn (columns g !! (loc, n)) col)
      | None => columns g !! (loc, n)
      end /\
    has_column g' !! (loc, n) =
      match firstNamed n cols with
      | Some (i, _) => Some (coalesce (mjoin (has_column g !! (loc, n))) (Z.of_nat (idx + i)))
      | None => has_column g !! (loc, n)
      end.

Lemma firstNamed_cons n c cols :
  firstNamed n (c :: cols) =
    if decide (field_Name c = n) then Some (0, c)
    else (fun '(i, c) => (S i, c)) <$> firstNamed n cols.
Proof.
  unfold firstNamed. cbn [list_find]. destruct (decide (field_Name c = n)); [done|].
  by destruct (list_find _ cols) as [[i c']|].
Qed.

(** One round of the loop. *)
Definition columnStep (loc : gostring) (idx : nat) (col : SchemaField) (g : metaGraph) : metaGraph :=
  mkMeta (snapshots g)
    (<[(loc, field_Name col) := fillColumn (columns g !! (loc, field_Name col)) col]> (columns g))
    (<[(loc, field_Name col) :=
        coalesce (mjoin (has_column g !! (loc, field_Name col))) (Z.of_nat idx)]> (has_column g)).

Lemma columnStep_eq loc idx col g s :
  snapshots g !! loc = Some s ->
  mergeHasColumnEdge loc (field_Name col) idx (mergeColumnNode loc col g).2 = columnStep loc idx col g.
Proof.
  intros Hs. unfold mergeColumnNode. rewrite Hs. unfold mergeHasColumnEdge. cbn.
  by rewrite Hs, lookup_insert_eq.
Qed.

Lemma mergeColumnLoop_ok ok loc cols idx g s g' :
  snapshots g !! loc = Some s ->
  mergeColumnLoop ok loc idx cols g = Ok g' -> columnsAfter loc idx cols g g'.
Proof.
  revert idx g; induction cols as [|col cols IH]; intros idx g Hs; cbn [mergeColumnLoop].
  { intros [= <-]. unfold columnsAfter. by split_and!. }
  destruct (ok (2 * idx)); [|done].
  pose proof (columnStep_eq loc idx col g s Hs) as Hstep.
  destruct (mergeColumnNode loc col g) as [m g1] eqn:Em. cbn [snd] in Hstep.
  destruct (m =? 0)%nat; [done|]. destruct (ok (2 * idx + 1)); [|done]. rewrite Hstep.
  intros H. apply IH in H as (H1 & H2 & H3); [|by cbn].
  split_and!.
  - by rewrite H1.
  - intros l n Hl. destruct (H2 l n Hl) as [-> ->]. cbn.
    by rewrite !lookup_insert_ne by congruence.
  - intros n. destruct (H3 n) as [-> ->]. rewrite firstNamed_cons.
    destruct (decide (field_Name col = n)) as [<-|Hne]; cbn.
    + rewrite !lookup_insert_eq, Nat.add_0_r. destruct (firstNamed _ cols) as [[i c]|]; [|done].
      by rewrite fillColumn_twice, <- (coalesce_twice _ _ (Z.of_nat (S idx + i))).
    + rewrite !lookup_insert_ne by congruence.
      destruct (firstNamed n cols) as [[i c]|]; cbn; [|done].
      by replace (idx + S i) with (S idx + i) by lia.
Qed.

Lemma mergeColumnLoop_missing ok loc cols idx g :
  snapshots g !! loc = None -> cols <> [] -> (forall i, ok i = true) ->
  mergeColumnLoop ok loc idx cols g = Err ErrSnapshotNotFound.
Proof.
  intros Hs Hc Hok. destruct cols as [|col cols]; [done|]. cbn. rewrite Hok.
  unfold mergeColumnNode. by rewrite Hs.
Qed.

Lemma mergeColumnLoop_total ok loc cols idx g s :
  snapshots g !! loc = Some s -> (forall i, ok i = true) ->
  is_ok (mergeColumnLoop ok loc idx cols g) = true.
Proof.
  intros Hs Hok. revert idx g Hs; induction cols as [|col cols IH]; intros idx g Hs; [done|].
  cbn [mergeColumnLoop]. rewrite !Hok. pose proof (columnStep_eq loc idx col g s Hs) as Hstep.
  unfold mergeColumnNode in *. rewrite Hs in *. cbn [snd] in Hstep. cbn [Nat.eqb].
  rewrite Hstep. by apply IH.
Qed.

(** [MergeColumns] is all or nothing under any failure: with a nil error the
    snapshot exists and every column of the batch is there, the first of a name
    with its position, the properties a column already had kept, and nothing
    else changed; with an error the graph is as before, unless only the answer
    of the commit or the reset was lost. *)
Theorem MergeColumns_atomic tenantID loc cols f ok g :
  let '(err, g') := MergeColumns tenantID loc cols f ok g in
  (err = None -> snapshots g !! loc <> None /\ columnsAfter loc 0 cols g g') /\
  (err <> None -> f <> CommitLost -> f <> ResetFails -> g' = g) /\
  (f = TxFine -> (forall i, ok i = true) -> loc <> [] -> snapshots g !! loc = None ->
     unsafeField [("metadata_location", loc); ("tenant_id", tenantID)] = None ->
     unsafeColumn cols = None -> err = Some ErrSnapshotNotFound) /\
  (f = TxFine -> (forall i, ok i = true) -> loc <> [] -> snapshots g !! loc <> None ->
     unsafeField [("metadata_location", loc); ("tenant_id", tenantID)] = None ->
     unsafeColumn cols = None -> err = None).
Proof.
  unfold MergeColumns. destruct (bool_decide_reflect (loc = [])) as [->|Hl]; [by split_and!|].
  destruct (unsafeField [("metadata_location", loc); ("tenant_id", tenantID)]) eqn:Eu; [by split_and!|].
  destruct (unsafeColumn cols) eqn:Ec; [by split_and!|].
  destruct cols as [|col cols].
  - unfold assertSnapshotExists. cbn [unsafeField] in *.
    destruct (IsSafeCypherLiteral loc); [|done].
    destruct (inTenant _ _ _ g) as [err g'] eqn:E. split_and!.
    + intros ->. apply inTenant_done in E as [_ E]. destruct (negb (ok 0)); [done|].
      destruct (negb (ok 1)); [done|]. cbn in E.
      destruct (bool_decide_reflect (snapshots g !! loc = None)); [done|].
      injection E as <-. split; [done|]. unfold columnsAfter. by split_and!.
    + intros He. destruct err as [e|]; [|done]. by eapply inTenant_atomic.
    + intros -> Hok _ Hs _ _. revert E. unfold inTenant. rewrite !Hok. cbn.
      rewrite bool_decide_eq_true_2 by done. by intros [= <- _].
    + intros -> Hok _ Hs _ _. revert E. unfold inTenant. rewrite !Hok. cbn.
      rewrite bool_decide_eq_false_2 by done. by intros [= <- _].
  - destruct (inTenant _ _ _ g) as [err g'] eqn:E. split_and!.
    + intros ->. apply inTenant_done in E as [_ E].
      destruct (snapshots g !! loc) as [s|] eqn:Es.
      * split; [done|]. by eapply mergeColumnLoop_ok.
      * revert E. cbn [mergeColumnLoop]. destruct (ok _); [|done].
        unfold mergeColumnNode. by rewrite Es.
    + intros He. destruct err as [e|]; [|done]. by eapply inTenant_atomic.
    + intros -> Hok _ Hs _ _. revert E. unfold inTenant.
      rewrite mergeColumnLoop_missing by done. by intros [= <- _].
    + intros -> Hok _ Hs _ _. revert E. unfold inTenant.
      destruct (snapshots g !! loc) as [s|] eqn:Es; [|done].
      pose proof (mergeColumnLoop_total ok loc (col :: cols) 0 g s Es Hok) as Ht.
      destruct (mergeColumnLoop _ _ _ _ _); [|done]. by intros [= <- _].
Qed.

(** A batch with one name twice, on a snapshot that exists. *)
Definition oneSnapshot : metaGraph :=
  mkMeta {[ ("s3://b/m1.json" : gostring) := mkSnapNode None None None None None ]} ∅ ∅.
Definition twiceNamed : list SchemaField :=
  [mkField 1 "id" "long" true []; mkField 2 "id" "string" false []].

Lemma MergeColumns_atomic_witness :
  exists g', MergeColumns "t" "s3://b/m1.json" twiceNamed TxFine (fun _ => true) oneSnapshot
      = (None, g') /\
    columns g' !! ("s3://b/m1.json" : gostring, "id" : gostring)
      = Some (mkColNode (Some 1%Z) (Some ("long" : gostring)) (Some true) (Some ([] : gostring))).
Proof.
  pose proof (MergeColumns_atomic "t" "s3://b/m1.json" twiceNamed TxFine (fun _ => true) oneSnapshot)
    as H.
  destruct (MergeColumns "t" "s3://b/m1.json" twiceNamed TxFine (fun _ => true) oneSnapshot)
    as [err g'].
  destruct H as (H1 & _ & _ & H4).
  assert (err = None) as -> by (apply H4; done). exists g'. split; [done|].
  destruct (H1 eq_refl) as (_ & _ & _ & H). destruct (H "id") as [-> _]. reflexivity.
Defined.
