(* ===== verification/Lineage.v ===== *)
(** * The lineage receiver

    [internal/lineage/http]: [POST /v1/lineage] receives OpenLineage run events,
    keeps the payload in the inbox of the tenant and upserts an edge for every
    pair of an input and an output.  JSON and RFC 3339 decoding are parameters
    of the handler. *)

From S2P Require Import Prelude Effects Cypher Ingest.
From Stdlib Require Import Lia.
#[local] Open Scope go_scope.

(** ** Data ([types.go]) *)

Record Dataset := mkDataset { ds_Namespace : gostring; ds_Name : gostring }.

Record RunEvent := mkEvent {
  EventType : gostring; EventTime : gostring; Producer : gostring; SchemaURL : gostring;
  RunID : gostring; JobNamespace : gostring; JobName : gostring;
  Inputs : list Dataset; Outputs : list Dataset
}.

Definition URI (d : Dataset) : gostring := ds_Namespace d ++ "://" ++ ds_Name d.

(** [Validate]: the text of the error. *)
Definition Validate (e : RunEvent) : option gostring :=
  if bool_decide (EventType e = [])
  then Some "eventType required: lineage: invalid OpenLineage payload"
  else if bool_decide (RunID e = [])
  then Some "run.runId required: lineage: invalid OpenLineage payload"
  else if bool_decide (Producer e = [])
  then Some "producer required: lineage: invalid OpenLineage payload"
  else None.

(** ** The cap on pairs ([handler.go]) *)

Definition defaultMaxLineageCrossProduct : Z := 1000.

(** The environment variable is [[]] when unset. *)
Definition crossProductCap (raw : gostring) : Z :=
  if bool_decide (raw = []) then defaultMaxLineageCrossProduct
  else match Atoi raw with
       | Some n => if (0 <? n)%Z then n else defaultMaxLineageCrossProduct
       | None => defaultMaxLineageCrossProduct
       end.

(** ** The handler *)

Definition maxBodyBytes : N := 1048576.

(** A request: its method, the tenant of its context, its body and whether
    reading the body failed. *)
Record request := mkRequest {
  Method : gostring; ctxTenant : option gostring; Body : gostring; readFails : bool
}.

Inductive lineageCall :=
  | PersistInbox (producer run_id event_type payload : gostring)
  | Now
  | MergeLineage (tenantID srcURI tgtURI runID : gostring) (ts : Z).

Definition lineageR (c : lineageCall) : Type :=
  match c with
  | PersistInbox _ _ _ _ => bool
  | Now => Z
  | MergeLineage _ _ _ _ _ => ingestOut
  end.

(** A response, by status and what distinguishes its text; a panic of the merge
    would abort the connection. *)
Inductive response :=
  | MethodNotAllowed
  | TenantMissing
  | BadRequest (text : gostring)
  | InboxUnavailable
  | CycleRejected (text : gostring)
  | MergeUnavailable
  | Accepted
  | Aborted.

Definition status (r : response) : Z :=
  match r with
  | MethodNotAllowed => 405
  | TenantMissing => 500
  | BadRequest _ => 400
  | InboxUnavailable | MergeUnavailable => 503
  | CycleRejected _ => 422
  | Accepted => 202
  | Aborted => 0
  end.

Abbreviation lineageProg := (prog lineageR).

(** The double loop: inputs outside, outputs inside. *)
Definition eventPairs (e : RunEvent) : list (gostring * gostring) :=
  list_prod (map URI (Inputs e)) (map URI (Outputs e)).

Fixpoint mergePairs (tenantID runID : gostring) (ts : Z) (pairs : list (gostring * gostring))
  : lineageProg response :=
  match pairs with
  | [] => Ret Accepted
  | (srcURI, tgtURI) :: pairs =>
      Do (R := lineageR) (MergeLineage tenantID srcURI tgtURI runID ts) (fun o : ingestOut =>
      match o with
      | Done => mergePairs tenantID runID ts pairs
      | Failed (LineageCycleError s d cycle) => Ret (CycleRejected (cycleMessage s d cycle))
      | Failed _ => Ret MergeUnavailable
      | Panicked => Ret Aborted
      end)
  end.

Section handler.
Context (decodeEvent : gostring -> option RunEvent) (parseTime : gostring -> option Z).
Context (capEnv : gostring).

Definition invalidPayload : gostring := "invalid OpenLineage payload".

(** Steps 5 to 7. *)
Definition ingestEvent (tenantID rawBody : gostring) (e : RunEvent) : lineageProg response :=
  Do (R := lineageR) (PersistInbox (Producer e) (RunID e) (EventType e) rawBody) (fun ok : bool =>
  if ok then
    match parseTime (EventTime e) with
    | Some ts => mergePairs tenantID (RunID e) ts (eventPairs e)
    | None =>
        Do (R := lineageR) Now (fun ts : Z =>
          mergePairs tenantID (RunID e) ts (eventPairs e))
    end
  else Ret InboxUnavailable).

(** Steps 4 to 4b. *)
Definition checkEvent (e : RunEvent) : option gostring :=
  match Validate e with
  | Some text => Some text
  | None =>
      if (crossProductCap capEnv <? Z.of_nat (length (Inputs e)) * Z.of_nat (length (Outputs e)))%Z
      then Some "inputs x outputs exceeds cap"
      else if negb (forallb (fun ds => IsSafeCypherLiteral (URI ds)) (Inputs e))
      then Some (invalidPayload ++ ": unsafe input dataset URI")
      else if negb (forallb (fun ds => IsSafeCypherLiteral (URI ds)) (Outputs e))
      then Some (invalidPayload ++ ": unsafe output dataset URI")
      else if negb (IsSafeCypherLiteral (RunID e))
      then Some (invalidPayload ++ ": unsafe run id")
      else None
  end.

Definition Handler (r : request) : lineageProg response :=
  if negb (bool_decide (Method r = "POST")) then Ret MethodNotAllowed
  else
    match ctxTenant r with
    | None => Ret TenantMissing
    | Some tenantID =>
        if readFails r || (maxBodyBytes <? N.of_nat (length (Body r)))%N
        then Ret (BadRequest invalidPayload)
        else
          match decodeEvent (Body r) with
          | None => Ret (BadRequest invalidPayload)
          | Some e =>
              match checkEvent e with
              | Some text => Ret (BadRequest text)
              | None => ingestEvent tenantID (Body r) e
              end
          end
    end.

(** ** What the calls do

    The inbox of a tenant has one row per producer and run; [ON CONFLICT DO
    NOTHING] keeps the first. *)

Abbreviation inbox := (gmap (gostring * gostring) (gostring * gostring)).

Definition persistInbox (producer run_id event_type payload : gostring) (b : inbox) : inbox :=
  match b !! (producer, run_id) with
  | Some _ => b
  | None => <[(producer, run_id) := (event_type, payload)]> b
  end.

Context (vertices : gmap N gostring) (hashtext : gostring -> Z) (clock : Z).

Record store := mkStore { st_inbox : inbox; st_world : world }.

(** The answer and effect of a call that nothing disturbs. *)
Definition serveLineage (c : lineageCall) (s : store) : lineageR c * store :=
  match c return lineageR c * store with
  | PersistInbox p r t b => (true, mkStore (persistInbox p r t b (st_inbox s)) (st_world s))
  | Now => (clock, s)
  | MergeLineage tid src tgt run ts =>
      let '(o, w, _) := alone vertices hashtext (MergeLineageEdge tid src tgt run ts) (st_world s) None in
      (o, mkStore (st_inbox s) w)
  end.

Fixpoint runLineage {A} (p : lineageProg A) (s : store) : A * store :=
  match p with
  | Ret a => (a, s)
  | Do c k => let '(r, s) := serveLineage c s in runLineage (k r) s
  end.
End handler.
