(* ===== verification/LineageSpec.v ===== *)
(** * The lineage receiver: what a response means

    Whatever the inbox and the merges answer, a response tells exactly which
    calls were made ([Handler_protocol]); an event delivered again is accepted
    again and adds no edge ([redelivery_idempotent]); but the inbox keeps only
    the first event of a run ([later_event_not_persisted]). *)

From S2P Require Import Prelude Effects Cypher Ingest IngestSpec Lineage.
From stdpp Require Import relations.
From Stdlib Require Import Lia.
#[local] Open Scope go_scope.

(** ** The protocol of a request *)

Definition mergeCall (tid run : gostring) (ts : Z) (p : gostring * gostring) : lineageCall :=
  MergeLineage tid p.1 p.2 run ts.

Definition answeredDone (e : event lineageR) : Prop :=
  match e with
  | existT (MergeLineage _ _ _ _ _) o => o = Done
  | existT (PersistInbox _ _ _ _) ok => ok = true
  | existT Now _ => True
  end.

(** The calls of an event that reached the merges [done], with the time that was
    parsed or read from the clock. *)
Definition eventCalls (parseTime : gostring -> option Z) (tid raw : gostring) (e : RunEvent)
    (done : list (gostring * gostring)) (cs : list lineageCall) : Prop :=
  exists ts,
    match parseTime (EventTime e) with
    | Some ts' => ts' = ts /\
        cs = PersistInbox (Producer e) (RunID e) (EventType e) raw :: map (mergeCall tid (RunID e) ts) done
    | None =>
        cs = PersistInbox (Producer e) (RunID e) (EventType e) raw :: Now
             :: map (mergeCall tid (RunID e) ts) done
    end.

(** What a failing merge makes of the response. *)
Definition failureOf (o : ingestOut) : response :=
  match o with
  | Failed (LineageCycleError s d c) => CycleRejected (cycleMessage s d c)
  | Panicked => Aborted
  | _ => MergeUnavailable
  end.

Definition stoppedAt (tid run_ : gostring) (ts : Z) (pairs : list (gostring * gostring))
    (resp : response) (cs : list lineageCall) (t : trace lineageR) : Prop :=
  exists pre p rest out t', pairs = pre ++ p :: rest /\
    cs = map (mergeCall tid run_ ts) (pre ++ [p]) /\
    t = t' ++ [ev (R := lineageR) (mergeCall tid run_ ts p) out] /\ Forall answeredDone t' /\
    out <> Done /\ resp = failureOf out.

Lemma mergePairs_run (o : env lineageR) h tid run_ ts pairs resp t :
  run o h (mergePairs tid run_ ts pairs) = (resp, t) ->
  (resp = Accepted /\ calls t = map (mergeCall tid run_ ts) pairs /\ Forall answeredDone t) \/
  stoppedAt tid run_ ts pairs resp (calls t) t.
Proof.
  revert h t; induction pairs as [|[s d] pairs IH]; intros h t; cbn [mergePairs run].
  { intros [= <- <-]. left. by split_and!. }
  set (e := ev (R := lineageR) (MergeLineage tid s d run_ ts) (o h (MergeLineage tid s d run_ ts))).
  assert (forall out, o h (MergeLineage tid s d run_ ts) = out -> out <> Done ->
    stoppedAt tid run_ ts ((s, d) :: pairs) (failureOf out) [mergeCall tid run_ ts (s, d)] [e]) as Hstop.
  { intros out Ho Hn. exists [], (s, d), pairs, out, []. unfold e. rewrite Ho.
    by split_and!. }
  destruct (o h (MergeLineage tid s d run_ ts)) as [|err|] eqn:Eo.
  - destruct (run o _ _) as [a u] eqn:Er. intros [= <- <-].
    destruct (IH _ _ Er) as [(-> & Hc & Ht)|(pre & p & rest & out & t' & -> & Hc & -> & Ht & Hn & ->)].
    + left. split_and!; [done|cbn; by f_equal|by constructor].
    + right. exists ((s, d) :: pre), p, rest, out, (e :: t').
      split_and!; [done|cbn; by f_equal|done|by constructor|done|done].
  - intros H. right. specialize (Hstop _ eq_refl ltac:(done)).
    destruct err; cbn [run] in H; injection H as <- <-; exact Hstop.
  - cbn [run]. intros [= <- <-]. right. by apply (Hstop _ eq_refl).
Qed.

(** The requests that reach the inbox. *)
Definition admitted (decodeEvent : gostring -> option RunEvent) (capEnv : gostring)
    (r : request) (tid : gostring) (e : RunEvent) : Prop :=
  Method r = "POST" /\ ctxTenant r = Some tid /\ readFails r = false /\
  (N.of_nat (length (Body r)) <= maxBodyBytes)%N /\
  decodeEvent (Body r) = Some e /\ checkEvent capEnv e = None.

Lemma Handler_cases decodeEvent parseTime capEnv r :
  (exists resp, Handler decodeEvent parseTime capEnv r = Ret resp /\
     (status resp = 405 \/ status resp = 500 \/ status resp = 400)%Z) \/
  (exists tid e, admitted decodeEvent capEnv r tid e /\
     Handler decodeEvent parseTime capEnv r = ingestEvent parseTime tid (Body r) e).
Proof.
  unfold Handler. destruct (bool_decide_reflect (Method r = "POST")) as [Hm|]; cbn [negb].
  2: { left. eexists. split; [done|by left]. }
  destruct (ctxTenant r) as [tid|] eqn:Et; [|left; eexists; split; [done|by right; left]].
  destruct (readFails r) eqn:Erf; cbn [orb]; [left; eexists; split; [done|by right; right]|].
  destruct (N.ltb_spec maxBodyBytes (N.of_nat (length (Body r)))) as [Hb|Hb];
    [left; eexists; split; [done|by right; right]|].
  destruct (decodeEvent (Body r)) as [e|] eqn:Ed; [|left; eexists; split; [done|by right; right]].
  destruct (checkEvent capEnv e) as [text|] eqn:Ec; [left; eexists; split; [done|by right; right]|].
  right. exists tid, e. by split_and!.
Qed.

Lemma eventCalls_intro parseTime tid raw e done cs :
  let first := PersistInbox (Producer e) (RunID e) (EventType e) raw in
  (forall ts, parseTime (EventTime e) = Some ts -> cs = map (mergeCall tid (RunID e) ts) done ->
     eventCalls parseTime tid raw e done (first :: cs)) /\
  (forall ts, parseTime (EventTime e) = None -> cs = map (mergeCall tid (RunID e) ts) done ->
     eventCalls parseTime tid raw e done (first :: Now :: cs)).
Proof.
  cbn zeta. split; intros ts Ht ->; exists ts; rewrite Ht; by repeat split.
Qed.

(** The protocol of a request, whatever the inbox and the merges answer: no
    call is made for a request that is refused with 405, 500 or 400; the event
    is written to the inbox before any merge; 202 means that the inbox and the
    merge of every pair, in order, succeeded; 422, 503 or an abort after that
    means that the merges before the failing pair are done, and that none after
    it was tried. *)
Theorem Handler_protocol decodeEvent parseTime capEnv r (o : env lineageR) :
  let '(resp, t) := run o [] (Handler decodeEvent parseTime capEnv r) in
  (t = [] /\ (status resp = 405 \/ status resp = 500 \/ status resp = 400)%Z) \/
  exists tid e, admitted decodeEvent capEnv r tid e /\
    ((resp = InboxUnavailable /\
        calls t = [PersistInbox (Producer e) (RunID e) (EventType e) (Body r)]) \/
     (resp = Accepted /\ eventCalls parseTime tid (Body r) e (eventPairs e) (calls t) /\
        Forall answeredDone t) \/
     (exists pre p rest ts out t', eventPairs e = pre ++ p :: rest /\
        eventCalls parseTime tid (Body r) e (pre ++ [p]) (calls t) /\
        t = t' ++ [ev (R := lineageR) (mergeCall tid (RunID e) ts p) out] /\
        Forall answeredDone t' /\ out <> Done /\ resp = failureOf out)).
Proof.
  destruct (Handler_cases decodeEvent parseTime capEnv r) as [(resp & -> & Hs)|(tid & e & Ha & ->)].
  { cbn. by left. }
  unfold ingestEvent. cbn [run].
  set (first := PersistInbox (Producer e) (RunID e) (EventType e) (Body r)).
  destruct (o [] first) eqn:Ep; [|cbn; right; exists tid, e; split; [done|by left]].
  assert (answeredDone (ev (R := lineageR) first true)) as Hfirst by done.
  destruct (parseTime (EventTime e)) as [ts|] eqn:Et.
  - destruct (run o _ _) as [resp t] eqn:Er. right. exists tid, e. split; [done|]. right.
    apply mergePairs_run in Er as [(-> & Hc & Ht)|(pre & p & rest & out & t' & He & Hc & -> & Ht & Hn & ->)].
    + left. split_and!; [done| |by constructor]. cbn. by apply (proj1 (eventCalls_intro _ _ _ _ _ _) ts).
    + right. exists pre, p, rest, ts, out, (ev (R := lineageR) first true :: t').
      split_and!; [done| |done|by constructor|done|done].
      by apply (proj1 (eventCalls_intro _ _ _ _ _ _) ts).
  - cbn [run]. set (ts := o ([] ++ [ev first true]) Now).
    destruct (run o _ _) as [resp t] eqn:Er. right. exists tid, e. split; [done|]. right.
    apply mergePairs_run in Er as [(-> & Hc & Ht)|(pre & p & rest & out & t' & He & Hc & -> & Ht & Hn & ->)].
    + left. split_and!; [done| |by repeat constructor].
      by apply (proj2 (eventCalls_intro _ _ _ _ _ _) ts).
    + right. exists pre, p, rest, ts, out,
        (ev (R := lineageR) first true :: ev (R := lineageR) Now ts :: t').
      split_and!; [done| |done|by repeat constructor|done|done].
      by apply (proj2 (eventCalls_intro _ _ _ _ _ _) ts).
Qed.

(** ** An event delivered again *)

Section redelivery.
Context (vertices : gmap N gostring) (hashtext : gostring -> Z) (tenantID : gostring).

(** The upserts of an event one after the other, when every one answers nil. *)
Fixpoint mergeSeq (runID : gostring) (ts : Z) (pairs : list (gostring * gostring)) (w : world)
  : option world :=
  match pairs with
  | [] => Some w
  | (s, d) :: pairs =>
      match alone vertices hashtext (MergeLineageEdge tenantID s d runID ts) w None with
      | (Done, w', _) => mergeSeq runID ts pairs w'
      | _ => None
      end
  end.

Definition wellFormed (w : world) : Prop := ahead (edges w) (nextId w) /\ dated (edges w).

Definition pairOk (runID : gostring) (p : gostring * gostring) : Prop :=
  unsafeField [("src_uri", p.1); ("tgt_uri", p.2); ("tenant_id", tenantID); ("run_id", runID)] = None
  /\ p.1 <> [] /\ p.2 <> [] /\ p.1 <> p.2.

Definition pairJoined (es : gmap N edge) (p : gostring * gostring) : Prop :=
  forall u v, vertices !! u = Some p.1 -> vertices !! v = Some p.2 -> joined tenantID es (u, v).

Definition touchesPair (pairs : list (gostring * gostring)) (u v : N) : Prop :=
  exists s d, (s, d) ∈ pairs /\ vertices !! u = Some s /\ vertices !! v = Some d.

Lemma kept_joined runID ts es es' st :
  (forall i e, es !! i = Some e -> exists e', es' !! i = Some e' /\ kept runID ts e e') ->
  joined tenantID es st -> joined tenantID es' st.
Proof.
  intros Hk (i & e & He & Hm). destruct (Hk _ _ He) as (e' & He' & Hke).
  exists i, e'. split; [done|by eapply kept_matches].
Qed.

Lemma kept_adj runID ts es es' u v :
  (forall i e, es !! i = Some e -> exists e', es' !! i = Some e' /\ kept runID ts e e') ->
  adj es u v -> adj es' u v.
Proof.
  intros Hk (e & [i He]%listed_elem & <- & <-). destruct (Hk _ _ He) as (e' & He' & Hke).
  exists e'. split; [apply listed_elem; by exists i|]. by destruct Hke as [->| ->].
Qed.

(** What the first delivery leaves, and what each of its checks saw: a graph with
    at least the edges of the start. *)
Lemma mergeSeq_first runID ts pairs w w1 :
  wellFormed w -> mergeSeq runID ts pairs w = Some w1 ->
  wellFormed w1 /\
  Forall (fun p => pairOk runID p /\ pairJoined (edges w1) p /\
    cycleFound vertices (edges w) p.2 p.1 = false) pairs /\
  (forall st, joined tenantID (edges w) st -> joined tenantID (edges w1) st) /\
  (forall u v, adj (edges w1) u v -> adj (edges w) u v \/ touchesPair pairs u v).
Proof.
  revert w; induction pairs as [|[s d] pairs IH]; intros w [Ha Hd]; cbn [mergeSeq].
  { intros [= <-]. split_and!; [done|constructor|done|]. intros u v H. by left. }
  destruct (alone _ _ _ w None) as [[[| |] w2] t2] eqn:E; try done. intros H.
  destruct (upsert_first _ _ _ _ _ _ _ _ _ _ Ha Hd E)
    as (Hf & Hs & Hdn & Hne & Hc & _ & Ha2 & Hd2 & Hj & Hk & Hadj).
  destruct (IH w2 (conj Ha2 Hd2) H) as (Hw1 & Hall & Hmono & Hadj1).
  split; [done|]. split; [|split].
  - constructor.
    + split; [by split_and!|]. split; [|done]. intros u v Hu Hv. by apply Hmono, Hj.
    + eapply Forall_impl; [exact Hall|]. intros p (Hp & Hpj & Hpc). split; [exact Hp|]. split; [exact Hpj|].
      eapply cycleFound_mono; [|exact Hpc]. intros u v. by eapply kept_adj.
  - intros st Hst. apply Hmono. by eapply kept_joined.
  - intros u v Huv. destruct (Hadj1 u v Huv) as [Hold|(s' & d' & Hin & Hu & Hv)].
    + destruct (Hadj u v Hold) as [?|[Hu Hv]]; [by left|right]. exists s, d. split; [by left|done].
    + right. exists s', d'. split; [by right|done].
Qed.

(** After the deliveries of every pair of [ins] and [outs] no walk leads back. *)
Lemma no_walk_back runID ts ins outs w w1 :
  wellFormed w -> mergeSeq runID ts (list_prod ins outs) w = Some w1 ->
  Forall (fun p => cycleFound vertices (edges w1) p.2 p.1 = false) (list_prod ins outs).
Proof.
  intros Hw H. destruct (mergeSeq_first _ _ _ _ _ Hw H) as (_ & Hall & _ & Hadj).
  rewrite Forall_forall in Hall. apply Forall_forall. intros [s d] Hsd. cbn.
  destruct (cycleFound vertices (edges w1) d s) eqn:E; [|done]. exfalso.
  apply cycleFound_nsteps in E as (a & b & m & Hna & Hnb & Hm & Hn).
  apply list_elem_of_In, in_prod_iff in Hsd as [Hs Hd].
  eapply (new_edges_no_walk (adj (edges w)) (adj (edges w1))
    (fun u => exists s, In s ins /\ vertices !! u = Some s)
    (fun v => exists d, In d outs /\ vertices !! v = Some d) 5); [| | |by exists d|by exists s|exact Hn].
  - intros u v [?|(s' & d' & Hin & Hu & Hv)]%Hadj; [by left|right].
    apply list_elem_of_In, in_prod_iff in Hin as [H1 H2]. split; [by exists s'|by exists d'].
  - intros m' t0 s0 Hm' (d' & Hd' & Ht0) (s' & Hs' & Hs0) Hn'.
    assert ((s', d') ∈ list_prod ins outs) as Hin by (apply list_elem_of_In, in_prod_iff; done).
    destruct (Hall _ Hin) as ((_ & _ & _ & Hne) & _ & Hc). cbn in Hne, Hc.
    by apply (check_no_walk vertices _ _ _ Hne Hc m' t0 s0 Hm' Ht0 Hs0).
  - lia.
Qed.

Lemma mergeSeq_again runID2 ts2 pairs w :
  wellFormed w ->
  Forall (fun p => pairOk runID2 p /\ pairJoined (edges w) p /\
    cycleFound vertices (edges w) p.2 p.1 = false) pairs ->
  exists w', mergeSeq runID2 ts2 pairs w = Some w' /\ sameEdges (edges w) (edges w').
Proof.
  revert w; induction pairs as [|[s d] pairs IH]; intros w [Ha Hd] Hall; cbn [mergeSeq].
  { exists w. split; [done|apply sameEdges_refl]. }
  apply Forall_cons in Hall as [((Hf & Hs & Hdn & Hne) & Hj & Hc) Hall].
  destruct (upsert_again vertices hashtext tenantID runID2 ts2 s d w Ha Hd Hf Hs Hdn Hne Hc Hj)
    as (w2 & -> & Ha2 & Hd2 & Hsame).
  destruct (IH w2 (conj Ha2 Hd2)) as (w3 & Hw3 & Hsame3).
  - eapply Forall_impl; [exact Hall|]. intros p (Hp & Hpj & Hpc). split; [exact Hp|]. split.
    + intros u v Hu Hv. eapply sameEdges_joined; [exact Hsame|by apply Hpj].
    + eapply cycleFound_mono; [|exact Hpc]. intros u v. by apply sameEdges_adj.
  - exists w3. split; [done|by eapply sameEdges_trans].
Qed.

Lemma mergePairs_mergeSeq clock runID ts pairs s s' :
  runLineage vertices hashtext clock (mergePairs tenantID runID ts pairs) s = (Accepted, s') <->
  mergeSeq runID ts pairs (st_world s) = Some (st_world s') /\ st_inbox s' = st_inbox s.
Proof.
  revert s; induction pairs as [|[a d] pairs IH]; intros s; cbn [mergePairs runLineage mergeSeq].
  - split; [by intros [= <-]|]. destruct s, s'. by intros [[= <-] [= <-]].
  - cbn [serveLineage]. destruct (alone _ _ _ (st_world s) None) as [[o w2] t2].
    destruct o as [|e|]; cbn [runLineage].
    + rewrite IH. done.
    + destruct e; cbn; split; by try intros [? ?].
    + cbn. split; by try intros [? ?].
Qed.
End redelivery.

Lemma mergePairs_inbox vertices hashtext clock tid runID ts pairs s :
  st_inbox (runLineage vertices hashtext clock (mergePairs tid runID ts pairs) s).2 = st_inbox s.
Proof.
  revert s; induction pairs as [|[a d] pairs IH]; intros s; cbn [mergePairs runLineage]; [done|].
  cbn [serveLineage]. destruct (alone _ _ _ (st_world s) None) as [[[|e|] w2] t2]; cbn [runLineage].
  - by rewrite IH.
  - by destruct e.
  - done.
Qed.

(** The time an event's merges carry. *)
Definition eventTs (parseTime : gostring -> option Z) (clock : Z) (e : RunEvent) : Z :=
  default clock (parseTime (EventTime e)).

Lemma ingestEvent_runs vertices hashtext clock parseTime tid raw e s :
  runLineage vertices hashtext clock (ingestEvent parseTime tid raw e) s =
    runLineage vertices hashtext clock
      (mergePairs tid (RunID e) (eventTs parseTime clock e) (eventPairs e))
      (mkStore (persistInbox (Producer e) (RunID e) (EventType e) raw (st_inbox s)) (st_world s)).
Proof.
  unfold ingestEvent, eventTs. cbn [runLineage serveLineage].
  by destruct (parseTime (EventTime e)).
Qed.

(** At-least-once delivery of a whole event: when a request was answered 202,
    the same request again, at any later time, is answered 202 again, leaves
    the inbox as it is and adds no edge: every edge keeps its ends, its
    creation and the run that made it.  No pair of the event can have closed a
    cycle with another pair of it. *)
Theorem redelivery_idempotent decodeEvent parseTime capEnv vertices hashtext clock clock2 r s s1 :
  wellFormed (st_world s) ->
  runLineage vertices hashtext clock (Handler decodeEvent parseTime capEnv r) s = (Accepted, s1) ->
  exists s2,
    runLineage vertices hashtext clock2 (Handler decodeEvent parseTime capEnv r) s1 = (Accepted, s2) /\
    st_inbox s2 = st_inbox s1 /\
    sameEdges (edges (st_world s1)) (edges (st_world s2)).
Proof.
  intros Hw. destruct (Handler_cases decodeEvent parseTime capEnv r)
    as [(resp & -> & Hs)|(tid & e & Ha & ->)].
  { cbn. intros [= -> _]. cbn in Hs. lia. }
  rewrite !ingestEvent_runs. intros [Hm Hi]%mergePairs_mergeSeq. cbn [st_world st_inbox] in *.
  destruct (mergeSeq_first _ _ _ _ _ _ _ _ Hw Hm) as (Hw1 & Hall & _ & _).
  pose proof (no_walk_back _ _ _ _ _ _ _ _ _ Hw Hm) as Hback.
  destruct (mergeSeq_again vertices hashtext tid (RunID e) (eventTs parseTime clock2 e)
    (eventPairs e) (st_world s1) Hw1) as (w2 & Hm2 & Hsame).
  { rewrite Forall_forall in Hall, Hback. apply Forall_forall. intros p Hp.
    destruct (Hall p Hp) as (H1 & H2 & _). split_and!; [done|done|by apply Hback]. }
  exists (mkStore (st_inbox s1) w2).
  assert (persistInbox (Producer e) (RunID e) (EventType e) (Body r) (st_inbox s1) = st_inbox s1) as ->.
  { rewrite Hi. unfold persistInbox.
    destruct (st_inbox s !! (Producer e, RunID e)) as [v|] eqn:E; [by rewrite E|].
    by rewrite lookup_insert_eq. }
  split; [|by split]. by apply mergePairs_mergeSeq.
Qed.

(** The inbox keeps one event per producer and run: of two requests of one
    run, the second - whatever its type and its payload, and whatever becomes
    of its merges - leaves nothing in the inbox, while the handler goes on as
    if it were there. *)
Theorem later_event_not_persisted decodeEvent parseTime capEnv vertices hashtext clock r1 r2
    tid e1 e2 s :
  admitted decodeEvent capEnv r1 tid e1 -> admitted decodeEvent capEnv r2 tid e2 ->
  Producer e2 = Producer e1 -> RunID e2 = RunID e1 ->
  st_inbox s !! (Producer e1, RunID e1) = None ->
  let go r := runLineage vertices hashtext clock (Handler decodeEvent parseTime capEnv r) in
  let s1 := (go r1 s).2 in
  let s2 := (go r2 s1).2 in
  st_inbox s2 = st_inbox s1 /\
  st_inbox s2 !! (Producer e1, RunID e1) = Some (EventType e1, Body r1).
Proof.
  intros (Hm1 & Ht1 & Hf1 & Hb1 & Hd1 & Hc1) (Hm2 & Ht2 & Hf2 & Hb2 & Hd2 & Hc2) Hp Hr Hn.
  assert (forall r e, Method r = "POST" -> ctxTenant r = Some tid -> readFails r = false ->
    (N.of_nat (length (Body r)) <= maxBodyBytes)%N -> decodeEvent (Body r) = Some e ->
    checkEvent capEnv e = None ->
    Handler decodeEvent parseTime capEnv r = ingestEvent parseTime tid (Body r) e) as Hh.
  { intros r e Hm Ht Hf Hb Hd Hc. unfold Handler.
    rewrite (bool_decide_eq_true_2 _ Hm), Ht, Hf. cbn [negb orb].
    rewrite (proj2 (N.ltb_ge _ _) Hb). by rewrite Hd, Hc. }
  cbv zeta beta. rewrite (Hh r1 e1), (Hh r2 e2) by done.
  rewrite !ingestEvent_runs, !mergePairs_inbox. cbn [st_inbox].
  rewrite Hp, Hr. unfold persistInbox. rewrite Hn, lookup_insert_eq. split; [done|].
  apply lookup_insert_eq.
Qed.

(** ** Witnesses *)

Definition exampleEvent (eventType : gostring) : RunEvent :=
  mkEvent eventType "2026-05-15T12:00:00Z" "spark/3.5.0" [] "run-1" [] []
    [mkDataset "iceberg" "t/v0"] [mkDataset "iceberg" "t/v1"].

(** A decoder for the examples: the payload is the type of the event. *)
Definition decodeType (raw : gostring) : option RunEvent :=
  if bool_decide (raw = []) then None else Some (exampleEvent raw).

Definition postOf (raw : gostring) : request := mkRequest "POST" (Some ("t" : gostring)) raw false.
Definition emptyStore : store := mkStore ∅ emptyWorld.
Definition noTime : gostring -> option Z := fun _ => None.

Lemma redelivery_idempotent_witness :
  exists s1 s2,
    runLineage sevenVertices lastByte 5 (Handler decodeType noTime [] (postOf "COMPLETE")) emptyStore
      = (Accepted, s1) /\
    size (edges (st_world s1)) = 1 /\
    runLineage sevenVertices lastByte 9 (Handler decodeType noTime [] (postOf "COMPLETE")) s1
      = (Accepted, s2) /\
    sameEdges (edges (st_world s1)) (edges (st_world s2)).
Proof.
  destruct (runLineage sevenVertices lastByte 5 (Handler decodeType noTime [] (postOf "COMPLETE"))
    emptyStore) as [resp s1] eqn:E.
  assert (resp = Accepted /\ size (edges (st_world s1)) = 1) as [-> Hs].
  { revert E. vm_compute. by intros [= <- <-]. }
  destruct (redelivery_idempotent decodeType noTime [] sevenVertices lastByte 5 9 (postOf "COMPLETE")
    emptyStore s1) as (s2 & H1 & _ & H2); [by split|exact E|].
  by exists s1, s2.
Defined.

Lemma later_event_not_persisted_witness :
  let go r := runLineage sevenVertices lastByte 5 (Handler decodeType noTime [] r) in
  (go (postOf "COMPLETE") (go (postOf "START") emptyStore).2).1 = Accepted /\
  st_inbox (go (postOf "COMPLETE") (go (postOf "START") emptyStore).2).2
    !! ("spark/3.5.0" : gostring, "run-1" : gostring) = Some ("START" : gostring, "START" : gostring).
Proof.
  cbn zeta. split; [vm_compute; reflexivity|].
  apply (later_event_not_persisted decodeType noTime [] sevenVertices lastByte 5
    (postOf "START") (postOf "COMPLETE") "t" (exampleEvent "START") (exampleEvent "COMPLETE") emptyStore);
    try reflexivity; (split_and!; [done|done|done|vm_compute; done|done|vm_compute; reflexivity]).
Defined.
