(* ===== verification/PolicyStore.v ===== *)
(** * The policy store

    [internal/policy/store]: the compiled-policy records and their statuses,
    the base64 transport of artifact bodies, the agtype scalar decoding, and the
    loaders and the writer as programs of queries in one tenant transaction. *)

From S2P Require Import Prelude Effects Cypher.
From Stdlib Require Import Lia.

(** ** Base64 ([encoding/base64], [StdEncoding]) *)

Module Base64.

Definition alphabet : gostring :=
  "ABCDEFGHIJKLMNOPQRSTUVWXYZabcdefghijklmnopqrstuvwxyz0123456789+/".

Definition charOf (n : N) : ascii := nth (N.to_nat n) alphabet "="%char.

Fixpoint indexOf (c : ascii) (l : gostring) (i : N) : option N :=
  match l with
  | [] => None
  | a :: l => if bool_decide (a = c) then Some i else indexOf c l (i + 1)
  end.

Definition valueOf (c : ascii) : option N := indexOf c alphabet 0.

Fixpoint encode (s : gostring) : gostring :=
  match s with
  | [] => []
  | [a] =>
      [charOf (ord a / 4); charOf ((ord a mod 4) * 16); "="; "="]%N%char
  | [a; b] =>
      [charOf (ord a / 4); charOf ((ord a mod 4) * 16 + ord b / 16);
       charOf ((ord b mod 16) * 4); "="]%N%char
  | a :: b :: c :: s =>
      [charOf (ord a / 4); charOf ((ord a mod 4) * 16 + ord b / 16);
       charOf ((ord b mod 16) * 4 + ord c / 64); charOf (ord c mod 64)]%N
      ++ encode s
  end.

(** [DecodeString]: line breaks are ignored, the padding is checked, the unused
    low bits of the last quantum are not. *)
Fixpoint decodeQuanta (s : gostring) : option gostring :=
  match s with
  | [] => Some []
  | c0 :: c1 :: c2 :: c3 :: s =>
      v0 ← valueOf c0; v1 ← valueOf c1;
      let b0 := ascii_of_N (v0 * 4 + v1 / 16) in
      if bool_decide (c2 = "="%char) then
        if bool_decide (c3 = "="%char) && bool_decide (s = []) then Some [b0] else None
      else
        v2 ← valueOf c2;
        let b1 := ascii_of_N ((v1 mod 16) * 16 + v2 / 4) in
        if bool_decide (c3 = "="%char) then
          if bool_decide (s = []) then Some [b0; b1] else None
        else
          v3 ← valueOf c3;
          rest ← decodeQuanta s;
          Some (b0 :: b1 :: ascii_of_N ((v2 mod 4) * 64 + v3) :: rest)
  | _ => None
  end.

Definition isLineBreak (c : ascii) : bool := ((ord c =? 10) || (ord c =? 13))%N.

Definition decode (s : gostring) : option gostring :=
  decodeQuanta (filter (fun c => isLineBreak c = false) s).

End Base64.

(** [encodeArtifactForCypher] and [decodeArtifactFromCypher]
    ([compiled_doc.go]). *)
Definition encodeArtifactForCypher (s : gostring) : gostring :=
  if bool_decide (s = []) then [] else Base64.encode s.

Definition decodeArtifactFromCypher (s : gostring) : gostring :=
  if bool_decide (s = []) then []
  else match Base64.decode s with Some b => b | None => [] end.

(** ** Compiled policies ([compiled.go]) *)

(** A Go string type, with its five constants. *)
Definition CompiledPolicyStatus := gostring.
Definition StatusPending : CompiledPolicyStatus := "pending".
Definition StatusActive : CompiledPolicyStatus := "active".
Definition StatusProbeFailed : CompiledPolicyStatus := "probe_failed".
Definition StatusCompileFailed : CompiledPolicyStatus := "compile_failed".
Definition StatusDivergentSuspended : CompiledPolicyStatus := "divergent_suspended".

Definition statuses : list CompiledPolicyStatus :=
  [StatusPending; StatusActive; StatusProbeFailed; StatusCompileFailed;
   StatusDivergentSuspended].

Definition IsValid (s : CompiledPolicyStatus) : bool := bool_decide (s ∈ statuses).

Record CompiledPolicy := mkCompiledPolicy {
  PolicyID : gostring;
  EngineKind : gostring;
  EngineVersion : gostring;
  TableName : gostring;
  TableNamespace : gostring;
  Status : CompiledPolicyStatus;
  SourceChecksum : gostring;
  ArtifactBody : gostring;
  ArtifactKind : gostring
}.

(** [iceberg.TableRef]. *)
Record TableRef := mkTableRef { ref_Namespace : list gostring; ref_Name : gostring }.

Definition joinNamespace (parts : list gostring) : gostring := join "." parts.

(** ** Agtype scalars ([age.go]) *)

Definition dquote : ascii := ascii_of_N 34.
Definition backslash : ascii := "\"%char.
Definition newline : ascii := ascii_of_N 10.
Definition tabulator : ascii := ascii_of_N 9.

(** The unescape loop. *)
Fixpoint unescape (s : gostring) : gostring :=
  match s with
  | [] => []
  | c :: s' =>
      if bool_decide (c = backslash) then
        match s' with
        | d :: s'' =>
            if bool_decide (d = dquote) then dquote :: unescape s''
            else if bool_decide (d = backslash) then backslash :: unescape s''
            else if bool_decide (d = "n"%char) then newline :: unescape s''
            else if bool_decide (d = "t"%char) then tabulator :: unescape s''
            else c :: unescape s'
        | [] => [c]
        end
      else c :: unescape s'
  end.

Definition stripSuffix (suffix s : gostring) : gostring :=
  if hasSuffix s suffix then take (length s - length suffix) s else s.

Definition stripAgtypeQuotes (s : gostring) : gostring :=
  let s := stripSuffix "::numeric" (stripSuffix "::text" s) in
  if bool_decide (2 <= length s) && bool_decide (head s = Some dquote)
     && bool_decide (last s = Some dquote)
  then unescape (take (length s - 2) (drop 1 s))
  else s.

(** ** Programs of queries *)

Inductive store_err :=
  | ErrTenantMissing
  | ErrUnsafeCypherLiteral
  | ErrInvalidStatus
  | ErrQuery
  | ErrTx
  | Panic.

Inductive storeCall :=
  | OpenTx (tenantID : gostring)
  | Query (sql : gostring)
  | CloseTx (commit : bool).

(** A query answers with its rows, each a list of scanned columns, or fails; the
    others answer whether they worked. *)
Definition storeR (c : storeCall) : Type :=
  match c with
  | Query _ => option (list (list gostring))
  | _ => bool
  end.

Abbreviation storeProg := (prog storeR).

Definition query (sql : gostring) : storeProg (option (list (list gostring))) :=
  Do (R := storeR) (Query sql) (fun r => Ret r).

(** [ExecuteInTenant] around a body, by its outcome. *)
Definition inTenant {A} (tenantID : gostring) (body : storeProg (result store_err A))
  : storeProg (result store_err A) :=
  Do (R := storeR) (OpenTx tenantID) (fun ok : bool =>
  if ok then
    bind body (fun r =>
    match r with
    | Ok a => Do (R := storeR) (CloseTx true) (fun ok : bool =>
                Ret (if ok then Ok a else Err ErrTx))
    | Err e => Do (R := storeR) (CloseTx false) (fun _ : bool => Ret (Err e))
    end)
  else Ret (Err ErrTx)).

(** ** Writing ([UpsertCompiledPolicy]) *)

Definition cypherSQL (stmt columns : gostring) : gostring :=
  "SELECT * FROM ag_catalog.cypher('neksur', $$ " ++ stmt ++ " $$) AS (" ++ columns ++ ")".

Definition outColumn : gostring := "out ag_catalog.agtype".

(** The literals of one upsert, sanitized. *)
Record literals := mkLiterals {
  l_tenant : gostring; l_pid : gostring; l_ek : gostring; l_ev : gostring;
  l_tname : gostring; l_tns : gostring; l_status : gostring;
  l_checksum : gostring; l_body : gostring
}.

Definition lit (s : gostring) : gostring := "'" ++ s ++ "'".

Definition matchNode (l : literals) : gostring :=
  "(cp:CompiledPolicy {tenant_id: " ++ lit (l_tenant l) ++ ", policy_id: " ++ lit (l_pid l) ++
  ", engine_kind: " ++ lit (l_ek l) ++ ", engine_version: " ++ lit (l_ev l) ++ "})".

Definition upsertStatements (l : literals) : list gostring :=
  ["MERGE " ++ matchNode l ++ " SET cp.status = " ++ lit (l_status l) ++
     ", cp.source_checksum = " ++ lit (l_checksum l) ++
     ", cp.artifact_body = " ++ lit (l_body l) ++ " RETURN cp.policy_id";
   "MATCH " ++ matchNode l ++ ", (p:Policy {tenant_id: " ++ lit (l_tenant l) ++ ", id: " ++
     lit (l_pid l) ++ "}) MERGE (cp)-[:COMPILED_FROM]->(p) RETURN cp.policy_id";
   "MATCH " ++ matchNode l ++ ", (t:Table {tenant_id: " ++ lit (l_tenant l) ++ ", name: " ++
     lit (l_tname l) ++ ", namespace: " ++ lit (l_tns l) ++
     "}) MERGE (cp)-[:APPLIES_TO]->(t) RETURN cp.policy_id";
   "MATCH " ++ matchNode l ++ ", (e:Engine {tenant_id: " ++ lit (l_tenant l) ++ ", kind: " ++
     lit (l_ek l) ++ ", version: " ++ lit (l_ev l) ++
     "}) MERGE (cp)-[:GOVERNED_BY]->(e) RETURN cp.policy_id"].

Definition sanitizeAll (tenantID : gostring) (cp : CompiledPolicy) : option literals :=
  pid ← MustSanitizeCypherLiteral (PolicyID cp);
  ek ← MustSanitizeCypherLiteral (EngineKind cp);
  ev ← MustSanitizeCypherLiteral (EngineVersion cp);
  tname ← MustSanitizeCypherLiteral (TableName cp);
  tns ← MustSanitizeCypherLiteral (TableNamespace cp);
  status ← MustSanitizeCypherLiteral (Status cp);
  checksum ← MustSanitizeCypherLiteral (SourceChecksum cp);
  tenantLit ← MustSanitizeCypherLiteral tenantID;
  body ← MustSanitizeCypherLiteral (encodeArtifactForCypher (ArtifactBody cp));
  Some (mkLiterals tenantLit pid ek ev tname tns status checksum body).

(** [execCypherNoRows] on each statement, stopping at the first failure. *)
Fixpoint execAll (stmts : list gostring) : storeProg (result store_err unit) :=
  match stmts with
  | [] => Ret (Ok tt)
  | s :: stmts =>
      bind (query (cypherSQL s outColumn)) (fun r =>
      match r with
      | None => Ret (Err ErrQuery)
      | Some _ => execAll stmts
      end)
  end.

Definition UpsertCompiledPolicy (tenant : option gostring) (cp : CompiledPolicy)
  : storeProg (result store_err unit) :=
  match tenant with
  | None => Ret (Err ErrTenantMissing)
  | Some tid =>
      if negb (IsValid (Status cp)) then Ret (Err ErrInvalidStatus)
      else
        match sanitizeAll tid cp with
        | None => Ret (Err Panic)
        | Some l => inTenant tid (execAll (upsertStatements l))
        end
  end.

(** ** Reading ([LoadCompiledForTable]) *)

Definition compiledColumns : gostring :=
  "policy_id ag_catalog.agtype, engine_kind ag_catalog.agtype, engine_version ag_catalog.agtype, status ag_catalog.agtype, source_checksum ag_catalog.agtype, artifact_body ag_catalog.agtype".

Definition loadCompiledCypher (tenantLit tname tns : gostring) : gostring :=
  "MATCH (cp:CompiledPolicy {tenant_id: " ++ lit tenantLit ++
  "})-[:APPLIES_TO]->(t:Table {tenant_id: " ++ lit tenantLit ++ ", name: " ++ lit tname ++
  ", namespace: " ++ lit tns ++
  "}) RETURN cp.policy_id, cp.engine_kind, cp.engine_version, cp.status, cp.source_checksum, cp.artifact_body".

(** One scanned row; [None] when [Scan] fails on the column count. *)
Definition scanCompiled (ref : TableRef) (row : list gostring) : option CompiledPolicy :=
  match row with
  | [pid; ek; ev; st; ck; ab] =>
      let status := stripAgtypeQuotes st in
      Some (mkCompiledPolicy
        (stripAgtypeQuotes pid) (stripAgtypeQuotes ek) (stripAgtypeQuotes ev)
        (ref_Name ref) (joinNamespace (ref_Namespace ref))
        (if IsValid status then status else StatusCompileFailed)
        (stripAgtypeQuotes ck) (decodeArtifactFromCypher (stripAgtypeQuotes ab)) [])
  | _ => None
  end.

Definition LoadCompiledForTable (tenant : option gostring) (ref : TableRef)
  : storeProg (result store_err (list CompiledPolicy)) :=
  match tenant with
  | None => Ret (Err ErrTenantMissing)
  | Some tid =>
      match MustSanitizeCypherLiteral (ref_Name ref),
            MustSanitizeCypherLiteral (joinNamespace (ref_Namespace ref)),
            MustSanitizeCypherLiteral tid with
      | Some tname, Some tns, Some tenantLit =>
          inTenant tid (bind (query (cypherSQL (loadCompiledCypher tenantLit tname tns)
                                       compiledColumns)) (fun r =>
            Ret (match r with
                 | None => Err ErrQuery
                 | Some rows => match mapM (scanCompiled ref) rows with
                                | None => Err ErrQuery
                                | Some cps => Ok cps
                                end
                 end)))
      | _, _, _ => Ret (Err Panic)
      end
  end.

(** ** Source policies ([LoadPoliciesForTable]) *)

(** [cel.Policy]. *)
Record Policy := mkPolicy { pol_ID : gostring; pol_Kind : gostring; pol_Text : gostring }.

Definition assertSafeCypherLiteral (s : gostring) : result store_err gostring :=
  map_err (fun _ => ErrUnsafeCypherLiteral) (SanitizeCypherLiteral s).

Definition governsLabels : list gostring :=
  ["SCHEMA_GOVERNS"; "WRITE_GOVERNS"; "RETENTION_GOVERNS"; "RESIDENCY_GOVERNS";
   "CLASSIFICATION_GOVERNS"; "PARTITION_GOVERNS"; "ABAC_GOVERNS"].

Definition policyQuery (name ns edge : gostring) : gostring :=
  cypherSQL ("MATCH (p:Policy)-[:" ++ edge ++ "]->(t:Table {name: " ++ lit name ++
     ", namespace: " ++ lit ns ++ "}) RETURN p.id, p.kind, p.definition_cel")
    "id ag_catalog.agtype, kind ag_catalog.agtype, text ag_catalog.agtype".

Definition retentionQuery (name ns : gostring) : gostring :=
  cypherSQL ("MATCH (rp:RetentionPolicy)-[:RETAINS]->(t:Table {name: " ++ lit name ++
     ", namespace: " ++ lit ns ++ "}) RETURN rp.id, rp.definition_cel")
    "id ag_catalog.agtype, text ag_catalog.agtype".

Definition scanPolicy (row : list gostring) : option Policy :=
  match row with
  | [id; kind; text] =>
      Some (mkPolicy (stripAgtypeQuotes id) (stripAgtypeQuotes kind) (stripAgtypeQuotes text))
  | _ => None
  end.

Definition scanRetention (row : list gostring) : option Policy :=
  match row with
  | [id; text] => Some (mkPolicy (stripAgtypeQuotes id) "retention" (stripAgtypeQuotes text))
  | _ => None
  end.

(** A query whose rows are scanned and appended to [acc]. *)
Definition gather (sql : gostring) (scan : list gostring -> option Policy)
    (acc : list Policy) : storeProg (result store_err (list Policy)) :=
  bind (query sql) (fun r => Ret
    (match r with
     | None => Err ErrQuery
     | Some rows => match mapM scan rows with
                    | None => Err ErrQuery
                    | Some ps => Ok (acc ++ ps)
                    end
     end)).

(** The loop over the edge labels. *)
Fixpoint gatherLabels (name ns : gostring) (labels : list gostring) (acc : list Policy)
  : storeProg (result store_err (list Policy)) :=
  match labels with
  | [] => gather (retentionQuery name ns) scanRetention acc
  | l :: labels =>
      bind (gather (policyQuery name ns l) scanPolicy acc) (fun r =>
      match r with
      | Err e => Ret (Err e)
      | Ok acc => gatherLabels name ns labels acc
      end)
  end.

Definition LoadPoliciesForTable (tenant : option gostring) (ref : TableRef)
  : storeProg (result store_err (list Policy)) :=
  match tenant with
  | None => Ret (Err ErrTenantMissing)
  | Some tid =>
      inTenant tid
        (match assertSafeCypherLiteral (ref_Name ref) with
         | Err e => Ret (Err e)
         | Ok safeName =>
             match assertSafeCypherLiteral (joinNamespace (ref_Namespace ref)) with
             | Err e => Ret (Err e)
             | Ok safeNamespace => gatherLabels safeName safeNamespace governsLabels []
             end
         end)
  end.

(** ** Lemmas *)

Ltac div_mod := zify; Z.to_euclidean_division_equations; lia.

(** What the base64 lemmas need of each of the 64 characters. *)
Definition sextetOk (n : N) : bool :=
  let c := Base64.charOf n in
  bool_decide (Base64.valueOf c = Some n) && negb (bool_decide (c = "="%char))
  && negb (Base64.isLineBreak c) && cypherLiteralAllow c.

Lemma sextets_ok n : (n < 64)%N -> sextetOk n = true.
Proof.
  intros Hn.
  assert (forallb sextetOk (map N.of_nat (seq 0 64)) = true) as H by (vm_compute; reflexivity).
  rewrite forallb_forall in H. apply H, in_map_iff. exists (N.to_nat n).
  split; [apply N2Nat.id|]. apply in_seq. lia.
Qed.

Lemma sextet n : (n < 64)%N ->
  let c := Base64.charOf n in
  Base64.valueOf c = Some n /\ c <> "="%char /\ Base64.isLineBreak c = false /\
  cypherLiteralAllow c = true.
Proof.
  intros Hn%sextets_ok. cbn zeta. unfold sextetOk in Hn.
  rewrite !andb_true_iff, !negb_true_iff, bool_decide_eq_true, bool_decide_eq_false in Hn. tauto.
Qed.

Lemma ord_bound (a : ascii) : (ord a < 256)%N.
Proof. apply N_ascii_bounded. Qed.

Lemma ascii_ord a n : n = ord a -> ascii_of_N n = a.
Proof. intros ->. apply ascii_N_embedding. Qed.

(** Induction on a string by quanta of three bytes. *)
Lemma quanta_ind (P : gostring -> Prop) :
  P [] -> (forall a, P [a]) -> (forall a b, P [a; b]) ->
  (forall a b c s, P s -> P (a :: b :: c :: s)) -> forall s, P s.
Proof.
  intros H0 H1 H2 H3. fix IH 1. intros [|a [|b [|c s]]].
  - exact H0.
  - exact (H1 a).
  - exact (H2 a b).
  - exact (H3 a b c s (IH s)).
Qed.

(** The sextets of a quantum are in range. *)
Lemma quantum_bounds a b c :
  (ord a / 4 < 64 /\ (ord a mod 4) * 16 < 64 /\ (ord a mod 4) * 16 + ord b / 16 < 64 /\
   (ord b mod 16) * 4 < 64 /\ (ord b mod 16) * 4 + ord c / 64 < 64 /\ ord c mod 64 < 64)%N.
Proof.
  pose proof (ord_bound a). pose proof (ord_bound b). pose proof (ord_bound c).
  repeat split; div_mod.
Qed.

Lemma encode_chars s :
  Forall (fun c => cypherLiteralAllow c = true /\ Base64.isLineBreak c = false) (Base64.encode s).
Proof.
  induction s as [|a|a b|a b c s IH] using quanta_ind; cbn [Base64.encode app];
    try pose proof (quantum_bounds a a a) as (?&?&?&?&?&?);
    try pose proof (quantum_bounds a b b) as (?&?&?&?&?&?);
    try pose proof (quantum_bounds a b c) as (?&?&?&?&?&?);
    repeat constructor; try exact IH; by apply sextet.
Qed.

Lemma decode_encode_quanta s : Base64.decodeQuanta (Base64.encode s) = Some s.
Proof.
  induction s as [|a|a b|a b c s IH] using quanta_ind; cbn [Base64.encode app]; [done|..].
  - pose proof (quantum_bounds a a a) as (H1&H2&_). pose proof (ord_bound a).
    cbn [Base64.decodeQuanta]. destruct (sextet _ H1) as [-> _], (sextet _ H2) as [-> _].
    simpl. do 2 f_equal. apply ascii_ord. div_mod.
  - pose proof (quantum_bounds a b b) as (H1&_&H2&H3&_). pose proof (ord_bound a).
    pose proof (ord_bound b).
    cbn [Base64.decodeQuanta].
    destruct (sextet _ H1) as [-> _], (sextet _ H2) as [-> _], (sextet _ H3) as (->&?&_).
    cbn [mbind option_bind]. rewrite bool_decide_eq_false_2 by done. simpl.
    do 2 f_equal; [|f_equal]; apply ascii_ord; div_mod.
  - pose proof (quantum_bounds a b c) as (H1&_&H2&_&H3&H4). pose proof (ord_bound a).
    pose proof (ord_bound b). pose proof (ord_bound c).
    cbn [Base64.decodeQuanta]. rewrite IH.
    destruct (sextet _ H1) as [-> _], (sextet _ H2) as [-> _], (sextet _ H3) as (->&?&_),
      (sextet _ H4) as (->&?&_).
    cbn [mbind option_bind]. rewrite !bool_decide_eq_false_2 by done.
    do 2 f_equal; [|f_equal; [|f_equal]]; apply ascii_ord; div_mod.
Qed.

Lemma decode_encode s : Base64.decode (Base64.encode s) = Some s.
Proof.
  unfold Base64.decode. rewrite <- (decode_encode_quanta s). f_equal.
  induction (encode_chars s) as [|c l [_ Hc] _ IH]; [done|].
  rewrite filter_cons_True by done. by f_equal.
Qed.

(** An allowed literal is returned as it is. *)
Lemma MustSanitize_spec s :
  MustSanitizeCypherLiteral s = if forallb cypherLiteralAllow s then Some s else None.
Proof.
  unfold MustSanitizeCypherLiteral, SanitizeCypherLiteral.
  pose proof (sanitizeLoop_spec s 0) as H.
  destruct (sanitizeLoop s 0) as [[b off|]|]; [|done|by rewrite H].
  destruct H as (u & v & -> & _ & _ & Hb). rewrite forallb_app. cbn [forallb].
  by rewrite Hb, andb_false_r.
Qed.

Lemma MustSanitize_Some s s' :
  MustSanitizeCypherLiteral s = Some s' -> s' = s /\ forallb cypherInert s = true.
Proof.
  rewrite MustSanitize_spec. destruct (forallb cypherLiteralAllow s) eqn:E; [|done].
  intros [= <-]. split; [done|]. rewrite forallb_forall in *. intros b Hb.
  by apply allow_inert, E.
Qed.

Lemma encode_artifact_safe s : forallb cypherLiteralAllow (encodeArtifactForCypher s) = true.
Proof.
  unfold encodeArtifactForCypher. destruct (bool_decide_reflect (s = [])); [done|].
  apply forallb_forall. intros c Hc. pose proof (encode_chars s) as H.
  rewrite Forall_forall in H. apply H. by apply list_elem_of_In.
Qed.

Lemma decode_artifact s : decodeArtifactFromCypher (encodeArtifactForCypher s) = s.
Proof.
  unfold encodeArtifactForCypher, decodeArtifactFromCypher.
  destruct (bool_decide_reflect (s = [])) as [->|Hs]; [done|].
  rewrite bool_decide_eq_false_2, decode_encode; [done|].
  destruct s as [|a [|b [|c s]]]; done.
Qed.

(** ** Agtype strings *)

(** How agtype writes a string: between quotes, with the JSON escapes. *)
Definition agEscape (c : ascii) : gostring :=
  if bool_decide (c = dquote) then [backslash; dquote]
  else if bool_decide (c = backslash) then [backslash; backslash]
  else if bool_decide (c = newline) then [backslash; "n"%char]
  else if bool_decide (c = tabulator) then [backslash; "t"%char]
  else [c].

Definition agString (s : gostring) : gostring := dquote :: concat (map agEscape s) ++ [dquote].

Lemma unescape_escape s : unescape (concat (map agEscape s)) = s.
Proof.
  induction s as [|c s IH]; [done|]. cbn [map concat]. unfold agEscape at 1.
  destruct (bool_decide_reflect (c = dquote)) as [->|H1].
  { cbn. by rewrite IH. }
  destruct (bool_decide_reflect (c = backslash)) as [->|H2].
  { cbn. by rewrite IH. }
  destruct (bool_decide_reflect (c = newline)) as [->|H3].
  { cbn. by rewrite IH. }
  destruct (bool_decide_reflect (c = tabulator)) as [->|H4].
  { cbn. by rewrite IH. }
  cbn [app unescape]. rewrite bool_decide_eq_false_2 by done. by rewrite IH.
Qed.

Lemma stripSuffix_quoted suf s :
  last suf <> Some dquote -> suf <> [] -> stripSuffix suf (s ++ [dquote]) = s ++ [dquote].
Proof.
  intros Hl Hn. unfold stripSuffix, hasSuffix. rewrite reverse_app.
  destruct suf as [|x suf _] using rev_ind; [done|].
  rewrite last_snoc in Hl. rewrite reverse_app. cbn.
  rewrite bool_decide_eq_false_2; [done|]. by intros ->.
Qed.

Lemma stripAgtypeQuotes_agString s : stripAgtypeQuotes (agString s) = s.
Proof.
  unfold stripAgtypeQuotes, agString. rewrite app_comm_cons.
  rewrite !stripSuffix_quoted by done. set (e := concat (map agEscape s)).
  rewrite last_snoc, bool_decide_eq_true_2.
  2: { rewrite length_app. simpl. lia. }
  rewrite !bool_decide_eq_true_2 by done. cbn [andb].
  replace (length ((dquote :: e) ++ [dquote]) - 2) with (length e)
    by (rewrite length_app; simpl; lia).
  cbn [app drop]. rewrite drop_0, take_app_length. apply unescape_escape.
Qed.

(** The row of an upsert's literals, as the loader scans it. *)
Lemma written_row_scans tid cp l :
  IsValid (Status cp) = true -> sanitizeAll tid cp = Some l ->
  scanCompiled (mkTableRef [TableNamespace cp] (TableName cp))
    (map agString [l_pid l; l_ek l; l_ev l; l_status l; l_checksum l; l_body l])
  = Some (mkCompiledPolicy (PolicyID cp) (EngineKind cp) (EngineVersion cp) (TableName cp)
            (TableNamespace cp) (Status cp) (SourceChecksum cp) (ArtifactBody cp) []).
Proof.
  intros Hv. unfold sanitizeAll.
  intros Hl. simplify_option_eq.
  repeat match goal with
  | H : MustSanitizeCypherLiteral _ = Some _ |- _ => apply MustSanitize_Some in H as [-> _]
  end.
  cbn [map scanCompiled]. rewrite !stripAgtypeQuotes_agString, decode_artifact. by rewrite Hv.
Qed.

(** ** Properties of the encodings *)

(** The base64 transport loses nothing: whatever the artifact (newlines,
    quotes, any byte), its encoding passes the Cypher literal check and decodes
    to the artifact. *)
Theorem artifact_transport s :
  MustSanitizeCypherLiteral (encodeArtifactForCypher s) = Some (encodeArtifactForCypher s) /\
  decodeArtifactFromCypher (encodeArtifactForCypher s) = s.
Proof.
  split; [|apply decode_artifact]. by rewrite MustSanitize_spec, encode_artifact_safe.
Qed.

(** [stripAgtypeQuotes] is a left inverse of the agtype rendering of
    strings, with the type annotation and without. *)
Theorem stripAgtypeQuotes_inverse s :
  stripAgtypeQuotes (agString s) = s /\
  stripAgtypeQuotes (agString s ++ "::text") = s.
Proof.
  split; [apply stripAgtypeQuotes_agString|].
  rewrite <- (stripAgtypeQuotes_agString s) at 2. unfold stripAgtypeQuotes.
  assert (stripSuffix "::text" (agString s ++ "::text") = agString s) as ->.
  { unfold stripSuffix, hasSuffix. rewrite reverse_app, hasPrefix_app, length_app.
    by rewrite Nat.add_sub, take_app_length. }
  assert (stripSuffix "::text" (agString s) = agString s) as ->; [|done].
  unfold agString. rewrite app_comm_cons. by apply stripSuffix_quoted.
Qed.

(** What [UpsertCompiledPolicy] writes is what [LoadCompiledForTable] reads
    back, except the artifact kind, which neither persists: the row of the
    written literals scans to the policy with an empty kind. *)
Theorem compiled_policy_roundtrip tid cp l :
  IsValid (Status cp) = true -> sanitizeAll tid cp = Some l ->
  scanCompiled (mkTableRef [TableNamespace cp] (TableName cp))
    (map agString [l_pid l; l_ek l; l_ev l; l_status l; l_checksum l; l_body l])
  = Some (mkCompiledPolicy (PolicyID cp) (EngineKind cp) (EngineVersion cp) (TableName cp)
            (TableNamespace cp) (Status cp) (SourceChecksum cp) (ArtifactBody cp) []).
Proof. apply written_row_scans. Qed.

Definition samplePolicy : CompiledPolicy :=
  mkCompiledPolicy "p1" "trino" "431" "orders" "sales" StatusActive "ck" "region = 'EU'"
    "row-filter".

Lemma compiled_policy_roundtrip_witness :
  exists l, sanitizeAll "t1" samplePolicy = Some l /\
  scanCompiled (mkTableRef ["sales"] "orders")
    (map agString [l_pid l; l_ek l; l_ev l; l_status l; l_checksum l; l_body l])
  = Some (mkCompiledPolicy "p1" "trino" "431" "orders" "sales" StatusActive "ck"
            "region = 'EU'" []).
Proof.
  eexists. split; [vm_compute; reflexivity|].
  apply (compiled_policy_roundtrip "t1" samplePolicy); vm_compute; reflexivity.
Defined.

(** ** The queries *)

Definition queryFailed (e : event storeR) : bool :=
  match e with
  | existT (Query _) None => true
  | _ => false
  end.

Definition committed (t : trace storeR) : bool :=
  existsb (fun e => match e with existT (CloseTx true) true => true | _ => false end) t.

(** What an upsert of valid literals does: the statements of [l], in their
    order, in one transaction of the tenant; up to the first that fails. *)
Record upsertProtocol (tid : gostring) (l : literals) (r : result store_err unit)
    (t : trace storeR) : Prop := {
  up_calls : r = Err ErrTx /\ calls t = [OpenTx tid] \/
    exists n commit,
      calls t = OpenTx tid :: map (fun s => Query (cypherSQL s outColumn))
                               (take n (upsertStatements l)) ++ [CloseTx commit] /\
      (commit = true -> n = 4 /\ existsb queryFailed t = false);
  up_ok : is_ok r = committed t
}.

(** [UpsertCompiledPolicy] fails closed: without a tenant, with an unknown
    status or with a field outside the literal allowlist it makes no call; else
    it runs its four statements in order in a transaction of the tenant, stops
    at the first that fails, commits only if none did, and succeeds exactly
    when the commit does. *)
Theorem UpsertCompiledPolicy_protocol tenant cp (o : env storeR) :
  let '(r, t) := run o [] (UpsertCompiledPolicy tenant cp) in
  match tenant with
  | None => r = Err ErrTenantMissing /\ t = []
  | Some tid =>
      if negb (IsValid (Status cp)) then r = Err ErrInvalidStatus /\ t = []
      else match sanitizeAll tid cp with
           | None => r = Err Panic /\ t = []
           | Some l => upsertProtocol tid l r t
           end
  end.
Proof.
  unfold UpsertCompiledPolicy. destruct tenant as [tid|]; [|done].
  destruct (negb (IsValid (Status cp))); [done|].
  destruct (sanitizeAll tid cp) as [l|]; [|done].
  apply (always_run _ (upsertProtocol tid l) [] o).
  unfold inTenant. cbn [always]. intros []; cbn [always].
  2: { split; [by left|done]. }
  unfold upsertStatements. cbn [execAll bind always query].
  repeat (intros [?|]; cbn [execAll bind always query]);
    intros []; cbn [always app]; (split; [right|done]);
    match goal with
    | |- exists n c, calls ?h = _ /\ _ => exists (length h - 2); eexists;
        split; [reflexivity|done]
    end.
Qed.

(** What a load returns, with the calls it made. *)
Definition loadProtocol (tenant : option gostring) (ref : TableRef)
    (r : result store_err (list CompiledPolicy)) (t : trace storeR) : Prop :=
  match r with
  | Ok cps => exists tid rows,
      tenant = Some tid /\
      t = [ev (OpenTx tid) true;
           ev (Query (cypherSQL (loadCompiledCypher tid (ref_Name ref)
                        (joinNamespace (ref_Namespace ref))) compiledColumns)) (Some rows);
           ev (CloseTx true) true] /\
      Forall2 (fun row cp => scanCompiled ref row = Some cp /\ IsValid (Status cp) = true /\
        TableName cp = ref_Name ref /\
        TableNamespace cp = joinNamespace (ref_Namespace ref)) rows cps
  | Err ErrTenantMissing => tenant = None /\ t = []
  | Err Panic => t = [] /\ (forallb cypherLiteralAllow (ref_Name ref) = false \/
      forallb cypherLiteralAllow (joinNamespace (ref_Namespace ref)) = false \/
      exists tid, tenant = Some tid /\ forallb cypherLiteralAllow tid = false)
  | Err e => e = ErrQuery \/ e = ErrTx
  end.

(** [LoadCompiledForTable] fails closed: it makes no call without a tenant
    or with an unsafe table name; a loaded policy is a row of the one query,
    names the table asked for and has one of the five statuses, a status the
    row does not spell counts as [compile_failed]. *)
Theorem LoadCompiledForTable_spec tenant ref (o : env storeR) :
  let '(r, t) := run o [] (LoadCompiledForTable tenant ref) in loadProtocol tenant ref r t.
Proof.
  unfold LoadCompiledForTable. destruct tenant as [tid|]; [|done].
  rewrite !MustSanitize_spec.
  destruct (forallb cypherLiteralAllow (ref_Name ref)) eqn:E1; [|cbn; tauto].
  destruct (forallb cypherLiteralAllow (joinNamespace _)) eqn:E2; [|cbn; tauto].
  destruct (forallb cypherLiteralAllow tid) eqn:E3; [|cbn; eauto 6].
  apply (always_run _ (loadProtocol (Some tid) ref) [] o).
  unfold inTenant. cbn [always]. intros []; cbn [always]; [|by right].
  cbn [bind query always]. intros [rows|].
  2: { cbn. intros _. by left. }
  cbn [bind]. destruct (mapM (scanCompiled ref) rows) as [cps|] eqn:Em; cbn.
  2: { intros _. by left. }
  intros []; [|by right]. exists tid, rows. split_and!; [done|done|].
  apply mapM_Some in Em. eapply Forall2_impl; [exact Em|].
  intros row cp Hs. split; [done|]. unfold scanCompiled in Hs.
  repeat (destruct row as [|? row]; try done). injection Hs as <-. cbn.
  split_and!; [|done|done]. by destruct (IsValid (stripAgtypeQuotes _)) eqn:E.
Qed.

(** A corrupted artifact body is not surfaced: a row whose body is no
    base64 loads with its status and an empty artifact. *)
Theorem corrupted_body_keeps_status ref pid ek ev_ ck body :
  Base64.decode body = None ->
  scanCompiled ref (map agString [pid; ek; ev_; StatusActive; ck; body])
  = Some (mkCompiledPolicy pid ek ev_ (ref_Name ref) (joinNamespace (ref_Namespace ref))
            StatusActive ck [] []).
Proof.
  intros Hd. cbn [map scanCompiled]. rewrite !stripAgtypeQuotes_agString. cbn.
  unfold decodeArtifactFromCypher. rewrite Hd. by destruct (bool_decide (body = [])).
Qed.

Lemma corrupted_body_keeps_status_witness :
  Base64.decode "!!!!" = None /\
  scanCompiled (mkTableRef ["sales"] "orders")
    (map agString ["p1"; "trino"; "431"; StatusActive; "ck"; "!!!!"])
  = Some (mkCompiledPolicy "p1" "trino" "431" "orders" "sales" StatusActive "ck" [] []).
Proof.
  split; [vm_compute; reflexivity|].
  apply (corrupted_body_keeps_status (mkTableRef ["sales"] "orders")). vm_compute. reflexivity.
Defined.

(** ** Source policies *)

(** The policies of a list of queries, one per edge label and one for the
    retention policies, by the rows each answered. *)
Inductive gathered (name ns : gostring) :
    list gostring -> list (gostring * list (list gostring)) -> list Policy -> Prop :=
  | gathered_retention rows ps :
      mapM scanRetention rows = Some ps ->
      gathered name ns [] [(retentionQuery name ns, rows)] ps
  | gathered_label l labels rows ps answers qs :
      mapM scanPolicy rows = Some ps ->
      gathered name ns labels answers qs ->
      gathered name ns (l :: labels) ((policyQuery name ns l, rows) :: answers) (ps ++ qs).

Definition answered (a : gostring * list (list gostring)) : event storeR :=
  ev (Query a.1) (Some a.2).

Lemma gather_spec sql scan acc h (Q : result store_err (list Policy) -> trace storeR -> Prop) :
  (forall rows ps, mapM scan rows = Some ps -> Q (Ok (acc ++ ps)) (h ++ [answered (sql, rows)])) ->
  (forall t, Q (Err ErrQuery) t) ->
  always (gather sql scan acc) h Q.
Proof.
  intros Hok Herr. unfold gather. cbn [query bind always]. intros [rows|]; [|apply Herr].
  cbn [bind always]. destruct (mapM scan rows) as [ps|] eqn:E; [by apply Hok|apply Herr].
Qed.

Lemma gatherLabels_spec name ns labels acc h :
  always (gatherLabels name ns labels acc) h (fun r t =>
    match r with
    | Ok ps => exists answers qs, gathered name ns labels answers qs /\ ps = acc ++ qs /\
        t = h ++ map answered answers
    | Err e => e = ErrQuery
    end).
Proof.
  revert acc h; induction labels as [|l labels IH]; intros acc h; cbn [gatherLabels].
  - apply gather_spec; [|done]. intros rows ps Hps. do 2 eexists.
    split; [by constructor|]. done.
  - apply always_bind, gather_spec; [|done]. intros rows ps Hps. cbn [always].
    eapply always_mono; [apply IH|]. intros [rs|] t; [|done].
    intros (answers & qs & Hg & -> & ->). exists ((policyQuery name ns l, rows) :: answers), (ps ++ qs).
    split; [by constructor|]. by rewrite <- !app_assoc.
Qed.

Definition policiesProtocol (tenant : option gostring) (ref : TableRef)
    (r : result store_err (list Policy)) (t : trace storeR) : Prop :=
  let name := ref_Name ref in
  let ns := joinNamespace (ref_Namespace ref) in
  match r with
  | Ok ps => exists tid answers,
      tenant = Some tid /\ gathered name ns governsLabels answers ps /\
      t = ev (OpenTx tid) true :: map answered answers ++ [ev (CloseTx true) true] /\
      forallb cypherLiteralAllow (name ++ ns) = true
  | Err ErrTenantMissing => tenant = None /\ t = []
  | Err ErrUnsafeCypherLiteral =>
      forallb cypherLiteralAllow (name ++ ns) = false /\
      exists tid, calls t = [OpenTx tid; CloseTx false]
  | Err e => e = ErrQuery \/ e = ErrTx
  end.

Lemma assertSafe_spec s :
  assertSafeCypherLiteral s =
    if forallb cypherLiteralAllow s then Ok s else Err ErrUnsafeCypherLiteral.
Proof.
  unfold assertSafeCypherLiteral. pose proof (MustSanitize_spec s) as H.
  unfold MustSanitizeCypherLiteral in H.
  destruct (SanitizeCypherLiteral s) as [s'|e], (forallb cypherLiteralAllow s);
    simpl; congruence.
Qed.

(** [LoadPoliciesForTable] returns the policies of all seven edge labels
    and the retention policies, in that order, and nothing else: every one of
    the eight queries answered; any failure is an error without a partial
    list.  An unsafe table name runs no query. *)
Theorem LoadPoliciesForTable_spec tenant ref (o : env storeR) :
  let '(r, t) := run o [] (LoadPoliciesForTable tenant ref) in
  policiesProtocol tenant ref r t.
Proof.
  unfold LoadPoliciesForTable. destruct tenant as [tid|]; [|done].
  apply (always_run _ (policiesProtocol (Some tid) ref) [] o).
  unfold inTenant. cbn [always]. intros []; [|by right].
  rewrite !assertSafe_spec. unfold policiesProtocol. rewrite forallb_app.
  destruct (forallb cypherLiteralAllow (ref_Name ref)); [|cbn; eauto].
  destruct (forallb cypherLiteralAllow (joinNamespace _)); [|cbn; eauto].
  apply always_bind. eapply always_mono; [apply gatherLabels_spec|].
  intros [ps|e] t; cbn [always]; [|intros -> []; by left].
  intros (answers & qs & Hg & -> & ->) []; [|by right].
  by exists tid, answers.
Qed.
