(* ===== verification/JsonText.v ===== *)
(** * JSON text

    The part of Go's [encoding/json] that the licences sign: the text of a
    string, with HTML escapes and with invalid UTF-8 replaced, of a list of
    strings, and of an object; and the sorting of [sort.Strings]. *)

From S2P Require Import Prelude Order.
From stdpp Require Import sorting.
From Stdlib Require Import Lia.
#[local] Open Scope go_scope.

(** ** UTF-8 *)

Definition byteIn (lo hi : N) (c : ascii) : bool := ((lo <=? ord c) && (ord c <=? hi))%N.
Definition continuation : ascii -> bool := byteIn 128 191.

(** The length of the multi-byte rune at the head of a string, 0 when the bytes
    there are no valid encoding ([utf8.DecodeRuneInString]). *)
Definition runeLen (s : gostring) : nat :=
  match s with
  | a :: b :: c :: d :: _ =>
      if byteIn 194 223 a && continuation b then 2
      else if (bool_decide (ord a = 224%N) && byteIn 160 191 b
               || byteIn 225 236 a && continuation b
               || bool_decide (ord a = 237%N) && byteIn 128 159 b
               || byteIn 238 239 a && continuation b) && continuation c then 3
      else if (bool_decide (ord a = 240%N) && byteIn 144 191 b
               || byteIn 241 243 a && continuation b
               || bool_decide (ord a = 244%N) && byteIn 128 143 b)
              && continuation c && continuation d then 4
      else 0
  | [a; b; c] =>
      if byteIn 194 223 a && continuation b then 2
      else if (bool_decide (ord a = 224%N) && byteIn 160 191 b
               || byteIn 225 236 a && continuation b
               || bool_decide (ord a = 237%N) && byteIn 128 159 b
               || byteIn 238 239 a && continuation b) && continuation c then 3
      else 0
  | [a; b] => if byteIn 194 223 a && continuation b then 2 else 0
  | _ => 0
  end.

Definition isASCII (c : ascii) : bool := (ord c <? 128)%N.

(** U+FFFD. *)
Definition replacement : gostring := map ascii_of_N [239; 191; 189]%N.

(** Invalid bytes replaced, one by one; fuel is the length. *)
Fixpoint toValidFrom (fuel : nat) (s : gostring) : gostring :=
  match fuel, s with
  | S fuel, c :: s' =>
      if isASCII c then c :: toValidFrom fuel s'
      else match runeLen s with
           | 0 => replacement ++ toValidFrom fuel s'
           | n => take n s ++ toValidFrom fuel (drop n s)
           end
  | _, _ => []
  end.

Definition toValidUTF8 (s : gostring) : gostring := toValidFrom (length s) s.

(** Only valid encodings ([utf8.ValidString]). *)
Fixpoint validFrom (fuel : nat) (s : gostring) : bool :=
  match fuel, s with
  | S fuel, c :: s' =>
      if isASCII c then validFrom fuel s'
      else match runeLen s with
           | 0 => false
           | n => validFrom fuel (drop n s)
           end
  | _, _ => true
  end.

Definition validUTF8 (s : gostring) : bool := validFrom (length s) s.

(** ** Strings *)

Definition dquote : ascii := ascii_of_N 34.

(** [appendString] with [escapeHTML], on an ASCII byte. *)
Definition escByte (c : ascii) : gostring :=
  let n := ord c in
  if bool_decide (c = dquote) || bool_decide (c = "\"%char) then ["\"%char; c]
  else if (n =? 8)%N then "\b"
  else if (n =? 12)%N then "\f"
  else if (n =? 10)%N then "\n"
  else if (n =? 13)%N then "\r"
  else if (n =? 9)%N then "\t"
  else if (n <? 32)%N || bool_decide (c ∈ ["<"; ">"; "&"]%char)
  then "\u00" ++ [hexOf (n / 16); hexOf (n mod 16)]
  else [c].

Definition lineSeparator (s : gostring) : option ascii :=
  match s with
  | a :: b :: c :: _ =>
      if (ord a =? 226)%N && (ord b =? 128)%N && ((ord c =? 168) || (ord c =? 169))%N
      then Some (hexOf (ord c mod 16)) else None
  | _ => None
  end.

Fixpoint quoteFrom (fuel : nat) (s : gostring) : gostring :=
  match fuel, s with
  | S fuel, c :: s' =>
      if isASCII c then escByte c ++ quoteFrom fuel s'
      else match runeLen s with
           | 0 => "\ufffd" ++ quoteFrom fuel s'
           | n =>
               match lineSeparator s with
               | Some d => "\u202" ++ [d]
               | None => take n s
               end ++ quoteFrom fuel (drop n s)
           end
  | _, _ => []
  end.

(** [json.Marshal] of a string. *)
Definition quoteJSON (s : gostring) : gostring :=
  dquote :: quoteFrom (length s) s ++ [dquote].

(** ** Values and objects *)

Inductive jvalue := JNull | JString (s : gostring) | JStrings (l : list gostring).

(** [json.Marshal] of a value that was read back into an [interface{}]: its
    strings are valid by then. *)
Definition encodeValue (v : jvalue) : gostring :=
  match v with
  | JNull => "null"
  | JString s => quoteJSON (toValidUTF8 s)
  | JStrings l => "[" ++ Prelude.join "," (map (fun s => quoteJSON (toValidUTF8 s)) l) ++ "]"
  end.

Definition encodeField (f : gostring * jvalue) : gostring :=
  quoteJSON f.1 ++ ":" ++ encodeValue f.2.

(** The object of the fields in the order given. *)
Definition encodeObject (fields : list (gostring * jvalue)) : gostring :=
  "{" ++ Prelude.join "," (map encodeField fields) ++ "}".

(** ** Order of fields *)

(** [sort.Strings] of the keys, and the values after them. *)
Definition keyLeq (f g : gostring * jvalue) : Prop := stringLeq f.1 g.1.

#[export] Instance keyLeq_dec : RelDecision keyLeq.
Proof. intros f g. unfold keyLeq. apply _. Defined.

Definition sortFields (l : list (gostring * jvalue)) : list (gostring * jvalue) :=
  merge_sort keyLeq l.

(** ** The text of a valid string determines it *)

(** A reader of the text after the opening quote: the string and the rest. *)
Definition readEscape (e : ascii) : option ascii :=
  if bool_decide (e = dquote) then Some dquote
  else if bool_decide (e = "\"%char) then Some "\"%char
  else if bool_decide (e = "b"%char) then Some (ascii_of_N 8)
  else if bool_decide (e = "f"%char) then Some (ascii_of_N 12)
  else if bool_decide (e = "n"%char) then Some (ascii_of_N 10)
  else if bool_decide (e = "r"%char) then Some (ascii_of_N 13)
  else if bool_decide (e = "t"%char) then Some (ascii_of_N 9)
  else None.

Definition hexValue (c : ascii) : N := if isDigit c then ord c - 48 else ord c - 87.

Fixpoint unquote (s : gostring) : option (gostring * gostring) :=
  match s with
  | [] => None
  | c :: s1 =>
      if bool_decide (c = dquote) then Some ([], s1)
      else if bool_decide (c = "\"%char) then
        match s1 with
        | [] => None
        | e :: s2 =>
            match readEscape e with
            | Some b => (fun '(t, r) => (b :: t, r)) <$> unquote s2
            | None =>
                match s2 with
                | z :: _ :: h :: l :: s3 =>
                    (fun '(t, r) =>
                       ((if bool_decide (z = "0"%char)
                         then [ascii_of_N (hexValue h * 16 + hexValue l)]
                         else map ascii_of_N [226; 128; 160 + hexValue l]%N) ++ t, r))
                    <$> unquote s3
                | _ => None
                end
            end
        end
      else (fun '(t, r) => (c :: t, r)) <$> unquote s1
  end.

Lemma unquote_escByte c rest :
  isASCII c = true -> unquote (escByte c ++ rest) = (fun '(t, r) => (c :: t, r)) <$> unquote rest.
Proof. by_byte c; try discriminate 1; intros _; reflexivity. Qed.

Lemma unquote_high c rest :
  isASCII c = false -> unquote (c :: rest) = (fun '(t, r) => (c :: t, r)) <$> unquote rest.
Proof. by_byte c; try discriminate 1; intros _; reflexivity. Qed.

Lemma unquote_highs l rest :
  forallb (fun c => negb (isASCII c)) l = true ->
  unquote (l ++ rest) = (fun '(t, r) => (l ++ t, r)) <$> unquote rest.
Proof.
  induction l as [|c l IH]; cbn [forallb app].
  - intros _. by destruct (unquote rest) as [[t r]|].
  - intros [Hc%negb_true_iff Hl]%andb_true_iff. rewrite unquote_high, IH by done.
    by destruct (unquote rest) as [[t r]|].
Qed.

Lemma continuation_high c : continuation c = true -> isASCII c = false.
Proof. unfold continuation, byteIn, isASCII. intros [H _]%andb_true_iff. apply N.leb_le in H. apply N.ltb_ge. lia. Qed.

Lemma byteIn_high lo hi c : (128 <= lo)%N -> byteIn lo hi c = true -> isASCII c = false.
Proof. unfold byteIn, isASCII. intros ? [H _]%andb_true_iff. apply N.leb_le in H. apply N.ltb_ge. lia. Qed.

(** A rune is made of its length of bytes, all of them beyond ASCII. *)
Lemma runeLen_high c s n :
  isASCII c = false -> runeLen (c :: s) = n -> n <> 0 ->
  n <= length (c :: s) /\ forallb (fun b => negb (isASCII b)) (take n (c :: s)) = true.
Proof.
  intros Hc <- Hn.
  assert (forall l k, Forall (fun b => continuation b = true) (take k l) ->
    forallb (fun b => negb (isASCII b)) (take k l) = true) as Hall.
  { intros l k Hl. apply forallb_forall. intros b Hb. rewrite Forall_forall in Hl.
    rewrite continuation_high; [done|]. by apply Hl, list_elem_of_In. }
  assert (forall lo hi b, (128 <= lo)%N -> byteIn lo hi b = true -> negb (isASCII b) = true) as Hin.
  { intros lo hi b Hlo Hb. by rewrite (byteIn_high lo hi). }
  destruct s as [|b [|d [|e s]]]; cbn [runeLen] in *; try done.
  all: repeat match goal with
  | |- context [if ?x then _ else _] => destruct x eqn:?
  | H : context [if ?x then _ else _] |- _ => destruct x eqn:?
  end; try done.
  all: split; [cbn; lia|].
  all: repeat match goal with
  | H : _ || _ = true |- _ => apply orb_true_iff in H as [H|H]
  | H : _ && _ = true |- _ => apply andb_true_iff in H as [? ?]
  end.
  all: cbn [take forallb]; rewrite Hc; cbn [negb andb].
  all: repeat match goal with
  | H : continuation ?b = true |- context [isASCII ?b] => rewrite (continuation_high b H)
  | H : byteIn ?lo ?hi ?b = true |- context [isASCII ?b] =>
      rewrite (byteIn_high lo hi b ltac:(lia) H)
  end; done.
Qed.

Lemma unquote_separator c s d rest :
  lineSeparator (c :: s) = Some d -> runeLen (c :: s) <> 0 ->
  runeLen (c :: s) = 3 /\
  unquote (("\u202" ++ [d]) ++ rest) =
    (fun '(t, r) => (take 3 (c :: s) ++ t, r)) <$> unquote rest.
Proof.
  destruct s as [|b [|e s]]; cbn [lineSeparator]; try done.
  destruct (N.eqb_spec (ord c) 226) as [Ec|]; [|done].
  destruct (N.eqb_spec (ord b) 128) as [Eb|]; [|done]. cbn [andb].
  assert (c = ascii_of_N 226) as -> by (apply ord_inj; by rewrite Ec).
  assert (b = ascii_of_N 128) as -> by (apply ord_inj; by rewrite Eb).
  destruct (N.eqb_spec (ord e) 168) as [Ee|]; [|destruct (N.eqb_spec (ord e) 169) as [Ee|]; [|done]].
  - assert (e = ascii_of_N 168) as -> by (apply ord_inj; by rewrite Ee).
    intros [= <-] _. split; [by destruct s|]. reflexivity.
  - assert (e = ascii_of_N 169) as -> by (apply ord_inj; by rewrite Ee).
    intros [= <-] _. split; [by destruct s|]. reflexivity.
Qed.

Lemma unquote_quoteFrom fuel s rest :
  length s <= fuel -> validFrom fuel s = true ->
  unquote (quoteFrom fuel s ++ dquote :: rest) = Some (s, rest).
Proof.
  revert s; induction fuel as [|fuel IH]; intros [|c s] Hl Hv; try done; [cbn in Hl; lia|].
  cbn [quoteFrom validFrom] in *. cbn [length] in Hl.
  destruct (isASCII c) eqn:Hc.
  { rewrite <- app_assoc, unquote_escByte, IH by (done || lia). done. }
  destruct (runeLen (c :: s)) as [|n] eqn:En; [done|].
  destruct (runeLen_high c s _ Hc En) as [Hn Hh]; [done|].
  assert (length (drop (S n) (c :: s)) <= fuel) as Hd by (cbn; rewrite length_drop; lia).
  rewrite <- app_assoc. destruct (lineSeparator (c :: s)) as [d|] eqn:El.
  - destruct (unquote_separator c s d (quoteFrom fuel (drop (S n) (c :: s)) ++ dquote :: rest) El)
      as [E3 ->]; [by rewrite En|].
    rewrite En in E3. injection E3 as ->. rewrite IH by done. cbn [fmap option_fmap option_map].
    by rewrite take_drop.
  - rewrite unquote_highs, IH by done. cbn [fmap option_fmap option_map]. by rewrite take_drop.
Qed.

Lemma toValidFrom_valid fuel s :
  length s <= fuel -> validFrom fuel s = true -> toValidFrom fuel s = s.
Proof.
  revert s; induction fuel as [|fuel IH]; intros [|c s] Hl Hv; try done; [cbn in Hl; lia|].
  cbn [toValidFrom validFrom] in *. cbn [length] in Hl. destruct (isASCII c) eqn:Hc.
  { by rewrite IH by (done || lia). }
  destruct (runeLen (c :: s)) as [|n] eqn:En; [done|].
  destruct (runeLen_high c s _ Hc En) as [Hn _]; [done|].
  rewrite IH; [by rewrite take_drop|cbn; rewrite length_drop; lia|done].
Qed.

Lemma toValidUTF8_valid s : validUTF8 s = true -> toValidUTF8 s = s.
Proof. by apply toValidFrom_valid. Qed.

(** The text of a valid string, followed by anything, determines both. *)
Lemma quoteJSON_inj s1 s2 r1 r2 :
  validUTF8 s1 = true -> validUTF8 s2 = true ->
  quoteJSON s1 ++ r1 = quoteJSON s2 ++ r2 -> s1 = s2 /\ r1 = r2.
Proof.
  intros H1 H2 E. unfold quoteJSON in E. rewrite <- !app_comm_cons, <- !app_assoc in E.
  injection E as E. apply (f_equal unquote) in E. cbn [app] in E.
  rewrite !unquote_quoteFrom in E by done. by injection E.
Qed.

Definition validValue (v : jvalue) : bool :=
  match v with
  | JNull => true
  | JString s => validUTF8 s
  | JStrings l => forallb validUTF8 l
  end.

Lemma quoteJSON_head s : exists t, quoteJSON s = dquote :: t.
Proof. by eexists. Qed.

(** The text of a list goes on with a comma or closes the bracket. *)
Fixpoint listTail (l : list gostring) : gostring :=
  match l with
  | [] => "]"
  | s :: l => "," ++ quoteJSON (toValidUTF8 s) ++ listTail l
  end.

Lemma join_listTail s l :
  Prelude.join "," (map (fun s => quoteJSON (toValidUTF8 s)) (s :: l)) ++ "]" =
    quoteJSON (toValidUTF8 s) ++ listTail l.
Proof.
  revert s; induction l as [|s' l IH]; intros s; [done|].
  change (Prelude.join "," (map (fun s => quoteJSON (toValidUTF8 s)) (s :: s' :: l)))
    with (quoteJSON (toValidUTF8 s) ++ "," ++
          Prelude.join "," (map (fun s => quoteJSON (toValidUTF8 s)) (s' :: l))).
  rewrite <- app_assoc. f_equal. cbn [listTail]. rewrite <- IH. by rewrite <- app_assoc.
Qed.

Lemma listTail_inj l1 l2 r1 r2 :
  forallb validUTF8 l1 = true -> forallb validUTF8 l2 = true ->
  listTail l1 ++ r1 = listTail l2 ++ r2 -> l1 = l2 /\ r1 = r2.
Proof.
  revert l2; induction l1 as [|s1 l1 IH]; intros [|s2 l2] H1 H2 E; try done.
  - by injection E.
  - cbn [forallb] in H1, H2. apply andb_true_iff in H1 as [Hs1 Hl1], H2 as [Hs2 Hl2].
    cbn [listTail] in E. rewrite <- !app_assoc in E. apply (app_inv_head ",") in E.
    rewrite !toValidUTF8_valid in E by done.
    apply quoteJSON_inj in E as [-> E]; [|done..]. apply IH in E as [-> ->]; [|done..]. done.
Qed.

(** The text of a value, followed by anything, determines both. *)
Lemma encodeValue_inj v1 v2 r1 r2 :
  validValue v1 = true -> validValue v2 = true ->
  encodeValue v1 ++ r1 = encodeValue v2 ++ r2 -> v1 = v2 /\ r1 = r2.
Proof.
  destruct v1 as [|s1|l1], v2 as [|s2|l2]; cbn [validValue encodeValue]; intros H1 H2 E;
    try discriminate E.
  - by injection E.
  - rewrite !toValidUTF8_valid in E by done. by apply quoteJSON_inj in E as [-> ->].
  - rewrite <- !app_assoc in E. apply (app_inv_head "[") in E.
    destruct l1 as [|s1 l1], l2 as [|s2 l2]; try discriminate E.
    + by injection E.
    + exfalso. cbn [map app] in E. destruct l2; discriminate E.
    + exfalso. cbn [map app] in E. destruct l1; discriminate E.
    + rewrite !(app_assoc _ "]"), !join_listTail, <- !app_assoc in E.
      cbn [forallb] in H1, H2. apply andb_true_iff in H1 as [Hs1 Hl1], H2 as [Hs2 Hl2].
      rewrite !toValidUTF8_valid in E by done.
      apply quoteJSON_inj in E as [-> E]; [|done..]. by apply listTail_inj in E as [-> ->].
Qed.

(** Two objects with the same keys in the same order. *)
Lemma encodeObject_inj f1 f2 :
  map fst f1 = map fst f2 ->
  forallb (fun f => validUTF8 f.1 && validValue f.2) f1 = true ->
  forallb (fun f => validUTF8 f.1 && validValue f.2) f2 = true ->
  encodeObject f1 = encodeObject f2 -> f1 = f2.
Proof.
  intros Hk H1 H2 E. unfold encodeObject in E. injection E as E.
  revert f2 Hk H2 E; induction f1 as [|[k v1] f1 IH]; intros [|[k' v2] f2] Hk H2 E; try done.
  injection Hk as <- Hk. cbn [forallb] in H1, H2.
  apply andb_true_iff in H1 as [[Hkv Hv1]%andb_true_iff H1].
  apply andb_true_iff in H2 as [[_ Hv2]%andb_true_iff H2]. cbn [fst snd] in *.
  assert (forall v f tail, Prelude.join "," (map encodeField ((k, v) :: f)) ++ tail =
    quoteJSON k ++ ":" ++ encodeValue v ++
    match f with [] => tail | _ => "," ++ Prelude.join "," (map encodeField f) ++ tail end) as Hj.
  { intros v f tail. destruct f as [|g f]; cbn [map]; unfold encodeField at 1; cbn [fst snd].
    - cbn [Prelude.join]. by rewrite <- !app_assoc.
    - cbn [Prelude.join]. by rewrite <- !app_assoc. }
  rewrite !Hj in E. apply app_inv_head in E. injection E as E.
  apply encodeValue_inj in E as [-> E]; [|done..]. f_equal.
  destruct f1 as [|g1 f1], f2 as [|g2 f2]; try done.
  injection E as E. by apply IH.
Qed.

(** ASCII text is valid. *)
Lemma ascii_valid s : forallb isASCII s = true -> validUTF8 s = true.
Proof.
  unfold validUTF8. induction s as [|c s IH]; [done|]. cbn [forallb length validFrom].
  rewrite andb_true_iff. intros [-> H]. by apply IH.
Qed.
