(* ===== verification/Dynamic.v ===== *)
(** * Dynamic values

    What [encoding/json] decodes into an [any], and the type assertions on it. *)

From S2P Require Import Prelude.
#[local] Open Scope go_scope.

(** A Go [any], of the types that occur.  A float is whole here, or the text of a
    number with a fraction; the keys of a map are distinct. *)
#[warnings="-register-all"]
Inductive goval :=
  | VNil
  | VBool (b : bool)
  | VInt (z : Z)
  | VFloat (z : Z)
  | VFraction (text : gostring)
  | VString (s : gostring)
  | VList (l : list goval)
  | VMap (m : list (gostring * goval)).

(** The value of a key. *)
Definition keyed {A} (k : gostring) (m : list (gostring * A)) : option A :=
  snd <$> List.find (fun e => bool_decide (e.1 = k)) m.

Lemma keyed_elem {A} k (m : list (gostring * A)) v : keyed k m = Some v -> (k, v) ∈ m.
Proof.
  unfold keyed. intros H. apply fmap_Some in H as ([k' v'] & H & ->).
  apply List.find_some in H as [Hin Hk]. apply bool_decide_eq_true in Hk. cbn in Hk. subst k'.
  by apply list_elem_of_In.
Qed.

Definition stringOf (v : goval) : option gostring :=
  match v with VString s => Some s | _ => None end.

Definition mapOf (v : goval) : option (list (gostring * goval)) :=
  match v with VMap m => Some m | _ => None end.

Definition listOf (v : goval) : option (list goval) :=
  match v with VList l => Some l | _ => None end.

(** How deep a value is nested. *)
Fixpoint depth (v : goval) : nat :=
  match v with
  | VList l => S (list_max (map depth l))
  | VMap m => S (list_max (map (fun e => depth (snd e)) m))
  | _ => 0
  end.

Lemma depth_item v l : v ∈ l -> depth v < depth (VList l).
Proof.
  intros H. apply list_elem_of_In in H. cbn. apply PeanoNat.Nat.lt_succ_r.
  exact (proj1 (Forall_forall _ _) (proj1 (list_max_le _ _) (PeanoNat.Nat.le_refl _)) (depth v)
    (proj2 (list_elem_of_In _ _) (in_map depth l v H))).
Qed.

Lemma depth_entry k v m : (k, v) ∈ m -> depth v < depth (VMap m).
Proof.
  intros H. apply list_elem_of_In in H. cbn. apply PeanoNat.Nat.lt_succ_r.
  exact (proj1 (Forall_forall _ _) (proj1 (list_max_le _ _) (PeanoNat.Nat.le_refl _)) (depth v)
    (proj2 (list_elem_of_In _ _) (in_map (fun e => depth e.2) m (k, v) H))).
Qed.
