(* ===== verification/Pool.v ===== *)
(** * The connections of the graph client

    [internal/graph]: the pool with its hooks ([client.go], [pool.go]), a query
    with its measurements ([cypher_wrapper.go]) and the plan it may be explained
    by ([explain_parser.go]).  A request leases connections, sends statements on
    them and gives them back; pgxpool and PostgreSQL are the world in which the
    calls take effect. *)

From S2P Require Import Prelude Effects Dynamic Decimal Cypher.
From Stdlib Require Import Lia.
#[local] Open Scope go_scope.

(** ** Errors ([cypher_wrapper.go]) *)

(** A chain of errors, by the types that [reflect] names. *)
Inductive goerr :=
  | PgError (code : gostring)
  | LeafError (typ : gostring)
  | WrapError (typ : gostring) (inner : goerr).

Fixpoint sqlState (e : goerr) : option gostring :=
  match e with
  | PgError code => Some code
  | LeafError _ => None
  | WrapError _ e => sqlState e
  end.

Fixpoint bottomType (e : goerr) : gostring :=
  match e with
  | PgError _ => "*pgconn.PgError"
  | LeafError t => t
  | WrapError _ e => bottomType e
  end.

Definition errorTypeName (e : option goerr) : gostring :=
  match e with
  | None => "none"
  | Some e => match sqlState e with Some code => "pg:" ++ code | None => bottomType e end
  end.

(** The error of [ValidateTraversalDepth]. *)
Definition traversalError : goerr := WrapError "*fmt.wrapError" (LeafError "*errors.errorString").

(** ** Statements and the session they act on *)

Inductive stmt :=
  | SLoadAge
  | SSearchPath
  | SDiscardAll
  | SSetTenant (tenantID : gostring)          (* set_config(..., is_local) *)
  | SBegin
  | SCommit
  | SRollback
  | SText (sql : gostring) (args : list gostring).

Definition stmtR (_ : stmt) : Type := result goerr gostring.

Inductive txnState := NoTxn | InTxn (tenant : option gostring) | AbortedTxn.

Record conn := mkConn {
  c_alive : bool;
  c_age : bool;                    (* the library of AGE is loaded *)
  c_path : bool;                   (* ag_catalog is on the search path *)
  c_tenant : option gostring;      (* app.current_tenant of the session *)
  c_txn : txnState
}.

Definition freshConn : conn := mkConn true false false None NoTxn.

Definition withTxn (t : txnState) (c : conn) : conn :=
  mkConn (c_alive c) (c_age c) (c_path c) (c_tenant c) t.

Definition killed (c : conn) : conn := mkConn false (c_age c) (c_path c) (c_tenant c) (c_txn c).

(** What the server does, unless it refuses. *)
Definition effect (s : stmt) (c : conn) : option conn :=
  match s, c_txn c with
  | SCommit, AbortedTxn => None
  | SRollback, _ | SCommit, _ => Some (withTxn NoTxn c)
  | SDiscardAll, NoTxn => Some (mkConn (c_alive c) (c_age c) false None NoTxn)
  | SDiscardAll, _ => None
  | _, AbortedTxn => None
  | SLoadAge, _ => Some (mkConn (c_alive c) true (c_path c) (c_tenant c) (c_txn c))
  | SSearchPath, _ => Some (mkConn (c_alive c) (c_age c) true (c_tenant c) (c_txn c))
  | SSetTenant t, InTxn _ => Some (withTxn (InTxn (Some t)) c)
  | SBegin, NoTxn => Some (withTxn (InTxn None) c)
  | _, _ => Some c
  end.

Definition afterError (s : stmt) (c : conn) : conn :=
  match s, c_txn c with
  | SCommit, _ | SRollback, _ => withTxn NoTxn c
  | _, InTxn _ => withTxn AbortedTxn c
  | _, _ => c
  end.

(** Any statement may fail, or lose the connection. *)
Definition stmtStep (s : stmt) (c : conn) (r : result goerr gostring) (c' : conn) : Prop :=
  match r with
  | Ok _ => c_alive c = true /\ effect s c = Some c'
  | Err _ => c' = afterError s c \/ c' = killed c
  end.

(** ** The hooks *)

Abbreviation connProg := (prog stmtR).

Fixpoint ranOn {A} (p : connProg A) (c : conn) (a : A) (c' : conn) : Prop :=
  match p with
  | Ret x => a = x /\ c' = c
  | Do s k => exists r c1, stmtStep s c r c1 /\ ranOn (k r) c1 a c'
  end.

(** [cfg.AfterConnect] of [NewGraphClient]: whether it returned nil. *)
Definition AfterConnect : connProg bool :=
  let! r := call (R := stmtR) SLoadAge in
  match r with
  | Err _ => Ret false
  | Ok _ => let! r := call (R := stmtR) SSearchPath in Ret (is_ok r)
  end.

(** [cfg.BeforeAcquire] of [NewGraphClient]. *)
Definition BeforeAcquire : connProg bool :=
  let! r := call (R := stmtR) SDiscardAll in
  match r with
  | Err _ => Ret false
  | Ok _ => let! r := call (R := stmtR) SSearchPath in Ret (is_ok r)
  end.

(** The hook of the application's pool ([pool.go]). *)
Definition WithBeforeAcquireDiscardAll : connProg bool :=
  let! r := call (R := stmtR) SDiscardAll in Ret (is_ok r).

(** ** Plans ([explain_parser.go]) *)

Inductive relationKind := relationOther | relationVertex | relationEdge.

#[export] Instance relationKind_eq_dec : EqDecision relationKind.
Proof. solve_decision. Defined.

Definition classifyRelation (rel : gostring) : relationKind :=
  if bool_decide (rel = "_ag_label_vertex") then relationVertex
  else if bool_decide (rel = "_ag_label_edge") then relationEdge
  else if contains rel "_v_" || hasSuffix rel "_vertex" then relationVertex
  else if contains rel "_e_" || hasSuffix rel "_edge" then relationEdge
  else relationOther.

(** [.(float64)] and the conversion to [int64]; outside its range the result is
    that of amd64. *)
Definition wrap64 (z : Z) : Z := (z + 2 ^ 63) mod 2 ^ 64 - 2 ^ 63.

Definition int64Of (v : option goval) : Z :=
  let z := match v with
           | Some (VFloat z) => z
           | Some (VFraction t) => default 0%Z (Atoi (take (countWhile (fun c => negb (bool_decide (c = "."%char))) t) t))
           | _ => 0%Z
           end in
  if ((- 2 ^ 63 <=? z) && (z <? 2 ^ 63))%Z then z else (- 2 ^ 63)%Z.

Definition subplanKeys : list gostring := ["Plans"; "InitPlan"; "SubPlan"].

(** The two counters after a node's own rows. *)
Definition countNode (node : list (gostring * goval)) (acc : Z * Z) : Z * Z :=
  match keyed "Relation Name" node ≫= stringOf with
  | Some rel =>
      if bool_decide (rel = []) then acc
      else
        let rows := int64Of (keyed "Actual Rows" node) in
        match classifyRelation rel with
        | relationVertex => (wrap64 (acc.1 + rows), acc.2)
        | relationEdge => (acc.1, wrap64 (acc.2 + rows))
        | relationOther => acc
        end
  | None => acc
  end.

Definition childrenAt (node : list (gostring * goval)) (key : gostring) : list goval :=
  default [] (keyed key node ≫= listOf).

(** The fuel is the depth of the plan. *)
Fixpoint walkPlanNode (fuel : nat) (node : list (gostring * goval)) (acc : Z * Z) : Z * Z :=
  match fuel with
  | 0 => acc
  | S fuel =>
      fold_left (fun acc key =>
        fold_left (fun acc c =>
          match c with VMap m => walkPlanNode fuel m acc | _ => acc end)
          (childrenAt node key) acc)
        subplanKeys (countNode node acc)
  end.

Definition explainError : goerr := LeafError "*graph.ExplainPlanError".

Section graph.
(** [json.Unmarshal] into [any]. *)
Context (unmarshal : gostring -> option goval).

(** The decoding into [[]map[string]any]. *)
Definition planRoot (planJSON : gostring) : option (list (list (gostring * goval))) :=
  v ← unmarshal planJSON;
  match v with
  | VNil => Some []
  | VList l => mapM (fun e => match e with VMap m => Some m | VNil => Some [] | _ => None end) l
  | _ => None
  end.

Definition ParseExplain (planJSON : gostring) : result goerr (Z * Z) :=
  if bool_decide (planJSON = []) then Err explainError
  else
    match planRoot planJSON with
    | None | Some [] => Err explainError
    | Some (root :: _) =>
        match keyed "Plan" root ≫= mapOf with
        | None => Err explainError
        | Some planNode => Ok (walkPlanNode (S (depth (VMap planNode))) planNode (0, 0)%Z)
        end
    end.

(** ** Calls of a request *)

(** Metrics and the span. *)
Inductive observation :=
  | SpanStart (name : gostring) (attrs : list (gostring * gostring))
  | SpanError (e : goerr)
  | SpanEnd
  | DurationMs (graph : gostring) (ms : Z)
  | ErrorsTotal (graph errorType : gostring)
  | NodesVisited (graph : gostring) (n : Z)
  | EdgesTraversed (graph : gostring) (n : Z).

(** A request holds at most two connections: [true] names the second. *)
Inductive graphCall :=
  | Lease (second : bool)
  | Send (second : bool) (s : stmt)
  | UserFn
  | GiveBack (second : bool)
  | Clock
  | Draw                                      (* sampler.Float64() < 0.01 *)
  | Emit (o : observation).

Definition graphR (c : graphCall) : Type :=
  match c with
  | Lease _ | UserFn => option goerr
  | Send _ _ => result goerr gostring
  | GiveBack _ | Emit _ => unit
  | Clock => Z
  | Draw => bool
  end.

Abbreviation graphProg := (prog graphR).

(** [pool.Query]: the connection is held until the rows are closed, unless the
    query failed. *)
Definition poolQuery (second : bool) (sql : gostring) (args : list gostring)
  : graphProg (result goerr gostring) :=
  Do (R := graphR) (Lease second) (fun e : option goerr =>
  match e with
  | Some e => Ret (Err e)
  | None =>
      Do (R := graphR) (Send second (SText sql args)) (fun r : result goerr gostring =>
      match r with
      | Ok rows => Ret (Ok rows)
      | Err e => Do (R := graphR) (GiveBack second) (fun _ : unit => Ret (Err e))
      end)
  end).

(** [GraphClient.Cypher]. *)
Definition CypherRows (graph text : gostring) (args : list gostring)
  : graphProg (result goerr gostring) :=
  match Cypher graph text with
  | Err _ => Ret (Err traversalError)
  | Ok q => poolQuery false q args
  end.

Definition explainText (graph text : gostring) : gostring :=
  "EXPLAIN (FORMAT JSON, ANALYZE) " ++ ageCall graph text.

(** [explainAndParse]: [Scan] gives the second connection back. *)
Definition explainAndParse (graph text : gostring) (args : list gostring)
  : graphProg (result goerr (Z * Z)) :=
  let! r := poolQuery true (explainText graph text) args in
  match r with
  | Err e => Ret (Err (WrapError "*fmt.wrapError" e))
  | Ok planJSON => Do (R := graphR) (GiveBack true) (fun _ : unit => Ret (ParseExplain planJSON))
  end.

Definition emit (o : observation) (k : graphProg (result (goerr * gostring) gostring))
  : graphProg (result (goerr * gostring) gostring) :=
  Do (R := graphR) (Emit o) (fun _ : unit => k).

Definition slowQueryThresholdMs : Z := 500.

Definition spanAttributes (graph text : gostring) : list (gostring * gostring) :=
  [("db.system.name" : gostring, "postgresql" : gostring); ("db.namespace" : gostring, graph ++ "|ag_catalog");
   ("db.operation.name" : gostring, "cypher" : gostring); ("db.query.text" : gostring, text)].

(** [force || slow || sampleNow()]. *)
Definition sampled (force : bool) (ms : Z) : graphProg bool :=
  if force then Ret true
  else if (slowQueryThresholdMs <? ms)%Z then Ret true
  else call (R := graphR) Draw.

(** [time.Since(start).Milliseconds()] of instants in nanoseconds.  The error is
    a [CypherExecutionError]: its cause and the statement. *)
Definition ExecuteCypher (force : bool) (graph text : gostring) (args : list gostring)
  : graphProg (result (goerr * gostring) gostring) :=
  emit (SpanStart "cypher.execute" (spanAttributes graph text))
  (Do (R := graphR) Clock (fun start : Z =>
   bind (CypherRows graph text args) (fun r =>
   Do (R := graphR) Clock (fun now : Z =>
   let durationMs := (timeSub now start ÷ 1000000)%Z in
   emit (DurationMs graph durationMs)
   match r with
   | Err e =>
       emit (ErrorsTotal graph (errorTypeName (Some e)))
         (emit (SpanError e) (emit SpanEnd (Ret (Err (e, text)))))
   | Ok rows =>
       bind (sampled force durationMs) (fun again =>
       if again then
         bind (explainAndParse graph text args) (fun p =>
         match p with
         | Ok (nodes, edges) =>
             emit (NodesVisited graph nodes)
               (emit (EdgesTraversed graph edges) (emit SpanEnd (Ret (Ok rows))))
         | Err _ => emit SpanEnd (Ret (Ok rows))
         end)
       else emit SpanEnd (Ret (Ok rows)))
   end)))).

(** ** Requests *)

(** [ExecuteInTenant] on the first connection: each of its calls is one here. *)
Definition answered (e : option goerr) : dbanswer := match e with None => Fine | Some _ => Failed end.
Definition answeredBy (r : result goerr gostring) : dbanswer :=
  match r with Ok _ => Fine | Err _ => Failed end.

Definition onPool (c : dbcall) : graphProg dbanswer :=
  let send s := Do (R := graphR) (Send false s) (fun r : result goerr gostring => Ret (answeredBy r)) in
  match c with
  | Acquire => Do (R := graphR) (Lease false) (fun e : option goerr => Ret (answered e))
  | Begin => send SBegin
  | SetTenantContext t => send (SSetTenant t)
  | Fn => Do (R := graphR) UserFn (fun e : option goerr => Ret (answered e))
  | Commit => send SCommit
  | Rollback => send SRollback
  | ResetSession => send SDiscardAll
  | Release => Do (R := graphR) (GiveBack false) (fun _ : unit => Ret Fine)
  end.

Fixpoint translated {A} (p : prog dbR A) : graphProg A :=
  match p with
  | Ret a => Ret a
  | Do c k => bind (onPool c) (fun r => translated (k r))
  end.

Inductive graphRequest :=
  | Transaction (tenantID : gostring)
  | Query (force : bool) (graph text : gostring) (args : list gostring).

(** A query reads its rows and closes them. *)
Definition serveGraph (q : graphRequest) : graphProg bool :=
  match q with
  | Transaction t =>
      let! e := translated (ExecuteInTenant t) in Ret (match e with None => true | Some _ => false end)
  | Query force graph text args =>
      let! r := ExecuteCypher force graph text args in
      match r with
      | Ok _ => Do (R := graphR) (GiveBack false) (fun _ : unit => Ret true)
      | Err _ => Ret false
      end
  end.
End graph.

(** ** The shared pool *)

Record poolWorld := mkPool {
  p_clock : Z;
  p_idle : list conn;
  p_leased : gmap (nat * bool) conn
}.

Definition withLeased (f : gmap (nat * bool) conn -> gmap (nat * bool) conn) (w : poolWorld) : poolWorld :=
  mkPool (p_clock w) (p_idle w) (f (p_leased w)).

Definition total (w : poolWorld) : nat := length (p_idle w) + size (p_leased w).

(** A connection goes back unless it is closed or in a transaction. *)
Definition returned (c : conn) (idle : list conn) : list conn :=
  match c_alive c, c_txn c with true, NoTxn => idle ++ [c] | _, _ => idle end.

Section world.
Context (maxConns : nat).

(** A connection is handed out when [BeforeAcquire] accepts it, a new one when
    [AfterConnect] did not fail either. *)
Definition performs (i : nat) (call : graphCall) (w : poolWorld) : graphR call -> poolWorld -> Prop :=
  match call with
  | Lease slot => fun r w' =>
      match r with
      | Some _ => w' = w
      | None =>
          p_leased w !! (i, slot) = None /\
          exists c idle, w' = mkPool (p_clock w) idle (<[(i, slot) := c]> (p_leased w)) /\
            ((exists c0, p_idle w ≡ₚ c0 :: idle /\ ranOn BeforeAcquire c0 true c) \/
             (total w < maxConns /\ idle = p_idle w /\
              exists c0, ranOn AfterConnect freshConn true c0 /\ ranOn BeforeAcquire c0 true c))
      end
  | Send slot s => fun r w' =>
      exists c c', p_leased w !! (i, slot) = Some c /\ stmtStep s c r c' /\
        w' = withLeased (<[(i, slot) := c']>) w
  | UserFn => fun _ w' =>
      (* it may change any setting of the session, but not end its transaction *)
      exists c c', p_leased w !! (i, false) = Some c /\
        c_age c' = c_age c /\ (c_txn c' = c_txn c \/ c_txn c' = AbortedTxn) /\
        w' = withLeased (<[(i, false) := c']>) w
  | GiveBack slot => fun _ w' =>
      exists c, p_leased w !! (i, slot) = Some c /\
        w' = mkPool (p_clock w) (returned c (p_idle w)) (delete (i, slot) (p_leased w))
  | Clock => fun r w' => r = p_clock w /\ w' = w
  | Draw => fun _ w' => w' = w
  | Emit _ => fun _ w' => w' = w
  end.
End world.

(** Time passes, and idle connections are closed: by their age, or by a hook that
    refused them. *)
Definition drifts (w w' : poolWorld) : Prop :=
  (p_clock w <= p_clock w')%Z /\ p_idle w' `sublist_of` p_idle w /\ p_leased w' = p_leased w.

Definition emptyPool (now : Z) : poolWorld := mkPool now [] ∅.

(** A run without failures: hooks that succeed, rows that are empty. *)
Fixpoint runOn {A} (p : connProg A) (c : conn) : option (A * conn) :=
  match p with
  | Ret a => Some (a, c)
  | Do s k =>
      if c_alive c then match effect s c with Some c => runOn (k (Ok [])) c | None => None end
      else None
  end.

Definition lease (maxConns : nat) (w : poolWorld) : option (conn * list conn) :=
  match p_idle w with
  | c0 :: idle => match runOn BeforeAcquire c0 with Some (true, c) => Some (c, idle) | _ => None end
  | [] =>
      if bool_decide (total w < maxConns) then
        match runOn AfterConnect freshConn with
        | Some (true, c0) => match runOn BeforeAcquire c0 with Some (true, c) => Some (c, []) | _ => None end
        | _ => None
        end
      else None
  end.

Definition answer (maxConns : nat) (i : nat) (call : graphCall) (w : poolWorld)
  : option (graphR call * poolWorld) :=
  match call return option (graphR call * poolWorld) with
  | Lease slot =>
      match p_leased w !! (i, slot), lease maxConns w with
      | None, Some (c, idle) => Some (None, mkPool (p_clock w) idle (<[(i, slot) := c]> (p_leased w)))
      | _, _ => None
      end
  | Send slot s =>
      match p_leased w !! (i, slot) with
      | Some c => if c_alive c then
                    match effect s c with
                    | Some c' => Some (Ok [], withLeased (<[(i, slot) := c']>) w)
                    | None => None
                    end
                  else None
      | None => None
      end
  | UserFn => match p_leased w !! (i, false) with
              | Some c => Some (None, withLeased (<[(i, false) := c]>) w)
              | None => None
              end
  | GiveBack slot =>
      match p_leased w !! (i, slot) with
      | Some c => Some (tt, mkPool (p_clock w) (returned c (p_idle w)) (delete (i, slot) (p_leased w)))
      | None => None
      end
  | Clock => Some (p_clock w, w)
  | Draw => Some (false, w)
  | Emit _ => Some (tt, w)
  end.

(** Time moves on. *)
Definition moved (t : Z) (w : poolWorld) : poolWorld :=
  mkPool (Z.max t (p_clock w)) (p_idle w) (p_leased w).
