(* ===== verification/PoolSpec.v ===== *)
(** * The graph client's connections: no bleed, no leak, and where it can stall

    Whatever requests interleave and whatever fails, the caller of a tenant
    transaction runs in a session of that tenant and of no other, a plain query
    runs in a session of no tenant, every connection is given back, and the pool
    is never exceeded ([sessions_do_not_bleed]).  A plan is asked for while its
    query still holds a connection: as many measured queries as there are
    connections wait for each other ([measured_queries_stall]).  The counters of
    a plan are the sums over its nodes ([plan_counts]). *)

From stdpp Require Import relations.
From S2P Require Import Prelude Effects Interleave Dynamic Cypher Pool.
From Stdlib Require Import Lia.
#[local] Open Scope go_scope.

(** ** Sessions *)

(** What [BeforeAcquire] leaves when it accepts a connection. *)
Record ready (c : conn) : Prop := {
  ready_age : c_age c = true;
  ready_path : c_path c = true;
  ready_tenant : c_tenant c = None;
  ready_txn : c_txn c = NoTxn
}.

Lemma BeforeAcquire_ready c c' : c_age c = true -> ranOn BeforeAcquire c true c' -> ready c'.
Proof.
  intros Ha (r1&c1&H1&H2). destruct r1 as [x|e]; [|by destruct H2].
  destruct H1 as [_ H1]. destruct H2 as (r2&c2&H2&H3&->). destruct r2 as [y|e]; [|done].
  destruct H2 as [_ H2]. cbn in H1, H2. destruct (c_txn c) eqn:Ht; [|done..].
  injection H1 as <-. cbn in H2. injection H2 as <-. by constructor.
Qed.

(** The hook of the application's pool leaves no tenant and no transaction. *)
Lemma WithBeforeAcquireDiscardAll_clean c c' :
  ranOn WithBeforeAcquireDiscardAll c true c' -> c_tenant c' = None /\ c_txn c' = NoTxn.
Proof.
  intros (r1&c1&H1&H2&->). destruct r1 as [x|e]; [|done]. destruct H1 as [_ H1]. cbn in H1.
  destruct (c_txn c) eqn:Ht; [|done..]. by injection H1 as <-.
Qed.

Lemma effect_age s c c' : c_age c = true -> effect s c = Some c' -> c_age c' = true.
Proof.
  intros Ha. destruct s; cbn; destruct (c_txn c); intros H; try done; injection H as <-; done.
Qed.

Lemma stmtStep_age s c r c' : c_age c = true -> stmtStep s c r c' -> c_age c' = true.
Proof.
  intros Ha. destruct r as [x|e]; cbn.
  - intros [_ H]. by eapply effect_age.
  - intros [->| ->]; [|done]. unfold afterError. by destruct s, (c_txn c).
Qed.

Lemma AfterConnect_age c c' : ranOn AfterConnect c true c' -> c_age c' = true.
Proof.
  intros (r1&c1&H1&H2). destruct r1 as [x|e]; [|by destruct H2]. destruct H1 as [_ H1].
  destruct H2 as (r2&c2&H2&H3&->). destruct r2 as [y|e]; [|done]. destruct H2 as [_ H2].
  eapply effect_age; [|exact H2]. cbn in H1. by destruct (c_txn c); simplify_eq.
Qed.

(** ** What holds of the pool *)

Section pool.
Context (maxConns : nat).

Record sound (w : poolWorld) : Prop := {
  sound_idle : forall c, c ∈ p_idle w -> c_age c = true;
  sound_leased : forall k c, p_leased w !! k = Some c -> c_age c = true;
  sound_total : total w <= maxConns
}.

(** Nobody else touches the connections of a request. *)
Definition others (i : nat) (w w' : poolWorld) : Prop :=
  forall slot, p_leased w' !! (i, slot) = p_leased w !! (i, slot).

#[global] Instance others_preorder i : PreOrder (others i).
Proof. split; [done|]. intros w1 w2 w3 H1 H2 slot. by rewrite H2. Qed.

Lemma pool_drifts w w' : sound w -> drifts w w' -> sound w' /\ forall i, others i w w'.
Proof.
  intros [H1 H2 H3] (_&Hs&He). split; [|intros i slot; by rewrite He]. constructor.
  - intros c Hc. apply H1. by eapply elem_of_sublist.
  - by rewrite He.
  - apply sublist_length in Hs. unfold total in *. rewrite He. lia.
Qed.

(** ** Rules for the calls of a request

    [holding l p]: what is left of the request is safe where it holds the
    connections [l]. *)

Context (i : nat) (pre : graphCall -> poolWorld -> Prop).

Abbreviation leases := (option conn * option conn)%type.

Definition at_ (slot : bool) (l : leases) : option conn := if slot then l.2 else l.1.
Definition put (slot : bool) (o : option conn) (l : leases) : leases :=
  if slot then (l.1, o) else (o, l.2).

Definition holds (l : leases) (w : poolWorld) : Prop :=
  forall slot, p_leased w !! (i, slot) = at_ slot l.

Definition released (w : poolWorld) : Prop := holds (None, None) w.

Definition holding {A} (l : leases) (p : prog graphR A) : Prop :=
  forall w, holds l w ->
    safe (performs maxConns) sound others i pre (fun w (_ : A) => released w) p w.

Lemma holds_stable l w w' : others i w w' -> holds l w -> holds l w'.
Proof. intros Ho Hl slot. by rewrite Ho. Qed.

Lemma holds_put l slot o w m :
  holds l w -> m !! (i, slot) = o -> (forall k, k <> (i, slot) -> m !! k = p_leased w !! k) ->
  forall clock idle, holds (put slot o l) (mkPool clock idle m).
Proof.
  intros Hl Ho Hm clock idle s. cbn. destruct (decide (s = slot)) as [->|Hn].
  - rewrite Ho. by destruct slot.
  - rewrite Hm by congruence. rewrite (Hl s). by destruct s, slot.
Qed.

Lemma others_put slot w m clock idle j :
  j <> i -> (forall k, k <> (i, slot) -> m !! k = p_leased w !! k) ->
  others j w (mkPool clock idle m).
Proof. intros Hj Hm s. cbn. apply Hm. congruence. Qed.

Lemma holding_ret {A} (a : A) : holding (None, None) (Ret a).
Proof. intros w Hw w' Ho _. by eapply holds_stable. Qed.

(** A call that only looks. *)
Lemma holding_quiet {A} l c (k : graphR c -> prog graphR A) :
  (forall w r w', performs maxConns i c w r w' -> w' = w) ->
  (forall w, sound w -> holds l w -> pre c w) ->
  (forall r, holding l (k r)) -> holding l (Do c k).
Proof.
  intros Hq Hp Hk w Hw w' Ho Hs. apply (holds_stable _ _ _ Ho) in Hw. split; [by apply Hp|].
  intros r w'' H. apply Hq in H as ->. split_and!; [done|reflexivity|]. by apply Hk.
Qed.

Lemma holding_lease {A} l slot (k : option goerr -> prog graphR A) :
  (forall w, pre (Lease slot) w) -> at_ slot l = None ->
  (forall e, holding l (k (Some e))) ->
  (forall c, ready c -> holding (put slot (Some c) l) (k None)) ->
  holding l (Do (R := graphR) (Lease slot) k).
Proof.
  intros Hp Hl He Hc w Hw w' Ho Hs. apply (holds_stable _ _ _ Ho) in Hw. split; [done|].
  intros [e|] w''; cbn [performs].
  - intros ->. split_and!; [done|reflexivity|]. by apply He.
  - intros (Hn&c&idle&->&Hcase). destruct Hs as [H1 H2 H3].
    assert (ready c /\ (forall c0, c0 ∈ idle -> c0 ∈ p_idle w') /\
            length idle + size (p_leased w') < maxConns) as (Hr&Hi&Ht).
    { destruct Hcase as [(c0&Hidle&Hb)|(Ht&->&c0&Ha&Hb)].
      - split_and!.
        + eapply BeforeAcquire_ready; [|exact Hb]. apply H1. rewrite Hidle. by left.
        + intros c1 Hc1. rewrite Hidle. by right.
        + unfold total in H3. rewrite Hidle in H3. cbn in H3. lia.
      - split_and!; [|done|done]. eapply BeforeAcquire_ready; [|exact Hb].
        by eapply AfterConnect_age. }
    assert (forall k, k <> (i, slot) -> <[(i, slot):=c]> (p_leased w') !! k = p_leased w' !! k) as Hne.
    { intros key Hkey. by rewrite lookup_insert_ne. }
    split_and!.
    + constructor; cbn.
      * intros c1 Hc1. by apply H1, Hi.
      * intros key c1 [[<- <-]|[_ H]]%lookup_insert_Some; [by destruct Hr|by eapply H2].
      * unfold total. cbn. rewrite map_size_insert_None by done. lia.
    + intros j Hj. by eapply others_put.
    + apply (Hc c Hr). apply holds_put with w'; [done|apply lookup_insert_eq|done].
Qed.

(** A call that works on a leased connection. *)
Lemma holding_update {A} l slot call (k : graphR call -> prog graphR A) c
    (step : graphR call -> conn -> Prop) :
  at_ slot l = Some c ->
  (forall w r w', performs maxConns i call w r w' -> p_leased w !! (i, slot) = Some c ->
     exists c', step r c' /\ w' = withLeased (<[(i, slot) := c']>) w) ->
  (forall r c', c_age c = true -> step r c' -> c_age c' = true) ->
  (forall w, sound w -> holds l w -> pre call w) ->
  (forall r c', step r c' -> holding (put slot (Some c') l) (k r)) ->
  holding l (Do call k).
Proof.
  intros Hl Hstep Hage Hp Hk w Hw w' Ho Hs. apply (holds_stable _ _ _ Ho) in Hw. split; [by apply Hp|].
  intros r w'' H. pose proof (Hw slot) as Hi. rewrite Hl in Hi.
  destruct (Hstep _ _ _ H Hi) as (c'&Hc&->). destruct Hs as [H1 H2 H3].
  assert (forall k, k <> (i, slot) -> <[(i, slot):=c']> (p_leased w') !! k = p_leased w' !! k) as Hne.
  { intros key Hkey. by rewrite lookup_insert_ne. }
  split_and!.
  - constructor; cbn.
    + done.
    + intros key c1 [[<- <-]|[_ Hk1]]%lookup_insert_Some; [|by eapply H2].
      eapply Hage; [by eapply H2|done].
    + unfold total in *. cbn. rewrite map_size_insert_Some by eauto. lia.
  - intros j Hj. by eapply others_put.
  - apply (Hk _ _ Hc). apply holds_put with w'; [done|apply lookup_insert_eq|done].
Qed.

Lemma holding_send {A} l slot s c (k : result goerr gostring -> prog graphR A) :
  at_ slot l = Some c ->
  (forall w, sound w -> holds l w -> pre (Send slot s) w) ->
  (forall r c', stmtStep s c r c' -> holding (put slot (Some c') l) (k r)) ->
  holding l (Do (R := graphR) (Send slot s) k).
Proof.
  intros Hl Hp Hk. apply (holding_update _ slot (Send slot s) k c (fun (r : result goerr gostring) c' => stmtStep s c r c')); try done.
  - intros w r w' (c0&c'&H0&Hs&->) H1. rewrite H0 in H1. injection H1 as ->. by exists c'.
  - intros r c'. apply stmtStep_age.
Qed.

Lemma holding_fn {A} l c (k : option goerr -> prog graphR A) :
  l.1 = Some c ->
  (forall w, sound w -> holds l w -> pre UserFn w) ->
  (forall r c', c_txn c' = c_txn c \/ c_txn c' = AbortedTxn -> holding (put false (Some c') l) (k r)) ->
  holding l (Do (R := graphR) UserFn k).
Proof.
  intros Hl Hp Hk.
  apply (holding_update _ false UserFn _ c
    (fun _ c' => c_age c' = c_age c /\ (c_txn c' = c_txn c \/ c_txn c' = AbortedTxn))); try done.
  - intros w r w' (c0&c'&H0&Ha&Ht&->) H1. rewrite H0 in H1. injection H1 as ->. by exists c'.
  - intros r c' Ha [-> _]. done.
  - intros r c' [_ Ht]. by apply Hk.
Qed.

Lemma holding_giveback {A} l slot c (k : unit -> prog graphR A) :
  at_ slot l = Some c ->
  (forall w, pre (GiveBack slot) w) ->
  holding (put slot None l) (k tt) ->
  holding l (Do (R := graphR) (GiveBack slot) k).
Proof.
  intros Hl Hp Hk w Hw w' Ho Hs. apply (holds_stable _ _ _ Ho) in Hw. split; [done|].
  intros [] w'' (c0&H0&->). pose proof (Hw slot) as Hi. rewrite Hl, H0 in Hi. injection Hi as ->.
  destruct Hs as [H1 H2 H3].
  assert (forall k, k <> (i, slot) -> delete (i, slot) (p_leased w') !! k = p_leased w' !! k) as Hne.
  { intros key Hkey. by rewrite lookup_delete_ne. }
  assert (c_age c = true) as Hage by by eapply H2.
  split_and!.
  - constructor; cbn.
    + intros c1. unfold returned. destruct (c_alive c), (c_txn c); try apply H1.
      intros [Hc1| ->%list_elem_of_singleton]%elem_of_app; [by apply H1|done].
    + intros key c1 [_ Hk1]%lookup_delete_Some. by eapply H2.
    + unfold total in *. cbn.
      assert (size (delete (i, slot) (p_leased w')) = pred (size (p_leased w'))) as Hd
        by (apply map_size_delete_Some; by eexists).
      assert (size (p_leased w') <> 0) as Hnz.
      { intros Hz%map_size_empty_iff. by rewrite Hz, lookup_empty in H0. }
      assert (length (returned c (p_idle w')) <= S (length (p_idle w'))) as Hlen.
      { unfold returned. destruct (c_alive c), (c_txn c); rewrite ?length_app; cbn; lia. }
      lia.
  - intros j Hj. by eapply others_put.
  - apply Hk. apply holds_put with w'; [done|apply lookup_delete_eq|done].
Qed.
End pool.

(** ** Requests *)

(** Where the calls on a leased connection are made. *)
Definition session (i : nat) (q : graphRequest) (call : graphCall) (w : poolWorld) : Prop :=
  match q, call with
  | Transaction t, UserFn =>
      exists c, p_leased w !! (i, false) = Some c /\ c_age c = true /\ c_path c = true /\
        c_txn c = InTxn (Some t)
  | Transaction _, Send _ (SText _ _) => False
  | Query _ _ _ _, UserFn => False
  | Query _ _ _ _, Send slot (SText _ _) => exists c, p_leased w !! (i, slot) = Some c /\ ready c
  | _, _ => True
  end.

Section requests.
Context (maxConns : nat) (unmarshal : gostring -> option goval) (i : nat).

Abbreviation held q l p := (holding maxConns i (session i q) l p).

(** Takes one step of the tree. *)
Ltac held_step :=
  cbn [translated bind onPool answered answeredBy put at_ fst snd call emit];
  first
    [ apply holding_ret
    | apply holding_lease; [done|done|intros ?|intros ? ?]
    | eapply holding_giveback; [reflexivity|done|]
    | eapply holding_send; [reflexivity|intros ? ? ?|intros [?|?] ? ?]
    | eapply holding_fn; [reflexivity|intros ? ? ?|intros [?|] ? ?]
    | eapply holding_quiet; [by intros ? ? ? Hq; cbn [performs] in Hq; destruct_and?|done|intros ?] ].

Lemma held_transaction t : held (Transaction t) (None, None) (serveGraph unmarshal (Transaction t)).
Proof.
  cbn [serveGraph]. unfold ExecuteInTenant. repeat (held_step; try done).
  match goal with Hh : holds _ (Some ?c3, _) _, Hb : stmtStep SBegin _ _ _, Ht : stmtStep (SSetTenant _) _ _ _,
    Hr : ready ?c |- _ => rename Hh into H5, Hb into H1, Ht into H3, Hr into H; exists c3 end.
  destruct H as [Ha Hp _ Ht], H1 as [_ H1], H3 as [_ H3]. cbn in H1. rewrite Ht in H1. injection H1 as <-.
  cbn in H3. injection H3 as <-. split_and!; [exact (H5 false)|done..].
Qed.

Lemma held_query force graph text args :
  held (Query force graph text args) (None, None) (serveGraph unmarshal (Query force graph text args)).
Proof.
  cbn [serveGraph]. unfold ExecuteCypher, CypherRows, explainAndParse, sampled, emit.
  destruct (Cypher graph text) as [q|e]; cbn [bind poolQuery];
    repeat (held_step; cbn [bind poolQuery]; try done;
            repeat match goal with
            | |- context [if ?b then _ else _] => destruct b; cbn [bind poolQuery call]
            | |- context [ParseExplain ?u ?r] => destruct (ParseExplain u r) as [[? ?]|?]; cbn [bind]
            end).
  all: match goal with H : ready ?c, Hh : holds _ _ _ |- _ => exists c; split; [|exact H] end.
  all: match goal with
       | Hh : holds _ _ _ |- context [(_, true)] => exact (Hh true)
       | Hh : holds _ _ _ |- _ => exact (Hh false)
       end.
Qed.

Lemma held_request q : held q (None, None) (serveGraph unmarshal q).
Proof. destruct q; [apply held_transaction|apply held_query]. Qed.
End requests.

Lemma emptyPool_sound maxConns now : sound maxConns (emptyPool now).
Proof. constructor; cbn; [by intros c Hc%not_elem_of_nil|by intros k c H; rewrite lookup_empty in H|]. unfold total. cbn. rewrite map_size_empty. lia. Qed.

Lemma released_at slot : None = at_ slot (None, None).
Proof. by destruct slot. Qed.

Section reached.
Context (maxConns : nat) (unmarshal : gostring -> option goval) (now : Z).
Context (w : poolWorld) (ps : list (process graphR poolWorld graphRequest bool)).

(** A state that requests reach from a pool without connections. *)
Definition poolReaches : Prop :=
  rtc (istep (performs maxConns) drifts (serveGraph unmarshal)) (emptyPool now, []) (w, ps).

(** (C8) The sessions of the graph client do not bleed: with requests interleaved at
    will and any statement failing, the function of a tenant transaction runs in
    a session with AGE loaded and the catalog on its path, inside a transaction
    of its own tenant; a plain query and its plan run in a session without tenant
    and without transaction; a request that has answered holds no connection; and
    there are never more connections than the pool allows. *)
Theorem sessions_do_not_bleed :
  poolReaches ->
  total w <= maxConns /\
  forall i q s p, ps !! i = Some (mkProcess q s p) ->
    match p with
    | Do e _ => session i q e w
    | Ret _ => forall slot, p_leased w !! (i, slot) = None
    end.
Proof.
  intros reaches.
  destruct (reachable_safe (performs maxConns) drifts (serveGraph unmarshal) (sound maxConns) others
    (fun i q _ => session i q) (fun i _ _ w _ => released i w) released (pool_drifts maxConns)
    (fun i q w _ Hr => held_request maxConns unmarshal i q w Hr)
    (fun i w w' Ho Hr => holds_stable i (None, None) w w' Ho Hr) (emptyPool now) (w, ps)
    (emptyPool_sound maxConns now) (fun i slot => eq_trans (lookup_empty _) (released_at slot)) reaches)
    as (Hw&_&Hp). cbn [fst snd] in *.
  split; [apply Hw|]. intros i q s [b|e k] Hi.
  - intros slot. rewrite (Hp i q s _ Hi w ltac:(reflexivity) Hw slot). by destruct slot.
  - by apply (Hp i q s _ Hi w ltac:(reflexivity) Hw).
Qed.
End reached.

(** ** A concrete pool *)

Lemma pool_moved_drifts t w : drifts w (moved t w).
Proof. split_and!; [cbn; lia|reflexivity|done]. Qed.

Lemma runOn_ranOn {A} (p : connProg A) c a c' : runOn p c = Some (a, c') -> ranOn p c a c'.
Proof.
  revert c; induction p as [x|s k IH]; intros c; cbn [runOn ranOn]; [by intros [= <- <-]|].
  destruct (c_alive c) eqn:Ha; [|done]. destruct (effect s c) as [c1|] eqn:He; [|done].
  intros H. exists (Ok []), c1. split; [by split|by apply IH].
Qed.

Lemma lease_leased n w c idle :
  lease n w = Some (c, idle) ->
  (exists c0, p_idle w ≡ₚ c0 :: idle /\ ranOn BeforeAcquire c0 true c) \/
  (total w < n /\ idle = p_idle w /\
   exists c0, ranOn AfterConnect freshConn true c0 /\ ranOn BeforeAcquire c0 true c).
Proof.
  unfold lease. destruct (p_idle w) as [|c0 l].
  - case_bool_decide; [|done].
    destruct (runOn AfterConnect freshConn) as [[[] c0]|] eqn:E1; [|done..].
    destruct (runOn BeforeAcquire c0) as [[[] c1]|] eqn:E2; [|done..]. intros [= <- <-]. right.
    split_and!; [done|done|]. exists c0. split; by apply runOn_ranOn.
  - destruct (runOn BeforeAcquire c0) as [[[] c1]|] eqn:E2; [|done..]. intros [= <- <-]. left.
    exists c0. split; [done|by apply runOn_ranOn].
Qed.

Lemma pool_answer_performs n i c w r w' : answer n i c w = Some (r, w') -> performs n i c w r w'.
Proof.
  destruct c as [slot|slot s| |slot| | |]; cbn [answer performs]; try (by intros [= <- <-]).
  - destruct (p_leased w !! (i, slot)) eqn:Hl; [done|].
    destruct (lease n w) as [[c idle]|] eqn:He; [|done]. intros [= <- <-]. split; [done|].
    exists c, idle. split; [done|by apply lease_leased].
  - destruct (p_leased w !! (i, slot)) as [c|] eqn:Hl; [|done]. destruct (c_alive c) eqn:Ha; [|done].
    destruct (effect s c) as [c'|] eqn:He; [|done]. intros [= <- <-]. by exists c, c'.
  - destruct (p_leased w !! (i, false)) as [c|] eqn:Hl; [|done]. intros [= <- <-]. exists c, c. auto.
  - destruct (p_leased w !! (i, slot)) as [c|] eqn:Hl; [|done]. intros [= <- <-]. by exists c.
Qed.

(** One connection; [a]'s transaction ends, [b]'s begins. *)
Module PoolDemo.
Definition acts : list (action graphRequest Z) :=
  Arrive (Transaction "a") :: replicate 7 (Advance 0) ++ Arrive (Transaction "b") :: replicate 3 (Advance 1).
Definition unmarshal : gostring -> option goval := fun _ => None.
Definition reached := fold_left (act (serveGraph unmarshal) moved (answer 1)) acts (emptyPool 0, []).
End PoolDemo.

Lemma PoolDemo_reaches :
  poolReaches 1 PoolDemo.unmarshal 0 PoolDemo.reached.1 PoolDemo.reached.2.
Proof.
  unfold poolReaches. rewrite <- surjective_pairing.
  apply actions_run; [apply pool_moved_drifts|apply pool_answer_performs].
Qed.

Lemma sessions_do_not_bleed_witness :
  total PoolDemo.reached.1 <= 1 /\
  exists c, p_leased PoolDemo.reached.1 !! (1%nat, false) = Some c /\ c_txn c = InTxn (Some "b").
Proof.
  destruct (sessions_do_not_bleed 1 PoolDemo.unmarshal 0 _ _ PoolDemo_reaches) as [Ht Hs].
  split; [exact Ht|].
  assert (requestOf 1 PoolDemo.reached = Some (Transaction "b") /\
          pendingOf 1 PoolDemo.reached = Some UserFn) as [Hq Hp] by (vm_compute; split; reflexivity).
  destruct (pendingOf_inv _ _ _ _ Hq Hp) as (s&k&Hi).
  destruct (Hs 1 _ _ _ Hi) as (c&H1&_&_&H2). by exists c.
Defined.

(** ** Where the pool stalls *)

Section stall.
Context (maxConns : nat) (unmarshal : gostring -> option goval).

Definition measured : graphRequest := Query true "neksur" "RETURN 1" [].

(** A request that holds a connection and asks for the second. *)
Definition asksForSecond (p : process graphR poolWorld graphRequest bool) : Prop :=
  p_request p = measured /\ exists k, p_rest p = Do (R := graphR) (Lease true) k.

Definition readyConn : conn := mkConn true true true None NoTxn.

Lemma opened_ready :
  exists c0, ranOn AfterConnect freshConn true c0 /\ ranOn BeforeAcquire c0 true readyConn.
Proof.
  exists (mkConn true true true None NoTxn). split.
  - exists (Ok []), (mkConn true true false None NoTxn). split; [by split|].
    exists (Ok []), (mkConn true true true None NoTxn). by split; [split|].
  - exists (Ok []), (mkConn true true false None NoTxn). split; [by split|].
    exists (Ok []), (mkConn true true true None NoTxn). by split; [split|].
Qed.

(** One more measured query arrives, and takes a connection. *)
Lemma stall_one clock m ps :
  size m < maxConns -> m !! (length ps, false) = None ->
  exists p, asksForSecond p /\
    rtc (istep (performs maxConns) drifts (serveGraph unmarshal)) (mkPool clock [] m, ps)
      (mkPool clock [] (<[(length ps, false) := readyConn]> m), ps ++ [p]).
Proof.
  intros Hm Hn. eexists (mkProcess measured (mkPool clock [] m) _). split; [split; [done|by eexists]|].
  eapply rtc_l; [apply (istep_arrive _ _ _ _ _ measured)|].
  eapply (last_run _ _ _ _ _ (Emit _) _ tt); [reflexivity|reflexivity|].
  eapply (last_run _ _ _ _ _ Clock _ clock); [reflexivity|by split|].
  eapply (last_run _ _ _ _ _ (Lease false) _ None (mkPool clock [] (<[(length ps, false) := readyConn]> m)));
    [reflexivity|split; [done|]|].
  { eexists readyConn, []. split; [done|]. right. split_and!; [done|done|apply opened_ready]. }
  eapply (last_run _ _ _ _ _ (Send false (SText _ _)) _ (Ok []) (mkPool clock [] (<[(length ps, false) := readyConn]> m)));
    [reflexivity| |].
  { exists readyConn, readyConn. cbn. rewrite lookup_insert_eq. split_and!; [done..|].
    unfold withLeased. cbn. by rewrite insert_insert_eq. }
  eapply (last_run _ _ _ _ _ Clock _ clock); [reflexivity|by split|].
  eapply (last_run _ _ _ _ _ (Emit _) _ tt); [reflexivity|reflexivity|].
  apply rtc_refl.
Qed.
(** [k] measured queries on as many connections. *)
Lemma stall_many now k :
  k <= maxConns ->
  exists m ps, size m = k /\ length ps = k /\ Forall asksForSecond ps /\
    (forall key, is_Some (m !! key) <-> key.1 < k /\ key.2 = false) /\
    poolReaches maxConns unmarshal now (mkPool now [] m) ps.
Proof.
  induction k as [|k IH]; intros Hk.
  - exists ∅, []. split_and!; [done|done|by constructor| |apply rtc_refl].
    intros key. rewrite lookup_empty. split; [by intros []|lia].
  - destruct IH as (m&ps&Hs&Hl&Hf&Hm&Hr); [lia|].
    assert (m !! (length ps, false) = None) as Hn.
    { apply eq_None_not_Some. intros [Hlt _]%Hm. cbn in Hlt. lia. }
    destruct (stall_one now m ps) as (p&Hp&Hstep); [lia|done|].
    exists (<[(length ps, false) := readyConn]> m), (ps ++ [p]). split_and!.
    + rewrite map_size_insert_None by done. lia.
    + rewrite length_app. cbn. lia.
    + apply Forall_app_2; [done|by constructor].
    + intros [i slot]. destruct (decide ((i, slot) = (length ps, false))) as [[= -> ->]|Hne].
      * rewrite lookup_insert_eq. cbn. split; [intros _; split; [lia|done]|by eexists].
      * rewrite lookup_insert_ne by done. rewrite Hm. cbn. split; [intros [H1 H2]; split; [lia|done]|].
        intros [H1 ->]. split; [|done]. assert (i <> length ps) by congruence. lia.
    + unfold poolReaches in *. etransitivity; [exact Hr|exact Hstep].
Qed.
End stall.

(** (C9) The pool can stall: as many measured queries as there are connections reach a
    state in which each of them holds one and asks for a second one, to explain
    the query whose rows it still holds; no such request, and nobody's first one,
    can be served, for any pool size - it only ever answers with an error, when a
    context expires. *)
Theorem measured_queries_stall maxConns unmarshal now :
  exists w ps, poolReaches maxConns unmarshal now w ps /\ length ps = maxConns /\
    Forall asksForSecond ps /\
    forall i slot r w', performs maxConns i (Lease slot) w r w' -> r <> None.
Proof.
  destruct (stall_many maxConns unmarshal now maxConns) as (m&ps&Hs&Hl&Hf&Hm&Hr); [lia|].
  exists (mkPool now [] m), ps. split_and!; [done..|].
  intros i slot [e|] w' H; [done|]. cbn in H. destruct H as (_&c&idle&_&[(c0&Hp&_)|(Ht&_)]).
  - by apply Permutation_nil_cons in Hp.
  - unfold total in Ht. cbn in Ht. lia.
Qed.

(** ** The counters of a plan *)

(** The plan nodes below a node, each by its path. *)
Inductive subplan : list (gostring * goval) -> list (gostring * nat) -> list (gostring * goval) -> Prop :=
  | subplan_here m : subplan m [] m
  | subplan_below m key i c p n :
      key ∈ subplanKeys -> childrenAt m key !! i = Some (VMap c) -> subplan c p n ->
      subplan m ((key, i) :: p) n.

(** The rows of a node that count for a kind of relation. *)
Definition rowsOf (k : relationKind) (node : list (gostring * goval)) : Z :=
  match keyed "Relation Name" node ≫= stringOf with
  | Some rel =>
      if bool_decide (rel <> []) && bool_decide (classifyRelation rel = k)
      then int64Of (keyed "Actual Rows" node) else 0
  | None => 0
  end.

Definition sumZ (l : list Z) : Z := fold_right Z.add 0%Z l.

Lemma sumZ_app l l' : sumZ (l ++ l') = (sumZ l + sumZ l')%Z.
Proof. unfold sumZ. induction l as [|x l IH]; cbn; [done|]. rewrite IH. lia. Qed.

Lemma wrap64_add x y : wrap64 (wrap64 x + y) = wrap64 (x + y).
Proof.
  unfold wrap64. f_equal.
  replace ((x + 2 ^ 63) mod 2 ^ 64 - 2 ^ 63 + y + 2 ^ 63)%Z with ((x + 2 ^ 63) mod 2 ^ 64 + y)%Z by lia.
  rewrite Z.add_mod_idemp_l by lia. f_equal. lia.
Qed.

Lemma countNode_rows node x y :
  countNode node (wrap64 x, wrap64 y) =
    (wrap64 (x + rowsOf relationVertex node), wrap64 (y + rowsOf relationEdge node))%Z.
Proof.
  unfold countNode, rowsOf. destruct (_ ≫= stringOf) as [rel|]; [|by rewrite !Z.add_0_r].
  case_bool_decide as Hr; [by rewrite bool_decide_eq_false_2, !Z.add_0_r by tauto|].
  rewrite (bool_decide_eq_true_2 (rel <> [])) by done.
  destruct (classifyRelation rel); cbn; by rewrite ?wrap64_add, ?Z.add_0_r.
Qed.

Lemma child_depth m key i c fuel :
  childrenAt m key !! i = Some (VMap c) -> depth (VMap m) < S fuel -> depth (VMap c) < fuel.
Proof.
  unfold childrenAt. intros Hi Hd. destruct (keyed key m) as [v|] eqn:Hk; [|done].
  destruct v; cbn [mbind option_bind listOf default from_option] in Hi; try done. apply keyed_elem, depth_entry in Hk.
  apply list_elem_of_lookup_2, depth_item in Hi. unfold id in Hi. lia.
Qed.

Section plans.
Abbreviation node := (list (gostring * goval)).

(** All of them, in the order of the walk. *)
Fixpoint childPlans (f : node -> list (list (gostring * nat) * node)) (key : gostring) (i : nat)
    (l : list goval) : list (list (gostring * nat) * node) :=
  match l with
  | [] => []
  | VMap c :: l => map (fun e => ((key, i) :: e.1, e.2)) (f c) ++ childPlans f key (S i) l
  | _ :: l => childPlans f key (S i) l
  end.

Fixpoint plansOf (fuel : nat) (m : node) : list (list (gostring * nat) * node) :=
  match fuel with
  | 0 => []
  | S fuel =>
      ([], m) :: flat_map (fun key => childPlans (plansOf fuel) key 0 (childrenAt m key)) subplanKeys
  end.

Definition total_ (k : relationKind) (l : list (list (gostring * nat) * node)) : Z :=
  sumZ (map (fun e => rowsOf k e.2) l).

Lemma total_app k l l' : total_ k (l ++ l') = (total_ k l + total_ k l')%Z.
Proof. unfold total_. by rewrite map_app, sumZ_app. Qed.

Lemma total_below k key i l : total_ k (map (fun e => ((key, i) :: e.1, e.2)) l) = total_ k l.
Proof. unfold total_. by rewrite map_map. Qed.

Definition sums (l : list (list (gostring * nat) * node)) (x y : Z) : Z * Z :=
  (wrap64 (x + total_ relationVertex l), wrap64 (y + total_ relationEdge l))%Z.

Lemma sums_nil x y : sums [] x y = (wrap64 x, wrap64 y).
Proof. unfold sums, total_. cbn. by rewrite !Z.add_0_r. Qed.

Lemma sums_app l l' x y :
  sums (l ++ l') x y = sums l' (x + total_ relationVertex l)%Z (y + total_ relationEdge l)%Z.
Proof. unfold sums. by rewrite !total_app, !Z.add_assoc. Qed.

Lemma walk_sums fuel m x y : walkPlanNode fuel m (wrap64 x, wrap64 y) = sums (plansOf fuel m) x y.
Proof.
  revert m x y; induction fuel as [|fuel IH]; intros m x y; cbn [walkPlanNode plansOf];
    [by rewrite sums_nil|].
  rewrite countNode_rows. change (([], m) :: ?l) with ([([], m)] ++ l). rewrite sums_app.
  unfold total_ at 1 2. cbn [map fst snd sumZ fold_right]. rewrite !Z.add_0_r.
  generalize (x + rowsOf relationVertex m)%Z (y + rowsOf relationEdge m)%Z. clear x y.
  induction subplanKeys as [|key keys IHk]; intros x y; cbn [fold_left flat_map];
    [by rewrite sums_nil|].
  rewrite sums_app, <- IHk. f_equal. clear IHk.
  change (?a = _) with (a = sums (childPlans (plansOf fuel) key 0 (childrenAt m key)) x y).
  generalize 0 as i. revert x y.
  induction (childrenAt m key) as [|c l IHl]; intros x y i; cbn [fold_left childPlans];
    [by rewrite sums_nil|].
  destruct c; try apply IHl. rewrite IH. unfold sums at 1. rewrite (IHl _ _ (S i)).
  by rewrite sums_app, !total_below.
Qed.

Lemma childPlans_in f key i l p n :
  (p, n) ∈ childPlans f key i l <->
  exists j c p', p = (key, i + j) :: p' /\ l !! j = Some (VMap c) /\ (p', n) ∈ f c.
Proof.
  revert i; induction l as [|c l IH]; intros i; cbn [childPlans].
  { split; [by intros ?%not_elem_of_nil|]. by intros (j&c&p'&_&H&_). }
  assert ((p, n) ∈ childPlans f key (S i) l <->
    exists j c p', p = (key, i + S j) :: p' /\ l !! j = Some (VMap c) /\ (p', n) ∈ f c) as IH'.
  { rewrite IH. split; intros (j&c'&p'&->&H); exists j, c', p'; (split; [do 2 f_equal; lia|done]). }
  split.
  - intros H.
    assert ((exists m, c = VMap m /\ exists p', p = (key, i) :: p' /\ (p', n) ∈ f m) \/
            (p, n) ∈ childPlans f key (S i) l) as [(m&->&p'&->&Hp)|Hl].
    { destruct c; try by right. apply elem_of_app in H as [H|H]; [|by right]. left.
      apply list_elem_of_fmap in H as ([p' n'] & [= -> ->] & H). eauto. }
    + exists 0, m, p'. split_and!; [by rewrite Nat.add_0_r|done|done].
    + apply IH' in Hl as (j&c'&p'&->&Hj&Hp). by exists (S j), c', p'.
  - intros ([|j]&c'&p'&->&Hj&Hp); cbn in Hj.
    + injection Hj as ->. apply elem_of_app. left. rewrite Nat.add_0_r.
      apply list_elem_of_fmap. by exists (p', n).
    + assert ((((key, i + S j) :: p'), n) ∈ childPlans f key (S i) l) by (apply IH'; by exists j, c', p').
      destruct c; try done. apply elem_of_app. by right.
Qed.

Lemma plansOf_in fuel m p n : depth (VMap m) < fuel -> (p, n) ∈ plansOf fuel m <-> subplan m p n.
Proof.
  revert m p; induction fuel as [|fuel IH]; intros m p Hf; [lia|]. cbn [plansOf].
  rewrite elem_of_cons, list_elem_of_In, in_flat_map. split.
  - intros [[= -> ->]|(key&Hk&H)]; [by constructor|].
    apply list_elem_of_In, childPlans_in in H as (j&c&p'&->&Hj&Hp). cbn. apply list_elem_of_In in Hk.
    eapply subplan_below; [done|exact Hj|]. apply IH; [|done]. by eapply child_depth.
  - destruct 1 as [m|m key i c p n Hk Hi Hs]; [by left|]. right. exists key.
    split; [by apply list_elem_of_In|]. apply list_elem_of_In, childPlans_in. exists i, c, p.
    split_and!; [done|done|]. apply IH; [|done]. by eapply child_depth.
Qed.
Lemma childPlans_path f key i l p :
  p ∈ (childPlans f key i l).*1 -> exists j p', p = (key, j) :: p' /\ i <= j.
Proof.
  intros ([p0 n]&->&H)%list_elem_of_fmap. apply childPlans_in in H as (j&c&p'&->&_&_).
  exists (i + j), p'. split; [done|lia].
Qed.

Lemma map_fst_below key i (l : list (list (gostring * nat) * node)) :
  (map (fun e => ((key, i) :: e.1, e.2)) l).*1 = cons (key, i) <$> l.*1.
Proof. induction l as [|e l IH]; cbn in *; [done|by rewrite IH]. Qed.

Lemma childPlans_nodup f key i l :
  (forall c, NoDup (f c).*1) -> NoDup (childPlans f key i l).*1.
Proof.
  intros Hf. revert i; induction l as [|c l IH]; intros i; cbn [childPlans]; [by constructor|].
  destruct c; try apply IH. rewrite fmap_app. apply NoDup_app. split_and!; [|  |apply IH].
  - rewrite map_fst_below. by apply (NoDup_fmap_2 (cons (key, i))).
  - intros p Hp (j&p'&->&Hj)%childPlans_path. rewrite map_fst_below in Hp.
    apply list_elem_of_fmap in Hp as (p2&Heq&_). injection Heq as -> _. lia.
Qed.

Lemma plansOf_nodup fuel m : NoDup (plansOf fuel m).*1.
Proof.
  revert m; induction fuel as [|fuel IH]; intros m; cbn [plansOf]; [by constructor|].
  cbn [fmap list_fmap fst]. apply NoDup_cons. split.
  - intros ([p n]&Heq&H)%list_elem_of_fmap. cbn [fst] in Heq. subst p. apply list_elem_of_In, in_flat_map in H as (key&_&H).
    by apply list_elem_of_In, childPlans_in in H as (j&c&p'&?&_).
  - assert (NoDup subplanKeys) as Hk by (apply (bool_decide_unpack _); vm_compute; exact I).
    revert Hk. induction subplanKeys as [|key keys IHk]; [by constructor|].
    intros [Hn Hk]%NoDup_cons. cbn [flat_map]. rewrite fmap_app. apply NoDup_app. split_and!;
      [by apply childPlans_nodup| |by apply IHk].
    intros p (j&p'&->&_)%childPlans_path Hp.
    apply list_elem_of_fmap in Hp as ([p2 n2]&Heq2&Hp). cbn in Heq2. subst p2. apply list_elem_of_In, in_flat_map in Hp as (key2&H2&Hp).
    apply list_elem_of_In, childPlans_in in Hp as (j2&c&p3&Heq&_). injection Heq as -> _ _. apply Hn. by apply list_elem_of_In.
Qed.
End plans.

(** (C16) The counters of a plan: [ParseExplain] answers, of the first object's
    ["Plan"], the sums of the actual rows over all its nodes of vertex and of edge
    relations, each node at any depth once, modulo the 64-bit integers. *)
Theorem plan_counts unmarshal planJSON nodes edges :
  ParseExplain unmarshal planJSON = Ok (nodes, edges) ->
  exists root rest plan l,
    planRoot unmarshal planJSON = Some (root :: rest) /\ keyed "Plan" root = Some (VMap plan) /\
    NoDup l.*1 /\ (forall p n, (p, n) ∈ l <-> subplan plan p n) /\
    nodes = wrap64 (sumZ (map (fun e => rowsOf relationVertex e.2) l)) /\
    edges = wrap64 (sumZ (map (fun e => rowsOf relationEdge e.2) l)).
Proof.
  unfold ParseExplain. case_bool_decide; [done|].
  destruct (planRoot unmarshal planJSON) as [[|root rest]|] eqn:Hr; [done| |done].
  destruct (keyed "Plan" root) as [v|] eqn:Hk; [|done].
  destruct v; cbn [mbind option_bind mapOf]; try done.
  intros Hw. exists root, rest, m, (plansOf (S (depth (VMap m))) m).
  split_and!; [done|done|apply plansOf_nodup|intros p n; apply plansOf_in; lia|..].
  all: change (0, 0)%Z with (wrap64 0, wrap64 0) in Hw; rewrite walk_sums in Hw.
  all: by injection Hw as <- <-.
Qed.

(** A join of a vertex and an edge table under a scan, with a subplan. *)
Definition demoPlan : goval :=
  VList [VMap [("Plan" : gostring,
    VMap [("Node Type" : gostring, VString "Nested Loop"); ("Actual Rows" : gostring, VFloat 7);
      ("Plans" : gostring, VList [
         VMap [("Relation Name" : gostring, VString "_ag_label_vertex"); ("Actual Rows" : gostring, VFloat 3);
               ("SubPlan" : gostring, VList [
                  VMap [("Relation Name" : gostring, VString "g_v_table"); ("Actual Rows" : gostring, VFloat 4)]])];
         VMap [("Relation Name" : gostring, VString "_ag_label_edge"); ("Actual Rows" : gostring, VFraction "5.50")]])])]].

Lemma plan_counts_witness :
  ParseExplain (fun _ => Some demoPlan) "[]" = Ok (7, 5)%Z /\
  exists root rest plan l,
    planRoot (fun _ => Some demoPlan) "[]" = Some (root :: rest) /\ keyed "Plan" root = Some (VMap plan) /\
    NoDup l.*1 /\ (forall p n, (p, n) ∈ l <-> subplan plan p n) /\
    7%Z = wrap64 (sumZ (map (fun e => rowsOf relationVertex e.2) l)) /\
    5%Z = wrap64 (sumZ (map (fun e => rowsOf relationEdge e.2) l)).
Proof. split; [reflexivity|]. apply (plan_counts (fun _ => Some demoPlan) "[]" 7 5). reflexivity. Defined.

(** ** A measured query *)

Definition isExplain (c : graphCall) : bool :=
  match c with Send true _ => true | _ => false end.

(** The sampler did not choose the query. *)
Definition declined (e : event graphR) : bool :=
  match e with
  | existT Draw b => negb b
  | _ => false
  end.

(** What a measured query did, by its result and its trace. *)
Record measuredRun (force : bool) (graph text : gostring) (args : list gostring)
    (r : result (goerr * gostring) gostring) (t : trace graphR) : Prop := {
  (* the result is the query's own *)
  mr_ok : forall rows, r = Ok rows ->
    In (ev (R := graphR) (Send false (SText (ageCall graph text) args)) (Ok rows)) t;
  mr_err : forall e s, r = Err (e, s) -> s = text /\
    (e = traversalError /\ existsb (fun c => match c with Lease _ => true | _ => false end) (calls t) = false \/
     In (ev (R := graphR) (Lease false) (Some e)) t \/
     In (ev (R := graphR) (Send false (SText (ageCall graph text) args)) (Err e)) t);
  (* it is explained only when it succeeded, the sampler did not decline, once *)
  mr_explain : existsb isExplain (calls t) = true -> is_ok r = true /\
    List.filter isExplain (calls t) =
      [Send true (SText (explainText graph text) args)] /\
    existsb declined t = false;
  (* what an error leaves leased is nothing; a result holds its first connection *)
  mr_held : existsb (fun c => match c with GiveBack false => true | _ => false end) (calls t) = true ->
    is_ok r = false
}.

(** Measuring a query does not change what it answers: the result is the query's,
    the plan is asked for only after success and never when the sampler declined,
    and whatever asking answers is dropped.  But the plan is asked for with
    ANALYZE, which executes the statement again: a measured statement that writes
    is performed twice. *)
Theorem measurement_transparent unmarshal force graph text args (o : env graphR) :
  let '(r, t) := run o [] (ExecuteCypher unmarshal force graph text args) in
  measuredRun force graph text args r t.
Proof.
  apply (always_run _ (measuredRun force graph text args) [] o).
  unfold ExecuteCypher, CypherRows, Cypher, explainAndParse, sampled, emit.
  destruct (ValidateTraversalDepth text) as [e|]; cbn [bind poolQuery call];
    repeat (cbn [always bind app poolQuery call];
      lazymatch goal with
      | |- forall _ : graphR Clock, _ => intros ?
      | |- forall _ : graphR _, _ => intros []
      | |- context [if ?b then _ else _] => destruct b eqn:?
      | |- context [ParseExplain ?u ?r] => destruct (ParseExplain u r) as [[? ?]|?]
      end).
  all: constructor; try done.
  all: try (intros ? [= <-]; cbn; tauto).
  all: try (intros ? ? [= <- <-]; split; [done|]; cbn; tauto).
Qed.
