(* ===== verification/License.v ===== *)
(** * Licences

    [internal/license]: the canonical form a licence is signed in, its
    verification with the grace period, the feature gate, and the watcher that
    reloads the file; the check at boot of [cmd/neksur-server]; and the
    generator of [internal/licensegen].  The decoding and indentation of JSON,
    the text of a time, SHA-256 and ECDSA are parameters; base64 and the JSON
    text that is signed are computed.  An instant is in nanoseconds. *)

From S2P Require Import Prelude PolicyStore Order JsonText.
From Stdlib Require Import Lia.
#[local] Open Scope go_scope.

(** ** The manifest ([manifest.go]) *)

(** A time: its instant and its offset from UTC, both of which its text shows. *)
Record gtime := mkTime { instant : Z; offset : Z }.

#[export] Instance gtime_eq_dec : EqDecision gtime.
Proof. solve_decision. Defined.

(** A nil slice of features is [None]. *)
Record Manifest := mkManifest {
  LicenseID : gostring; CustomerID : gostring; TenantID : gostring; Tier : gostring;
  ExpiryUTC : gtime; AllowedFeatures : option (list gostring); Signature : gostring
}.

#[export] Instance Manifest_eq_dec : EqDecision Manifest.
Proof. solve_decision. Defined.

Inductive license_err :=
  | ErrParse
  | ErrCanonicalize
  | ErrDecodeSignature
  | ErrPublicKey
  | ErrSignature
  | ErrExpired.

#[export] Instance license_err_eq_dec : EqDecision license_err.
Proof. solve_decision. Defined.

Section license.
Context (unmarshal : gostring -> option Manifest).
Context (formatTime : gtime -> option gostring).
Context (sha256 : gostring -> gostring).

(** The fields [json.Marshal] writes, in the order of the struct; the signature
    is left out when empty. *)
Definition structFields (m : Manifest) : option (list (gostring * jvalue)) :=
  expiry ← formatTime (ExpiryUTC m);
  Some ([("license_id" : gostring, JString (LicenseID m));
         ("customer_id" : gostring, JString (CustomerID m));
         ("tenant_id" : gostring, JString (TenantID m));
         ("tier" : gostring, JString (Tier m));
         ("expiry_utc" : gostring, JString expiry);
         ("allowed_features" : gostring,
            match AllowedFeatures m with Some l => JStrings l | None => JNull end)]
        ++ (if bool_decide (Signature m = []) then []
            else [("signature" : gostring, JString (Signature m))])).

(** [sortedKeysJSON]. *)
Definition sortedKeysJSON (m : Manifest) : option gostring :=
  fields ← structFields m; Some (encodeObject (sortFields fields)).

Definition canonicalJSON (m : Manifest) : option gostring :=
  sortedKeysJSON
    (mkManifest (LicenseID m) (CustomerID m) (TenantID m) (Tier m) (ExpiryUTC m)
       (sortStrings <$> AllowedFeatures m) []).

(** ** Verification ([verifier.go]) *)

Definition gracePeriod : Z := 7 * 24 * 3600 * 1000000000.

(** Later than the expiry by more than the grace period. *)
Definition beyondGrace (now : Z) (m : Manifest) : bool :=
  (instant (ExpiryUTC m) <? now)%Z && (gracePeriod <? timeSub now (instant (ExpiryUTC m)))%Z.

(** The embedded key, when it parses: what it accepts of a digest and a
    signature. *)
Context (loadEmbeddedPublicKey : option (gostring -> gostring -> bool)).

(** The manifest and the error; an expired manifest comes with both. *)
Definition Verify (now : Z) (manifestBytes : gostring) : option Manifest * option license_err :=
  match unmarshal manifestBytes with
  | None => (None, Some ErrParse)
  | Some m =>
      match canonicalJSON m with
      | None => (None, Some ErrCanonicalize)
      | Some canonical =>
          match Base64.decode (Signature m) with
          | None => (None, Some ErrDecodeSignature)
          | Some sigBytes =>
              match loadEmbeddedPublicKey with
              | None => (None, Some ErrPublicKey)
              | Some VerifyASN1 =>
                  if negb (VerifyASN1 (sha256 canonical) sigBytes) then (None, Some ErrSignature)
                  else if beyondGrace now m then (Some m, Some ErrExpired)
                  else (Some m, None)
              end
          end
      end
  end.

Definition GracePeriodRemaining (now : Z) (m : Manifest) : Z :=
  let expiry := instant (ExpiryUTC m) in
  if negb (expiry <? now)%Z then 0
  else
    let overdue := timeSub now expiry in
    if (gracePeriod <=? overdue)%Z then 0 else gracePeriod - overdue.

(** ** The gate ([feature_flag.go]) *)

Definition IsFeatureAllowed (current : option Manifest) (now : Z) (feature : gostring) : bool :=
  match current with
  | None => false
  | Some m =>
      if beyondGrace now m then false
      else existsb (fun f => bool_decide (f = feature)) (default [] (AllowedFeatures m))
  end.

(** ** The process: boot, and the watcher ([main.go], [watcher.go]) *)

Definition tierCovers (licTier required : gostring) : bool :=
  if bool_decide (required = "enterprise") then bool_decide (licTier = "enterprise")
  else if bool_decide (required = "commercial")
  then bool_decide (licTier = "commercial") || bool_decide (licTier = "enterprise")
  else true.

(** The licence file, if it can be read; the manifest in memory; whether the
    notifier watches the file; the clock. *)
Record lstate := mkState {
  file : option gostring; current : option Manifest; watched : bool; clock : Z
}.

(** The boot of a binary that requires a licence: [None] is its exit.  The
    watcher adds the file at once; adding a file that is not there fails. *)
Definition boot (requiresLicense : bool) (tier : gostring) (f : option gostring) (now : Z)
  : option lstate :=
  if negb requiresLicense then Some (mkState f None false now)
  else
    match f with
    | None => None
    | Some bytes =>
        match Verify now bytes with
        | (Some m, None) =>
            if tierCovers (Tier m) tier then Some (mkState f (Some m) true now) else None
        | _ => None
        end
    end.

(** The closure [reload]. *)
Definition reload (s : lstate) : lstate :=
  match file s with
  | None => s
  | Some bytes =>
      match Verify (clock s) bytes with
      | (Some m, None) => mkState (file s) (Some m) (watched s) (clock s)
      | _ => s
      end
  end.

(** The bits of [fsnotify.Op]. *)
Definition Create : N := 1.
Definition Write : N := 2.
Definition Remove : N := 4.
Definition Rename : N := 8.

Definition interesting : N := N.lor (N.lor Write Create) (N.lor Rename Remove).

Definition hasBits (op mask : N) : bool := negb (N.eqb (N.land op mask) 0).

(** What the watcher's [select] takes; time and the file change in between. *)
Inductive watchEvent :=
  | Elapse (d : N)
  | FileChanges (f : option gostring)
  | Tick
  | FsEvent (op : N)
  | FsError.

Definition readd (s : lstate) : lstate :=
  mkState (file s) (current s) (match file s with Some _ => true | None => false end) (clock s).

(** One round of the loop; the notifier delivers events of watched files only. *)
Definition watchStep (ev : watchEvent) (s : lstate) : lstate :=
  match ev with
  | Elapse d => mkState (file s) (current s) (watched s) (clock s + Z.of_N d)
  | FileChanges f => mkState f (current s) (watched s) (clock s)
  | Tick => reload s
  | FsEvent op =>
      if negb (watched s) then s
      else if negb (hasBits op interesting) then s
      else if hasBits op (N.lor Rename Remove) then reload (readd s)
      else reload s
  | FsError => s
  end.

Definition watchSteps (evs : list watchEvent) (s : lstate) : lstate :=
  fold_left (fun s ev => watchStep ev s) evs s.

(** ** The generator ([licensegen/run.go]) *)

(** The flags after parsing; the key file is [None] when it cannot be read. *)
Record genArgs := mkArgs {
  a_customer : gostring; a_tenant : gostring; a_tier : gostring; a_expiry : gostring;
  a_features : gostring; a_keyPath : gostring; a_out : gostring
}.

Inductive gen_err :=
  | MissingFlags (names : list gostring)
  | BadTier
  | BadExpiry
  | ExpiryInPast
  | EmptyFeature
  | UnreadableKey
  | BadKey
  | CanonicalizeFailed
  | SignFailed
  | MarshalFailed
  | WriteFailed.

(** The flags that are required, with their values, in order. *)
Definition missingFlags (a : genArgs) : list gostring :=
  map fst (List.filter (fun f => bool_decide (f.2 = []))
    [("-customer-id" : gostring, a_customer a); ("-tenant-id" : gostring, a_tenant a);
     ("-tier" : gostring, a_tier a); ("-expiry-utc" : gostring, a_expiry a);
     ("-allowed-features" : gostring, a_features a);
     ("-private-key-path" : gostring, a_keyPath a); ("-out" : gostring, a_out a)]).

Definition validTier (t : gostring) : bool :=
  bool_decide (t = "commercial") || bool_decide (t = "enterprise").

(** The loop over the raw names: all of them trimmed, or an empty one. *)
Fixpoint trimFeatures (raw : list gostring) : option (list gostring) :=
  match raw with
  | [] => Some []
  | f :: raw =>
      let f := trimSpace f in
      if bool_decide (f = []) then None
      else rest ← trimFeatures raw; Some (f :: rest)
  end.

Context (parseRFC3339 : gostring -> option gtime).
(** [Format("20060102")]. *)
Context (formatDate : gtime -> gostring).
Context (readKey : gostring -> option gostring).
(** [loadPrivateKey], and what the key signs of a digest. *)
Context (loadPrivateKey : gostring -> option (gostring -> option gostring)).
Context (marshalIndent : Manifest -> option gostring).
Context (writeFile : gostring -> gostring -> bool).

(** The manifest before it is signed. *)
Definition buildManifest (a : genArgs) (expiry : gtime) (features : list gostring) : Manifest :=
  mkManifest ("lic-" ++ a_customer a ++ "-" ++ formatDate expiry)
    (a_customer a) (a_tenant a) (a_tier a) (mkTime (instant expiry) 0) (Some features) [].

Definition sign (m : Manifest) (signASN1 : gostring -> option gostring)
  : result gen_err Manifest :=
  match canonicalJSON m with
  | None => Err CanonicalizeFailed
  | Some canonical =>
      match signASN1 (sha256 canonical) with
      | None => Err SignFailed
      | Some s =>
          Ok (mkManifest (LicenseID m) (CustomerID m) (TenantID m) (Tier m) (ExpiryUTC m)
                (AllowedFeatures m) (Base64.encode s))
      end
  end.

(** [Run] on parsed flags: the text that was written. *)
Definition Run (now : Z) (a : genArgs) : result gen_err gostring :=
  match missingFlags a with
  | _ :: _ => Err (MissingFlags (missingFlags a))
  | [] =>
      if negb (validTier (a_tier a)) then Err BadTier
      else
        match parseRFC3339 (a_expiry a) with
        | None => Err BadExpiry
        | Some expiry =>
            if negb (now <? instant expiry)%Z then Err ExpiryInPast
            else
              match trimFeatures (splitByte ","%char (a_features a)) with
              | None => Err EmptyFeature
              | Some features =>
                  match readKey (a_keyPath a) with
                  | None => Err UnreadableKey
                  | Some bytes =>
                      match loadPrivateKey bytes with
                      | None => Err BadKey
                      | Some signASN1 =>
                          match sign (buildManifest a expiry features) signASN1 with
                          | Err e => Err e
                          | Ok m =>
                              match marshalIndent m with
                              | None => Err MarshalFailed
                              | Some text =>
                                  if writeFile (a_out a) text then Ok text else Err WriteFailed
                              end
                          end
                      end
                  end
              end
        end
  end.
End license.
