(* ===== verification/LicenseSpec.v ===== *)
(** * Licences: what the signature, the gate and the watcher guarantee

    The canonical form determines every signed field; a feature is only allowed
    under the terms of a licence that was issued, along every run of the
    watcher; a valid file in place is in force from the next tick on; the tier
    is checked at boot only, and a lost watch is never restored; what the
    generator writes verifies. *)

From S2P Require Import Prelude PolicyStore Order JsonText License.
From Stdlib Require Import Lia.
#[local] Open Scope go_scope.

(** ** The canonical form *)

(** The signed terms: every field but the signature, the features up to order. *)
Definition sameTerms (m1 m2 : Manifest) : Prop :=
  LicenseID m1 = LicenseID m2 /\ CustomerID m1 = CustomerID m2 /\
  TenantID m1 = TenantID m2 /\ Tier m1 = Tier m2 /\ ExpiryUTC m1 = ExpiryUTC m2 /\
  match AllowedFeatures m1, AllowedFeatures m2 with
  | Some l1, Some l2 => l1 ≡ₚ l2
  | None, None => True
  | _, _ => False
  end.

(** Strings that JSON keeps, as every decoded manifest has. *)
Definition validTerms (m : Manifest) : bool :=
  validUTF8 (LicenseID m) && validUTF8 (CustomerID m) && validUTF8 (TenantID m) &&
  validUTF8 (Tier m) && forallb validUTF8 (default [] (AllowedFeatures m)).

Section canonical.
Context (formatTime : gtime -> option gostring).

Definition featuresValue (l : option (list gostring)) : jvalue :=
  match l with Some l => JStrings l | None => JNull end.

(** The fields in the order of their keys. *)
Definition canonicalFields (m : Manifest) (expiry : gostring) : list (gostring * jvalue) :=
  [("allowed_features", featuresValue (sortStrings <$> AllowedFeatures m));
   ("customer_id", JString (CustomerID m)); ("expiry_utc", JString expiry);
   ("license_id", JString (LicenseID m)); ("tenant_id", JString (TenantID m));
   ("tier", JString (Tier m))].

Lemma canonicalJSON_fields m :
  canonicalJSON formatTime m =
    expiry ← formatTime (ExpiryUTC m); Some (encodeObject (canonicalFields m expiry)).
Proof.
  unfold canonicalJSON, sortedKeysJSON, structFields. cbn [ExpiryUTC Signature].
  by destruct (formatTime (ExpiryUTC m)).
Qed.

(** The signature is no part of it. *)
Lemma canonicalJSON_unsigned m s :
  canonicalJSON formatTime (mkManifest (LicenseID m) (CustomerID m) (TenantID m) (Tier m)
    (ExpiryUTC m) (AllowedFeatures m) s) = canonicalJSON formatTime m.
Proof. by rewrite !canonicalJSON_fields. Qed.

Lemma sorted_valid l : forallb validUTF8 l = true -> forallb validUTF8 (sortStrings l) = true.
Proof.
  rewrite !forallb_forall. intros H x Hx. apply H.
  apply list_elem_of_In. apply list_elem_of_In in Hx. by rewrite sortStrings_perm in Hx.
Qed.

Lemma canonicalFields_valid m expiry :
  validTerms m = true -> validUTF8 expiry = true ->
  forallb (fun f => validUTF8 f.1 && validValue f.2) (canonicalFields m expiry) = true.
Proof.
  unfold validTerms. rewrite !andb_true_iff. intros [[[[H1 H2] H3] H4] H5] He.
  unfold canonicalFields. cbn [forallb fst snd validValue]. rewrite H1, H2, H3, H4, He.
  destruct (AllowedFeatures m) as [l|]; cbn [fmap option_fmap option_map featuresValue validValue];
    [|reflexivity]. rewrite sorted_valid by done. reflexivity.
Qed.

Lemma canonicalFields_keys m1 m2 e1 e2 :
  map fst (canonicalFields m1 e1) = map fst (canonicalFields m2 e2).
Proof. reflexivity. Qed.

(** The fields determine the terms. *)
Lemma canonicalFields_inj m1 m2 e1 e2 :
  canonicalFields m1 e1 = canonicalFields m2 e2 ->
  LicenseID m1 = LicenseID m2 /\ CustomerID m1 = CustomerID m2 /\ TenantID m1 = TenantID m2 /\
  Tier m1 = Tier m2 /\ e1 = e2 /\
  featuresValue (sortStrings <$> AllowedFeatures m1) =
    featuresValue (sortStrings <$> AllowedFeatures m2).
Proof.
  intros E. apply (f_equal (map snd)) in E. revert E. unfold canonicalFields. cbn [map snd].
  intros [=]. by split_and!.
Qed.

Context (formatTime_inj : forall t1 t2 x, formatTime t1 = Some x -> formatTime t2 = Some x -> t1 = t2).
Context (formatTime_valid : forall t x, formatTime t = Some x -> validUTF8 x = true).

(** Equal canonical forms, equal terms. *)
Lemma canonicalJSON_terms m1 m2 c :
  validTerms m1 = true -> validTerms m2 = true ->
  canonicalJSON formatTime m1 = Some c -> canonicalJSON formatTime m2 = Some c -> sameTerms m1 m2.
Proof.
  intros V1 V2. rewrite !canonicalJSON_fields.
  intros (e1 & E1 & H1)%bind_Some (e2 & E2 & H2)%bind_Some.
  assert (encodeObject (canonicalFields m1 e1) = encodeObject (canonicalFields m2 e2)) as E
    by (apply Some_inj; exact (eq_trans H1 (eq_sym H2))). clear H1 H2.
  apply (encodeObject_inj _ _ (canonicalFields_keys m1 m2 e1 e2)) in E;
    [|apply canonicalFields_valid; [done|by eapply formatTime_valid]..].
  apply canonicalFields_inj in E as (El & Ec & Et & Eti & -> & Ef).
  unfold sameTerms. split_and!; [done|done|done|done|by eapply formatTime_inj|].
  destruct (AllowedFeatures m1) as [l1|], (AllowedFeatures m2) as [l2|]; cbn in Ef; try done.
  injection Ef as Ef. by rewrite <- (sortStrings_perm l1), Ef, sortStrings_perm.
Qed.

(** What is signed: two manifests have the same canonical bytes exactly when
    they agree on every field but the signature, the features up to their
    order.  No string - quotes, commas and braces included - can pose as
    another field. *)
Theorem canonical_covers_terms m1 m2 c1 c2 :
  validTerms m1 = true -> validTerms m2 = true ->
  canonicalJSON formatTime m1 = Some c1 -> canonicalJSON formatTime m2 = Some c2 ->
  (c1 = c2 <-> sameTerms m1 m2).
Proof.
  intros V1 V2 H1 H2. split.
  - intros <-. by eapply canonicalJSON_terms.
  - intros (El & Ec & Et & Eti & Ee & Ef). revert H1 H2. rewrite !canonicalJSON_fields, Ee.
    intros (e & He & H1)%bind_Some (e' & He' & H2)%bind_Some.
    apply Some_inj in H1 as <-. apply Some_inj in H2 as <-.
    assert (e = e') as <- by congruence. f_equal.
    assert (sortStrings <$> AllowedFeatures m1 = sortStrings <$> AllowedFeatures m2) as Ea.
    { destruct (AllowedFeatures m1) as [l1|], (AllowedFeatures m2) as [l2|]; try done.
      cbn. f_equal. by apply sortStrings_unique. }
    unfold canonicalFields. by rewrite El, Ec, Et, Eti, Ea.
Qed.
End canonical.

(** ** Only what was issued *)

Lemma beyondGrace_false now m :
  beyondGrace now m = false -> (now <= instant (ExpiryUTC m) + gracePeriod)%Z.
Proof.
  unfold beyondGrace, timeSub. rewrite andb_false_iff, Z.ltb_ge, Z.ltb_ge.
  unfold gracePeriod. lia.
Qed.

Lemma IsFeatureAllowed_spec cur now f :
  IsFeatureAllowed cur now f = true <->
  exists m, cur = Some m /\ beyondGrace now m = false /\ f ∈ default [] (AllowedFeatures m).
Proof.
  unfold IsFeatureAllowed. destruct cur as [m|].
  2: { split; [done|]. by intros (m & ? & _). }
  split.
  - destruct (beyondGrace now m) eqn:E; [done|]. intros (x & Hx & Hf)%existsb_exists.
    apply bool_decide_eq_true in Hf as ->. exists m. split_and!; [done|done|].
    by apply list_elem_of_In.
  - intros (m' & [= <-] & E & Hf). rewrite E. apply existsb_exists. exists f.
    split; [by apply list_elem_of_In|by apply bool_decide_eq_true_2].
Qed.

Section runs.
Context (unmarshal : gostring -> option Manifest) (formatTime : gtime -> option gostring).
Context (sha256 : gostring -> gostring) (key : option (gostring -> gostring -> bool)).

Abbreviation Verify := (License.Verify unmarshal formatTime sha256 key).
Abbreviation reload := (License.reload unmarshal formatTime sha256 key).
Abbreviation watchStep := (License.watchStep unmarshal formatTime sha256 key).
Abbreviation watchSteps := (License.watchSteps unmarshal formatTime sha256 key).
Abbreviation boot := (License.boot unmarshal formatTime sha256 key).

Lemma Verify_ok now b m :
  Verify now b = (Some m, None) ->
  unmarshal b = Some m /\ beyondGrace now m = false /\
  exists c s pub, canonicalJSON formatTime m = Some c /\ Base64.decode (Signature m) = Some s /\
    key = Some pub /\ pub (sha256 c) s = true.
Proof.
  unfold License.Verify. destruct (unmarshal b) as [m'|]; [|done].
  destruct (canonicalJSON formatTime m') as [c|] eqn:Ec; [|done].
  destruct (Base64.decode (Signature m')) as [s|] eqn:Es; [|done].
  destruct key as [pub|] eqn:Ek; [|done]. destruct (pub (sha256 c) s) eqn:Ep; [|done]. cbn [negb].
  destruct (beyondGrace now m') eqn:Eb; [done|]. intros [= ->].
  split_and!; [done|done|]. by exists c, s, pub.
Qed.

(** A manifest in force came from the file, through [Verify]. *)
Lemma reload_current s m :
  current (reload s) = Some m ->
  current s = Some m \/ exists b, file s = Some b /\ Verify (clock s) b = (Some m, None).
Proof.
  unfold License.reload. destruct (file s) as [b|]; [|by left].
  destruct (Verify (clock s) b) as [[m'|] [e|]] eqn:E; try (by left).
  cbn. intros [= ->]. right. by exists b.
Qed.

Lemma watchStep_current ev s m :
  current (watchStep ev s) = Some m ->
  current s = Some m \/ exists now b, Verify now b = (Some m, None).
Proof.
  assert (forall s, current (reload s) = Some m ->
    current s = Some m \/ exists now b, Verify now b = (Some m, None)) as Hr.
  { intros s' [?|(b & _ & ?)]%reload_current; [by left|right; by eexists _, _]. }
  destruct ev as [d|f| |op|]; cbn [License.watchStep]; try (by left); [apply Hr|].
  destruct (negb (watched s)); [by left|]. destruct (negb (hasBits op interesting)); [by left|].
  destruct (hasBits op (N.lor Rename Remove)); [|apply Hr]. by intros H%Hr.
Qed.

Lemma watchSteps_app l1 l2 s : watchSteps (l1 ++ l2) s = watchSteps l2 (watchSteps l1 s).
Proof. unfold License.watchSteps. by rewrite fold_left_app. Qed.

(** ** A rotated file comes into force *)

(** What [Verify] makes of the same bytes later on. *)
Lemma Verify_later now now' b m :
  Verify now b = (Some m, None) ->
  Verify now' b = (Some m, if beyondGrace now' m then Some ErrExpired else None).
Proof.
  intros (Hu & _ & c & s & pub & Hc & Hs & Hk & Hp)%Verify_ok.
  unfold License.Verify. rewrite Hu, Hc, Hs, Hk, Hp. cbn [negb].
  by destruct (beyondGrace now' m).
Qed.

Lemma within_grace now m :
  (now <= instant (ExpiryUTC m) + gracePeriod)%Z -> beyondGrace now m = false.
Proof.
  intros H. unfold beyondGrace, timeSub, gracePeriod in *. rewrite andb_false_iff, Z.ltb_ge, Z.ltb_ge.
  lia.
Qed.

(** A schedule without end. *)
Fixpoint run (evs : nat -> watchEvent) (s : lstate) (n : nat) : lstate :=
  match n with
  | 0 => s
  | S n => watchStep (evs n) (run evs s n)
  end.

Definition isChange (ev : watchEvent) : bool :=
  match ev with FileChanges _ => true | _ => false end.

Lemma reload_file s : file (reload s) = file s /\ clock (reload s) = clock s.
Proof.
  unfold License.reload. destruct (file s) as [b|] eqn:E; [|by rewrite E].
  by destruct (Verify (clock s) b) as [[m|] [e|]]; rewrite ?E.
Qed.

Lemma watchStep_file ev s : isChange ev = false -> file (watchStep ev s) = file s.
Proof.
  destruct ev as [d|f| |op|]; cbn [License.watchStep isChange]; try done; intros _.
  - apply reload_file.
  - destruct (negb (watched s)); [done|]. destruct (negb (hasBits op interesting)); [done|].
    by destruct (hasBits op (N.lor Rename Remove)); rewrite (proj1 (reload_file _)).
Qed.

Lemma run_file evs s n0 n :
  (forall k, n0 <= k -> isChange (evs k) = false) -> n0 <= n ->
  file (run evs s n) = file (run evs s n0).
Proof.
  intros Hc. induction 1 as [|n Hn IH]; [done|]. cbn [run]. by rewrite watchStep_file by auto.
Qed.

(** A reload from bytes that verified keeps the manifest they hold. *)
Lemma reload_keeps s now b m :
  file s = Some b -> Verify now b = (Some m, None) -> current s = Some m ->
  current (reload s) = Some m.
Proof.
  intros Hf Hv Hc. unfold License.reload. rewrite Hf, (Verify_later _ (clock s) _ _ Hv).
  by destruct (beyondGrace (clock s) m).
Qed.

Lemma watchStep_keeps ev s now b m :
  file s = Some b -> Verify now b = (Some m, None) -> current s = Some m ->
  current (watchStep ev s) = Some m.
Proof.
  intros Hf Hv Hc. destruct ev as [d|f| |op|]; cbn [License.watchStep]; try done.
  - by eapply reload_keeps.
  - destruct (negb (watched s)); [done|]. destruct (negb (hasBits op interesting)); [done|].
    destruct (hasBits op (N.lor Rename Remove)); by eapply reload_keeps.
Qed.

(** (C17) A rotated licence takes effect: once the file holds a licence that verifies and
    stays in place, with ticks at most [interval] apart and that much left of
    its grace period, its manifest is in force before [interval] is over, and
    remains in force for ever after - whatever notifications come or are lost. *)
Theorem rotation_takes_effect evs s0 n0 b m interval :
  file (run evs s0 n0) = Some b ->
  (forall k, n0 <= k -> isChange (evs k) = false) ->
  Verify (clock (run evs s0 n0)) b = (Some m, None) ->
  (clock (run evs s0 n0) + interval <= instant (ExpiryUTC m) + gracePeriod)%Z ->
  (forall n, exists k, n <= k /\ evs k = Tick /\
    (clock (run evs s0 k) <= clock (run evs s0 n) + interval)%Z) ->
  exists n1, n0 < n1 /\ (clock (run evs s0 n1) <= clock (run evs s0 n0) + interval)%Z /\
    forall n, n1 <= n -> current (run evs s0 n) = Some m.
Proof.
  intros Hf Hc Hv Hg Htick. destruct (Htick n0) as (k & Hk & Ek & Hclock).
  assert (forall n, n0 <= n -> file (run evs s0 n) = Some b) as Hfile.
  { intros n Hn. by rewrite (run_file evs s0 n0 n Hc Hn). }
  exists (S k). split_and!; [lia| |].
  - cbn [run]. rewrite Ek. cbn [License.watchStep]. by rewrite (proj2 (reload_file _)).
  - induction 1 as [|n Hn IH].
    + cbn [run]. rewrite Ek. cbn [License.watchStep]. unfold License.reload.
      rewrite (Hfile k Hk), (Verify_later _ _ _ _ Hv), within_grace by lia. done.
    + cbn [run]. eapply watchStep_keeps; [apply Hfile; lia|exact Hv|exact IH].
Qed.

(** The tier is a condition of booting, not of running: a licence that verifies
    but does not cover the binary's tier keeps the binary from booting, and is
    installed by the next reload of a binary that runs. *)
Theorem reload_ignores_tier tier b m s :
  Verify (clock s) b = (Some m, None) -> tierCovers (Tier m) tier = false ->
  boot true tier (Some b) (clock s) = None /\
  current (watchSteps [FileChanges (Some b); Tick] s) = Some m.
Proof.
  intros Hv Ht. split.
  - unfold License.boot. cbn [negb]. by rewrite Hv, Ht.
  - unfold License.watchSteps. cbn [fold_left License.watchStep]. unfold License.reload.
    cbn [file clock]. by rewrite Hv.
Qed.

Definition isFsEvent (ev : watchEvent) : bool :=
  match ev with FsEvent _ => true | _ => false end.

Lemma reload_watched s : watched (reload s) = watched s.
Proof.
  unfold License.reload. destruct (file s) as [b|] eqn:E; [|done].
  by destruct (Verify (clock s) b) as [[m|] [e|]].
Qed.

Lemma unwatched_step ev s :
  watched s = false ->
  watched (watchStep ev s) = false /\ (isFsEvent ev = true -> watchStep ev s = s).
Proof.
  intros Hw. destruct ev as [d|f| |op|]; cbn [License.watchStep isFsEvent]; try done.
  - by rewrite reload_watched.
  - by rewrite Hw.
Qed.

(** A watch that is lost is not restored: when the file is away at the moment of
    a rename or removal, no later event reaches the watcher - the run is the
    one without notifications - although the file is back. *)
Theorem lost_watch_never_restored op s evs :
  file s = None -> watched s = true -> hasBits op (N.lor Rename Remove) = true ->
  let s1 := watchStep (FsEvent op) s in
  watched (watchSteps evs s1) = false /\
  watchSteps evs s1 = watchSteps (List.filter (fun ev => negb (isFsEvent ev)) evs) s1.
Proof.
  intros Hf Hw Hop. cbn zeta.
  assert (watched (watchStep (FsEvent op) s) = false) as H1.
  { cbn [License.watchStep]. rewrite Hw, Hop. cbn [negb].
    assert (hasBits op interesting = true) as ->.
    { unfold hasBits in *. rewrite negb_true_iff, N.eqb_neq in *. intros E. apply Hop.
      assert (N.lor Rename Remove = N.land interesting (N.lor Rename Remove)) as -> by done.
      by rewrite N.land_assoc, E. }
    cbn [negb]. rewrite reload_watched. cbn. by rewrite Hf. }
  generalize dependent (watchStep (FsEvent op) s). clear.
  induction evs as [|ev evs IH]; intros s H1; [done|].
  destruct (unwatched_step ev s H1) as [H2 H3]. cbn [List.filter].
  change (watchSteps (ev :: evs) s) with (watchSteps evs (watchStep ev s)).
  destruct (isFsEvent ev); cbn [negb].
  - rewrite H3 by done. by apply IH.
  - change (watchSteps (ev :: ?l) s) with (watchSteps l (watchStep ev s)). by apply IH.
Qed.

(** What was issued: the manifests the signer signed.  [unforgeable] is what the
    signature scheme is used for: the key accepts a text only when it is the
    canonical form of one of them; [decoded_valid] is that JSON decoding
    replaces invalid UTF-8. *)
Context (issued : list Manifest).
Context (unforgeable : forall pub c s, key = Some pub -> pub (sha256 c) s = true ->
  exists m, m ∈ issued /\ canonicalJSON formatTime m = Some c).
Context (decoded_valid : forall b m, unmarshal b = Some m -> validTerms m = true).
Context (issued_valid : forall m, m ∈ issued -> validTerms m = true).
Context (formatTime_inj : forall t1 t2 x, formatTime t1 = Some x -> formatTime t2 = Some x -> t1 = t2).
Context (formatTime_valid : forall t x, formatTime t = Some x -> validUTF8 x = true).

Lemma Verify_issued now b m :
  Verify now b = (Some m, None) -> exists m', m' ∈ issued /\ sameTerms m m'.
Proof.
  intros (Hu & _ & c & s & pub & Hc & _ & Hk & Hp)%Verify_ok.
  destruct (unforgeable _ _ _ Hk Hp) as (m' & Hin & Hc').
  exists m'. split; [done|].
  eapply (canonicalJSON_terms formatTime formatTime_inj formatTime_valid); [| |exact Hc|exact Hc'].
  - by eapply decoded_valid.
  - by apply issued_valid.
Qed.

(** (C35) No feature without a licence: in every run of a booted binary, through
    any file that is put in place and any events, a feature that is allowed is
    listed by a licence that was issued, with the same customer, tenant, tier
    and expiry, and the grace period of that licence is not over. *)
Theorem allowed_only_if_issued tier f0 now0 s0 evs feature :
  boot true tier f0 now0 = Some s0 ->
  let s := watchSteps evs s0 in
  IsFeatureAllowed (current s) (clock s) feature = true ->
  exists m m', current s = Some m /\ m' ∈ issued /\ sameTerms m m' /\
    feature ∈ default [] (AllowedFeatures m') /\
    (clock s <= instant (ExpiryUTC m') + gracePeriod)%Z.
Proof.
  intros Hb. cbn zeta.
  assert (forall m, current (watchSteps evs s0) = Some m -> exists m', m' ∈ issued /\ sameTerms m m')
    as Hcur.
  { induction evs as [|ev evs IH] using rev_ind.
    - unfold License.boot in Hb. cbn in Hb. destruct f0 as [b|]; [|done].
      destruct (Verify now0 b) as [[m0|] [e|]] eqn:E; try done.
      destruct (tierCovers _ _); [|done]. injection Hb as <-. cbn.
      intros m [= <-]. by eapply Verify_issued.
    - rewrite watchSteps_app. intros m [Hm|(now & b & Hv)]%watchStep_current; [by apply IH|].
      by eapply Verify_issued. }
  intros (m & Hm & Hg & Hf)%IsFeatureAllowed_spec.
  destruct (Hcur m Hm) as (m' & Hin & Hs). exists m, m'.
  split_and!; [done|done|done| |].
  - destruct Hs as (_ & _ & _ & _ & _ & Hs).
    destruct (AllowedFeatures m) as [l|], (AllowedFeatures m') as [l'|]; try done.
    cbn in *. by rewrite <- Hs.
  - destruct Hs as (_ & _ & _ & _ & <- & _). by apply beyondGrace_false.
Qed.
End runs.

(** ** The generator *)

Lemma charOf_ascii n : isASCII (Base64.charOf n) = true.
Proof.
  assert (forall l d i, forallb isASCII l = true -> isASCII d = true -> isASCII (nth i l d) = true)
    as H.
  { intros l d. induction l as [|a l IH]; intros [|i]; cbn [forallb nth]; try done;
      rewrite ?andb_true_iff; [by intros [? ?]|intros [? ?]; by apply IH]. }
  apply H; by vm_compute.
Qed.

Lemma encode_ascii s : forallb isASCII (Base64.encode s) = true.
Proof.
  induction s as [s IH] using (well_founded_induction (well_founded_ltof _ length)).
  destruct s as [|a [|b [|c s]]]; cbn [Base64.encode app forallb];
    rewrite ?charOf_ascii; [done..|]. apply IH. unfold ltof. cbn. lia.
Qed.

Lemma trimFeatures_ok raw l :
  trimFeatures raw = Some l -> l = map trimSpace raw /\ Forall (fun f => f <> []) l.
Proof.
  revert l; induction raw as [|f raw IH]; intros l; cbn [trimFeatures map].
  - intros [= <-]. by split.
  - destruct (bool_decide (trimSpace f = [])) eqn:E; [done|]. apply bool_decide_eq_false in E.
    intros (l' & H & [= <-])%bind_Some. destruct (IH l' H) as [-> Hl]. split; [done|by constructor].
Qed.

Section generator.
Context (unmarshal : gostring -> option Manifest) (formatTime : gtime -> option gostring).
Context (sha256 : gostring -> gostring) (key : option (gostring -> gostring -> bool)).
Context (parseRFC3339 : gostring -> option gtime) (formatDate : gtime -> gostring).
Context (readKey : gostring -> option gostring).
Context (loadPrivateKey : gostring -> option (gostring -> option gostring)).
Context (marshalIndent : Manifest -> option gostring).
Context (writeFile : gostring -> gostring -> bool).
(** The decoder reads what the encoder wrote, for valid strings and a time in
    UTC; the embedded key is the one of the private key file. *)
Context (unmarshal_marshal : forall m text, marshalIndent m = Some text ->
  validTerms m = true -> validUTF8 (Signature m) = true -> offset (ExpiryUTC m) = 0%Z ->
  unmarshal text = Some m).
Context (key_pair : forall path bytes signASN1 d s, readKey path = Some bytes ->
  loadPrivateKey bytes = Some signASN1 -> signASN1 d = Some s ->
  exists pub, key = Some pub /\ pub d s = true).

Abbreviation Verify := (License.Verify unmarshal formatTime sha256 key).
Abbreviation Run := (License.Run formatTime sha256 parseRFC3339 formatDate readKey loadPrivateKey
  marshalIndent writeFile).
Abbreviation sign := (License.sign formatTime sha256).

Lemma sign_ok m signASN1 m' :
  sign m signASN1 = Ok m' ->
  exists c s, canonicalJSON formatTime m = Some c /\ signASN1 (sha256 c) = Some s /\
    m' = mkManifest (LicenseID m) (CustomerID m) (TenantID m) (Tier m) (ExpiryUTC m)
           (AllowedFeatures m) (Base64.encode s).
Proof.
  unfold License.sign. destruct (canonicalJSON formatTime m) as [c|]; [|done].
  destruct (signASN1 (sha256 c)) as [s|] eqn:E; [|done]. intros [= <-]. by exists c, s.
Qed.

(** The way through [Run] that writes a file. *)
Lemma Run_ok now a text :
  Run now a = Ok text ->
  exists expiry bytes signASN1 m,
    validTier (a_tier a) = true /\ parseRFC3339 (a_expiry a) = Some expiry /\
    (now < instant expiry)%Z /\ readKey (a_keyPath a) = Some bytes /\
    loadPrivateKey bytes = Some signASN1 /\
    sign (buildManifest formatDate a expiry (map trimSpace (splitByte ","%char (a_features a)))) signASN1
      = Ok m /\ marshalIndent m = Some text.
Proof.
  unfold License.Run. destruct (missingFlags a); [|done].
  destruct (validTier (a_tier a)) eqn:Et; [|done]. cbn [negb].
  destruct (parseRFC3339 (a_expiry a)) as [expiry|] eqn:Ee; [|done].
  destruct (now <? instant expiry)%Z eqn:En; [|done]. cbn [negb].
  destruct (trimFeatures (splitByte ","%char (a_features a))) as [l|] eqn:El; [|done].
  destruct (readKey (a_keyPath a)) as [bytes|] eqn:Eb; [|done].
  destruct (loadPrivateKey bytes) as [signASN1|] eqn:Es; [|done].
  apply trimFeatures_ok in El as [-> _].
  destruct (sign _ signASN1) as [m|] eqn:Em; [|done].
  destruct (marshalIndent m) as [t|] eqn:Ej; [|done]. destruct (writeFile (a_out a) t); [|done].
  intros [= ->]. exists expiry, bytes, signASN1, m. apply Z.ltb_lt in En. by split_and!.
Qed.

(** What the generator writes, the server accepts: a file that [Run] wrote
    verifies from then on until the end of its grace period - and reports
    the expiry afterwards -, boots a binary of its tier, and allows exactly
    the features of the command line. *)
Theorem generated_verifies now a text now' :
  Run now a = Ok text ->
  (forall expiry, parseRFC3339 (a_expiry a) = Some expiry ->
     validTerms (buildManifest formatDate a expiry (map trimSpace (splitByte ","%char (a_features a)))) = true) ->
  exists m expiry,
    parseRFC3339 (a_expiry a) = Some expiry /\ (now < instant expiry)%Z /\
    let inForce := (now' <=? instant expiry + gracePeriod)%Z in
    Verify now' text = (Some m, if inForce then None else Some ErrExpired) /\
    boot unmarshal formatTime sha256 key true (a_tier a) (Some text) now' =
      (if inForce then Some (mkState (Some text) (Some m) true now') else None) /\
    forall f, IsFeatureAllowed (Some m) now' f = true <->
      inForce = true /\ f ∈ map trimSpace (splitByte ","%char (a_features a)).
Proof.
  intros (expiry & bytes & signASN1 & m & Ht & He & Hn & Hb & Hk & Hs & Hm)%Run_ok Hvalid.
  exists m, expiry. split_and!; [done|done|]. cbn zeta.
  specialize (Hvalid _ He). apply sign_ok in Hs as (c & s & Hc & Hs & Em).
  destruct (key_pair _ _ _ _ _ Hb Hk Hs) as (pub & Hpub & Hok).
  assert (unmarshal text = Some m) as Hu.
  { apply (unmarshal_marshal m text Hm); rewrite Em; [exact Hvalid| |reflexivity].
    apply ascii_valid, encode_ascii. }
  assert (beyondGrace now' m = negb (now' <=? instant expiry + gracePeriod)%Z) as Hg.
  { destruct (now' <=? instant expiry + gracePeriod)%Z eqn:E; cbn [negb].
    - apply within_grace. rewrite Em. by apply Z.leb_le.
    - apply Z.leb_gt in E. apply not_false_iff_true. intros Hg%beyondGrace_false.
      rewrite Em in Hg. cbn [ExpiryUTC instant buildManifest] in Hg. lia. }
  assert (Verify now' text =
    (Some m, if (now' <=? instant expiry + gracePeriod)%Z then None else Some ErrExpired)) as Hv.
  { assert (canonicalJSON formatTime m = Some c) as Hcm by (by rewrite Em, canonicalJSON_unsigned).
    assert (Base64.decode (Signature m) = Some s) as Hsm by (by rewrite Em; apply decode_encode).
    unfold License.Verify. rewrite Hu, Hcm, Hsm, Hpub, Hok. cbn [negb]. rewrite Hg.
    by destruct (now' <=? _)%Z. }
  split_and!; [exact Hv| |].
  - unfold License.boot. cbn [negb]. rewrite Hv. destruct (now' <=? _)%Z; [|done].
    assert (Tier m = a_tier a) as -> by (by rewrite Em).
    unfold tierCovers. unfold validTier in Ht. apply orb_true_iff in Ht.
    rewrite !bool_decide_eq_true in Ht. by destruct Ht as [-> | ->].
  - intros f. rewrite IsFeatureAllowed_spec. split.
    + intros (m' & [= <-] & Hg' & Hf). rewrite Hg, negb_false_iff in Hg'. split; [done|].
      by rewrite Em in Hf.
    + intros [Hi Hf]. exists m. rewrite Hg, Hi, Em. by split_and!.
Qed.
End generator.

(** ** A concrete run *)

Module Demo.

Definition expiry : gtime := mkTime 1000 0.
Definition formatTime (t : gtime) : option gostring :=
  if bool_decide (t = expiry) then Some ("2026-01-01T00:00:00Z" : gostring) else None.

Definition unsigned (tier : gostring) : Manifest :=
  mkManifest "lic-acme-20260101" "acme" "t1" tier expiry (Some [("sso" : gostring); ("<lineage>" : gostring)]) [].
Definition signed (tier : gostring) : Manifest :=
  mkManifest "lic-acme-20260101" "acme" "t1" tier expiry (Some [("sso" : gostring); ("<lineage>" : gostring)])
    (Base64.encode "ok").

(** Two files; the text of a manifest is the name of its tier. *)
Definition unmarshal (b : gostring) : option Manifest :=
  if bool_decide (b = "commercial") then Some (signed "commercial")
  else if bool_decide (b = "enterprise") then Some (signed "enterprise") else None.
Definition marshalIndent (m : Manifest) : option gostring :=
  if bool_decide (m = signed "commercial") then Some ("commercial" : gostring) else None.

Definition issued : list Manifest := [signed "commercial"; signed "enterprise"].
Definition sha256 (s : gostring) : gostring := s.
Definition key (d s : gostring) : bool :=
  existsb (fun m => bool_decide (canonicalJSON formatTime m = Some d)) issued && bool_decide (s = "ok").

Definition args : genArgs :=
  mkArgs "acme" "t1" "commercial" "2026" "sso, <lineage>" "key.pem" "license.json".
Definition parseRFC3339 (s : gostring) : option gtime :=
  if bool_decide (s = "2026") then Some expiry else None.
Definition formatDate (t : gtime) : gostring := "20260101".
Definition readKey (p : gostring) : option gostring := Some ("pem" : gostring).
(** The signer signs the two licences and nothing else. *)
Definition loadPrivateKey (b : gostring) : option (gostring -> option gostring) :=
  Some (fun d => if key d "ok" then Some ("ok" : gostring) else None).
Definition writeFile (p t : gostring) : bool := true.

Lemma formatTime_inj t1 t2 x : formatTime t1 = Some x -> formatTime t2 = Some x -> t1 = t2.
Proof. unfold formatTime. by do 2 case_bool_decide; subst. Qed.

Lemma formatTime_valid t x : formatTime t = Some x -> validUTF8 x = true.
Proof. unfold formatTime. case_bool_decide; [|done]. intros [= <-]. by vm_compute. Qed.

Lemma unforgeable pub c s :
  Some key = Some pub -> pub (sha256 c) s = true ->
  exists m, m ∈ issued /\ canonicalJSON formatTime m = Some c.
Proof.
  intros [= <-]. unfold key. rewrite andb_true_iff. intros [(m & Hm & E)%existsb_exists _].
  apply bool_decide_eq_true in E. exists m. split; [by apply list_elem_of_In|exact E].
Qed.

Lemma decoded b m : unmarshal b = Some m -> m ∈ issued.
Proof.
  unfold unmarshal, issued. repeat case_bool_decide; intros [= <-]; rewrite !elem_of_cons; auto.
Qed.

Lemma issued_valid m : m ∈ issued -> validTerms m = true.
Proof.
  unfold issued. rewrite !elem_of_cons, elem_of_nil. by intros [-> | [-> | []]]; vm_compute.
Qed.

(** The schedule: the file is replaced, then a tick every other round. *)
Definition schedule (n : nat) : watchEvent :=
  match n with
  | 0 => FileChanges (Some ("enterprise" : gostring))
  | _ => if Nat.even n then Tick else FsError
  end.

Definition booted : lstate :=
  mkState (Some ("commercial" : gostring)) (Some (signed "commercial")) true 0.

End Demo.

Lemma canonical_covers_terms_witness :
  exists c1 c2, canonicalJSON Demo.formatTime (Demo.signed "commercial") = Some c1 /\
    canonicalJSON Demo.formatTime (Demo.signed "enterprise") = Some c2 /\
    (c1 = c2 <-> sameTerms (Demo.signed "commercial") (Demo.signed "enterprise")).
Proof.
  eexists _, _. split; [vm_compute; reflexivity|]. split; [vm_compute; reflexivity|].
  apply (canonical_covers_terms Demo.formatTime Demo.formatTime_inj Demo.formatTime_valid
    (Demo.signed "commercial") (Demo.signed "enterprise")); by vm_compute.
Defined.

Lemma allowed_only_if_issued_witness :
  let evs := [FileChanges (Some ("enterprise" : gostring)); Tick] in
  let s := watchSteps Demo.unmarshal Demo.formatTime Demo.sha256 (Some Demo.key) evs Demo.booted in
  exists m m', current s = Some m /\ m' ∈ Demo.issued /\ sameTerms m m' /\
    ("sso" : gostring) ∈ default [] (AllowedFeatures m') /\
    (clock s <= instant (ExpiryUTC m') + gracePeriod)%Z.
Proof.
  intros evs.
  apply (allowed_only_if_issued Demo.unmarshal Demo.formatTime Demo.sha256 (Some Demo.key)
    Demo.issued Demo.unforgeable
    (fun b m H => Demo.issued_valid m (Demo.decoded b m H)) Demo.issued_valid
    Demo.formatTime_inj Demo.formatTime_valid
    "commercial" (Some ("commercial" : gostring)) 0 Demo.booted evs "sso"); by vm_compute.
Defined.

Lemma rotation_takes_effect_witness :
  exists n1, 1 < n1 /\
    forall n, n1 <= n ->
      current (run Demo.unmarshal Demo.formatTime Demo.sha256 (Some Demo.key)
        Demo.schedule Demo.booted n) = Some (Demo.signed "enterprise").
Proof.
  assert (forall n, clock (run Demo.unmarshal Demo.formatTime Demo.sha256 (Some Demo.key)
    Demo.schedule Demo.booted n) = 0%Z) as Hclock.
  { induction n as [|n IH]; [done|]. cbn [run]. destruct n as [|n]; [done|].
    unfold Demo.schedule at 1. destruct (Nat.even (S n)); cbn [watchStep]; [|done].
    by rewrite (proj2 (reload_file _ _ _ _ _)). }
  destruct (rotation_takes_effect Demo.unmarshal Demo.formatTime Demo.sha256 (Some Demo.key)
    Demo.schedule Demo.booted 1 "enterprise" (Demo.signed "enterprise") 10)
    as (n1 & H1 & _ & H2).
  - by vm_compute.
  - intros [|k] Hk; [lia|]. unfold Demo.schedule. by destruct (Nat.even (S k)).
  - by vm_compute.
  - by vm_compute.
  - intros n. exists (2 * S n). rewrite !Hclock. split_and!; [lia| |lia].
    unfold Demo.schedule. by replace (2 * S n) with (S (S (2 * n))) by lia;
      rewrite Nat.even_succ_succ, Nat.even_mul.
  - by exists n1.
Defined.

Lemma reload_ignores_tier_witness :
  boot Demo.unmarshal Demo.formatTime Demo.sha256 (Some Demo.key) true "enterprise"
    (Some ("commercial" : gostring)) 0 = None.
Proof.
  by apply (reload_ignores_tier Demo.unmarshal Demo.formatTime Demo.sha256 (Some Demo.key)
    "enterprise" "commercial" (Demo.signed "commercial") Demo.booted); vm_compute.
Defined.

Lemma lost_watch_never_restored_witness :
  let s := mkState None (Some (Demo.signed "commercial")) true 0 in
  watched (watchSteps Demo.unmarshal Demo.formatTime Demo.sha256 (Some Demo.key)
    [FileChanges (Some ("enterprise" : gostring)); FsEvent Create; Tick]
    (watchStep Demo.unmarshal Demo.formatTime Demo.sha256 (Some Demo.key) (FsEvent Rename) s)) = false.
Proof.
  intros s. by apply (lost_watch_never_restored Demo.unmarshal Demo.formatTime Demo.sha256
    (Some Demo.key) Rename s).
Defined.

Lemma generated_verifies_witness :
  exists m expiry, Demo.parseRFC3339 (a_expiry Demo.args) = Some expiry /\
    Verify Demo.unmarshal Demo.formatTime Demo.sha256 (Some Demo.key) 2000 "commercial" = (Some m, None) /\
    boot Demo.unmarshal Demo.formatTime Demo.sha256 (Some Demo.key) true "commercial"
      (Some ("commercial" : gostring)) 2000
      = Some (mkState (Some ("commercial" : gostring)) (Some m) true 2000).
Proof.
  destruct (generated_verifies Demo.unmarshal Demo.formatTime Demo.sha256 (Some Demo.key)
    Demo.parseRFC3339 Demo.formatDate Demo.readKey Demo.loadPrivateKey Demo.marshalIndent
    Demo.writeFile) with (now := 0%Z) (a := Demo.args) (text := ("commercial" : gostring))
    (now' := 2000%Z) as (m & e & He & Hn & Hv & Hb & _).
  - unfold Demo.marshalIndent, Demo.unmarshal. intros m text. case_bool_decide; [|done].
    intros [= <-] _ _ _. by subst.
  - intros path bytes signASN1 d s _ [= <-] H. exists Demo.key. split; [done|].
    destruct (Demo.key d "ok") eqn:E; [|done]. by injection H as <-.
  - by vm_compute.
  - intros e [= <-]. by vm_compute.
  - change (Some Demo.expiry = Some e) in He. apply Some_inj in He as <-.
    exists m, Demo.expiry. split; [done|]. split; [exact Hv|exact Hb].
Defined.
