(* ===== verification/Credvend.v ===== *)
(** * Credential vending

    [internal/credvend]: the cache of STS credentials, the service around it and
    the HTTP handler, as programs whose calls are the operations of the shared
    cache, the clock, the credential store and the catalog adapters, so that
    requests interleave between them ([vstep]); the session policy of
    [sessionpolicy]; and the Polaris side ([iceberg/polaris]: sts.go and
    [IssueScopedSTSCredentials]).  An instant is in nanoseconds. *)

From S2P Require Import Prelude Effects Lru PolicyStore JsonText.
From Stdlib Require Import Lia.
#[local] Open Scope go_scope.

(** ** Data *)

(** [iceberg.STSCredentials]. *)
Record STSCredentials := mkSTS {
  AccessKeyID : gostring; SecretAccessKey : gostring; SessionToken : gostring;
  Expiration : Z; sts_Region : gostring
}.

#[export] Instance STSCredentials_eq_dec : EqDecision STSCredentials.
Proof. solve_decision. Defined.

(** [cache.go]. *)
Record cacheKey := mkCacheKey {
  ck_TenantID : gostring; ck_Namespace : gostring; ck_TableName : gostring; ck_Region : gostring
}.

#[export] Instance cacheKey_eq_dec : EqDecision cacheKey.
Proof. solve_decision. Defined.
#[export] Instance cacheKey_countable : Countable cacheKey.
Proof.
  refine (inj_countable' (fun k => (ck_TenantID k, ck_Namespace k, ck_TableName k, ck_Region k))
    (fun '(a, b, c, d) => mkCacheKey a b c d) _). by intros [].
Defined.

Record cachedCreds := mkCached { cc_creds : STSCredentials; expiresAt : Z; issuedAt : Z }.

(** [catalog.Credentials]. *)
Record Credentials := mkCredentials {
  Kind : gostring; Nickname : gostring; Endpoint : gostring; ConfigJSON : gostring
}.

(** The fields of [iceberg.Capabilities] the service reads, and the adapter
    built from a row. *)
Record Capabilities := mkCaps { caps_Name : gostring; SupportsCredVend : bool }.
Record adapter := mkAdapter { ad_creds : Credentials; ad_caps : Capabilities }.

(** An error of an adapter: the stub sentinel or another. *)
Inductive issue_err := AdapterStub | OtherError.
Inductive cred_err := ErrCredVendUnavailable | ErrEngineNotSupported.

(** [GetCatalogCredentials]. *)
Inductive loaded := Found (c : Credentials) | NotFound | StoreFailed.

Inductive metric :=
  | TokenRefresh (engine : gostring)
  | TokenIssued (engine region : gostring)
  | TokenFailure (engine reason : gostring).

(** ** Calls *)

Inductive vendCall :=
  | CacheGet (k : cacheKey)
  | CacheAdd (k : cacheKey) (e : cachedCreds)
  | CacheRemove (k : cacheKey)
  | Clock
  | LoadCreds (tenantID nickname : gostring)
  | BuildAdapter (c : Credentials)
  | IssueSTS (tenantID : gostring) (ad : adapter) (table : TableRef) (region : gostring)
  | Count (m : metric).

(** An adapter may return nil credentials without an error. *)
Definition vendR (c : vendCall) : Type :=
  match c with
  | CacheGet _ => option cachedCreds
  | Clock => Z
  | LoadCreds _ _ => loaded
  | BuildAdapter _ => option Capabilities
  | IssueSTS _ _ _ _ => result issue_err (option STSCredentials)
  | _ => unit
  end.

Abbreviation vendProg := (prog vendR).

(** ** The cache ([cache.go]) *)

(** [issuedAt.Add(expiresAt.Sub(issuedAt) / 2)]. *)
Definition midpoint (e : cachedCreds) : Z :=
  issuedAt e + Z.quot (timeSub (expiresAt e) (issuedAt e)) 2.

Definition Get (k : cacheKey) : vendProg (option STSCredentials) :=
  Do (R := vendR) (CacheGet k) (fun entry : option cachedCreds =>
  match entry with
  | None => Ret None
  | Some e =>
      Do (R := vendR) Clock (fun now : Z =>
      if (expiresAt e <? now)%Z then Do (R := vendR) (CacheRemove k) (fun _ => Ret None)
      else if (midpoint e <? now)%Z then Do (R := vendR) (CacheRemove k) (fun _ => Ret None)
      else Ret (Some (cc_creds e)))
  end).

Definition Add (k : cacheKey) (creds : option STSCredentials) : vendProg unit :=
  match creds with
  | None => Ret tt
  | Some c =>
      Do (R := vendR) Clock (fun now : Z =>
      Do (R := vendR) (CacheAdd k (mkCached c (Expiration c) now)) (fun _ => Ret tt))
  end.

(** [Invalidate]; nothing calls it. *)
Definition InvalidateCreds (k : cacheKey) : vendProg unit :=
  Do (R := vendR) (CacheRemove k) (fun _ => Ret tt).

(** ** The service ([service.go]) *)

Definition keyOf (tenantID : gostring) (table : TableRef) (region : gostring) : cacheKey :=
  mkCacheKey tenantID (Prelude.join "." (ref_Namespace table)) (ref_Name table) region.

Definition Issue (tenantID : gostring) (ad : adapter) (table : TableRef) (region : gostring)
  : vendProg (result cred_err (option STSCredentials)) :=
  let engineName := caps_Name (ad_caps ad) in
  let k := keyOf tenantID table region in
  bind (Get k) (fun hit =>
  match hit with
  | Some creds => Ret (Ok (Some creds))
  | None =>
      Do (R := vendR) (Count (TokenRefresh engineName)) (fun _ =>
      if negb (SupportsCredVend (ad_caps ad)) then Ret (Err ErrEngineNotSupported)
      else
        Do (R := vendR) (IssueSTS tenantID ad table region)
          (fun r : result issue_err (option STSCredentials) =>
        match r with
        | Err AdapterStub => Ret (Err ErrEngineNotSupported)
        | Err OtherError => Ret (Err ErrCredVendUnavailable)
        | Ok creds =>
            bind (Add k creds) (fun _ =>
            Do (R := vendR) (Count (TokenIssued engineName region)) (fun _ => Ret (Ok creds)))
        end))
  end).

(** ** The handler ([handler.go]) *)

(** [^[a-zA-Z0-9_.\-]+$]. *)
Definition vendByte (c : ascii) : bool :=
  isUpper c || isLower c || isDigit c || bool_decide (c ∈ ["_"; "."; "-"]%char).
Definition vendIdentifier (s : gostring) : bool :=
  negb (bool_decide (s = [])) && forallb vendByte s.

Definition maxRequestBodyBytes : N := 8192.

Record issueSTSRequest := mkSTSRequest {
  CatalogNickname : gostring; q_Namespace : gostring; q_Name : gostring; q_Region : gostring
}.

Inductive vendResponse :=
  | Vended (creds : STSCredentials)
  | VendError (code : Z) (text : gostring)
  | VendPanic.

Definition unavailable : vendResponse := VendError 503 "credential vending unavailable".

(** What the handler makes of the result of [Issue]; nil credentials are
    dereferenced. *)
Definition answerIssue (engine : gostring) (r : result cred_err (option STSCredentials))
  : vendProg vendResponse :=
  match r with
  | Ok (Some c) => Ret (Vended c)
  | Ok None => Ret VendPanic
  | Err ErrEngineNotSupported =>
      Do (R := vendR) (Count (TokenFailure engine "engine_not_supported")) (fun _ =>
        Ret (VendError 501 "credential vending: engine not supported"))
  | Err ErrCredVendUnavailable =>
      Do (R := vendR) (Count (TokenFailure engine "issue_failed")) (fun _ => Ret unavailable)
  end.

(** From the lookup of the catalog on. *)
Definition vendFor (tenantID : gostring) (q : issueSTSRequest) : vendProg vendResponse :=
  Do (R := vendR) (LoadCreds tenantID (CatalogNickname q)) (fun l : loaded =>
  match l with
  | NotFound => Ret (VendError 404 "catalog credentials not found")
  | StoreFailed =>
      Do (R := vendR) (Count (TokenFailure "unknown" "cred_store_error")) (fun _ =>
        Ret unavailable)
  | Found c =>
      Do (R := vendR) (BuildAdapter c) (fun caps : option Capabilities =>
      match caps with
      | None =>
          Do (R := vendR) (Count (TokenFailure (Kind c) "adapter_build_error")) (fun _ =>
            Ret unavailable)
      | Some caps =>
          bind (Issue tenantID (mkAdapter c caps) (mkTableRef [q_Namespace q] (q_Name q)) (q_Region q))
            (answerIssue (caps_Name caps))
      end)
  end).

(** The first field that is no identifier. *)
Definition badField (q : issueSTSRequest) : option gostring :=
  if negb (vendIdentifier (CatalogNickname q)) then Some ("catalog_nickname" : gostring)
  else if negb (vendIdentifier (q_Namespace q)) then Some ("table_namespace" : gostring)
  else if negb (vendIdentifier (q_Name q)) then Some ("table_name" : gostring)
  else if negb (vendIdentifier (q_Region q)) then Some ("region" : gostring)
  else None.

Record vendRequest := mkVendRequest { vr_tenant : option gostring; vr_body : gostring }.

Section handler.
(** The decoder of the first JSON value of a stream. *)
Context (decodeRequest : gostring -> option issueSTSRequest).

(** [MaxBytesReader] cuts the stream; a value that is complete by then is
    decoded. *)
Definition VendHandler (r : vendRequest) : vendProg vendResponse :=
  match vr_tenant r with
  | None => Ret (VendError 500 "tenant missing from context")
  | Some tenantID =>
      match decodeRequest (take (N.to_nat maxRequestBodyBytes) (vr_body r)) with
      | None => Ret (VendError 400 "invalid request body")
      | Some q =>
          match badField q with
          | Some f => Ret (VendError 400 ("invalid " ++ f))
          | None => vendFor tenantID q
          end
      end
  end.

(** ** Requests side by side *)

(** An adapter call that succeeded. *)
Record issuance := mkIssuance {
  is_tenant : gostring; is_adapter : adapter; is_table : TableRef; is_region : gostring;
  is_creds : STSCredentials; is_time : Z
}.

Context {C : Type} `{!Lru cacheKey cachedCreds C}.

Record vworld := mkVWorld { w_cache : C; w_clock : Z; w_log : list issuance }.

(** What a call may answer and leave behind: the cache is the one shared by all
    requests; the store, the adapters and the outcome of a vend are free. *)
Definition vperforms (c : vendCall) (w : vworld) : vendR c -> vworld -> Prop :=
  match c return vendR c -> vworld -> Prop with
  | CacheGet k => fun r w' =>
      r = (lru_get k (w_cache w)).1 /\
      w' = mkVWorld (lru_get k (w_cache w)).2 (w_clock w) (w_log w)
  | CacheAdd k e => fun _ w' => w' = mkVWorld (lru_add k e (w_cache w)) (w_clock w) (w_log w)
  | CacheRemove k => fun _ w' => w' = mkVWorld (lru_remove k (w_cache w)) (w_clock w) (w_log w)
  | Clock => fun r w' => r = w_clock w /\ w' = w
  | LoadCreds _ nickname => fun r w' =>
      match r with Found c => Nickname c = nickname | _ => True end /\ w' = w
  | BuildAdapter _ => fun _ w' => w' = w
  | IssueSTS tid ad t reg => fun r w' =>
      w' = match r with
           | Ok (Some cr) =>
               mkVWorld (w_cache w) (w_clock w)
                 (mkIssuance tid ad t reg cr (w_clock w) :: w_log w)
           | _ => w
           end
  | Count _ => fun _ w' => w' = w
  end.

Record vprocess := mkVProc { vp_req : vendRequest; vp_start : Z; vp_prog : vendProg vendResponse }.

(** Time passes, a request arrives, or a request makes its next call. *)
Inductive vstep : vworld * list vprocess -> vworld * list vprocess -> Prop :=
  | vstep_tick w ps d :
      vstep (w, ps) (mkVWorld (w_cache w) (w_clock w + Z.of_N d) (w_log w), ps)
  | vstep_request w ps r :
      vstep (w, ps) (w, ps ++ [mkVProc r (w_clock w) (VendHandler r)])
  | vstep_call w w' ps i req t c k r :
      ps !! i = Some (mkVProc req t (Do c k)) ->
      vperforms c w r w' ->
      vstep (w, ps) (w', <[i := mkVProc req t (k r)]> ps).
End handler.

(** ** The session policy ([sessionpolicy.go]) *)

(** The bytes before the first slash. *)
Fixpoint beforeSlash (s : gostring) : option gostring :=
  match s with
  | [] => None
  | c :: s => if bool_decide (c = "/"%char) then Some [] else p ← beforeSlash s; Some (c :: p)
  end.

Definition extractBucketFromWarehouse (warehouse : gostring) : option gostring :=
  if hasPrefix "s3://" warehouse then
    match beforeSlash (drop 5 warehouse) with
    | Some [] | None => None
    | Some bucket => Some bucket
    end
  else None.

Definition tableS3PrefixFromRef (ref : TableRef) : gostring :=
  Prelude.join "/" (ref_Namespace ref ++ [ref_Name ref]).

Definition policyResource (bucket : gostring) (table : TableRef) : gostring :=
  "arn:aws:s3:::" ++ bucket ++ "/" ++ tableS3PrefixFromRef table ++ "/*".

(** [json.Marshal] of the document, field by field. *)
Definition policyText (resource region : gostring) : gostring :=
  "{" ++ quoteJSON "Version" ++ ":" ++ quoteJSON "2012-10-17" ++ "," ++
  quoteJSON "Statement" ++ ":[{" ++
  quoteJSON "Effect" ++ ":" ++ quoteJSON "Allow" ++ "," ++
  quoteJSON "Action" ++ ":" ++ quoteJSON "s3:PutObject" ++ "," ++
  quoteJSON "Resource" ++ ":[" ++ quoteJSON resource ++ "]," ++
  quoteJSON "Condition" ++ ":{" ++ quoteJSON "StringEquals" ++ ":{" ++
  quoteJSON "aws:RequestedRegion" ++ ":" ++ quoteJSON region ++ "}}}]}".

Definition Build (table : TableRef) (region warehouse : gostring) : option gostring :=
  bucket ← extractBucketFromWarehouse warehouse;
  Some (policyText (policyResource bucket table) region).

(** ** Polaris ([sts.go], [adapter.go]) *)

Definition polarisKeyAccessKeyID : gostring := "s3.access-key-id".
Definition polarisKeySecretAccessKey : gostring := "s3.secret-access-key".
Definition polarisKeySessionToken : gostring := "s3.session-token".
Definition polarisKeySessionExpiry : gostring := "s3.session-expiration".

(** [time.RFC3339Nano], [time.RFC3339], and one seen in the wild. *)
Definition expiryLayouts : list gostring :=
  ["2006-01-02T15:04:05.999999999Z07:00"; "2006-01-02T15:04:05Z07:00"; "2006-01-02T15:04:05Z"].

(** The zero [time.Time], year 1. *)
Definition zeroTime : Z := (-62135596800 * 1000000000)%Z.

Inductive polaris_err := PolicyMalformed | LoadFailed | MissingKey (key : gostring) | BadExpiry.

Section polaris.
(** [time.Parse]. *)
Context (timeParse : gostring -> gostring -> option Z).

Fixpoint firstLayout (layouts : list gostring) (s : gostring) : option Z :=
  match layouts with
  | [] => None
  | l :: layouts =>
      match timeParse l s with Some t => Some t | None => firstLayout layouts s end
  end.

Definition parseExpiry (s : gostring) : option Z :=
  if bool_decide (s = []) then Some zeroTime
  else
    match firstLayout expiryLayouts s with
    | Some t => Some t
    | None =>
        match Atoi s with
        | Some ms => if (0 <? ms)%Z then Some (ms * 1000000)%Z else None
        | None => None
        end
    end.

(** A missing key of a Go map reads as the empty string. *)
Definition parseVendedCreds (config : gmap gostring gostring)
  : result polaris_err STSCredentials :=
  let get k := default [] (config !! k) in
  let accessKeyID := get polarisKeyAccessKeyID in
  let secretAccessKey := get polarisKeySecretAccessKey in
  let sessionToken := get polarisKeySessionToken in
  if bool_decide (accessKeyID = []) then Err (MissingKey polarisKeyAccessKeyID)
  else if bool_decide (secretAccessKey = []) then Err (MissingKey polarisKeySecretAccessKey)
  else if bool_decide (sessionToken = []) then Err (MissingKey polarisKeySessionToken)
  else
    match parseExpiry (get polarisKeySessionExpiry) with
    | None => Err BadExpiry
    | Some t => Ok (mkSTS accessKeyID secretAccessKey sessionToken t [])
    end.

Definition toIdentifier (ref : TableRef) : list gostring := ref_Namespace ref ++ [ref_Name ref].

(** [loadTable] is asked with the session policy and an identifier. *)
Definition IssueScopedSTSCredentials
    (loadTable : gostring -> list gostring -> option (gmap gostring gostring))
    (warehouse : gostring) (table : TableRef) (region : gostring)
  : result polaris_err STSCredentials :=
  match Build table region warehouse with
  | None => Err PolicyMalformed
  | Some policyJSON =>
      match loadTable policyJSON (toIdentifier table) with
      | None => Err LoadFailed
      | Some properties =>
          c ← parseVendedCreds properties;
          Ok (mkSTS (AccessKeyID c) (SecretAccessKey c) (SessionToken c) (Expiration c) region)
      end
  end.
End polaris.
