(* ===== verification/CredvendSpec.v ===== *)
(** * Credential vending: what is vended to whom

    Whatever requests interleave, vended credentials come from an adapter call
    for the same tenant, table and region, and are not stale; the catalog is no
    part of that; the session policy grants exactly the keys under one table
    directory; partial credentials are never vended. *)

From S2P Require Import Prelude Effects Lru PolicyStore JsonText Credvend.
From stdpp Require Import relations.
From Stdlib Require Import Lia.
#[local] Open Scope go_scope.

(** ** Provenance *)

(** An entry that records a vend for its key. *)
Definition recorded (k : cacheKey) (e : cachedCreds) (log : list issuance) : Prop :=
  expiresAt e = Expiration (cc_creds e) /\
  exists i, i ∈ log /\ keyOf (is_tenant i) (is_table i) (is_region i) = k /\
    is_creds i = cc_creds e.

(** Credentials an adapter was asked for with this tenant, table and region:
    during the request, or before it and not expired at some time in it. *)
Definition justified (tid : gostring) (q : issueSTSRequest) (start now : Z)
    (log : list issuance) (c : STSCredentials) : Prop :=
  exists i, i ∈ log /\ is_tenant i = tid /\
    Prelude.join "." (ref_Namespace (is_table i)) = q_Namespace q /\
    ref_Name (is_table i) = q_Name q /\ is_region i = q_Region q /\ is_creds i = c /\
    ((start <= is_time i <= now)%Z \/
     exists t, (start <= t <= now)%Z /\ (t <= Expiration c)%Z).

Definition admissible (c : vendCall) (log : list issuance) (now : Z) : vendR c -> Prop :=
  match c return vendR c -> Prop with
  | CacheGet k => fun r => forall e, r = Some e -> recorded k e log
  | Clock => fun r => r = now
  | _ => fun _ => True
  end.

Definition logAfter (c : vendCall) (log : list issuance) (now : Z) : vendR c -> list issuance :=
  match c return vendR c -> list issuance with
  | IssueSTS tid ad t reg => fun r =>
      match r with
      | Ok (Some cr) => mkIssuance tid ad t reg cr now :: log
      | _ => log
      end
  | _ => fun _ => log
  end.

(** A program that, while the log and the clock advance under it, puts only
    recorded entries into the cache and vends only what satisfies [Q]. *)
Fixpoint safe {A} (Q : A -> list issuance -> Z -> Prop) (p : vendProg A) (log : list issuance)
    (now : Z) : Prop :=
  match p with
  | Ret a => Q a log now
  | Do c k =>
      forall log' now', log ⊆ log' -> (now <= now')%Z ->
      match c with CacheAdd k e => recorded k e log' | _ => True end /\
      forall r, admissible c log' now' r -> safe Q (k r) (logAfter c log' now' r) now'
  end.

Definition stable {A} (Q : A -> list issuance -> Z -> Prop) : Prop :=
  forall a log log' now now', Q a log now -> log ⊆ log' -> (now <= now')%Z -> Q a log' now'.

Lemma vend_safe_stable {A} (Q : A -> list issuance -> Z -> Prop) p log log' now now' :
  stable Q -> safe Q p log now -> log ⊆ log' -> (now <= now')%Z -> safe Q p log' now'.
Proof.
  intros HQ. destruct p as [a|c k]; cbn [safe]; [by eauto|].
  intros Hs Hl Hn log2 now2 Hl2 Hn2. apply Hs; [by etransitivity|lia].
Qed.

Lemma vend_safe_bind {A B} (P : A -> list issuance -> Z -> Prop) (Q : B -> list issuance -> Z -> Prop)
    (p : vendProg A) (f : A -> vendProg B) log now :
  safe P p log now -> (forall a log now, P a log now -> safe Q (f a) log now) ->
  safe Q (bind p f) log now.
Proof.
  intros Hp Hf. revert log now Hp; induction p as [a|c k IH]; intros log now Hp; cbn [bind safe] in *.
  { by apply Hf. }
  intros log' now' Hl Hn. destruct (Hp _ _ Hl Hn) as [Hc Hk]. split; [done|].
  intros r Hr. by apply IH, Hk.
Qed.

Lemma recorded_mono k e log log' : recorded k e log -> log ⊆ log' -> recorded k e log'.
Proof. intros (He & i & Hi & Hr) Hl. split; [done|]. exists i. auto. Qed.

Lemma justified_mono tid q start now now' log log' c :
  justified tid q start now log c -> log ⊆ log' -> (now <= now')%Z ->
  justified tid q start now' log' c.
Proof.
  intros (i & Hi & Ht & Hn & Hm & Hr & Hc & H) Hl Hle. exists i. split_and!; auto.
  destruct H as [H|(t & H & He)]; [left; lia|right; exists t; split; [lia|done]].
Qed.

Lemma logAfter_sub c log now r : log ⊆ logAfter c log now r.
Proof.
  destruct c; cbn [logAfter]; try done. destruct r as [[cr|]|]; [by apply list_subseteq_cons|done..].
Qed.

Section provenance.
Context (tid : gostring) (q : issueSTSRequest) (start : Z).

Definition grantedBy (r : option STSCredentials) (log : list issuance) (now : Z) : Prop :=
  forall c, r = Some c -> justified tid q start now log c.

Lemma grantedBy_stable : stable grantedBy.
Proof. intros r log log' now now' H Hl Hn c ->. eapply justified_mono; eauto. Qed.

Definition table := mkTableRef [q_Namespace q] (q_Name q).
Definition key := keyOf tid table (q_Region q).

Lemma Get_safe log now : (start <= now)%Z -> safe grantedBy (Get key) log now.
Proof.
  intros Hs. unfold Get. cbn [safe]. intros log1 n1 Hl1 Hn1. split; [done|].
  intros [e|] Hr; cbn [safe logAfter]; [|done].
  destruct (Hr e eq_refl) as (He & i & Hi & Hk & Hc). clear Hr.
  intros log2 n2 Hl2 Hn2. split; [done|]. intros ? ->. cbn [logAfter].
  destruct (expiresAt e <? n2)%Z eqn:Ee.
  { cbn [safe]. intros. split; [done|]. intros [] _. by cbn [safe]. }
  destruct (midpoint e <? n2)%Z.
  { cbn [safe]. intros. split; [done|]. intros [] _. by cbn [safe]. }
  cbn [safe]. intros c [= <-]. unfold key, keyOf in Hk. injection Hk as Ht Hn Hm Hr.
  exists i. split_and!; [auto|done|done|done|done|done|]. right. exists n2.
  apply Z.ltb_ge in Ee. rewrite He in Ee. split; [lia|done].
Qed.

Definition issuedTo (r : result cred_err (option STSCredentials)) : list issuance -> Z -> Prop :=
  grantedBy (match r with Ok c => c | Err _ => None end).

Lemma Issue_safe ad log now :
  (start <= now)%Z -> safe issuedTo (Issue tid ad table (q_Region q)) log now.
Proof.
  intros Hs. unfold Issue. eapply (vend_safe_bind (fun r log now => grantedBy r log now /\ (start <= now)%Z)).
  { assert (forall p log now, (start <= now)%Z -> safe grantedBy p log now ->
      safe (fun r log now => grantedBy r log now /\ (start <= now)%Z) p log now) as H.
    { intros p. induction p as [a|c k IH]; cbn [safe]; [done|].
      intros l n Hn Hp l' n' Hl' Hn'. destruct (Hp l' n' Hl' Hn') as [Hc Hk].
      split; [done|]. intros r Hr. apply IH; [lia|]. by apply Hk. }
    apply H; [done|]. by apply Get_safe. }
  intros [c|] log1 n1 [Hg Hn1]; [exact Hg|]. cbn [safe]. clear Hg.
  intros log2 n2 _ Hn2. split; [done|]. intros [] _. cbn [logAfter].
  destruct (negb (SupportsCredVend (ad_caps ad))); [by cbn [safe]|]. cbn [safe].
  intros log3 n3 _ Hn3. split; [done|]. intros [[cr|]|[]] _; cbn [logAfter bind Credvend.Add safe];
    try (by cbn [safe]).
  set (i := mkIssuance tid ad table (q_Region q) cr n3).
  intros log4 n4 Hl4 Hn4. split; [done|]. intros ? ->. cbn [logAfter safe].
  intros log5 n5 Hl5 Hn5. assert (i ∈ log5) as Hi by (apply Hl5, Hl4; by constructor). split.
  { split; [done|]. by exists i. }
  intros [] _. cbn [logAfter safe]. intros log6 n6 Hl6 Hn6. split; [done|]. intros [] _.
  cbn [logAfter safe]. intros c [= <-]. exists i. split_and!; auto. left. cbn. lia.
Qed.

(** What a response to the request owes. *)
Definition owed (a : vendResponse) (log : list issuance) (now : Z) : Prop :=
  forall c, a = Vended c -> justified tid q start now log c.

Lemma vendFor_safe log now : (start <= now)%Z -> safe owed (vendFor tid q) log now.
Proof.
  intros Hs. unfold vendFor. cbn [safe]. intros log1 n1 _ Hn1. split; [done|].
  assert (forall m x log now, safe owed
    (Do (R := vendR) (Count m) (fun _ => Ret (VendError x.1 x.2))) log now) as Herr.
  { intros m x l n. cbn [safe]. intros. split; [done|]. intros [] _. cbn [safe]. by intros c [=]. }
  intros [c| |] _; cbn [logAfter]; [|by cbn [safe]; intros c [=]|by apply (Herr _ (_, _))].
  cbn [safe]. intros log2 n2 _ Hn2. split; [done|]. intros [caps|] _; cbn [logAfter];
    [|by apply (Herr _ (_, _))].
  eapply vend_safe_bind; [apply Issue_safe; lia|].
  intros [[cr|]|[]] log3 n3 H; cbn [answerIssue]; try by apply (Herr _ (_, _)).
  - cbn [safe]. intros c' [= <-]. by apply H.
  - cbn [safe]. by intros c' [=].
Qed.
End provenance.

(** What any request owes: the tenant of its context, and a body of four
    identifiers. *)
Definition owes (decode : gostring -> option issueSTSRequest) (r : vendRequest) (start : Z)
    (a : vendResponse) (log : list issuance) (now : Z) : Prop :=
  forall c, a = Vended c ->
    exists tid q, vr_tenant r = Some tid /\
      decode (take (N.to_nat maxRequestBodyBytes) (vr_body r)) = Some q /\ badField q = None /\
      justified tid q start now log c.

Lemma VendHandler_safe decode r log now :
  safe (owes decode r now) (VendHandler decode r) log now.
Proof.
  unfold VendHandler. destruct (vr_tenant r) as [tid|] eqn:Et; [|by intros c [=]].
  destruct (decode _) as [q|] eqn:Eq; [|by intros c [=]].
  destruct (badField q) as [f|] eqn:Ef; [by intros c [=]|].
  assert (forall p log now0, safe (owed tid q now) p log now0 -> safe (owes decode r now) p log now0)
    as H.
  { intros p. induction p as [a|c k IH]; cbn [safe].
    - intros l n Ho c Hc. exists tid, q. split_and!; [done|done|done|by apply Ho].
    - intros l n Hp l' n' Hl Hn. destruct (Hp l' n' Hl Hn) as [Hc Hk]. split; [done|].
      intros x Hx. by apply IH, Hk. }
  apply H, vendFor_safe. lia.
Qed.

Lemma owes_stable decode r start : stable (owes decode r start).
Proof.
  intros a log log' now now' H Hl Hn c Hc. destruct (H c Hc) as (tid & q & Ht & Hq & Hb & Hj).
  exists tid, q. split_and!; [done|done|done|]. by eapply justified_mono.
Qed.

Section runs.
Context (decode : gostring -> option issueSTSRequest) {C : Type} `{!Lru cacheKey cachedCreds C}.

Definition vinv (s : vworld (C := C) * list vprocess) : Prop :=
  (forall k e, lru_contents (w_cache s.1) !! k = Some e -> recorded k e (w_log s.1)) /\
  forall p, p ∈ s.2 ->
    safe (owes decode (vp_req p) (vp_start p)) (vp_prog p) (w_log s.1) (w_clock s.1).

Lemma vperforms_spec c (w : vworld (C := C)) r w' :
  (forall k e, lru_contents (w_cache w) !! k = Some e -> recorded k e (w_log w)) ->
  match c with CacheAdd k e => recorded k e (w_log w) | _ => True end ->
  vperforms c w r w' ->
  admissible c (w_log w) (w_clock w) r /\ w_log w' = logAfter c (w_log w) (w_clock w) r /\
  w_clock w' = w_clock w /\
  forall k e, lru_contents (w_cache w') !! k = Some e -> recorded k e (w_log w').
Proof.
  intros Hcache Hadd Hp. destruct c as [k|k e|k| |t n|x|t ad tb rg|m]; cbn in Hp |- *.
  - destruct Hp as [-> ->]. cbn. split_and!; [|done|done|].
    + intros e. rewrite lru_get_value. apply Hcache.
    + intros k' e. rewrite lru_get_contents. apply Hcache.
  - subst w'. cbn. split_and!; [done|done|done|].
    intros k' e' [[-> ->]|H]%lru_add_inv; [done|by apply Hcache].
  - subst w'. cbn. split_and!; [done|done|done|]. intros k' e'.
    rewrite lru_remove_contents. intros [_ H]%lookup_delete_Some. by apply Hcache.
  - by destruct Hp as [-> ->].
  - by destruct Hp as [_ ->].
  - by subst.
  - subst w'. destruct r as [[cr|]|]; cbn; (split_and!; [done..|]); [|exact Hcache..].
    intros k e He. eapply recorded_mono; [by apply Hcache|by apply list_subseteq_cons].
  - subst w'. by split_and!.
Qed.

Lemma vinv_step s s' : vinv s -> vstep decode s s' -> vinv s'.
Proof.
  intros [Hcache Hps]. destruct 1 as [w ps d|w ps r|w w' ps i req t c k r Hi Hp].
  - split; [done|]. intros p Hin. cbn in *.
    eapply vend_safe_stable; [apply owes_stable|by apply Hps|done|lia].
  - split; [done|]. cbn in *. intros p [Hin|Hin%list_elem_of_singleton]%elem_of_app; [by apply Hps|].
    subst p. cbn. apply VendHandler_safe.
  - cbn in *. assert (mkVProc req t (Do c k) ∈ ps) as Hin by (by eapply list_elem_of_lookup_2).
    destruct (Hps _ Hin (w_log w) (w_clock w)) as [Hadd Hk]; [done|lia|]. cbn in Hadd, Hk.
    destruct (vperforms_spec c w r w' Hcache Hadd Hp) as (Hr & Hlog & Hclock & Hc).
    split; [done|]. intros p Hp'. cbn in *.
    apply list_elem_of_lookup in Hp' as [j Hj]. rewrite Hlog, Hclock.
    destruct (decide (i = j)) as [<-|Hne].
    + rewrite list_lookup_insert_eq in Hj by (by eapply lookup_lt_Some). injection Hj as <-.
      cbn. by apply Hk.
    + rewrite list_lookup_insert_ne in Hj by done. apply list_elem_of_lookup_2 in Hj.
      eapply vend_safe_stable; [apply owes_stable|by apply Hps|apply logAfter_sub|lia].
Qed.

Lemma vinv_reachable s s' : vinv s -> rtc (vstep decode) s s' -> vinv s'.
Proof. intros Hs. induction 1 as [|s1 s2 s3 H _ IH]; [done|]. by eapply IH, vinv_step. Qed.

(** (C6) Who gets what: however requests interleave on the shared cache, whatever the
    store and the adapters answer, a response with credentials goes to a
    request whose four fields are identifiers, and the credentials are what
    some adapter returned when asked with the tenant of the request's context,
    its table and its region: while the request was served, or before and then
    not expired at a time the request was served. *)
Theorem vend_provenance cache clock s w ps req start c :
  lru_contents cache = ∅ ->
  rtc (vstep decode) (mkVWorld cache clock [], []) s -> s = (w, ps) ->
  mkVProc req start (Ret (Vended c)) ∈ ps ->
  exists tid q, vr_tenant req = Some tid /\
    decode (take (N.to_nat maxRequestBodyBytes) (vr_body req)) = Some q /\ badField q = None /\
    justified tid q start (w_clock w) (w_log w) c.
Proof.
  intros Hc Hr -> Hin.
  assert (vinv (w, ps)) as [_ Hps].
  { eapply vinv_reachable; [|exact Hr]. split; cbn.
    - intros k e. by rewrite Hc, lookup_empty.
    - intros p Hp. by apply elem_of_nil in Hp. }
  exact (Hps _ Hin c eq_refl).
Qed.
End runs.

(** ** One request after another *)

Section alone.
(** The store, the capabilities of the adapters and what they return. *)
Context (load : gostring -> gostring -> loaded) (capsOf : Credentials -> option Capabilities).
Context (vend : adapter -> TableRef -> gostring -> result issue_err (option STSCredentials)).
Context (load_nickname : forall t n c, load t n = Found c -> Nickname c = n).
Context {C : Type} `{!Lru cacheKey cachedCreds C}.

(** The answer and effect of a call. *)
Definition vserve (c : vendCall) (w : vworld (C := C)) : vendR c * vworld (C := C) :=
  match c return vendR c * vworld with
  | CacheGet k =>
      ((lru_get k (w_cache w)).1, mkVWorld (lru_get k (w_cache w)).2 (w_clock w) (w_log w))
  | CacheAdd k e => (tt, mkVWorld (lru_add k e (w_cache w)) (w_clock w) (w_log w))
  | CacheRemove k => (tt, mkVWorld (lru_remove k (w_cache w)) (w_clock w) (w_log w))
  | Clock => (w_clock w, w)
  | LoadCreds t n => (load t n, w)
  | BuildAdapter c => (capsOf c, w)
  | IssueSTS tid ad t reg =>
      (vend ad t reg,
       match vend ad t reg with
       | Ok (Some cr) =>
           mkVWorld (w_cache w) (w_clock w) (mkIssuance tid ad t reg cr (w_clock w) :: w_log w)
       | _ => w
       end)
  | Count _ => (tt, w)
  end.

Fixpoint vendAlone {A} (p : vendProg A) (w : vworld (C := C)) : A * vworld (C := C) :=
  match p with
  | Ret a => (a, w)
  | Do c k => vendAlone (k (vserve c w).1) (vserve c w).2
  end.

Lemma vserve_performs c w : vperforms c w (vserve c w).1 (vserve c w).2.
Proof.
  destruct c as [k|k e|k| |t n|x|t ad tb rg|m]; cbn; try done. split; [|done].
  destruct (load t n) as [c| |] eqn:E; [by eapply load_nickname|done..].
Qed.

(** A process that runs on its own is a run of the system. *)
Lemma vendAlone_steps decode p w ps i req t :
  ps !! i = Some (mkVProc req t p) ->
  rtc (vstep decode) (w, ps)
    ((vendAlone p w).2, <[i := mkVProc req t (Ret (vendAlone p w).1)]> ps).
Proof.
  revert w ps; induction p as [a|c k IH]; intros w ps Hi; cbn [vendAlone fst snd].
  { by rewrite list_insert_id. }
  eapply rtc_l; [exact (vstep_call _ _ _ _ _ _ _ _ _ _ Hi (vserve_performs c w))|].
  specialize (IH (vserve c w).1 (vserve c w).2 (<[i := mkVProc req t (k (vserve c w).1)]> ps)).
  rewrite list_insert_insert_eq in IH. apply IH, list_lookup_insert_eq. by eapply lookup_lt_Some.
Qed.

Lemma midpoint_fresh e : (issuedAt e <= expiresAt e)%Z -> (issuedAt e <= midpoint e)%Z.
Proof.
  intros H. unfold midpoint, timeSub.
  assert (0 <= Z.quot (Z.max (- 2 ^ 63) (Z.min (2 ^ 63 - 1) (expiresAt e - issuedAt e))) 2)%Z;
    [|lia]. apply Z.quot_pos; lia.
Qed.

(** The catalog is no part of the key: after one request of a tenant was vended
    the credentials of one of its catalogs, a request that names another
    catalog, with the same table and region, gets the same credentials; its
    own catalog is not asked, and need not even support vending. *)
Theorem vend_ignores_catalog decode tid q1 q2 r1 r2 c1 c2 caps1 caps2 cr (w : vworld (C := C)) :
  vr_tenant r1 = Some tid -> vr_tenant r2 = Some tid ->
  decode (take (N.to_nat maxRequestBodyBytes) (vr_body r1)) = Some q1 ->
  decode (take (N.to_nat maxRequestBodyBytes) (vr_body r2)) = Some q2 ->
  badField q1 = None -> badField q2 = None ->
  q_Namespace q1 = q_Namespace q2 -> q_Name q1 = q_Name q2 -> q_Region q1 = q_Region q2 ->
  load tid (CatalogNickname q1) = Found c1 -> load tid (CatalogNickname q2) = Found c2 ->
  capsOf c1 = Some caps1 -> SupportsCredVend caps1 = true -> capsOf c2 = Some caps2 ->
  let t := mkTableRef [q_Namespace q1] (q_Name q1) in
  vend (mkAdapter c1 caps1) t (q_Region q1) = Ok (Some cr) ->
  (w_clock w <= Expiration cr)%Z ->
  lru_contents (w_cache w) !! keyOf tid t (q_Region q1) = None ->
  let w1 := vendAlone (VendHandler decode r1) w in
  let w2 := vendAlone (VendHandler decode r2) w1.2 in
  w1.1 = Vended cr /\ w2.1 = Vended cr /\
  w_log w2.2 = mkIssuance tid (mkAdapter c1 caps1) t (q_Region q1) cr (w_clock w) :: w_log w.
Proof.
  intros T1 T2 D1 D2 B1 B2 En Em Er L1 L2 K1 S1 K2 t V He Hmiss.
  assert (vendAlone (VendHandler decode r1) w =
    (Vended cr, mkVWorld
      (lru_add (keyOf tid t (q_Region q1)) (mkCached cr (Expiration cr) (w_clock w))
        (lru_get (keyOf tid t (q_Region q1)) (w_cache w)).2)
      (w_clock w)
      (mkIssuance tid (mkAdapter c1 caps1) t (q_Region q1) cr (w_clock w) :: w_log w))) as ->.
  { unfold VendHandler, vendFor. rewrite T1, D1, B1.
    cbn [vendAlone vserve fst snd]. rewrite L1. cbn [vendAlone vserve fst snd]. rewrite K1.
    unfold Issue, Get. fold t. cbn [bind vendAlone vserve fst snd].
    rewrite lru_get_value, Hmiss. cbn [bind vendAlone vserve fst snd ad_caps]. rewrite S1.
    cbn [negb bind vendAlone vserve fst snd]. rewrite V. reflexivity. }
  cbn zeta. split; [done|].
  unfold VendHandler, vendFor. rewrite T2, D2, B2.
  cbn [vendAlone vserve fst snd]. rewrite L2. cbn [vendAlone vserve fst snd]. rewrite K2.
  unfold Issue, Get. rewrite <- En, <- Em, <- Er. fold t.
  cbn [bind vendAlone vserve fst snd w_cache w_clock w_log].
  rewrite lru_get_value, lru_add_same.
  cbn [bind vendAlone vserve fst snd w_cache w_clock w_log expiresAt].
  assert ((Expiration cr <? w_clock w)%Z = false) as -> by lia.
  assert ((midpoint (mkCached cr (Expiration cr) (w_clock w)) <? w_clock w)%Z = false) as ->.
  { apply Z.ltb_ge. by apply (midpoint_fresh (mkCached cr (Expiration cr) (w_clock w))). }
  split; reflexivity.
Qed.
End alone.

(** ** A request that misses the cache *)

(** The way of a request that is in order and finds nothing in the cache: its calls
    and its response for each answer of the adapter.  Only credentials are
    cached; an engine without vending is told apart (501) from one that fails
    (503), and either counts as a failure. *)
Theorem vend_on_miss decode (o : env vendR) r tid q c caps now :
  vr_tenant r = Some tid ->
  decode (take (N.to_nat maxRequestBodyBytes) (vr_body r)) = Some q -> badField q = None ->
  (forall h, o h (LoadCreds tid (CatalogNickname q)) = Found c) ->
  (forall h, o h (BuildAdapter c) = Some caps) ->
  (forall h k, o h (CacheGet k) = None) -> (forall h, o h Clock = now) ->
  forall answer,
  let t := mkTableRef [q_Namespace q] (q_Name q) in
  let k := keyOf tid t (q_Region q) in
  let engine := caps_Name caps in
  (forall h, o h (IssueSTS tid (mkAdapter c caps) t (q_Region q)) = answer) ->
  let '(a, tr) := run o [] (VendHandler decode r) in
  let asked := [LoadCreds tid (CatalogNickname q); BuildAdapter c; CacheGet k;
                Count (TokenRefresh engine)] in
  let unsupported := VendError 501 "credential vending: engine not supported" in
  if SupportsCredVend caps then
    let asked := asked ++ [IssueSTS tid (mkAdapter c caps) t (q_Region q)] in
    match answer with
    | Ok (Some cr) =>
        a = Vended cr /\
        calls tr = asked ++ [Clock; CacheAdd k (mkCached cr (Expiration cr) now);
                             Count (TokenIssued engine (q_Region q))]
    | Ok None => a = VendPanic /\ calls tr = asked ++ [Count (TokenIssued engine (q_Region q))]
    | Err AdapterStub =>
        a = unsupported /\ calls tr = asked ++ [Count (TokenFailure engine "engine_not_supported")]
    | Err OtherError =>
        a = unavailable /\ calls tr = asked ++ [Count (TokenFailure engine "issue_failed")]
    end
  else a = unsupported /\ calls tr = asked ++ [Count (TokenFailure engine "engine_not_supported")].
Proof.
  intros Ht Hd Hb Hl Hc Hg Hn answer t k engine Ha. unfold VendHandler, vendFor. rewrite Ht, Hd, Hb.
  cbn [run]. rewrite Hl. cbn [run]. rewrite Hc. unfold Issue, Get. fold t.
  cbn [bind run]. rewrite Hg. cbn [bind run ad_caps].
  destruct (SupportsCredVend caps); cbn [negb bind run answerIssue calls map projT1 ev app];
    [|by split]. rewrite Ha.
  destruct answer as [[cr|]|[]]; cbn [bind run answerIssue Credvend.Add calls map projT1 ev app];
    rewrite ?Hn; by split.
Qed.

(** ** The session policy *)

(** The reading of a resource of an IAM policy: [*] stands for any text and [?]
    for any byte. *)
Fixpoint iamMatch (p s : gostring) : bool :=
  match p with
  | [] => bool_decide (s = [])
  | c :: p =>
      if bool_decide (c = "*"%char) then
        (fix anywhere (s : gostring) : bool :=
           iamMatch p s || match s with [] => false | _ :: s => anywhere s end) s
      else
        match s with
        | [] => false
        | d :: s => (bool_decide (c = "?"%char) || bool_decide (c = d)) && iamMatch p s
        end
  end.

Definition literalByte (c : ascii) : bool := negb (bool_decide (c ∈ ["*"; "?"]%char)).

Lemma iamMatch_literal p r s :
  forallb literalByte p = true ->
  iamMatch (p ++ r) s = true <-> exists t, s = p ++ t /\ iamMatch r t = true.
Proof.
  revert s; induction p as [|c p IH]; intros s; cbn [forallb app].
  { intros _. split; [by exists s|by intros (t & -> & ?)]. }
  rewrite andb_true_iff. unfold literalByte at 1. rewrite negb_true_iff, bool_decide_eq_false.
  rewrite !elem_of_cons. intros [Hc Hp]. cbn [iamMatch].
  rewrite !bool_decide_eq_false_2 by (clear IH; naive_solver). destruct s as [|d s].
  { split; [done|by intros (t & ? & _)]. }
  cbn [orb]. rewrite andb_true_iff, bool_decide_eq_true, IH by done. split.
  - intros [-> (t & -> & Ht)]. by exists t.
  - intros (t & [= -> ->] & Ht). split; [done|by exists t].
Qed.

Lemma iamMatch_any p s t : iamMatch p t = true -> iamMatch ("*"%char :: p) (s ++ t) = true.
Proof.
  intros H. cbn [iamMatch]. rewrite bool_decide_eq_true_2 by done.
  induction s as [|c s IH]; cbn [app].
  - destruct t; by rewrite H.
  - rewrite IH. apply orb_true_r.
Qed.

Lemma iamMatch_star s : iamMatch ["*"%char] s = true.
Proof. rewrite <- (app_nil_r s). by apply iamMatch_any. Qed.

Lemma vendByte_literal c : vendByte c = true -> literalByte c = true.
Proof. by_byte c; by vm_compute. Qed.

Lemma vendByte_noslash c : vendByte c = true -> c <> "/"%char.
Proof. intros H ->. by vm_compute in H. Qed.

Lemma vendByte_ascii c : vendByte c = true -> isASCII c = true.
Proof. by_byte c; by vm_compute. Qed.

Lemma badField_None q :
  badField q = None ->
  forallb vendByte (q_Namespace q) = true /\ forallb vendByte (q_Name q) = true /\
  forallb vendByte (q_Region q) = true.
Proof.
  unfold badField. destruct (vendIdentifier (CatalogNickname q)); [|done]. cbn [negb].
  unfold vendIdentifier. repeat (case_match; try done). intros _.
  repeat match goal with H : negb _ = false |- _ => apply negb_false_iff in H end.
  repeat match goal with H : _ && _ = true |- _ => apply andb_true_iff in H as [? ?] end.
  by split_and!.
Qed.

Lemma forallb_mono (f g : ascii -> bool) s :
  (forall c, f c = true -> g c = true) -> forallb f s = true -> forallb g s = true.
Proof. intros H. rewrite !forallb_forall. auto. Qed.

(** The directory of the table in the bucket. *)
Definition tableDir (bucket : gostring) (q : issueSTSRequest) : gostring :=
  "arn:aws:s3:::" ++ bucket ++ "/" ++ q_Namespace q ++ "/" ++ q_Name q ++ "/".

(** What the session policy grants: for a request that passed validation and a bucket
    without wildcards, the one resource of the policy covers exactly the
    objects of the bucket under <namespace>/<table>/, whatever the request's
    fields are. *)
Theorem session_policy_scope q warehouse bucket :
  badField q = None -> extractBucketFromWarehouse warehouse = Some bucket ->
  forallb literalByte bucket = true ->
  let table := mkTableRef [q_Namespace q] (q_Name q) in
  Build table (q_Region q) warehouse = Some (policyText (policyResource bucket table) (q_Region q)) /\
  forall arn, iamMatch (policyResource bucket table) arn = true <->
    exists key, arn = tableDir bucket q ++ key.
Proof.
  intros Hq Hb Hl table. split; [unfold Build; by rewrite Hb|]. intros arn.
  assert (policyResource bucket table = tableDir bucket q ++ ["*"%char]) as ->.
  { change (policyResource bucket table) with
      ("arn:aws:s3:::" ++ bucket ++ "/" ++ (q_Namespace q ++ "/" ++ q_Name q) ++ "/*").
    unfold tableDir. rewrite <- !app_assoc. reflexivity. }
  apply badField_None in Hq as (Hns & Hname & _).
  rewrite iamMatch_literal.
  - split; [intros (t & -> & _); by exists t|]. intros (t & ->). exists t.
    split; [done|apply iamMatch_star].
  - unfold tableDir. rewrite !forallb_app, Hl.
    rewrite (forallb_mono vendByte literalByte _ vendByte_literal Hns).
    by rewrite (forallb_mono vendByte literalByte _ vendByte_literal Hname).
Qed.

(** Two pieces without a byte, joined by it, are told apart. *)
Lemma split_inj (f : ascii -> bool) c a1 b1 a2 b2 :
  f c = false -> forallb f a1 = true -> forallb f a2 = true ->
  a1 ++ c :: b1 = a2 ++ c :: b2 -> a1 = a2 /\ b1 = b2.
Proof.
  intros Hc. revert a2; induction a1 as [|x a1 IH]; intros [|y a2] H1 H2 E; cbn [app forallb] in *.
  - by injection E.
  - injection E as <- _. by rewrite Hc in H2.
  - injection E as -> _. by rewrite Hc in H1.
  - injection E as <- E. apply andb_true_iff in H1 as [_ H1], H2 as [_ H2].
    by destruct (IH a2 H1 H2 E) as [-> ->].
Qed.

Definition noSlash (c : ascii) : bool := negb (bool_decide (c = "/"%char)).

Lemma vendByte_noSlash c : vendByte c = true -> noSlash c = true.
Proof. by_byte c; by vm_compute. Qed.

Lemma beforeSlash_noSlash s b : beforeSlash s = Some b -> forallb noSlash b = true.
Proof.
  revert b; induction s as [|c s IH]; intros b; cbn [beforeSlash]; [done|].
  destruct (bool_decide (c = "/"%char)) eqn:E; [by intros [= <-]|].
  intros (p & Hp & [= <-])%bind_Some. cbn [forallb]. unfold noSlash at 1. rewrite E. by apply IH.
Qed.

Lemma bucket_noSlash w b : extractBucketFromWarehouse w = Some b -> forallb noSlash b = true.
Proof.
  unfold extractBucketFromWarehouse. destruct (hasPrefix _ _); [|done].
  destruct (beforeSlash _) as [[|c p]|] eqn:E; [done| |done]. intros [= <-].
  by eapply beforeSlash_noSlash.
Qed.

Lemma policyText_inj r1 g1 r2 g2 :
  validUTF8 r1 = true -> validUTF8 r2 = true -> validUTF8 g1 = true -> validUTF8 g2 = true ->
  policyText r1 g1 = policyText r2 g2 -> r1 = r2 /\ g1 = g2.
Proof.
  intros Hr1 Hr2 Hg1 Hg2 E. unfold policyText in E.
  repeat (apply app_inv_head in E).
  apply quoteJSON_inj in E as [-> E]; [|done..]. split; [done|].
  repeat (apply app_inv_head in E). by apply quoteJSON_inj in E as [-> _].
Qed.

Lemma policyResource_inj b1 n1 m1 b2 n2 m2 :
  forallb noSlash b1 = true -> forallb noSlash b2 = true ->
  forallb noSlash n1 = true -> forallb noSlash n2 = true ->
  policyResource b1 (mkTableRef [n1] m1) = policyResource b2 (mkTableRef [n2] m2) ->
  b1 = b2 /\ n1 = n2 /\ m1 = m2.
Proof.
  intros B1 B2 N1 N2 E. unfold policyResource in E. apply app_inv_head in E.
  apply (split_inj noSlash "/"%char) in E as [-> E]; [|done..]. split; [done|].
  change ((n1 ++ "/" ++ m1) ++ "/*" = (n2 ++ "/" ++ m2) ++ "/*") in E.
  apply app_inv_tail in E. by apply (split_inj noSlash "/"%char) in E.
Qed.

(** No two scopes share a policy: requests that passed validation get the same
    policy text only for the same bucket, namespace, table and region. *)
Theorem session_policies_differ q1 q2 w1 w2 b1 b2 policy :
  badField q1 = None -> badField q2 = None ->
  extractBucketFromWarehouse w1 = Some b1 -> extractBucketFromWarehouse w2 = Some b2 ->
  forallb isASCII b1 = true -> forallb isASCII b2 = true ->
  Build (mkTableRef [q_Namespace q1] (q_Name q1)) (q_Region q1) w1 = Some policy ->
  Build (mkTableRef [q_Namespace q2] (q_Name q2)) (q_Region q2) w2 = Some policy ->
  b1 = b2 /\ q_Namespace q1 = q_Namespace q2 /\ q_Name q1 = q_Name q2 /\ q_Region q1 = q_Region q2.
Proof.
  intros V1 V2 E1 E2 A1 A2. unfold Build. rewrite E1, E2.
  intros H1%Some_inj H2%Some_inj. rewrite <- H2 in H1. clear H2.
  apply badField_None in V1 as (N1 & M1 & R1), V2 as (N2 & M2 & R2).
  assert (forall b n m, forallb isASCII b = true -> forallb vendByte n = true ->
    forallb vendByte m = true -> validUTF8 (policyResource b (mkTableRef [n] m)) = true) as Hv.
  { intros b n m Hb Hn Hm. apply ascii_valid.
    change (policyResource b (mkTableRef [n] m)) with
      ("arn:aws:s3:::" ++ b ++ "/" ++ (n ++ "/" ++ m) ++ "/*"). rewrite !forallb_app, Hb.
    rewrite (forallb_mono vendByte isASCII _ vendByte_ascii Hn).
    by rewrite (forallb_mono vendByte isASCII _ vendByte_ascii Hm). }
  apply policyText_inj in H1 as [Hr ->];
    [|by apply Hv|by apply Hv
     |by apply ascii_valid, (forallb_mono vendByte isASCII _ vendByte_ascii)..].
  apply policyResource_inj in Hr as (-> & -> & ->); [done|..];
    [by eapply bucket_noSlash|by eapply bucket_noSlash
    |by apply (forallb_mono vendByte noSlash _ vendByte_noSlash)..].
Qed.

(** A bucket may be a wildcard: the policy then covers every bucket. *)
Lemma wildcard_bucket ns name key bucket :
  forallb literalByte ns = true -> forallb literalByte name = true ->
  extractBucketFromWarehouse "s3://*/warehouse" = Some ["*"%char] /\
  iamMatch (policyResource ["*"%char] (mkTableRef [ns] name))
    ("arn:aws:s3:::" ++ bucket ++ "/" ++ ns ++ "/" ++ name ++ "/" ++ key) = true.
Proof.
  intros Hns Hname. split; [done|]. unfold policyResource.
  rewrite iamMatch_literal by done. eexists. split; [reflexivity|]. apply iamMatch_any.
  change (iamMatch ("/" ++ (ns ++ "/" ++ name) ++ "/*") ("/" ++ ns ++ "/" ++ name ++ "/" ++ key) = true).
  assert ("/" ++ (ns ++ "/" ++ name) ++ "/*" = ("/" ++ ns ++ "/" ++ name ++ "/") ++ ["*"%char]) as ->.
  { rewrite <- !app_assoc. reflexivity. }
  apply iamMatch_literal.
  - by rewrite !forallb_app, Hns, Hname.
  - exists key. split; [by rewrite <- !app_assoc|apply iamMatch_star].
Qed.

(** ** What Polaris returns *)

Section polaris.
Context (timeParse : gostring -> gostring -> option Z).

(** Polaris credentials are complete and for the scope that was asked: the catalog was
    called with the policy of this table and region; the three keys of its
    answer are there and not empty; the region is the one asked for; an
    expiry that is there is one that parsed, and a missing one is the zero
    time, with which no cache entry is ever served. *)
Theorem polaris_vend_complete loadTable warehouse table region c :
  IssueScopedSTSCredentials timeParse loadTable warehouse table region = Ok c ->
  exists bucket props,
    extractBucketFromWarehouse warehouse = Some bucket /\
    loadTable (policyText (policyResource bucket table) region) (toIdentifier table) = Some props /\
    props !! polarisKeyAccessKeyID = Some (AccessKeyID c) /\ AccessKeyID c <> [] /\
    props !! polarisKeySecretAccessKey = Some (SecretAccessKey c) /\ SecretAccessKey c <> [] /\
    props !! polarisKeySessionToken = Some (SessionToken c) /\ SessionToken c <> [] /\
    sts_Region c = region /\
    parseExpiry timeParse (default [] (props !! polarisKeySessionExpiry)) = Some (Expiration c) /\
    (props !! polarisKeySessionExpiry = None ->
     forall (o : env vendR) k at_ now, (zeroTime < now)%Z ->
       (forall h, o h (CacheGet k) = Some (mkCached c (Expiration c) at_)) ->
       (forall h, o h Clock = now) -> (run o [] (Get k)).1 = None).
Proof.
  unfold IssueScopedSTSCredentials, Build.
  destruct (extractBucketFromWarehouse warehouse) as [b|]; [|done]. cbn [mbind option_bind].
  destruct (loadTable _ _) as [props|] eqn:El; [|done]. intros H. exists b, props.
  split; [done|]. split; [exact El|]. clear El. unfold parseVendedCreds in H.
  assert (forall k, default [] (props !! k) <> [] -> props !! k = Some (default [] (props !! k))) as Hk.
  { intros k. by destruct (props !! k). }
  repeat (case_bool_decide; [done|]).
  destruct (parseExpiry timeParse (default [] (props !! polarisKeySessionExpiry))) as [t|] eqn:Et; [|done].
  cbn in H. injection H as <-. cbn [AccessKeyID SecretAccessKey SessionToken sts_Region Expiration].
  split_and!; [by apply Hk|done|by apply Hk|done|by apply Hk|done|done|done|].
  intros Hm o k at_ now Hz Hg Hn. rewrite Hm in Et. cbn in Et. injection Et as <-.
  unfold Get. cbn [run]. rewrite Hg. cbn [run]. rewrite Hn. cbn [expiresAt].
  by assert ((zeroTime <? now)%Z = true) as -> by lia.
Qed.
End polaris.

(** ** A concrete run *)

Module VendDemo.

Definition cache : Type := bounded cacheKey cachedCreds.
Definition empty : cache := mkBounded [].

Definition request (nickname : gostring) : issueSTSRequest :=
  mkSTSRequest nickname "sales" "orders" "eu-west-1".
(** The body is the nickname. *)
Definition decode (b : gostring) : option issueSTSRequest := Some (request b).
Definition post (nickname : gostring) : vendRequest := mkVendRequest (Some ("t1" : gostring)) nickname.

Definition row (nickname : gostring) : Credentials :=
  mkCredentials (if bool_decide (nickname = "prod") then "polaris" else "nessie") nickname "https://c" "{}".
Definition load (t n : gostring) : loaded := Found (row n).
Definition capsOf (c : Credentials) : option Capabilities :=
  Some (mkCaps (Kind c) (bool_decide (Kind c = "polaris"))).
Definition sts : STSCredentials := mkSTS "AKIA" "secret" "token" 3600 "eu-west-1".
Definition vend (ad : adapter) (t : TableRef) (r : gostring) : result issue_err (option STSCredentials) :=
  Ok (Some sts).

Lemma load_nickname t n c : load t n = Found c -> Nickname c = n.
Proof. by intros [= <-]. Qed.

#[global] Instance cache_Lru : Lru cacheKey cachedCreds cache := bounded_Lru 16.

Definition start : vworld (C := cache) := mkVWorld empty 100 [].

Definition properties : gmap gostring gostring :=
  {[ polarisKeyAccessKeyID := ("AKIA" : gostring); polarisKeySecretAccessKey := ("secret" : gostring);
     polarisKeySessionToken := ("token" : gostring) ]}.

End VendDemo.

Lemma vend_provenance_witness :
  exists w : vworld (C := VendDemo.cache),
    rtc (vstep VendDemo.decode) (VendDemo.start, [])
      (w, [mkVProc (VendDemo.post "prod") 100 (Ret (Vended VendDemo.sts))]) /\
    exists tid q, vr_tenant (VendDemo.post "prod") = Some tid /\
      VendDemo.decode (take (N.to_nat maxRequestBodyBytes) (vr_body (VendDemo.post "prod"))) = Some q /\
      badField q = None /\ justified tid q 100 (w_clock w) (w_log w) VendDemo.sts.
Proof.
  assert (rtc (vstep VendDemo.decode) (VendDemo.start, [])
    ((vendAlone VendDemo.load VendDemo.capsOf VendDemo.vend
        (VendHandler VendDemo.decode (VendDemo.post "prod")) VendDemo.start).2,
     [mkVProc (VendDemo.post "prod") 100 (Ret (Vended VendDemo.sts))])) as H.
  { eapply rtc_l; [exact (vstep_request _ VendDemo.start [] (VendDemo.post "prod"))|].
    exact (vendAlone_steps VendDemo.load VendDemo.capsOf VendDemo.vend VendDemo.load_nickname
      VendDemo.decode (VendHandler VendDemo.decode (VendDemo.post "prod")) VendDemo.start
      [mkVProc (VendDemo.post "prod") 100 (VendHandler VendDemo.decode (VendDemo.post "prod"))] 0
      (VendDemo.post "prod") 100 eq_refl). }
  eexists. split; [exact H|].
  refine (vend_provenance VendDemo.decode VendDemo.empty 100 _ _ _ _ _ _ _ H eq_refl _);
    [by vm_compute|by constructor].
Defined.

Lemma vend_ignores_catalog_witness :
  let serve r w := vendAlone VendDemo.load VendDemo.capsOf VendDemo.vend
    (VendHandler VendDemo.decode r) w in
  SupportsCredVend (mkCaps "nessie" false) = false /\
  (serve (VendDemo.post "dev") (serve (VendDemo.post "prod") VendDemo.start).2).1
    = Vended VendDemo.sts.
Proof.
  intros serve. split; [done|].
  apply (vend_ignores_catalog VendDemo.load VendDemo.capsOf VendDemo.vend VendDemo.decode "t1"
    (VendDemo.request "prod") (VendDemo.request "dev") (VendDemo.post "prod") (VendDemo.post "dev")
    (VendDemo.row "prod") (VendDemo.row "dev") (mkCaps "polaris" true) (mkCaps "nessie" false)
    VendDemo.sts VendDemo.start); by vm_compute.
Defined.

(** A store, adapters and an empty cache as an environment. *)
Definition demoEnv : env vendR := fun h c =>
  match c return vendR c with
  | CacheGet _ => None
  | CacheAdd _ _ | CacheRemove _ | Count _ => tt
  | Clock => 100%Z
  | LoadCreds t n => VendDemo.load t n
  | BuildAdapter c => VendDemo.capsOf c
  | IssueSTS _ ad t r => VendDemo.vend ad t r
  end.

Lemma vend_on_miss_witness :
  (run demoEnv [] (VendHandler VendDemo.decode (VendDemo.post "prod"))).1 = Vended VendDemo.sts.
Proof.
  pose proof (vend_on_miss VendDemo.decode demoEnv (VendDemo.post "prod") "t1"
    (VendDemo.request "prod") (VendDemo.row "prod") (mkCaps "polaris" true) 100%Z
    eq_refl eq_refl eq_refl (fun _ => eq_refl) (fun _ => eq_refl) (fun _ _ => eq_refl)
    (fun _ => eq_refl) (Ok (Some VendDemo.sts)) (fun _ => eq_refl)) as H.
  destruct (run demoEnv [] (VendHandler VendDemo.decode (VendDemo.post "prod"))) as [a tr].
  exact (proj1 H).
Defined.

Lemma session_policy_scope_witness :
  iamMatch (policyResource "lake" (mkTableRef [("sales" : gostring)] "orders"))
    (tableDir "lake" (VendDemo.request "prod") ++ "part-0.parquet") = true.
Proof.
  apply (session_policy_scope (VendDemo.request "prod") "s3://lake/warehouse" "lake"
    eq_refl eq_refl eq_refl). by eexists.
Defined.

Lemma session_policies_differ_witness :
  exists policy,
    Build (mkTableRef [("sales" : gostring)] "orders") "eu-west-1" "s3://lake/warehouse" = Some policy /\
    ("sales" : gostring) = "sales" /\ ("orders" : gostring) = "orders".
Proof.
  eexists. split; [reflexivity|].
  destruct (session_policies_differ (VendDemo.request "prod") (VendDemo.request "dev")
    "s3://lake/warehouse" "s3://lake/warehouse" "lake" "lake" _
    eq_refl eq_refl eq_refl eq_refl eq_refl eq_refl eq_refl eq_refl) as (_ & H1 & H2 & _).
  split; [exact H1|exact H2].
Defined.

Lemma polaris_vend_complete_witness :
  exists c bucket (props : gmap gostring gostring),
    IssueScopedSTSCredentials (fun _ _ => None) (fun _ _ => Some VendDemo.properties)
      "s3://lake/w" (mkTableRef [("sales" : gostring)] "orders") "eu-west-1" = Ok c /\
    extractBucketFromWarehouse "s3://lake/w" = Some bucket /\
    props !! polarisKeySessionToken = Some (SessionToken c) /\ SessionToken c <> [].
Proof.
  destruct (polaris_vend_complete (fun _ _ => None) (fun _ _ => Some VendDemo.properties)
    "s3://lake/w" (mkTableRef [("sales" : gostring)] "orders") "eu-west-1"
    (mkSTS "AKIA" "secret" "token" zeroTime "eu-west-1") ltac:(by vm_compute))
    as (b & props & Hb & _ & _ & _ & _ & _ & Ht & Hn & _).
  eexists _, b, props. split; [by vm_compute|]. split; [exact Hb|]. split; [exact Ht|exact Hn].
Defined.
