(* ===== verification/Regex.v ===== *)
(** * Regular expressions

    The regular expressions of the repository are RE2 expressions without
    captures, matched for a yes or no: classes of runes, concatenation,
    alternation and repetition.  A match is decided by derivatives; [lang] is
    the language of an expression, and [matchFull_lang] the agreement of the
    two. *)

From S2P Require Import Prelude JsonText.
From Stdlib Require Import Lia.
#[local] Open Scope go_scope.

(** ** Runes *)

(** The code point of a valid encoding of [n] bytes at the head. *)
Definition runeValue (n : nat) (s : gostring) : N :=
  let tail c := (ord c - 128)%N in
  match n, s with
  | 2, a :: b :: _ => ((ord a - 192) * 64 + tail b)%N
  | 3, a :: b :: c :: _ => ((ord a - 224) * 4096 + tail b * 64 + tail c)%N
  | 4, a :: b :: c :: d :: _ =>
      ((ord a - 240) * 262144 + tail b * 4096 + tail c * 64 + tail d)%N
  | _, _ => 65533%N
  end.

(** The runes of a string; an invalid byte reads as U+FFFD.  Fuel is the length. *)
Fixpoint runesFrom (fuel : nat) (s : gostring) : list N :=
  match fuel, s with
  | S fuel, c :: s' =>
      if isASCII c then ord c :: runesFrom fuel s'
      else match runeLen s with
           | 0 => 65533%N :: runesFrom fuel s'
           | n => runeValue n s :: runesFrom fuel (drop n s)
           end
  | _, _ => []
  end.

Definition runes (s : gostring) : list N := runesFrom (length s) s.

(** ** Expressions *)

Inductive rx :=
  | Nothing
  | Eps
  | Cls (f : N -> bool)
  | Cat (a b : rx)
  | Alt (a b : rx)
  | Star (a : rx).

Definition opt (a : rx) : rx := Alt Eps a.

Fixpoint rep (n : nat) (a : rx) : rx :=
  match n with 0 => Eps | S n => Cat a (rep n a) end.

Fixpoint upTo (n : nat) (a : rx) : rx :=
  match n with 0 => Eps | S n => opt (Cat a (upTo n a)) end.

(** [a{lo,hi}], [a{lo,}], [a+]. *)
Definition repRange (lo hi : nat) (a : rx) : rx := Cat (rep lo a) (upTo (hi - lo) a).
Definition repMin (lo : nat) (a : rx) : rx := Cat (rep lo a) (Star a).
Definition plus (a : rx) : rx := repMin 1 a.

Fixpoint cats (l : list rx) : rx :=
  match l with [] => Eps | [a] => a | a :: l => Cat a (cats l) end.

Definition inRange (lo hi n : N) : bool := ((lo <=? n) && (n <=? hi))%N.

(** One rune. *)
Definition isRune (c : ascii) : rx := Cls (fun n => (n =? ord c)%N).

(** A letter under [(?i)]: both cases, and the two code points that fold to an
    ASCII letter, U+017F to s and U+212A to k. *)
Definition folds (c : ascii) (n : N) : bool :=
  ((n =? ord (toLower c)) || (n =? ord (toUpper c))
   || (n =? 383) && bool_decide (toLower c = "s"%char)
   || (n =? 8490) && bool_decide (toLower c = "k"%char))%N.

Definition word (w : gostring) : rx := cats (map (fun c => Cls (folds c)) w).

(** [.], [\d], [\s]. *)
Definition dot : rx := Cls (fun n => negb (n =? 10)%N).
Definition digit (n : N) : bool := inRange 48 57 n.
Definition blank (n : N) : bool := ((n =? 32) || (n =? 9) || (n =? 10) || (n =? 12) || (n =? 13))%N.

(** ** Matching *)

Fixpoint nullable (r : rx) : bool :=
  match r with
  | Nothing | Cls _ => false
  | Eps | Star _ => true
  | Cat a b => nullable a && nullable b
  | Alt a b => nullable a || nullable b
  end.

Definition alt (a b : rx) : rx :=
  match a, b with Nothing, _ => b | _, Nothing => a | _, _ => Alt a b end.
Definition cat (a b : rx) : rx :=
  match a, b with Nothing, _ | _, Nothing => Nothing | Eps, _ => b | _, _ => Cat a b end.

Fixpoint deriv (x : N) (r : rx) : rx :=
  match r with
  | Nothing | Eps => Nothing
  | Cls f => if f x then Eps else Nothing
  | Cat a b =>
      let d := cat (deriv x a) b in if nullable a then alt d (deriv x b) else d
  | Alt a b => alt (deriv x a) (deriv x b)
  | Star a => cat (deriv x a) (Star a)
  end.

(** [^(r)$]. *)
Fixpoint matchFull (r : rx) (s : list N) : bool :=
  match s with [] => nullable r | x :: s => matchFull (deriv x r) s end.

Definition anything : rx := Star (Cls (fun _ => true)).

(** [r] somewhere in the text. *)
Definition matchWithin (r : rx) (s : list N) : bool :=
  matchFull (Cat anything (Cat r anything)) s.

(** ** The language *)

Inductive lang : rx -> list N -> Prop :=
  | lang_eps : lang Eps []
  | lang_cls f x : f x = true -> lang (Cls f) [x]
  | lang_cat a b s t : lang a s -> lang b t -> lang (Cat a b) (s ++ t)
  | lang_alt_l a b s : lang a s -> lang (Alt a b) s
  | lang_alt_r a b s : lang b s -> lang (Alt a b) s
  | lang_star_nil a : lang (Star a) []
  | lang_star_app a s t : lang a s -> lang (Star a) t -> lang (Star a) (s ++ t).

Create HintDb rx.
#[export] Hint Constructors lang : rx.

Lemma lang_nothing s : ~ lang Nothing s.
Proof. intros H. inversion H. Qed.

Lemma nullable_lang r : nullable r = true <-> lang r [].
Proof.
  split.
  - induction r as [| |f|a IHa b IHb|a IHa b IHb|a IHa]; cbn [nullable]; try done; eauto with rx.
    + rewrite andb_true_iff. intros [Ha Hb]. apply (lang_cat a b [] []); auto.
    + rewrite orb_true_iff. intros [Ha|Hb]; eauto with rx.
  - remember [] as s eqn:E. intros H. revert E.
    induction H as [|f x Hf|a b s t Ha IHa Hb IHb|a b s Ha IHa|a b s Hb IHb|a|a s t Ha IHa Ht IHt];
      intros E; cbn [nullable]; try done.
    + apply app_nil in E as [-> ->]. by rewrite IHa, IHb.
    + by rewrite IHa.
    + rewrite IHb by done. apply orb_true_r.
Qed.

Lemma lang_alt a b s : lang (alt a b) s <-> lang a s \/ lang b s.
Proof.
  assert (lang (Alt a b) s <-> lang a s \/ lang b s) as H.
  { split; [intros H; inversion H; subst; auto|intros [?|?]; eauto with rx]. }
  assert (forall b, lang b s <-> lang Nothing s \/ lang b s) as Hl.
  { split; [by right|by intros [?%lang_nothing|?]]. }
  assert (forall a, lang a s <-> lang a s \/ lang Nothing s) as Hr.
  { split; [by left|by intros [?|?%lang_nothing]]. }
  destruct a, b; cbn [alt]; first [exact H|apply Hl|apply Hr].
Qed.

Lemma lang_cat_iff a b s :
  lang (cat a b) s <-> exists s1 s2, s = s1 ++ s2 /\ lang a s1 /\ lang b s2.
Proof.
  assert (lang (Cat a b) s <-> exists s1 s2, s = s1 ++ s2 /\ lang a s1 /\ lang b s2) as H.
  { split; [intros H; inversion H; subst; eauto|intros (s1 & s2 & -> & ? & ?); eauto with rx]. }
  assert (forall b, lang b s <-> exists s1 s2, s = s1 ++ s2 /\ lang Eps s1 /\ lang b s2) as He.
  { intros b'. split; [intros Hb; exists [], s; eauto with rx|].
    intros (s1 & s2 & -> & H1 & H2). inversion H1; subst. exact H2. }
  assert (forall b, lang Nothing s <-> exists s1 s2, s = s1 ++ s2 /\ lang Nothing s1 /\ lang b s2) as Hl.
  { split; [by intros ?%lang_nothing|by intros (? & ? & _ & ?%lang_nothing & _)]. }
  assert (forall a, lang Nothing s <-> exists s1 s2, s = s1 ++ s2 /\ lang a s1 /\ lang Nothing s2) as Hr.
  { split; [by intros ?%lang_nothing|by intros (? & ? & _ & _ & ?%lang_nothing)]. }
  destruct a, b; cbn [cat]; first [exact H|apply He|apply Hl|apply Hr].
Qed.

Lemma star_cons a x s :
  lang (Star a) (x :: s) <-> exists s1 s2, s = s1 ++ s2 /\ lang a (x :: s1) /\ lang (Star a) s2.
Proof.
  split.
  - remember (Star a) as r eqn:Er. remember (x :: s) as u eqn:Eu. intros H. revert Er s Eu.
    induction H as [|f y Hf|a' b s' t' Ha IHa Hb IHb|a' b s' Ha IHa|a' b s' Hb IHb|a'|a' s1 s2 H1 IH1 H2 IH2];
      intros Er s Eu; try done. injection Er as ->.
    destruct s1 as [|y s1]; cbn [app] in Eu; [by apply IH2|].
    injection Eu as -> <-. by exists s1, s2.
  - intros (s1 & s2 & -> & H1 & H2). apply (lang_star_app a (x :: s1) s2); auto.
Qed.

Lemma deriv_lang x r s : lang (deriv x r) s <-> lang r (x :: s).
Proof.
  revert s; induction r as [| |f|a IHa b IHb|a IHa b IHb|a IHa]; intros s; cbn [deriv].
  - split; intros H; inversion H.
  - split; intros H; inversion H.
  - destruct (f x) eqn:E; split; intros H; inversion H; subst; eauto with rx; congruence.
  - assert (lang (Cat a b) (x :: s) <->
      (exists s1 s2, s = s1 ++ s2 /\ lang a (x :: s1) /\ lang b s2) \/
      (lang a [] /\ lang b (x :: s))) as Hc.
    { split.
      - intros H. inversion H as [| |a' b' s1 s2 H1 H2 Ea Eb| | | |]; subst.
        destruct s1 as [|y s1]; cbn [app] in *; [by right|]. left.
        match goal with E : _ :: _ = _ :: _ |- _ => injection E as -> <- end. by exists s1, s2.
      - intros [(s1 & s2 & -> & H1 & H2)|[H1 H2]].
        + by apply (lang_cat a b (x :: s1) s2).
        + by apply (lang_cat a b [] (x :: s)). }
    rewrite Hc, <- nullable_lang. destruct (nullable a).
    + rewrite lang_alt, lang_cat_iff, IHb. setoid_rewrite IHa.
      split; (intros [H|H]; [by left|right]); [by split|apply H].
    + rewrite lang_cat_iff. setoid_rewrite IHa. split; [by left|by intros [H|[? _]]].
  - rewrite lang_alt, IHa, IHb.
    split; [intros [?|?]; eauto with rx|intros H; inversion H; subst; auto].
  - rewrite star_cons, lang_cat_iff. by setoid_rewrite IHa.
Qed.

Lemma matchFull_lang r s : matchFull r s = true <-> lang r s.
Proof.
  revert r; induction s as [|x s IH]; intros r; cbn [matchFull]; [apply nullable_lang|].
  by rewrite IH, deriv_lang.
Qed.

Lemma lang_anything s : lang anything s.
Proof.
  induction s as [|x s IH]; [constructor|].
  by apply (lang_star_app _ [x] s); [constructor|].
Qed.

Lemma matchWithin_lang r s :
  matchWithin r s = true <-> exists a m z, s = a ++ m ++ z /\ lang r m.
Proof.
  unfold matchWithin. rewrite matchFull_lang. split.
  - intros H. inversion H as [| |? ? s1 s2 _ H2| | | |]; subst.
    inversion H2 as [| |? ? m z Hm _| | | |]; subst. by exists s1, m, z.
  - intros (a & m & z & -> & Hm). constructor; [apply lang_anything|].
    constructor; [exact Hm|apply lang_anything].
Qed.
