(* ===== verification/Classify.v ===== *)
(** * Classification and sampling

    [internal/detect]: the regular-expression classifier of
    [regex/classifier.go] with its bank of patterns, and the stratified sampling
    of files ([sampling.go]).  A confidence is in hundredths. *)

From S2P Require Import Prelude JsonText Regex.
From Stdlib Require Import Lia.
#[local] Open Scope go_scope.

(** ** The bank ([classifier.go]) *)

Record Tag := mkTag { tag_ID : gostring; tag_Name : gostring; tag_Category : gostring }.

(** A name matches anywhere, a value as a whole: every value expression is
    anchored at both ends. *)
Record PatternBank := mkPattern { NameRegex : rx; ValueRegex : rx; bank_Tag : Tag }.

Definition digits (n : nat) : rx := rep n (Cls digit).

(** [\d{3}-\d{2}-\d{4}] or [\d{9}]. *)
Definition ssnValue : rx :=
  Alt (cats [digits 3; isRune "-"; digits 2; isRune "-"; digits 4]) (digits 9).

(** [[^\s@]]. *)
Definition mailRune : rx := Cls (fun n => negb (blank n || (n =? ord "@")%N)).
Definition emailValue : rx :=
  cats [plus mailRune; isRune "@"; plus mailRune; isRune "."; plus mailRune].

Definition cardRune (n : N) : bool := digit n || blank n || (n =? ord "-")%N.
Definition phoneRune (n : N) : bool :=
  cardRune n || existsb (fun c => (n =? ord c)%N) ["("; ")"; "."]%char.

Definition upperRune (n : N) : bool := inRange 65 90 n.
Definition ibanValue : rx :=
  cats [rep 2 (Cls upperRune); digits 2;
        repRange 1 30 (Cls (fun n => upperRune n || digit n))].

Definition hyphenOrUnderscore : rx := opt (Cls (fun n => ((n =? ord "-") || (n =? ord "_"))%N)).

Definition Phase1Bank : list PatternBank :=
  [mkPattern (Alt (word "ssn") (cats [word "social"; opt dot; word "security"])) ssnValue
     (mkTag "pii-ssn-us" "US SSN" "PII");
   mkPattern (Alt (word "email") (cats [word "e"; hyphenOrUnderscore; word "mail"])) emailValue
     (mkTag "pii-email" "Email" "PII");
   mkPattern (Alt (cats [word "credit"; opt dot; word "card"]) (Alt (word "cc") (word "pan")))
     (repRange 13 19 (Cls cardRune)) (mkTag "pii-credit-card" "Credit Card" "PCI");
   mkPattern (Alt (word "phone") (word "tel")) (Cat (opt (isRune "+")) (repMin 7 (Cls phoneRune)))
     (mkTag "pii-phone" "Phone" "PII");
   mkPattern (Alt (word "iban") (cats [word "account"; opt dot; word "number"])) ibanValue
     (mkTag "pii-iban" "IBAN" "PII")].

(** ** The classifier *)

Definition MatchNameOnly : gostring := "name_only".
Definition MatchValueOnly : gostring := "value_only".
Definition MatchNameAndValue : gostring := "name_and_value".

Definition ConfidenceNameAndValue : Z := 92.
Definition ConfidenceNameOnly : Z := 65.
Definition ConfidenceValueOnly : Z := 55.
Definition AlertThreshold : Z := 85.

Record ColumnFinding := mkFinding {
  f_ColumnName : gostring; f_TagID : gostring; f_TagName : gostring; f_TagCategory : gostring;
  f_Confidence : Z; f_MatchType : gostring
}.

#[export] Instance ColumnFinding_eq_dec : EqDecision ColumnFinding.
Proof. solve_decision. Defined.

Definition nameMatch (p : PatternBank) (columnName : gostring) : bool :=
  matchWithin (NameRegex p) (runes columnName).

(** The loop over the values with its break. *)
Fixpoint valueMatch (p : PatternBank) (sampleValues : list gostring) : bool :=
  match sampleValues with
  | [] => false
  | v :: sampleValues =>
      if matchFull (ValueRegex p) (runes v) then true else valueMatch p sampleValues
  end.

Definition classifyOne (columnName : gostring) (sampleValues : list gostring) (p : PatternBank)
  : option ColumnFinding :=
  let found confidence matchType :=
    if (confidence <? 50)%Z then None
    else Some (mkFinding columnName (tag_ID (bank_Tag p)) (tag_Name (bank_Tag p))
                 (tag_Category (bank_Tag p)) confidence matchType) in
  match nameMatch p columnName, valueMatch p sampleValues with
  | true, true => found ConfidenceNameAndValue MatchNameAndValue
  | true, false => found ConfidenceNameOnly MatchNameOnly
  | false, true => found ConfidenceValueOnly MatchValueOnly
  | false, false => None
  end.

Definition Classify (bank : list PatternBank) (columnName : gostring) (sampleValues : list gostring)
  : list ColumnFinding := omap (classifyOne columnName sampleValues) bank.

(** ** Sampling ([sampling.go]) *)

Record FileMeta := mkFile { Path : gostring; SizeBytes : Z; ColumnNames : list gostring }.

#[export] Instance FileMeta_eq_dec : EqDecision FileMeta.
Proof. solve_decision. Defined.

Inductive Bucket := BucketTiny | BucketSmall | BucketMedium | BucketLarge.

Definition tinyMaxBytes : Z := 10 * 1024 * 1024.
Definition smallMaxBytes : Z := 1024 * 1024 * 1024.
Definition mediumMaxBytes : Z := 10 * 1024 * 1024 * 1024.

Definition classifyBucket (sizeBytes : Z) : Bucket :=
  if (sizeBytes <? tinyMaxBytes)%Z then BucketTiny
  else if (sizeBytes <? smallMaxBytes)%Z then BucketSmall
  else if (sizeBytes <? mediumMaxBytes)%Z then BucketMedium
  else BucketLarge.

(** [rng.Float64()] is a multiple of 2^-53 in [[0, 1)]; draws and rates are
    counted in that unit.  The rates are the double-precision products of
    [bucketRate] and 0.8, rounded up to the unit: a draw is below the product
    exactly when it is below that. *)
Definition unit53 : Z := 2 ^ 53.
Definition adjustedRate (b : Bucket) : Z :=
  match b with
  | BucketTiny => 7205759403792794
  | BucketSmall => 720575940379280
  | BucketMedium => 72057594037928
  | BucketLarge => 7205759403793
  end.

(** The hints are ASCII words. *)
Definition matchesAdversarial (hints : list gostring) (f : FileMeta) : bool :=
  existsb (fun col => existsb (fun h => contains (lowerWord col) (lowerWord h)) hints)
    (ColumnNames f).

Definition DefaultAdversarialHints : list gostring :=
  ["ssn"; "social"; "email"; "phone"; "iban"; "credit"; "card"; "account"; "customer"; "user";
   "personal"; "birth"; "address"].

Abbreviation picked := (gmap gostring FileMeta).

(** The first pass, with the draws of the files from the [i]-th on. *)
Fixpoint randomPass (draws : nat -> Z) (i : nat) (files : list FileMeta) (acc : picked) : picked :=
  match files with
  | [] => acc
  | f :: files =>
      let rate := adjustedRate (classifyBucket (SizeBytes f)) in
      randomPass draws (S i) files
        (if (unit53 <=? rate)%Z || (draws i <? rate)%Z then <[Path f := f]> acc else acc)
  end.

Fixpoint adversarialPass (hints : list gostring) (files : list FileMeta) (acc : picked) : picked :=
  match files with
  | [] => acc
  | f :: files =>
      adversarialPass hints files
        (if matchesAdversarial hints f then <[Path f := f]> acc else acc)
  end.

(** The sample, by path; its order is that of a map. *)
Definition StratifiedSample (draws : nat -> Z) (files : list FileMeta) (hints : list gostring)
  : picked :=
  adversarialPass hints files (randomPass draws 0 files ∅).

(** ** What they compute *)

Lemma valueMatch_exists p vs :
  valueMatch p vs = true <-> exists v, v ∈ vs /\ lang (ValueRegex p) (runes v).
Proof.
  induction vs as [|v vs IH]; cbn [valueMatch].
  - split; [done|]. by intros (v & Hv%elem_of_nil & _).
  - destruct (matchFull (ValueRegex p) (runes v)) eqn:E.
    + split; [|done]. intros _. exists v. split; [constructor|by apply matchFull_lang].
    + rewrite IH. split; intros (x & Hx & Hl).
      * exists x. split; [by constructor|done].
      * apply elem_of_cons in Hx as [->|Hx]; [|by exists x].
        apply matchFull_lang in Hl. congruence.
Qed.

(** What the classifier reports: one finding per pattern whose name expression
    occurs in the column name or whose value expression describes one of the
    sampled values; both are needed for a confidence that alerts.  The
    expressions are read by their languages. *)
Theorem Classify_spec bank col vs f :
  f ∈ Classify bank col vs <->
  exists p, p ∈ bank /\
    let named := exists a m z, runes col = a ++ m ++ z /\ lang (NameRegex p) m in
    let valued := exists v, v ∈ vs /\ lang (ValueRegex p) (runes v) in
    f_ColumnName f = col /\ f_TagID f = tag_ID (bank_Tag p) /\ f_TagName f = tag_Name (bank_Tag p) /\
    f_TagCategory f = tag_Category (bank_Tag p) /\
    ((named /\ valued /\ f_Confidence f = 92%Z /\ f_MatchType f = "name_and_value") \/
     (named /\ ~ valued /\ f_Confidence f = 65%Z /\ f_MatchType f = "name_only") \/
     (~ named /\ valued /\ f_Confidence f = 55%Z /\ f_MatchType f = "value_only")) /\
    ((AlertThreshold <= f_Confidence f)%Z <-> named /\ valued).
Proof.
  unfold Classify. rewrite list_elem_of_omap. split.
  - intros (p & Hp & Hf). exists p. split; [done|]. cbn zeta. unfold classifyOne, nameMatch in Hf.
    rewrite <- matchWithin_lang, <- valueMatch_exists.
    destruct (matchWithin (NameRegex p) (runes col)), (valueMatch p vs); try done;
      injection Hf as <-; cbn; unfold AlertThreshold; intuition (try done; try lia).
  - intros (p & Hp & H1 & H2 & H3 & H4 & H & _). exists p. split; [done|].
    rewrite <- matchWithin_lang, <- valueMatch_exists in H.
    unfold classifyOne, nameMatch. destruct f as [c t n g k m]. cbn in *. subst c t n g.
    destruct (matchWithin (NameRegex p) (runes col)), (valueMatch p vs);
      destruct H as [(? & ? & -> & ->)|[(? & ? & -> & ->)|(? & ? & -> & ->)]]; done.
Qed.

Definition taken (draws : nat -> Z) (j : nat) (f : FileMeta) : bool :=
  let rate := adjustedRate (classifyBucket (SizeBytes f)) in
  (unit53 <=? rate)%Z || (draws j <? rate)%Z.

Lemma randomPass_other draws i files acc p :
  p ∉ map Path files -> randomPass draws i files acc !! p = acc !! p.
Proof.
  revert i acc; induction files as [|f files IH]; intros i acc Hp; [done|].
  cbn [map randomPass] in *. apply not_elem_of_cons in Hp as [Hne Hp]. rewrite IH by done.
  destruct (_ || _); [|done]. by rewrite lookup_insert_ne by congruence.
Qed.

Lemma randomPass_at draws i files acc j f :
  NoDup (map Path files) -> files !! j = Some f ->
  randomPass draws i files acc !! Path f = if taken draws (i + j) f then Some f else acc !! Path f.
Proof.
  revert i acc j; induction files as [|g files IH]; intros i acc j Hnd Hj; [done|].
  cbn [map] in Hnd. apply NoDup_cons in Hnd as [Hg Hnd]. cbn [randomPass]. destruct j as [|j].
  - injection Hj as ->. rewrite randomPass_other by done. rewrite Nat.add_0_r. unfold taken.
    destruct (_ || _); [by rewrite lookup_insert_eq|done].
  - rewrite (IH (S i) _ j Hnd Hj). replace (S i + j) with (i + S j) by lia.
    destruct (taken draws (i + S j) f); [done|]. destruct (_ || _); [|done].
    rewrite lookup_insert_ne; [done|]. intros E. apply Hg. rewrite E.
    apply list_elem_of_fmap. exists f. split; [done|by eapply list_elem_of_lookup_2].
Qed.

Lemma adversarialPass_other hints files acc p :
  p ∉ map Path files -> adversarialPass hints files acc !! p = acc !! p.
Proof.
  revert acc; induction files as [|f files IH]; intros acc Hp; [done|].
  cbn [map adversarialPass] in *. apply not_elem_of_cons in Hp as [Hne Hp]. rewrite IH by done.
  destruct (matchesAdversarial hints f); [|done]. by rewrite lookup_insert_ne by congruence.
Qed.

Lemma adversarialPass_at hints files acc j f :
  NoDup (map Path files) -> files !! j = Some f ->
  adversarialPass hints files acc !! Path f =
    if matchesAdversarial hints f then Some f else acc !! Path f.
Proof.
  revert acc j; induction files as [|g files IH]; intros acc j Hnd Hj; [done|].
  cbn [map] in Hnd. apply NoDup_cons in Hnd as [Hg Hnd]. cbn [adversarialPass]. destruct j as [|j].
  - injection Hj as ->. rewrite adversarialPass_other by done.
    destruct (matchesAdversarial hints f); [by rewrite lookup_insert_eq|done].
  - rewrite (IH _ j Hnd Hj). destruct (matchesAdversarial hints f); [done|].
    destruct (matchesAdversarial hints g); [|done].
    rewrite lookup_insert_ne; [done|]. intros E. apply Hg. rewrite E.
    apply list_elem_of_fmap. exists f. split; [done|by eapply list_elem_of_lookup_2].
Qed.

(** What is sampled, of files with distinct paths: exactly the files with a suspicious
    column, and those whose draw is below 0.8 times the rate of their size.
    A file below 10 MiB is no exception: it is left out whenever its draw is at
    least 0.8, so a fifth of them on average, where the table promises all. *)
Theorem StratifiedSample_spec draws files hints :
  NoDup (map Path files) ->
  (forall j f, files !! j = Some f ->
     StratifiedSample draws files hints !! Path f =
       if matchesAdversarial hints f || (draws j <? adjustedRate (classifyBucket (SizeBytes f)))%Z
       then Some f else None) /\
  (forall p, p ∉ map Path files -> StratifiedSample draws files hints !! p = None) /\
  (forall j f, files !! j = Some f -> (SizeBytes f < tinyMaxBytes)%Z ->
     matchesAdversarial hints f = false -> (5 * draws j > 4 * unit53)%Z ->
     StratifiedSample draws files hints !! Path f = None).
Proof.
  intros Hnd. unfold StratifiedSample.
  assert (forall j f, files !! j = Some f ->
     adversarialPass hints files (randomPass draws 0 files ∅) !! Path f =
       if matchesAdversarial hints f || (draws j <? adjustedRate (classifyBucket (SizeBytes f)))%Z
       then Some f else None) as Hat.
  { intros j f Hj. rewrite (adversarialPass_at hints files _ j f Hnd Hj).
    rewrite (randomPass_at draws 0 files ∅ j f Hnd Hj). unfold taken. cbn [Nat.add].
    assert ((unit53 <=? adjustedRate (classifyBucket (SizeBytes f)))%Z = false) as ->
      by (by destruct (classifyBucket (SizeBytes f))).
    cbn [orb]. by destruct (matchesAdversarial hints f), (draws j <? _)%Z. }
  split_and!; [exact Hat| |].
  - intros p Hp. by rewrite adversarialPass_other, randomPass_other.
  - intros j f Hj Hs Hm Hd. rewrite (Hat j f Hj), Hm. cbn [orb].
    assert (classifyBucket (SizeBytes f) = BucketTiny) as ->.
    { unfold classifyBucket. by assert ((SizeBytes f <? tinyMaxBytes)%Z = true) as -> by lia. }
    assert ((draws j <? adjustedRate BucketTiny)%Z = false) as ->; [|done].
    apply Z.ltb_ge. unfold adjustedRate, unit53 in *. lia.
Qed.

Lemma StratifiedSample_spec_witness :
  StratifiedSample (fun _ => 8 * 10 ^ 15)%Z
    [mkFile "a.parquet" 1024 [("total" : gostring)]; mkFile "b.parquet" 1024 [("User_Email" : gostring)]]
    DefaultAdversarialHints !! ("a.parquet" : gostring) = None.
Proof.
  apply (StratifiedSample_spec _ _ DefaultAdversarialHints) with
    (j := 0) (f := mkFile "a.parquet" 1024 [("total" : gostring)]); try by vm_compute.
  apply NoDup_cons. split; [|by apply NoDup_singleton]. cbn. rewrite list_elem_of_singleton. done.
Defined.

(** A column of blanks under a name that merely contains three letters of the
    bank is an alert. *)
Example blanks_alert :
  Classify Phase1Bank "company_name" [repeat " "%char 13] =
    [mkFinding "company_name" "pii-credit-card" "Credit Card" "PCI" 92 "name_and_value";
     mkFinding "company_name" "pii-phone" "Phone" "PII" 55 "value_only"].
Proof. vm_compute. reflexivity. Qed.
