(* ===== verification/Detect.v ===== *)
(** * Detection of regulated data

    The emission of findings ([internal/detect/regex/emit.go]) on the database
    of one tenant, with its faults; the scanner of
    [cmd/neksur-server/regex_scanner.go]; the pool and its three sources
    ([internal/detect/dispatch]): the poller, the Polaris webhook and the S3
    event consumer.  A transaction works on a copy, as in [IngestMeta]; the
    scanner and the sources are programs of calls.  An instant is in
    nanoseconds. *)

From S2P Require Import Prelude Effects Cypher Ingest IngestMeta JsonText Regex Classify.
From Stdlib Require Import Lia.
#[local] Open Scope go_scope.

(** ** The database of a tenant *)

(** A row of [detection_runs]; unfinished ones have no count. *)
Record runRow := mkRun {
  run_id_ : gostring; scan_strategy : gostring; sample_size : Z; findings_count : option Z
}.

Record runNode := mkRunNode { started_at : option Z; strategy_ : option gostring; size_ : option Z }.
Record tagNode := mkTagNode { t_name : option gostring; t_category : option gostring }.
Record classNode := mkClassNode {
  c_confidence : option Z; c_source : option gostring; c_match : option gostring
}.

(** The runs by location (the column is UNIQUE), the nodes and the edges by
    what their MERGE patterns name. *)
Record tenantDB := mkDB {
  runs : gmap gostring runRow;
  runNodes : gmap gostring runNode;
  snapshotNodes : gset gostring;
  violations : gmap (gostring * gostring) (option Z);
  columnNodes : gset (gostring * gostring);
  tagNodes : gmap gostring tagNode;
  classifiedAs : gmap (gostring * gostring * gostring) (Z * Z);
  classifications : gmap (gostring * gostring * gostring * gostring) classNode;
  detectedBy : gset (gostring * gostring * gostring * gostring)
}.

(** ** Emission ([emit.go]) *)

Inductive stmt :=
  | MergeDetectionRun (runID : gostring) (now : Z) (strategy : gostring) (size : Z)
  | MergeSnapshotForDetect (loc : gostring)
  | MergeViolation (loc runID : gostring) (now : Z)
  | MergeColumn (loc name : gostring)
  | MergeTag (tagID name category : gostring)
  | MergeClassifiedAs (loc name tagID : gostring) (confidence now : Z)
  | MergeClassification (loc name tagID runID : gostring) (confidence : Z) (matchType : gostring)
  | MergeDetectedBy (loc name tagID runID : gostring).

(** The graph after a statement; a MATCH that finds nothing does nothing. *)
Definition execStmt (s : stmt) (d : tenantDB) : tenantDB :=
  match s with
  | MergeDetectionRun r now st sz =>
      let n := default (mkRunNode None None None) (runNodes d !! r) in
      mkDB (runs d)
        (<[r := mkRunNode (coalesce (started_at n) now) (coalesce (strategy_ n) st)
                  (coalesce (size_ n) sz)]> (runNodes d))
        (snapshotNodes d) (violations d) (columnNodes d) (tagNodes d) (classifiedAs d)
        (classifications d) (detectedBy d)
  | MergeSnapshotForDetect loc =>
      mkDB (runs d) (runNodes d) ({[loc]} ∪ snapshotNodes d) (violations d) (columnNodes d)
        (tagNodes d) (classifiedAs d) (classifications d) (detectedBy d)
  | MergeViolation loc r now =>
      if bool_decide (loc ∈ snapshotNodes d) && bool_decide (is_Some (runNodes d !! r)) then
        mkDB (runs d) (runNodes d) (snapshotNodes d)
          (<[(loc, r) := coalesce (mjoin (violations d !! (loc, r))) now]> (violations d))
          (columnNodes d) (tagNodes d) (classifiedAs d) (classifications d) (detectedBy d)
      else d
  | MergeColumn loc name =>
      mkDB (runs d) (runNodes d) (snapshotNodes d) (violations d) ({[(loc, name)]} ∪ columnNodes d)
        (tagNodes d) (classifiedAs d) (classifications d) (detectedBy d)
  | MergeTag t name category =>
      let n := default (mkTagNode None None) (tagNodes d !! t) in
      mkDB (runs d) (runNodes d) (snapshotNodes d) (violations d) (columnNodes d)
        (<[t := mkTagNode (coalesce (t_name n) name) (coalesce (t_category n) category)]> (tagNodes d))
        (classifiedAs d) (classifications d) (detectedBy d)
  | MergeClassifiedAs loc name t conf now =>
      if bool_decide ((loc, name) ∈ columnNodes d) && bool_decide (is_Some (tagNodes d !! t)) then
        mkDB (runs d) (runNodes d) (snapshotNodes d) (violations d) (columnNodes d) (tagNodes d)
          (<[(loc, name, t) := (conf, now)]> (classifiedAs d)) (classifications d) (detectedBy d)
      else d
  | MergeClassification loc name t r conf mt =>
      let n := default (mkClassNode None None None) (classifications d !! (loc, name, t, r)) in
      mkDB (runs d) (runNodes d) (snapshotNodes d) (violations d) (columnNodes d) (tagNodes d)
        (classifiedAs d)
        (<[(loc, name, t, r) := mkClassNode (coalesce (c_confidence n) conf)
             (coalesce (c_source n) "regex") (coalesce (c_match n) mt)]> (classifications d))
        (detectedBy d)
  | MergeDetectedBy loc name t r =>
      if bool_decide (is_Some (classifications d !! (loc, name, t, r)))
         && bool_decide (is_Some (runNodes d !! r)) then
        mkDB (runs d) (runNodes d) (snapshotNodes d) (violations d) (columnNodes d) (tagNodes d)
          (classifiedAs d) (classifications d) ({[(loc, name, t, r)]} ∪ detectedBy d)
      else d
  end.

(** The five statements of a finding. *)
Definition findingStmts (loc runID : gostring) (now : Z) (f : ColumnFinding) : list stmt :=
  [MergeColumn loc (f_ColumnName f);
   MergeTag (f_TagID f) (f_TagName f) (f_TagCategory f);
   MergeClassifiedAs loc (f_ColumnName f) (f_TagID f) (f_Confidence f) now;
   MergeClassification loc (f_ColumnName f) (f_TagID f) runID (f_Confidence f) (f_MatchType f);
   MergeDetectedBy loc (f_ColumnName f) (f_TagID f) runID].

Definition emitStmts (loc runID strategy : gostring) (now size : Z) (findings : list ColumnFinding)
  : list stmt :=
  [MergeDetectionRun runID now strategy size; MergeSnapshotForDetect loc;
   MergeViolation loc runID now]
  ++ flat_map (findingStmts loc runID now) findings.

(** In order, up to the first that fails; [ok] tells which succeed. *)
Fixpoint execStmts (ok : nat -> bool) (n : nat) (l : list stmt) (d : tenantDB) : option tenantDB :=
  match l with
  | [] => Some d
  | s :: l => if ok n then execStmts ok (S n) l (execStmt s d) else None
  end.

(** The CHECK of migration V0062 on [scan_strategy]. *)
Definition strategyAllowed (s : gostring) : bool := bool_decide (s = "regex").

(** [INSERT ... ON CONFLICT DO NOTHING RETURNING id]: the CHECK comes before the
    conflict. *)
Inductive inserted := InsertFailed | InsertConflict | Inserted (d : tenantDB).

Definition withRuns (m : gmap gostring runRow) (d : tenantDB) : tenantDB :=
  mkDB m (runNodes d) (snapshotNodes d) (violations d) (columnNodes d) (tagNodes d)
    (classifiedAs d) (classifications d) (detectedBy d).

Definition insertRun (loc runID strategy : gostring) (size : Z) (d : tenantDB) : inserted :=
  if negb (strategyAllowed strategy) then InsertFailed
  else
    match runs d !! loc with
    | Some _ => InsertConflict
    | None => Inserted (withRuns (<[loc := mkRun runID strategy size None]> (runs d)) d)
    end.

(** [UPDATE ... WHERE id = $2]. *)
Definition finishRun (loc : gostring) (count : Z) (d : tenantDB) : tenantDB :=
  match runs d !! loc with
  | None => d
  | Some r =>
      withRuns (<[loc := mkRun (run_id_ r) (scan_strategy r) (sample_size r) (Some count)]> (runs d)) d
  end.

Inductive emit_err := EmitDatabase | EmitPanics.

(** The function inside the transaction; a conflict commits nothing.  Statement
    0 is the insertion, the last the update. *)
Definition emitBody (tenantID loc runID strategy : gostring) (now size : Z)
    (findings : list ColumnFinding) (ok : nat -> bool) (d : tenantDB)
  : result emit_err tenantDB :=
  if negb (ok 0) then Err EmitDatabase
  else
    match insertRun loc runID strategy size d with
    | InsertFailed => Err EmitDatabase
    | InsertConflict => Ok d
    | Inserted d1 =>
        if negb (escapable [tenantID]) then Err EmitPanics
        else
          let l := emitStmts loc runID strategy now size findings in
          match execStmts ok 1 l d1 with
          | None => Err EmitDatabase
          | Some d2 =>
              if ok (S (length l)) then Ok (finishRun loc (Z.of_nat (length findings)) d2)
              else Err EmitDatabase
          end
    end.

(** A run ID, [ErrDetectionAlreadyEmittedByPeer], rejected input, any other
    error, or a panic. *)
Inductive emitResult := Emitted (runID : gostring) | EmittedByPeer | EmitRejected | EmitFailed
  | EmitPanicked.

Definition findingFields (f : ColumnFinding) : list gostring :=
  [f_ColumnName f; f_TagID f; f_TagName f; f_TagCategory f; f_MatchType f].

Section emit.
(** [uuid.Parse]: the canonical text. *)
Context (parseUUID : gostring -> option gostring).

Definition EmitDetectionResults (tenantID loc strategy : gostring) (size : Z)
    (findings : list ColumnFinding) (runID : gostring) (now : Z) (f : txFault) (ok : nat -> bool)
    (d : tenantDB) : emitResult * tenantDB :=
  if bool_decide (loc = []) then (EmitRejected, d)
  else
    let strategy := if bool_decide (strategy = []) then ("regex" : gostring) else strategy in
    if negb (escapable ([loc; strategy] ++ flat_map findingFields findings)) then (EmitRejected, d)
    else
      match parseUUID tenantID with
      | None => (EmitRejected, d)
      | Some _ =>
          let body := emitBody tenantID loc runID strategy now size findings ok in
          match inTenant EmitDatabase f body d with
          | (Some EmitPanics, d') => (EmitPanicked, d')
          | (Some EmitDatabase, d') => (EmitFailed, d')
          | (None, d') =>
              (match insertRun loc runID strategy size d with
               | InsertConflict => EmittedByPeer
               | _ => Emitted runID
               end, d')
          end
      end.
End emit.

(** ** The scanner ([regex_scanner.go]) *)

Record Hit := mkHit {
  h_TenantID : gostring; h_MetadataLocation : gostring; h_Source : gostring;
  h_TableNamespace : list gostring; h_TableName : gostring
}.

#[export] Instance Hit_eq_dec : EqDecision Hit.
Proof. solve_decision. Defined.

Inductive credsAnswer := CredsFound | CredsNotFound | CredsFailed.

(** [LoadTable]: an error, nil metadata, or the columns of the schema. *)
Inductive tableAnswer := TableFailed | TableNil | TableLoaded (columns : list gostring).

Inductive scanCall :=
  | ScanCreds (tenantID nickname : gostring)
  | ScanAdapter
  | ScanTable (namespace : list gostring) (name : gostring)
  | ScanEmit (tenantID loc strategy : gostring) (size : Z) (findings : list ColumnFinding)
  | SlackPost (tenantID runID : gostring) (h : Hit) (f : ColumnFinding).

Definition scanR (c : scanCall) : Type :=
  match c with
  | ScanCreds _ _ => credsAnswer
  | ScanTable _ _ => tableAnswer
  | ScanEmit _ _ _ _ _ => emitResult
  | _ => bool
  end.

Abbreviation scanProg := (prog scanR).

(** A nil error, an error, or a panic. *)
Inductive scanOut := ScanDone | ScanErr | ScanPanics.

(** Names only: no values are sampled. *)
Definition classifyAllColumns (columns : list gostring) : list ColumnFinding :=
  flat_map (fun c => Classify Phase1Bank c []) columns.

(** The loop over the findings; a failed post is logged. *)
Fixpoint alertLoop (h : Hit) (runID : gostring) (findings : list ColumnFinding) : scanProg scanOut :=
  match findings with
  | [] => Ret ScanDone
  | f :: findings =>
      if (f_Confidence f <? AlertThreshold)%Z then alertLoop h runID findings
      else Do (R := scanR) (SlackPost (h_TenantID h) runID h f) (fun _ : bool =>
             alertLoop h runID findings)
  end.

Definition skippedStrategy : gostring := "regex_skipped_no_table_ref".

(** From the columns on; [None] when the table was not loaded. *)
Definition emitScan (h : Hit) (columns : option (list gostring)) : scanProg scanOut :=
  let findings := classifyAllColumns (default [] columns) in
  let strategy := match columns with Some _ => ("regex" : gostring) | None => skippedStrategy end in
  Do (R := scanR) (ScanEmit (h_TenantID h) (h_MetadataLocation h) strategy
                     (Z.of_nat (length findings)) findings) (fun r : emitResult =>
  match r with
  | Emitted runID => alertLoop h runID findings
  | EmittedByPeer => Ret ScanDone
  | EmitRejected | EmitFailed => Ret ScanErr
  | EmitPanicked => Ret ScanPanics
  end).

Section scanner.
Context (parseUUID : gostring -> option gostring).

Definition Scan (h : Hit) : scanProg scanOut :=
  match parseUUID (h_TenantID h) with
  | None => Ret ScanErr
  | Some tid =>
      Do (R := scanR) (ScanCreds tid "prod-polaris") (fun c : credsAnswer =>
      match c with
      | CredsNotFound => Ret ScanDone
      | CredsFailed => Ret ScanErr
      | CredsFound =>
          Do (R := scanR) ScanAdapter (fun ok : bool =>
          if ok then
            if bool_decide (h_TableName h = []) then emitScan h None
            else
              Do (R := scanR) (ScanTable (h_TableNamespace h) (h_TableName h)) (fun t : tableAnswer =>
                emitScan h (match t with TableLoaded cols => Some cols | _ => None end))
          else Ret ScanErr)
      end)
  end.
End scanner.

(** ** The pool ([pool.go]) *)

Definition defaultWorkers : Z := 4.

(** [NewPool] reads the environment variable, [[]] when unset. *)
Definition poolWorkers (raw : gostring) : Z :=
  if bool_decide (raw = []) then defaultWorkers
  else match Atoi raw with
       | Some n => if (0 <? n)%Z then n else defaultWorkers
       | None => defaultWorkers
       end.

Definition seenTTL : Z := 24 * 3600 * 1000000000.

Abbreviation seenMap := (gmap gostring Z).

(** [processHit] up to the scan: whether to scan, and the map. *)
Definition processHit (h : Hit) (now : Z) (seen : seenMap) : bool * seenMap :=
  if bool_decide (h_MetadataLocation h = []) then (false, seen)
  else
    match seen !! h_MetadataLocation h with
    | Some _ => (false, seen)
    | None => (true, <[h_MetadataLocation h := now]> seen)
    end.

(** One sweep of [runSeenEviction]. *)
Definition evict (now : Z) (seen : seenMap) : seenMap :=
  filter (fun e => (now - seenTTL <= e.2)%Z) seen.

(** What happens to a pool: a worker takes a hit, or the sweep runs. *)
Inductive poolEvent := Arrive (h : Hit) (now : Z) | Sweep (now : Z).

Definition poolStep (ev : poolEvent) (st : seenMap * list Hit) : seenMap * list Hit :=
  match ev with
  | Arrive h now =>
      let '(scan, seen) := processHit h now st.1 in (seen, st.2 ++ (if scan then [h] else []))
  | Sweep now => (evict now st.1, st.2)
  end.

(** The map and the hits that were scanned, in order. *)
Definition poolRun (evs : list poolEvent) (seen : seenMap) : seenMap * list Hit :=
  fold_left (fun st ev => poolStep ev st) evs (seen, []).

(** ** The sources: calls

    [Push] sends to the channel of the pool; it answers false when the context
    ends first. *)

Inductive sourceCall :=
  | Push (h : Hit)
  | ListActiveTenants
  | SourceNow
  | CtxDone
  | FreshLocations (tenantID : gostring) (since : Z)
  | LoadSecret (tenantID : gostring)
  | DeleteMessage (receipt : gostring).

Definition sourceR (c : sourceCall) : Type :=
  match c with
  | ListActiveTenants => option (list gostring)
  | SourceNow => Z
  | FreshLocations _ _ => option (list gostring)
  | LoadSecret _ => option gostring
  | _ => bool
  end.

Abbreviation sourceProg := (prog sourceR).

(** ** The poller ([poller.go]) *)

Definition pollerLookbackWindow : Z := 60 * 1000000000.
Definition pollerMaxPerTenant : nat := 100.

Definition pollerStrip (s : gostring) : gostring :=
  let dq := ascii_of_N 34 in
  if (2 <=? length s)%nat && bool_decide (head s = Some dq) && bool_decide (last s = Some dq)
  then drop 1 (take (length s - 1) s) else s.

(** [freshSnapshots] on the rows of its query. *)
Definition pollerHits (tenantID : gostring) (rows : list gostring) : list Hit :=
  map (fun loc => mkHit tenantID loc "poller" [] [])
    (List.filter (fun loc => negb (bool_decide (loc = []))) (map pollerStrip rows)).

(** Pushes in order; false when the context ended. *)
Fixpoint pushAll (hits : list Hit) : sourceProg bool :=
  match hits with
  | [] => Ret true
  | h :: hits =>
      Do (R := sourceR) (Push h) (fun sent : bool => if sent then pushAll hits else Ret false)
  end.

Fixpoint pollTenants (since : Z) (tenants : list gostring) : sourceProg unit :=
  match tenants with
  | [] => Ret tt
  | t :: tenants =>
      Do (R := sourceR) CtxDone (fun cancelled : bool =>
      if cancelled then Ret tt
      else
        Do (R := sourceR) (FreshLocations t since) (fun rows : option (list gostring) =>
        match rows with
        | None => pollTenants since tenants
        | Some rows =>
            bind (pushAll (pollerHits t rows)) (fun sent : bool =>
              if sent then pollTenants since tenants else Ret tt)
        end))
  end.

Definition pollOnce : sourceProg unit :=
  Do (R := sourceR) ListActiveTenants (fun l : option (list gostring) =>
  match l with
  | None => Ret tt
  | Some tenants =>
      Do (R := sourceR) SourceNow (fun now : Z => pollTenants (now - pollerLookbackWindow) tenants)
  end).

(** ** The Polaris webhook ([webhook.go]) *)

Definition maxPolarisWebhookBytes : N := 262144.

Record webhookRequest := mkWebhook {
  wh_Method : gostring; wh_Signature : gostring; wh_Tenant : gostring; wh_Body : gostring;
  wh_ReadFails : bool
}.

Record webhookPayload := mkPayload {
  pl_MetadataLocation : gostring; pl_Namespace : gostring; pl_TableName : gostring
}.

(** A response: its status and its text. *)
Definition webhookResponse : Type := Z * gostring.
Definition unauthorized : webhookResponse := (401%Z, "unauthorized" : gostring).

Definition hexValue (c : ascii) : option N :=
  let n := ord c in
  if inRange 48 57 n then Some (n - 48)%N
  else if inRange 97 102 n then Some (n - 87)%N
  else if inRange 65 70 n then Some (n - 55)%N
  else None.

(** [hex.DecodeString]. *)
Fixpoint hexDecode (s : gostring) : option gostring :=
  match s with
  | [] => Some []
  | a :: b :: s =>
      x ← hexValue a; y ← hexValue b; rest ← hexDecode s;
      Some (ascii_of_N (x * 16 + y) :: rest)
  | [_] => None
  end.

Section webhook.
(** HMAC-SHA256 of a key and a text; [uuid.Parse]; the decoder of the payload. *)
Context (hmac : gostring -> gostring -> gostring) (parseUUID : gostring -> option gostring).
Context (decodePayload : gostring -> option webhookPayload).

Definition verifyHMAC (body signatureHex secret : gostring) : bool :=
  match hexDecode (trimSpace signatureHex) with
  | None => false
  | Some got => bool_decide (hmac secret body = got)
  end.

Definition SignBody (body secret : gostring) : gostring := hexEncode (hmac secret body).

(** Step 8. *)
Definition webhookPush (tenantID : gostring) (p : webhookPayload) : sourceProg webhookResponse :=
  let ns := if bool_decide (pl_Namespace p = []) then [] else [pl_Namespace p] in
  Do (R := sourceR)
    (Push (mkHit tenantID (pl_MetadataLocation p) "polaris-webhook" ns (pl_TableName p)))
    (fun sent : bool =>
      Ret (if sent then (200%Z, [] : gostring) else (503%Z, "request cancelled" : gostring))).

(** [disabled] is the environment switch. *)
Definition WebhookHandler (disabled : bool) (r : webhookRequest) : sourceProg webhookResponse :=
  if disabled then Ret (410%Z, "polaris webhook handler disabled" : gostring)
  else if negb (bool_decide (wh_Method r = "POST")) then Ret (405%Z, "method not allowed" : gostring)
  else if wh_ReadFails r || (maxPolarisWebhookBytes <? N.of_nat (length (wh_Body r)))%N
  then Ret unauthorized
  else if bool_decide (wh_Signature r = []) || bool_decide (wh_Tenant r = []) then Ret unauthorized
  else
    match parseUUID (wh_Tenant r) with
    | None => Ret unauthorized
    | Some tenantID =>
        Do (R := sourceR) (LoadSecret tenantID) (fun secret : option gostring =>
        match secret with
        | None | Some [] => Ret unauthorized
        | Some secret =>
            if negb (verifyHMAC (wh_Body r) (wh_Signature r) secret) then Ret unauthorized
            else
              match decodePayload (wh_Body r) with
              | None => Ret (400%Z, "body parse failed" : gostring)
              | Some p =>
                  if bool_decide (pl_MetadataLocation p = [])
                  then Ret (400%Z, "missing metadata_location" : gostring)
                  else webhookPush tenantID p
              end
        end)
    end.
End webhook.

(** ** The S3 event consumer ([s3events.go]) *)

Record s3Record := mkS3Record { EventName : gostring; BucketName : gostring; ObjectKey : gostring }.

(** A message: its body and its receipt, either of which may be nil. *)
Record message := mkMessage { m_Body : option gostring; m_ReceiptHandle : option gostring }.

(** The hit of a record, for a metadata file that was created. *)
Definition s3Hit (tenantID : gostring) (r : s3Record) : option Hit :=
  if negb (hasPrefix "ObjectCreated:" (EventName r)) then None
  else if negb (hasSuffix (ObjectKey r) "metadata.json")
          && negb (hasSuffix (ObjectKey r) ".metadata.json") then None
  else Some (mkHit tenantID ("s3://" ++ BucketName r ++ "/" ++ ObjectKey r) "s3-event" [] []).

Section s3events.
(** The decoders of the SNS envelope (its message) and of the S3 event. *)
Context (decodeEnvelope : gostring -> option gostring).
Context (decodeEvent : gostring -> option (list s3Record)).

(** The records of a message; [None] when it is dropped. *)
Definition s3Records (m : message) : option (list s3Record) :=
  body ← m_Body m;
  inner ← decodeEnvelope body;
  decodeEvent (if bool_decide (inner = []) then body else inner).

Definition processSQSMessage (tenantID : gostring) (m : message) : sourceProg unit :=
  match s3Records m with
  | None => Ret tt
  | Some records =>
      bind (pushAll (omap (s3Hit tenantID) records)) (fun sent : bool =>
      match sent, m_ReceiptHandle m with
      | true, Some receipt =>
          Do (R := sourceR) (DeleteMessage receipt) (fun _ : bool => Ret tt)
      | _, _ => Ret tt
      end)
  end.
End s3events.
