(* ===== verification/DetectSpec.v ===== *)
(** * Detection: what is recorded, and what is lost

    The runs of a tenant and its graph stay consistent under any emissions with
    any faults; a hit without a table name never records anything and hides its
    snapshot from the other sources for a day; no scan ever alerts; the webhook
    pushes authenticated hits only; an S3 message is deleted after its hits are
    sent. *)

From S2P Require Import Prelude Effects Cypher Ingest IngestMeta JsonText Regex Classify Detect.
From stdpp Require Import relations.
From Stdlib Require Import Lia.
#[local] Open Scope go_scope.

(** ** The runs and the graph *)

Definition emptyDB : tenantDB := mkDB ∅ ∅ ∅ ∅ ∅ ∅ ∅ ∅ ∅.

(** Every row is finished, has the strategy of a scan, and its run node and
    violation edge; every classification belongs to the run of its snapshot and
    is linked to it. *)
Definition consistent (d : tenantDB) : Prop :=
  (forall loc r, runs d !! loc = Some r ->
     scan_strategy r = "regex" /\ is_Some (findings_count r) /\
     is_Some (runNodes d !! run_id_ r) /\ is_Some (violations d !! (loc, run_id_ r))) /\
  (forall loc name tag run, is_Some (classifications d !! (loc, name, tag, run)) ->
     (loc, name, tag, run) ∈ detectedBy d /\
     exists r, runs d !! loc = Some r /\ run_id_ r = run).

(** What the statements of one emission keep and add, for a location and a run. *)
Record grows (loc run : gostring) (d d' : tenantDB) : Prop := {
  grows_runs : runs d' = runs d;
  grows_nodes : forall r, is_Some (runNodes d !! r) -> is_Some (runNodes d' !! r);
  grows_violations : forall k, is_Some (violations d !! k) -> is_Some (violations d' !! k);
  grows_columns : columnNodes d ⊆ columnNodes d';
  grows_tags : forall t, is_Some (tagNodes d !! t) -> is_Some (tagNodes d' !! t);
  grows_detected : detectedBy d ⊆ detectedBy d';
  grows_class : forall k, is_Some (classifications d !! k) -> is_Some (classifications d' !! k);
  grows_new : forall l n t r, is_Some (classifications d' !! (l, n, t, r)) ->
    is_Some (classifications d !! (l, n, t, r)) \/ l = loc /\ r = run
}.

Lemma grows_refl loc run d : grows loc run d d.
Proof. constructor; auto. Qed.

Lemma grows_trans loc run d1 d2 d3 :
  grows loc run d1 d2 -> grows loc run d2 d3 -> grows loc run d1 d3.
Proof.
  intros [] []. constructor; eauto; try (by etransitivity).
  intros l n t r H. destruct (grows_new1 l n t r H) as [?|?]; eauto.
Qed.

(** Statements about one location and run. *)
Definition stmtOf (loc run : gostring) (s : stmt) : Prop :=
  match s with
  | MergeClassification l _ _ r _ _ => l = loc /\ r = run
  | _ => True
  end.

Lemma is_Some_insert {K A} `{Countable K} (m : gmap K A) k v k' :
  is_Some (m !! k') -> is_Some (<[k := v]> m !! k').
Proof.
  intros Hm. destruct (decide (k = k')) as [->|Hne]; [by rewrite lookup_insert_eq|].
  by rewrite lookup_insert_ne.
Qed.

Lemma execStmt_grows loc run s d : stmtOf loc run s -> grows loc run d (execStmt s d).
Proof.
  intros Hs. destruct s; cbn [execStmt]; try (case_match; [|apply grows_refl]);
    constructor; cbn; auto using is_Some_insert; try done; try set_solver.
  destruct Hs as [-> ->]. intros l n t r H.
  destruct (decide ((loc, name, tagID, run) = (l, n, t, r))) as [[= <- <- <- <-]|Hne]; [by right|].
  left. by rewrite lookup_insert_ne in H.
Qed.

Lemma execStmts_grows loc run ok n l d d' :
  Forall (stmtOf loc run) l -> execStmts ok n l d = Some d' -> grows loc run d d'.
Proof.
  intros Hl. revert n d; induction Hl as [|s l Hs Hl IH]; intros n d; cbn [execStmts].
  - intros [= <-]. apply grows_refl.
  - destruct (ok n); [|done]. intros H. eapply grows_trans; [by apply execStmt_grows|by eapply IH].
Qed.

Lemma execStmts_app ok n l1 l2 d d' :
  execStmts ok n (l1 ++ l2) d = Some d' ->
  exists d1, execStmts ok n l1 d = Some d1 /\ execStmts ok (n + length l1) l2 d1 = Some d'.
Proof.
  revert n d; induction l1 as [|s l1 IH]; intros n d; cbn [execStmts app length].
  - rewrite Nat.add_0_r. by exists d.
  - destruct (ok n); [|done]. intros (d1 & H1 & H2)%IH. exists d1. split; [done|].
    by replace (n + S (length l1)) with (S n + length l1) by lia.
Qed.

(** Every classification of the location's run is linked. *)
Definition linked (d : tenantDB) : Prop :=
  forall k, is_Some (classifications d !! k) -> k ∈ detectedBy d.

Lemma classified_step loc name t conf now d :
  (loc, name) ∈ columnNodes d -> is_Some (tagNodes d !! t) ->
  execStmt (MergeClassifiedAs loc name t conf now) d =
    mkDB (runs d) (runNodes d) (snapshotNodes d) (violations d) (columnNodes d) (tagNodes d)
      (<[(loc, name, t) := (conf, now)]> (classifiedAs d)) (classifications d) (detectedBy d).
Proof. intros H1 H2. cbn [execStmt]. by rewrite !bool_decide_eq_true_2. Qed.

Lemma detected_step loc name t r d :
  is_Some (classifications d !! (loc, name, t, r)) -> is_Some (runNodes d !! r) ->
  execStmt (MergeDetectedBy loc name t r) d =
    mkDB (runs d) (runNodes d) (snapshotNodes d) (violations d) (columnNodes d) (tagNodes d)
      (classifiedAs d) (classifications d) ({[(loc, name, t, r)]} ∪ detectedBy d).
Proof. intros H1 H2. cbn [execStmt]. by rewrite !bool_decide_eq_true_2. Qed.

Lemma findingStmts_effect loc run now f ok n d d' :
  execStmts ok n (findingStmts loc run now f) d = Some d' ->
  is_Some (runNodes d !! run) -> linked d ->
  linked d' /\ (loc, f_ColumnName f, f_TagID f, run) ∈ detectedBy d' /\
  is_Some (classifications d' !! (loc, f_ColumnName f, f_TagID f, run)) /\
  classifiedAs d' !! (loc, f_ColumnName f, f_TagID f) = Some (f_Confidence f, now).
Proof.
  unfold findingStmts. cbn [execStmts]. intros H Hrun Hl.
  do 5 (destruct (ok _); [|discriminate H]). apply Some_inj in H as <-.
  rewrite classified_step; [|cbn; set_solver|cbn; by rewrite lookup_insert_eq].
  rewrite detected_step; [|cbn; by rewrite lookup_insert_eq|cbn; done].
  cbn. split_and!; [|set_solver|by rewrite lookup_insert_eq|by rewrite lookup_insert_eq].
  intros k Hk. cbn in Hk |- *.
  destruct (decide ((loc, f_ColumnName f, f_TagID f, run) = k)) as [<-|Hne]; [set_solver|].
  rewrite lookup_insert_ne in Hk by done. apply elem_of_union_r. by apply Hl.
Qed.

Lemma findings_effect loc run now fs ok n d d' :
  execStmts ok n (flat_map (findingStmts loc run now) fs) d = Some d' ->
  is_Some (runNodes d !! run) -> linked d ->
  grows loc run d d' /\ linked d' /\
  forall f, f ∈ fs -> (loc, f_ColumnName f, f_TagID f, run) ∈ detectedBy d' /\
    is_Some (classifications d' !! (loc, f_ColumnName f, f_TagID f, run)).
Proof.
  revert n d; induction fs as [|f fs IH]; intros n d; cbn [flat_map].
  - intros [= <-] _ Hl. split_and!; [apply grows_refl|done|]. by intros f ?%elem_of_nil.
  - intros (d1 & H1 & H2)%execStmts_app Hrun Hl.
    destruct (findingStmts_effect _ _ _ _ _ _ _ _ H1 Hrun Hl) as (Hl1 & Hd1 & Hc1 & _).
    assert (grows loc run d d1) as Hg1.
    { eapply execStmts_grows; [|exact H1]. repeat constructor. }
    destruct (IH _ _ H2 (grows_nodes _ _ _ _ Hg1 _ Hrun) Hl1) as (Hg2 & Hl2 & Hall).
    split_and!; [by eapply grows_trans|done|]. intros g [->|Hg]%elem_of_cons; [|by apply Hall].
    split; [by apply (grows_detected _ _ _ _ Hg2)|by apply (grows_class _ _ _ _ Hg2)].
Qed.

Lemma header_effect loc run strategy now size ok n d d' :
  execStmts ok n [MergeDetectionRun run now strategy size; MergeSnapshotForDetect loc;
                  MergeViolation loc run now] d = Some d' ->
  is_Some (runNodes d' !! run) /\ is_Some (violations d' !! (loc, run)) /\
  (linked d -> linked d').
Proof.
  cbn [execStmts]. intros H. do 3 (destruct (ok _); [|discriminate H]). apply Some_inj in H as <-.
  cbn. rewrite !bool_decide_eq_true_2; [|by rewrite lookup_insert_eq|set_solver]. cbn.
  by rewrite !lookup_insert_eq.
Qed.

(** What an emission that committed did: nothing, when the snapshot has its run
    already; or the row, finished, with everything the findings say. *)
Lemma emitBody_spec tid loc run strategy now size fs ok d d' :
  emitBody tid loc run strategy now size fs ok d = Ok d' ->
  strategy = "regex" /\
  ((is_Some (runs d !! loc) /\ d' = d) \/
   (runs d !! loc = None /\
    runs d' = <[loc := mkRun run "regex" size (Some (Z.of_nat (length fs)))]> (runs d) /\
    exists d2, grows loc run (withRuns (<[loc := mkRun run "regex" size None]> (runs d)) d) d2 /\
      d' = withRuns (runs d') d2 /\ is_Some (runNodes d2 !! run) /\
      is_Some (violations d2 !! (loc, run)) /\ (linked d -> linked d2 /\
      forall f, f ∈ fs -> (loc, f_ColumnName f, f_TagID f, run) ∈ detectedBy d2 /\
        is_Some (classifications d2 !! (loc, f_ColumnName f, f_TagID f, run))))).
Proof.
  unfold emitBody, insertRun, strategyAllowed. destruct (ok 0); [|done]. cbn [negb].
  destruct (bool_decide (strategy = "regex")) eqn:Es; [|done]. apply bool_decide_eq_true in Es as ->.
  cbn [negb]. destruct (runs d !! loc) as [r|] eqn:Er.
  { intros [= <-]. split; [done|]. left. by split; [eexists|]. }
  destruct (negb (escapable [tid])); [done|]. unfold emitStmts.
  set (d0 := withRuns (<[loc := mkRun run "regex" size None]> (runs d)) d).
  destruct (execStmts ok 1 _ d0) as [d2|] eqn:E2; [|done].
  destruct (ok _); [|done]. intros [= <-]. split; [done|]. right. split; [done|].
  apply execStmts_app in E2 as (d1 & E1 & E2).
  destruct (header_effect _ _ _ _ _ _ _ _ _ E1) as (Hn & Hv & Hl).
  assert (grows loc run d0 d1) as Hg1.
  { eapply execStmts_grows; [|exact E1]. repeat constructor. }
  assert (grows loc run d1 d2) as Hg2.
  { eapply execStmts_grows; [|exact E2]. apply Forall_flat_map.
    apply Forall_forall. intros f _. repeat constructor. }
  assert (runs d2 !! loc = Some (mkRun run "regex" size None)) as Hrow.
  { rewrite (grows_runs _ _ _ _ Hg2), (grows_runs _ _ _ _ Hg1). cbn. by rewrite lookup_insert_eq. }
  unfold finishRun. rewrite Hrow. cbn [run_id_ scan_strategy sample_size]. split.
  { cbn. rewrite (grows_runs _ _ _ _ Hg2), (grows_runs _ _ _ _ Hg1). cbn. by rewrite insert_insert_eq. }
  exists d2. split_and!; [by eapply grows_trans|done| | |].
  - by apply (grows_nodes _ _ _ _ Hg2).
  - by apply (grows_violations _ _ _ _ Hg2).
  - intros Hld. destruct (findings_effect _ _ _ _ _ _ _ _ E2 Hn (Hl Hld)) as (_ & ? & ?). by split.
Qed.

Lemma emitBody_consistent tid loc run strategy now size fs ok d d' :
  emitBody tid loc run strategy now size fs ok d = Ok d' -> consistent d -> consistent d'.
Proof.
  intros H [Hc1 Hc2]. destruct (emitBody_spec _ _ _ _ _ _ _ _ _ _ H) as (_ & [[_ ->]|Hnew]);
    [by split|]. destruct Hnew as (Hnone & Hruns & d2 & Hg & Ed & Hn & Hv & Hlink).
  destruct Hlink as [Hl _].
  { intros [[[l n] t] r] Hk. by apply (Hc2 l n t r). }
  rewrite Ed. split; cbn [runs runNodes violations classifications detectedBy withRuns].
  - rewrite Hruns. intros l r Hlr.
    destruct (decide (loc = l)) as [<-|Hne].
    + rewrite lookup_insert_eq in Hlr. injection Hlr as <-. cbn. by split_and!.
    + rewrite lookup_insert_ne in Hlr by done. destruct (Hc1 l r Hlr) as (? & ? & ? & ?).
      split_and!; [done|done|by apply (grows_nodes _ _ _ _ Hg)|by apply (grows_violations _ _ _ _ Hg)].
  - intros l n t r Hk. split; [by apply Hl|]. rewrite Hruns.
    destruct (grows_new _ _ _ _ Hg l n t r Hk) as [Hold|[-> ->]].
    + destruct (Hc2 l n t r Hold) as (_ & row & Hrow & <-).
      destruct (decide (loc = l)) as [<-|Hne]; [congruence|].
      exists row. by rewrite lookup_insert_ne.
    + eexists. by rewrite lookup_insert_eq.
Qed.

Section emission.
Context (parseUUID : gostring -> option gostring).
Abbreviation Emit := (EmitDetectionResults parseUUID).

(** The database after an emission is the old one or what the body made of it. *)
Lemma Emit_cases tid loc strategy size fs run now f ok d :
  let strategy' := if bool_decide (strategy = []) then ("regex" : gostring) else strategy in
  let '(r, d') := Emit tid loc strategy size fs run now f ok d in
  ((r = EmitRejected \/ r = EmitFailed \/ r = EmitPanicked) /\ d' = d) \/
  (emitBody tid loc run strategy' now size fs ok d = Ok d' /\
   ((r = EmitFailed /\ (f = CommitLost \/ f = ResetFails)) \/
    (f = TxFine /\
     r = match insertRun loc run strategy' size d with
         | InsertConflict => EmittedByPeer
         | _ => Emitted run
         end))).
Proof.
  cbn zeta. unfold EmitDetectionResults. destruct (bool_decide (loc = [])); [by left; auto|].
  destruct (negb _); [by left; auto|]. destruct (parseUUID tid); [|by left; auto].
  unfold inTenant. destruct f; destruct (emitBody _ _ _ _ _ _ _ _ d) as [g|[]] eqn:E;
    auto 10.
Qed.

Inductive emission : tenantDB -> tenantDB -> Prop :=
  | emission_intro tid loc strategy size fs run now f ok d :
      emission d (Emit tid loc strategy size fs run now f ok d).2.

Lemma Emit_other tid loc strategy size fs run now f ok d loc' :
  loc' <> loc -> runs (Emit tid loc strategy size fs run now f ok d).2 !! loc' = runs d !! loc'.
Proof.
  intros Hne. pose proof (Emit_cases tid loc strategy size fs run now f ok d) as H.
  destruct (Emit tid loc strategy size fs run now f ok d) as [r d']. cbn in *.
  destruct H as [[_ ->]|[H _]]; [done|].
  destruct (emitBody_spec _ _ _ _ _ _ _ _ _ _ H) as (_ & [[_ ->]|(_ & -> & _)]); [done|].
  by rewrite lookup_insert_ne.
Qed.

Lemma emission_keeps d d' loc r :
  emission d d' -> runs d !! loc = Some r ->
  runs d' !! loc = Some r /\
  forall name tag run, is_Some (classifications d' !! (loc, name, tag, run)) ->
    is_Some (classifications d !! (loc, name, tag, run)).
Proof.
  destruct 1 as [tid l strategy size fs run now f ok d]. intros Hr.
  pose proof (Emit_cases tid l strategy size fs run now f ok d) as H.
  destruct (Emit tid l strategy size fs run now f ok d) as [x d']. cbn in *.
  destruct H as [[_ ->]|[H _]]; [by split|].
  destruct (emitBody_spec _ _ _ _ _ _ _ _ _ _ H) as (_ & [[_ ->]|(Hn & Hruns & d2 & Hg & Ed & _)]);
    [by split|].
  assert (loc <> l) as Hne by congruence. split.
  - rewrite Hruns. by rewrite lookup_insert_ne.
  - intros n t rr Hk. rewrite Ed in Hk. cbn in Hk.
    destruct (grows_new _ _ _ _ Hg _ _ _ _ Hk) as [?|[? _]]; done.
Qed.

Lemma emission_consistent d d' : emission d d' -> consistent d -> consistent d'.
Proof.
  destruct 1 as [tid l strategy size fs run now f ok d]. intros Hc.
  pose proof (Emit_cases tid l strategy size fs run now f ok d) as H.
  destruct (Emit tid l strategy size fs run now f ok d) as [x d']. cbn in *.
  destruct H as [[_ ->]|[H _]]; [done|]. by eapply emitBody_consistent.
Qed.

(** (C5) One run per snapshot, whole: after any emissions of any replicas, with any
    faults - statements that fail, commits that fail or whose answer is lost -,
    every row of [detection_runs] is finished and has its node and its
    violation edge, every classification is linked to the run of its snapshot;
    and from then on no emission changes the row or adds a classification to
    that snapshot. *)
Theorem one_run_per_snapshot d d' :
  rtc emission emptyDB d -> rtc emission d d' ->
  consistent d /\
  forall loc r, runs d !! loc = Some r ->
    runs d' !! loc = Some r /\
    forall name tag run, is_Some (classifications d' !! (loc, name, tag, run)) ->
      is_Some (classifications d !! (loc, name, tag, run)) /\ run = run_id_ r.
Proof.
  intros H0 H. assert (consistent d) as Hc.
  { assert (forall d1 d2, rtc emission d1 d2 -> consistent d1 -> consistent d2) as Hs.
    { induction 1 as [|x y z Hxy _ IH]; [done|]. intros Hx. by eapply IH, emission_consistent. }
    eapply Hs; [exact H0|]. split; cbn; intros *; rewrite lookup_empty; [done|]. by intros [? ?]. }
  split; [done|]. intros loc r Hr. destruct Hc as [_ Hc2].
  assert (runs d' !! loc = Some r /\ forall name tag run,
    is_Some (classifications d' !! (loc, name, tag, run)) ->
    is_Some (classifications d !! (loc, name, tag, run))) as [Hr' Hk].
  { clear Hc2 H0. induction H as [|x y z Hxy _ IH]; [by split|].
    destruct (emission_keeps _ _ _ _ Hxy Hr) as [Hry Hky].
    destruct (IH Hry) as [Hrz Hkz]. split; [done|]. eauto. }
  split; [done|]. intros n t run Hx. specialize (Hk n t run Hx). split; [done|].
  destruct (Hc2 loc n t run Hk) as (_ & r' & Hr2 & <-). congruence.
Qed.

(** What an emission reports: a run ID means that the row is there, finished, with
    every finding classified and linked; a peer means that the snapshot had
    its run and nothing changed; with any other answer nothing changed,
    unless the answer to a commit that took place was lost. *)
Theorem emission_outcome tid loc strategy size fs run now f ok d :
  consistent d ->
  let '(r, d') := Emit tid loc strategy size fs run now f ok d in
  match r with
  | Emitted i =>
      i = run /\ runs d !! loc = None /\
      runs d' !! loc = Some (mkRun run "regex" size (Some (Z.of_nat (length fs)))) /\
      forall g, g ∈ fs ->
        (loc, f_ColumnName g, f_TagID g, run) ∈ detectedBy d' /\
        is_Some (classifications d' !! (loc, f_ColumnName g, f_TagID g, run))
  | EmittedByPeer => is_Some (runs d !! loc) /\ d' = d
  | EmitFailed => d' = d \/ f = CommitLost \/ f = ResetFails
  | EmitRejected | EmitPanicked => d' = d
  end.
Proof.
  intros [_ Hc]. pose proof (Emit_cases tid loc strategy size fs run now f ok d) as H. cbn zeta in H.
  destruct (Emit tid loc strategy size fs run now f ok d) as [r d'].
  destruct H as [[Hx ->]|[H [[-> Hf]|[-> ->]]]];
    [by destruct Hx as [-> | [-> | ->]]; auto|by right|].
  destruct (emitBody_spec _ _ _ _ _ _ _ _ _ _ H) as (Es & Hcase). rewrite Es.
  unfold insertRun, strategyAllowed. rewrite bool_decide_eq_true_2 by done. cbn [negb].
  destruct Hcase as [[[x Hx] ->]|(Hn & Hr & d2 & _ & Ed & _ & _ & Hl)].
  - rewrite Hx. by split; [eexists|].
  - rewrite Hn. split_and!; [done|done|by rewrite Hr, lookup_insert_eq|].
    intros g Hg. destruct Hl as [_ Hl].
    { intros [[[l n] t] rr] Hk. by apply (Hc l n t rr). }
    rewrite Ed. cbn. by apply Hl.
Qed.

(** The strategy of a scan without a table fails the CHECK of the table. *)
Lemma skipped_not_recorded tid loc size fs run now f ok d :
  let '(r, d') := Emit tid loc skippedStrategy size fs run now f ok d in
  d' = d /\ (r = EmitRejected \/ r = EmitFailed \/ r = EmitPanicked).
Proof.
  pose proof (Emit_cases tid loc skippedStrategy size fs run now f ok d) as H.
  destruct (Emit tid loc skippedStrategy size fs run now f ok d) as [r d'].
  destruct H as [[Hr ->]|[H _]]; [by split|].
  by destruct (emitBody_spec _ _ _ _ _ _ _ _ _ _ H) as (Es & _).
Qed.
End emission.

(** ** The pool *)

Lemma poolRun_acc evs seen acc :
  fold_left (fun st ev => poolStep ev st) evs (seen, acc) =
    ((poolRun evs seen).1, acc ++ (poolRun evs seen).2).
Proof.
  unfold poolRun. revert seen acc; induction evs as [|ev evs IH]; intros seen acc; cbn [fold_left].
  { cbn. by rewrite app_nil_r. }
  destruct ev as [h now|now]; cbn [poolStep fst snd].
  - destruct (processHit h now seen) as [scan seen']. rewrite IH, (IH seen' ([] ++ _)).
    cbn [fst snd app]. by rewrite app_assoc.
  - by rewrite IH.
Qed.

Lemma poolRun_cons ev evs seen :
  poolRun (ev :: evs) seen =
    ((poolRun evs (poolStep ev (seen, [])).1).1,
     (poolStep ev (seen, [])).2 ++ (poolRun evs (poolStep ev (seen, [])).1).2).
Proof.
  unfold poolRun at 1. cbn [fold_left]. destruct (poolStep ev (seen, [])) as [s a].
  apply poolRun_acc.
Qed.

(** Sweeps that do not reach back to [t0]. *)
Definition sweepsBefore (t0 : Z) (evs : list poolEvent) : Prop :=
  forall now, Sweep now ∈ evs -> (now - seenTTL <= t0)%Z.

Lemma seen_stays L t0 evs seen :
  seen !! L = Some t0 -> sweepsBefore t0 evs ->
  (poolRun evs seen).1 !! L = Some t0 /\
  Forall (fun h => h_MetadataLocation h <> L) (poolRun evs seen).2.
Proof.
  revert seen; induction evs as [|ev evs IH]; intros seen Hs Hw; [by split|].
  assert (sweepsBefore t0 evs) as Hw' by (intros now Hn; apply Hw; by constructor).
  rewrite poolRun_cons. cbn [fst snd]. destruct ev as [h now|now]; cbn [poolStep].
  - unfold processHit. cbn [fst].
    destruct (bool_decide (h_MetadataLocation h = [])); [by apply IH|].
    destruct (seen !! h_MetadataLocation h) as [t|] eqn:E; [by apply IH|].
    assert (h_MetadataLocation h <> L) as Hne by congruence. cbn [fst snd app].
    destruct (IH (<[h_MetadataLocation h := now]> seen)) as [H1 H2]; [by rewrite lookup_insert_ne|done|].
    split; [done|]. by constructor.
  - cbn [fst snd app]. apply IH; [|done]. unfold evict.
    apply map_lookup_filter_Some. split; [done|]. cbn. apply Hw. by constructor.
Qed.

(** The pool forgets nothing for a day: once a worker took a hit of any tenant for
    a location, and whether its scan succeeds or fails, no hit for that
    location - of whatever tenant, from whatever source - is scanned until a
    sweep comes later than 24 hours after it; after such a sweep the next one
    is. *)
Theorem seen_suppresses h0 t0 evs seen :
  h_MetadataLocation h0 <> [] -> seen !! h_MetadataLocation h0 = None -> sweepsBefore t0 evs ->
  exists rest, (poolRun (Arrive h0 t0 :: evs) seen).2 = h0 :: rest /\
    Forall (fun h => h_MetadataLocation h <> h_MetadataLocation h0) rest /\
    forall now h t1, (t0 < now - seenTTL)%Z -> h_MetadataLocation h = h_MetadataLocation h0 ->
      (poolRun (Arrive h0 t0 :: evs ++ [Sweep now; Arrive h t1]) seen).2 = h0 :: rest ++ [h].
Proof.
  intros Hne Hs Hw. exists (poolRun evs (<[h_MetadataLocation h0 := t0]> seen)).2.
  assert (forall evs, poolRun (Arrive h0 t0 :: evs) seen =
    ((poolRun evs (<[h_MetadataLocation h0 := t0]> seen)).1,
     h0 :: (poolRun evs (<[h_MetadataLocation h0 := t0]> seen)).2)) as Hfirst.
  { intros l. rewrite poolRun_cons. cbn [poolStep fst snd]. unfold processHit.
    by rewrite bool_decide_eq_false_2, Hs by done. }
  destruct (seen_stays (h_MetadataLocation h0) t0 evs (<[h_MetadataLocation h0 := t0]> seen))
    as [H1 H2]; [by rewrite lookup_insert_eq|done|].
  rewrite Hfirst. cbn [snd]. split_and!; [done|done|].
  intros now h t1 Hnow Hloc. rewrite Hfirst. cbn [snd]. f_equal.
  set (seen1 := <[h_MetadataLocation h0 := t0]> seen) in *.
  unfold poolRun at 1. rewrite fold_left_app, poolRun_acc. fold (poolRun evs seen1).
  cbn [fold_left poolStep fst snd app]. unfold processHit.
  rewrite Hloc, bool_decide_eq_false_2 by done.
  assert (evict now (poolRun evs seen1).1 !! h_MetadataLocation h0 = None) as ->; [|done].
  unfold evict. apply map_lookup_filter_None. right. intros x Hx. rewrite H1 in Hx.
  injection Hx as <-. cbn. lia.
Qed.

(** ** Scans *)

Definition isSlack (c : scanCall) : bool := match c with SlackPost _ _ _ _ => true | _ => false end.

(** The calls a scan of a hit may make. *)
Definition ofHit (h : Hit) (c : scanCall) : bool :=
  match c with
  | SlackPost _ _ _ _ => false
  | ScanEmit t l s _ _ =>
      bool_decide (t = h_TenantID h) && bool_decide (l = h_MetadataLocation h)
      && (negb (bool_decide (h_TableName h = [])) || bool_decide (s = skippedStrategy))
  | _ => true
  end.

Lemma valueMatch_nil p : valueMatch p [] = false.
Proof. done. Qed.

Lemma names_never_alert columns f :
  f ∈ classifyAllColumns columns -> (f_Confidence f < AlertThreshold)%Z.
Proof.
  unfold classifyAllColumns. rewrite list_elem_of_In, in_flat_map.
  intros (c & _ & Hf). apply list_elem_of_In in Hf. unfold Classify in Hf.
  apply list_elem_of_omap in Hf as (p & _ & Hf). unfold classifyOne in Hf. cbn [valueMatch] in Hf.
  destruct (nameMatch p c); [|done]. by injection Hf as <-.
Qed.

Lemma alertLoop_quiet h runID fs :
  (forall f, f ∈ fs -> (f_Confidence f < AlertThreshold)%Z) -> alertLoop h runID fs = Ret ScanDone.
Proof.
  intros H. induction fs as [|f fs IH]; [done|]. cbn [alertLoop].
  assert ((f_Confidence f <? AlertThreshold)%Z = true) as -> by (apply Z.ltb_lt, H; constructor).
  apply IH. intros g Hg. apply H. by constructor.
Qed.

Lemma Scan_only parse h : only (ofHit h) (Scan parse h).
Proof.
  assert (forall cols, (h_TableName h = [] -> cols = None) -> only (ofHit h) (emitScan h cols)) as He.
  { intros cols Hn. unfold emitScan. cbn [only]. split.
    - cbn [ofHit]. rewrite !bool_decide_eq_true_2 by done. cbn [andb].
      destruct (bool_decide (h_TableName h = [])) eqn:E; [|done]. apply bool_decide_eq_true in E.
      rewrite (Hn E). by rewrite bool_decide_eq_true_2.
    - intros []; try exact I. rewrite alertLoop_quiet; [exact I|]. intros f. apply names_never_alert. }
  unfold Scan. destruct (parse (h_TenantID h)); [|exact I]. cbn [only]. split; [done|].
  intros []; try exact I. cbn [only]. split; [done|]. intros []; [|exact I].
  destruct (bool_decide (h_TableName h = [])) eqn:E; [by apply He|].
  apply bool_decide_eq_false in E. cbn [only]. split; [done|]. intros t. by apply He.
Qed.

(** No alert: whatever the catalog, the database and Slack answer, no scan posts
    one.  Values are never sampled, and a name alone stays below the
    threshold. *)
Theorem scan_never_alerts parse (o : env scanR) h :
  forallb (fun c => negb (isSlack c)) (calls (run o [] (Scan parse h)).2) = true.
Proof.
  apply only_run. eapply only_weaken; [|apply Scan_only]. intros c. by destruct c.
Qed.

(** What surrounds one scan: the answers of the catalog, and the run ID, the
    time and the faults of its emission. *)
Record scanEnv := mkScanEnv {
  se_creds : gostring -> credsAnswer; se_adapter : bool;
  se_table : list gostring -> gostring -> tableAnswer;
  se_run : gostring; se_now : Z; se_fault : txFault; se_ok : nat -> bool; se_slack : bool
}.

Section replica.
Context (parseUUID : gostring -> option gostring).

(** The databases of the tenants, by their canonical ID. *)
Definition dbOf (tid : gostring) (dbs : gmap gostring tenantDB) : tenantDB :=
  default emptyDB (dbs !! default tid (parseUUID tid)).

Definition serveScan (e : scanEnv) (c : scanCall) (dbs : gmap gostring tenantDB)
  : scanR c * gmap gostring tenantDB :=
  match c return scanR c * gmap gostring tenantDB with
  | ScanCreds t _ => (se_creds e t, dbs)
  | ScanAdapter => (se_adapter e, dbs)
  | ScanTable ns name => (se_table e ns name, dbs)
  | ScanEmit tid loc strategy size fs =>
      let '(r, d) := EmitDetectionResults parseUUID tid loc strategy size fs (se_run e) (se_now e)
                       (se_fault e) (se_ok e) (dbOf tid dbs) in
      (r, <[default tid (parseUUID tid) := d]> dbs)
  | SlackPost _ _ _ _ => (se_slack e, dbs)
  end.

Fixpoint runScan {A} (e : scanEnv) (p : scanProg A) (dbs : gmap gostring tenantDB)
  : A * gmap gostring tenantDB :=
  match p with
  | Ret a => (a, dbs)
  | Do c k => runScan e (k (serveScan e c dbs).1) (serveScan e c dbs).2
  end.

(** The databases after the scans of a list of hits, the [i]-th in [envs i]. *)
Fixpoint runScans (envs : nat -> scanEnv) (i : nat) (hits : list Hit)
    (dbs : gmap gostring tenantDB) : gmap gostring tenantDB :=
  match hits with
  | [] => dbs
  | h :: hits =>
      runScans envs (S i) hits (runScan (envs i) (Scan parseUUID h) dbs).2
  end.

(** The row of a location, over all tenants. *)
Definition sameRuns (L : gostring) (dbs dbs' : gmap gostring tenantDB) : Prop :=
  forall t, runs (default emptyDB (dbs' !! t)) !! L = runs (default emptyDB (dbs !! t)) !! L.

(** Calls that leave the rows of [L] alone. *)
Definition sparing (L : gostring) (c : scanCall) : bool :=
  match c with
  | ScanEmit _ l s _ _ => negb (bool_decide (l = L)) || bool_decide (s = skippedStrategy)
  | _ => true
  end.

Lemma serveScan_sparing L e c dbs : sparing L c = true -> sameRuns L dbs (serveScan e c dbs).2.
Proof.
  destruct c as [| | |tid l s size fs|]; cbn [serveScan snd sparing]; try (by intros _ t).
  intros H. destruct (EmitDetectionResults _ _ _ _ _ _ _ _ _ _ _) as [r d] eqn:E. cbn [snd].
  intros t. destruct (decide (default tid (parseUUID tid) = t)) as [<-|Hne];
    [|by rewrite lookup_insert_ne]. rewrite lookup_insert_eq. cbn [default from_option id].
  fold (dbOf tid dbs). apply orb_true_iff in H as [H|H].
  - apply negb_true_iff, bool_decide_eq_false in H.
    change d with (r, d).2. rewrite <- E. by apply Emit_other.
  - apply bool_decide_eq_true in H as ->.
    pose proof (skipped_not_recorded parseUUID tid l size fs (se_run e) (se_now e) (se_fault e)
      (se_ok e) (dbOf tid dbs)) as Hs. rewrite E in Hs. by destruct Hs as [-> _].
Qed.

Lemma runScan_sparing {A} L e (p : scanProg A) dbs :
  only (sparing L) p -> sameRuns L dbs (runScan e p dbs).2.
Proof.
  revert dbs; induction p as [a|c k IH]; intros dbs Hp; cbn [runScan only] in *; [by intros t|].
  destruct Hp as [Hc Hk]. intros t. rewrite (IH _ _ (Hk _) t). by apply serveScan_sparing.
Qed.

Lemma Scan_sparing L h :
  h_MetadataLocation h <> L \/ h_TableName h = [] -> only (sparing L) (Scan parseUUID h).
Proof.
  intros H. eapply only_weaken; [|apply Scan_only]. intros [| | |t l s size fs|]; try done.
  cbn [ofHit sparing]. rewrite !andb_true_iff, !bool_decide_eq_true. intros [[-> ->] Hs].
  destruct H as [H|H]; [by rewrite bool_decide_eq_false_2|].
  rewrite H in Hs. cbn in Hs. by rewrite Hs, orb_true_r.
Qed.

Lemma runScans_sparing L envs i hits dbs :
  Forall (fun h => h_MetadataLocation h <> L \/ h_TableName h = []) hits ->
  sameRuns L dbs (runScans envs i hits dbs).
Proof.
  intros H. revert i dbs; induction H as [|h hits Hh _ IH]; intros i dbs; cbn [runScans]; [by intros t|].
  intros t. rewrite (IH _ _ t). by apply runScan_sparing, Scan_sparing.
Qed.

(** A snapshot that the poller or an S3 event reports first is never scanned:
    their hits carry no table name, the row such a scan would insert is refused
    by the table's own CHECK, and the pool has marked the location as seen.
    Whatever hits arrive on the replica afterwards - the webhook's, with the
    table name, included - and whatever the catalogs and the databases do, no
    tenant has a run for the snapshot until a sweep more than a day later. *)
Theorem untabled_hit_hides_snapshot h0 t0 evs seen envs dbs :
  h_TableName h0 = [] -> h_MetadataLocation h0 <> [] ->
  seen !! h_MetadataLocation h0 = None -> sweepsBefore t0 evs ->
  sameRuns (h_MetadataLocation h0) dbs
    (runScans envs 0 (poolRun (Arrive h0 t0 :: evs) seen).2 dbs).
Proof.
  intros Ht Hne Hs Hw. apply runScans_sparing.
  rewrite poolRun_cons. cbn [poolStep fst snd]. unfold processHit.
  rewrite bool_decide_eq_false_2, Hs by done. cbn [fst snd app]. constructor; [by right|].
  destruct (seen_stays (h_MetadataLocation h0) t0 evs (<[h_MetadataLocation h0 := t0]> seen))
    as [_ H2]; [by rewrite lookup_insert_eq|done|].
  eapply Forall_impl; [exact H2|]. intros h Hh. by left.
Qed.
End replica.

(** ** The webhook *)

Section webhook.
Context (hmac : gostring -> gostring -> gostring) (parseUUID : gostring -> option gostring).
Context (decodePayload : gostring -> option webhookPayload).
Abbreviation Handler := (WebhookHandler hmac parseUUID decodePayload).

(** The signature is the MAC of the body under the secret of the tenant the
    header names, as the database answers first. *)
Definition authentic (o : env sourceR) (r : webhookRequest) (tid : gostring) : Prop :=
  exists secret, parseUUID (wh_Tenant r) = Some tid /\ secret <> [] /\
    o [] (LoadSecret tid) = Some secret /\
    hexDecode (trimSpace (wh_Signature r)) = Some (hmac secret (wh_Body r)).

Lemma verifyHMAC_spec body sig secret :
  verifyHMAC hmac body sig secret = true <-> hexDecode (trimSpace sig) = Some (hmac secret body).
Proof.
  unfold verifyHMAC. destruct (hexDecode (trimSpace sig)) as [got|]; [|done].
  rewrite bool_decide_eq_true. split; [by intros ->|by intros [= ->]].
Qed.

(** Only authenticated pushes, one answer to everybody else: a request that is not
    signed with the secret of its tenant gets the same response whatever the
    reason - no header, no such tenant, no secret, a wrong signature - and
    pushes nothing; and whatever is pushed is one hit, for that tenant and the
    location of the signed body. *)
Theorem webhook_authentic disabled r (o : env sourceR) :
  let '(resp, t) := run o [] (Handler disabled r) in
  (disabled = false -> wh_Method r = "POST" -> (forall tid, ~ authentic o r tid) ->
   resp = unauthorized /\ forall h, Push h ∉ calls t) /\
  (forall h, Push h ∈ calls t ->
     disabled = false /\ wh_Method r = "POST" /\
     exists tid p, authentic o r tid /\ decodePayload (wh_Body r) = Some p /\
       pl_MetadataLocation p <> [] /\
       h = mkHit tid (pl_MetadataLocation p) "polaris-webhook"
             (if bool_decide (pl_Namespace p = []) then [] else [pl_Namespace p]) (pl_TableName p) /\
       calls t = [LoadSecret tid; Push h]).
Proof.
  unfold WebhookHandler. destruct disabled; [split; [done|by intros h ?%elem_of_nil]|].
  destruct (bool_decide (wh_Method r = "POST")) eqn:Em; cbn [negb];
    [|split; [intros _ E; by rewrite E in Em|by intros h ?%elem_of_nil]].
  apply bool_decide_eq_true in Em.
  destruct (_ || _); [split; [intros; split; [done|by intros h ?%elem_of_nil]|by intros h ?%elem_of_nil]|].
  destruct (_ || _); [split; [intros; split; [done|by intros h ?%elem_of_nil]|by intros h ?%elem_of_nil]|].
  destruct (parseUUID (wh_Tenant r)) as [tid|] eqn:Ep;
    [|split; [intros; split; [done|by intros h ?%elem_of_nil]|by intros h ?%elem_of_nil]].
  cbn [run]. destruct (o [] (LoadSecret tid)) as [[|c s]|] eqn:Es.
  1, 3: cbn; split; [intros; split; [done|]|]; intros h; rewrite list_elem_of_singleton; done.
  destruct (verifyHMAC hmac (wh_Body r) (wh_Signature r) (c :: s)) eqn:Ev; cbn [negb].
  2: { cbn. split; [intros; split; [done|]|]; intros h; rewrite list_elem_of_singleton; done. }
  apply verifyHMAC_spec in Ev.
  assert (authentic o r tid) as Ha by (by exists (c :: s)).
  destruct (decodePayload (wh_Body r)) as [p|] eqn:Ed.
  2: { cbn. split; [intros _ _ H; by destruct (H tid)|]. intros h. by rewrite list_elem_of_singleton. }
  destruct (bool_decide (pl_MetadataLocation p = [])) eqn:El.
  { cbn. split; [intros _ _ H; by destruct (H tid)|]. intros h. by rewrite list_elem_of_singleton. }
  apply bool_decide_eq_false in El. unfold webhookPush. cbn [run calls map projT1 ev].
  split; [intros _ _ H; by destruct (H tid)|]. intros h.
  rewrite elem_of_cons, list_elem_of_singleton. intros [?|[= ->]]; [done|].
  split_and!; [done|done|]. by exists tid, p.
Qed.

Lemma hexOf_value n : (n < 16)%N -> hexValue (hexOf n) = Some n.
Proof.
  intros H. assert (n ∈ [0;1;2;3;4;5;6;7;8;9;10;11;12;13;14;15]%N) as Hn.
  { rewrite !elem_of_cons. lia. }
  repeat (apply elem_of_cons in Hn as [->|Hn]; [by vm_compute|]). by apply elem_of_nil in Hn.
Qed.

Lemma hexDecode_encode s : hexDecode (hexEncode s) = Some s.
Proof.
  unfold hexEncode. induction s as [|c s IH]; [done|]. cbn [flat_map app hexDecode].
  assert (ord c < 256)%N as Hc by apply N_ascii_bounded.
  rewrite !hexOf_value; [|apply N.Div0.div_lt_upper_bound; lia|by apply N.mod_lt].
  cbn [mbind option_bind]. rewrite IH. cbn [mbind option_bind].
  assert (ord c / 16 * 16 + ord c mod 16 = ord c)%N as ->
    by (rewrite N.mul_comm; symmetry; by apply N.div_mod).
  by unfold ord; rewrite ascii_N_embedding.
Qed.

(** No space begins or ends with a hexadecimal digit. *)
Definition hexText (s : gostring) : Prop := Forall (fun c => is_Some (hexValue c)) s.

Definition noHexHead (w : gostring) : bool :=
  match w with [] => false | c :: _ => bool_decide (hexValue c = None) end.

Lemma trimPrefixes_hex ws fuel s :
  forallb noHexHead ws = true -> hexText s -> trimPrefixes ws fuel s = s.
Proof.
  intros Hws Hs. assert (findPrefix ws s = None) as Hn; [|destruct fuel; [done|cbn; by rewrite Hn]].
  induction ws as [|w ws IH]; [done|]. cbn [forallb findPrefix] in *.
  apply andb_true_iff in Hws as [Hw Hws]. destruct w as [|c w]; [done|]. cbn [noHexHead] in Hw.
  apply bool_decide_eq_true in Hw. destruct Hs as [|b s Hb _]; [by apply IH|].
  rewrite hasPrefix_neq; [by apply IH|]. intros ->. destruct Hb. congruence.
Qed.

Lemma trimSpace_hex s : hexText s -> trimSpace s = s.
Proof.
  intros Hs. unfold trimSpace, trimRight, trimLeft. rewrite (trimPrefixes_hex spaceRunes) by done.
  rewrite trimPrefixes_hex by (by try apply Forall_reverse). apply reverse_involutive.
Qed.

Lemma hexEncode_hex s : hexText (hexEncode s).
Proof.
  unfold hexText, hexEncode. apply Forall_flat_map, Forall_forall. intros c _.
  assert (ord c < 256)%N as Hc by apply N_ascii_bounded.
  repeat constructor; rewrite hexOf_value; try (by eexists); [apply N.Div0.div_lt_upper_bound; lia|by apply N.mod_lt].
Qed.

(** Signatures round trip: the header value [SignBody] makes is accepted, and a value
    is accepted exactly when, spaces around it and the case of its digits
    apart, it is that one. *)
Theorem signature_roundtrip body secret :
  verifyHMAC hmac body (SignBody hmac body secret) secret = true /\
  forall sig, verifyHMAC hmac body sig secret = true <->
    hexDecode (trimSpace sig) = hexDecode (SignBody hmac body secret).
Proof.
  unfold SignBody. rewrite hexDecode_encode. split; [|apply (fun sig => verifyHMAC_spec body sig secret)].
  apply verifyHMAC_spec. by rewrite trimSpace_hex, hexDecode_encode by apply hexEncode_hex.
Qed.
End webhook.

(** ** S3 events *)

Definition isPush (c : sourceCall) : bool := match c with Push _ => true | _ => false end.

Lemma calls_snoc (t : trace sourceR) (c : sourceCall) (r : sourceR c) :
  calls (t ++ [ev c r]) = calls t ++ [c].
Proof. by rewrite calls_app. Qed.

Lemma pushAll_run o h hits :
  let '(sent, t) := run (R := sourceR) o h (pushAll hits) in
  exists n, calls t = map Push (take n hits) /\ (sent = true -> take n hits = hits) /\
    (sent = false -> exists x, last (take n hits) = Some x).
Proof.
  revert h; induction hits as [|x hits IH]; intros h; cbn [pushAll run].
  { exists 0. by split_and!. }
  destruct (o h (Push x)) eqn:E; cbn [run].
  - specialize (IH (h ++ [ev (Push x) (o h (Push x))])). rewrite E in IH.
    destruct (run o _ (pushAll hits)) as [sent t]. destruct IH as (n & Hc & Ht & Hf).
    exists (S n). cbn [calls map projT1 ev take]. unfold calls in Hc. rewrite Hc.
    split_and!; [done|by intros ?%Ht; congruence|].
    intros Hs. destruct (Hf Hs) as [y Hy]. exists y. destruct (take n hits); [done|exact Hy].
  - exists 1. cbn. by split_and!; [|done|by exists x].
Qed.

(** At least once: a message of the queue is deleted only after every hit of its
    records was sent, in order; a message that does not decode, or whose sends
    the shutdown cut short, is kept. *)
Theorem sqs_delete_after_push decodeEnvelope decodeEvent tid m (o : env sourceR) receipt :
  let t := (run o [] (processSQSMessage decodeEnvelope decodeEvent tid m)).2 in
  DeleteMessage receipt ∈ calls t ->
  exists records, s3Records decodeEnvelope decodeEvent m = Some records /\
    m_ReceiptHandle m = Some receipt /\
    calls t = map Push (omap (s3Hit tid) records) ++ [DeleteMessage receipt].
Proof.
  cbn zeta. unfold processSQSMessage.
  destruct (s3Records decodeEnvelope decodeEvent m) as [records|]; [|by intros ?%elem_of_nil].
  rewrite run_bind. pose proof (pushAll_run o [] (omap (s3Hit tid) records)) as H.
  destruct (run o [] (pushAll _)) as [sent t]. destruct H as (n & Hc & Ht & _).
  assert (DeleteMessage receipt ∉ map Push (take n (omap (s3Hit tid) records))) as Hn.
  { intros (x & Hx & _)%list_elem_of_fmap. done. }
  destruct sent; cbn [run snd app].
  2: { by rewrite app_nil_r, Hc. }
  destruct (m_ReceiptHandle m) as [receipt'|]; cbn [run snd].
  2: { by rewrite app_nil_r, Hc. }
  rewrite calls_snoc, Hc.
  intros [?|Hd%list_elem_of_singleton]%elem_of_app; [done|]. injection Hd as <-.
  exists records. split_and!; [done|done|]. by rewrite (Ht eq_refl).
Qed.

(** ** Concrete runs *)

Module Demo.
Definition tid : gostring := "acme".
Definition loc : gostring := "s3://w/t/metadata/1.metadata.json".
Definition ids (s : gostring) : option gostring := if bool_decide (s = []) then None else Some s.
Definition ssn : ColumnFinding := mkFinding "ssn" "ssn" "SSN" "pii" 65 "NAME".

(** One emission that records a finding, then one of another replica. *)
Definition emit (run : gostring) (d : tenantDB) : emitResult * tenantDB :=
  EmitDetectionResults ids tid loc [] 0 [ssn] run 1 TxFine (fun _ => true) d.
Definition db1 : tenantDB := (emit "run-1" emptyDB).2.
Definition db2 : tenantDB := (emit "run-2" db1).2.

Definition hit (source name : gostring) : Hit := mkHit tid loc source [] name.
Definition byPoller : Hit := hit "poller" [].
Definition byWebhook : Hit := hit "polaris-webhook" "t".

Definition scans : nat -> scanEnv :=
  fun _ => mkScanEnv (fun _ => CredsFound) true (fun _ _ => TableLoaded ["ssn"%go]) "run-1" 1
    TxFine (fun _ => true) true.

(** A queue that accepts everything. *)
Definition open : env sourceR :=
  fun _ c => match c return sourceR c with
             | Push _ | CtxDone | DeleteMessage _ => true
             | ListActiveTenants => None
             | SourceNow => 0%Z
             | FreshLocations _ _ => None
             | LoadSecret _ => None
             end.
Definition event (body : gostring) : option (list s3Record) :=
  if bool_decide (body = "e") then Some [mkS3Record "ObjectCreated:Put" "w" "t/metadata/1.metadata.json"]
  else None.

Theorem one_run_per_snapshot_witness :
  runs db1 !! loc = Some (mkRun "run-1" "regex" 0 (Some 1%Z)) /\
  runs db2 !! loc = Some (mkRun "run-1" "regex" 0 (Some 1%Z)) /\
  classifications db2 !! (loc, "ssn"%go, "ssn"%go, "run-2"%go) = None.
Proof.
  assert (Hr : runs db1 !! loc = Some (mkRun "run-1" "regex" 0 (Some 1%Z))) by (vm_compute; reflexivity).
  destruct (one_run_per_snapshot ids db1 db2) as [_ H].
  - eapply rtc_l; [|apply rtc_refl].
    exact (emission_intro ids tid loc [] 0 [ssn] "run-1" 1 TxFine (fun _ => true) emptyDB).
  - eapply rtc_l; [|apply rtc_refl].
    exact (emission_intro ids tid loc [] 0 [ssn] "run-2" 1 TxFine (fun _ => true) db1).
  - destruct (H loc _ Hr) as [H2 H3]. split; [exact Hr|split; [exact H2|]].
    destruct (classifications db2 !! (loc, "ssn"%go, "ssn"%go, "run-2"%go)) eqn:E; [|reflexivity].
    destruct (H3 "ssn"%go "ssn"%go "run-2"%go) as [_ Hx]; [rewrite E; eexists; reflexivity|].
    vm_compute in Hx. discriminate Hx.
Defined.

Theorem emission_outcome_witness :
  (emit "run-1" emptyDB).1 = Emitted "run-1" /\
  (loc, "ssn"%go, "ssn"%go, "run-1"%go) ∈ detectedBy db1.
Proof.
  assert (Hc : consistent emptyDB).
  { split; cbn; intros *; rewrite lookup_empty; [discriminate|intros [x Hx]; discriminate Hx]. }
  pose proof (emission_outcome ids tid loc [] 0 [ssn] "run-1" 1 TxFine (fun _ => true) emptyDB Hc) as H.
  assert (Hr : (emit "run-1" emptyDB).1 = Emitted "run-1") by (vm_compute; reflexivity).
  split; [exact Hr|]. unfold db1, emit in *.
  destruct (EmitDetectionResults _ _ _ _ _ _ _ _ _ _ _) as [r d]. cbn in Hr |- *. rewrite Hr in H.
  destruct H as (_ & _ & _ & H). apply (H ssn). left.
Defined.

Theorem seen_suppresses_witness :
  (poolRun [Arrive byPoller 0; Arrive byWebhook 5] ∅).2 = [byPoller] /\
  (poolRun [Arrive byPoller 0; Arrive byWebhook 5; Sweep (seenTTL + 1); Arrive byWebhook 6] ∅).2 =
    [byPoller; byWebhook].
Proof.
  destruct (seen_suppresses byPoller 0 [Arrive byWebhook 5] ∅) as (rest & H1 & H2 & H3).
  - discriminate.
  - reflexivity.
  - intros now H. repeat (apply elem_of_cons in H as [H|H]; [discriminate H|]). by apply elem_of_nil in H.
  - assert (rest = []) as ->.
    { apply (f_equal (@length _)) in H1. vm_compute in H1. destruct rest; [reflexivity|discriminate H1]. }
    split; [exact H1|]. exact (H3 (seenTTL + 1)%Z byWebhook 6%Z eq_refl eq_refl).
Defined.

Theorem untabled_hit_hides_snapshot_witness :
  runs (default emptyDB (runScans ids scans 0
    (poolRun [Arrive byPoller 0; Arrive byWebhook 5] ∅).2 ∅ !! tid)) !! loc = None /\
  is_Some (runs (default emptyDB (runScans ids scans 0
    (poolRun [Arrive byWebhook 5; Arrive byPoller 6] ∅).2 ∅ !! tid)) !! loc).
Proof.
  split; [|vm_compute; eexists; reflexivity].
  refine (eq_trans (untabled_hit_hides_snapshot ids byPoller 0 [Arrive byWebhook 5] ∅ scans ∅
                      _ _ _ _ tid) _); [| | | |vm_compute; reflexivity].
  - reflexivity.
  - discriminate.
  - reflexivity.
  - intros now H. repeat (apply elem_of_cons in H as [H|H]; [discriminate H|]). by apply elem_of_nil in H.
Defined.

Theorem sqs_delete_after_push_witness :
  let m := mkMessage (Some "e"%go) (Some "r"%go) in
  exists records, s3Records (fun _ => Some []) event m = Some records /\
    omap (s3Hit tid) records <> [].
Proof.
  destruct (sqs_delete_after_push (fun _ => Some []) event tid (mkMessage (Some "e"%go) (Some "r"%go))
    open "r") as (records & H & _ & Hc).
  - vm_compute. right. left.
  - exists records. split; [exact H|]. vm_compute in H. injection H as <-. vm_compute. discriminate.
Defined.
End Demo.
