(* ===== verification/Sqlproxy.v ===== *)
(** * The SQL proxy: injectors, artifact cache and handler

    [internal/sqlproxy] and the injectors of [internal/sqlproxy/dialect]:
    [InjectPolicy] of the three engines as programs that call the pin store and
    the compiled-policy loader, the artifact cache they share (an [Lru]), its
    invalidation, and the HTTP handler with its status mapping. *)

From S2P Require Import Prelude Effects Lru Splice SpliceSpec PolicyStore.
From Stdlib Require Import Lia.

(** ** Data ([injector.go]) *)

(** [sqlproxy.TableRef]: the namespace is one dot-joined string. *)
Record TableRef := mkTable { Namespace : gostring; Name : gostring }.

Record CacheKey := mkKey {
  k_TenantID : gostring; k_Namespace : gostring; k_Table : gostring; k_Engine : gostring
}.

#[export] Instance CacheKey_eq_dec : EqDecision CacheKey.
Proof. solve_decision. Defined.
#[export] Instance CacheKey_countable : Countable CacheKey.
Proof.
  refine (inj_countable'
    (fun k => (k_TenantID k, k_Namespace k, k_Table k, k_Engine k))
    (fun '(a, b, c, d) => mkKey a b c d) _).
  by intros [].
Defined.

Record ArtifactEntry := mkEntry { Body : gostring; Kind : gostring }.

Definition CacheStatusHit : gostring := "hit".
Definition CacheStatusMiss : gostring := "miss".
Definition CacheStatusError : gostring := "error".

(** What an injector returns: the rewritten query or the sentinel its error
    wraps, and the cache status. *)
Record reply := mkReply {
  outcome : result sqlproxy_err gostring;
  cacheStatus : gostring
}.

Definition failure (e : sqlproxy_err) : reply := mkReply (Err e) CacheStatusError.

(** ** Programs

    The calls on [SnapshotPinReader] and [CompiledLoader]; [None] is an error,
    an empty snapshot id means no pin. *)
Inductive proxyCall :=
  | ActiveSnapshotIDForTable (ref : PolicyStore.TableRef)
  | LoadCompiled (ref : PolicyStore.TableRef).

Definition proxyR (c : proxyCall) : Type :=
  match c with
  | ActiveSnapshotIDForTable _ => option gostring
  | LoadCompiled _ => option (list CompiledPolicy)
  end.

Definition icebergRef (t : TableRef) : PolicyStore.TableRef :=
  mkTableRef [Namespace t] (Name t).

Definition cacheKey (engine tid : gostring) (t : TableRef) : CacheKey :=
  mkKey tid (Namespace t) (Name t) engine.

Section injectors.
Context {C : Type} `{!Lru CacheKey ArtifactEntry C}.

Abbreviation proxyProg := (prog proxyR (reply * C)).

(** [SpliceArtifact] of an entry, with the status of its source. *)
Definition spliceEntry (query : gostring) (entry : ArtifactEntry) (status : gostring) : reply :=
  match SpliceArtifact query (Body entry) (Kind entry) with
  | Ok rewritten => mkReply (Ok rewritten) status
  | Err e => failure e
  end.

(** The pin step: the query to go on with. *)
Definition pinned (d : PinFromDialect) (hasPinStore : bool) (query : gostring) (t : TableRef)
  : prog proxyR (result sqlproxy_err gostring) :=
  if hasPinStore then
    Do (R := proxyR) (ActiveSnapshotIDForTable (icebergRef t)) (fun r : option gostring =>
    match r with
    | None => Ret (Err ErrPolicyEngineUnavailable)
    | Some snapID =>
        if bool_decide (snapID = []) then Ret (Ok query)
        else Ret (RewriteFromForSnapshotPin query snapID d)
    end)
  else Ret (Ok query).

(** The pre-pass: some row of the engine is suspended. *)
Definition suspended (engine : gostring) (compiled : list CompiledPolicy) : bool :=
  existsb (fun cp => bool_decide (EngineKind cp = engine)
                     && bool_decide (Status cp = StatusDivergentSuspended)) compiled.

(** A row the second loop stops at. *)
Definition eligible (engine : gostring) (cp : CompiledPolicy) : bool :=
  bool_decide (EngineKind cp = engine) && bool_decide (Status cp = StatusActive)
  && negb (bool_decide (ArtifactKind cp = KindPredicate)).

Definition entryOf (cp : CompiledPolicy) : ArtifactEntry :=
  mkEntry (ArtifactBody cp) (ArtifactKind cp).

(** The second loop: the first eligible row is cached and spliced. *)
Fixpoint serveActive (engine : gostring) (key : CacheKey) (query : gostring) (cache : C)
    (compiled : list CompiledPolicy) : reply * C :=
  match compiled with
  | [] => (mkReply (Err ErrPolicyEngineUnavailable) CacheStatusMiss, cache)
  | cp :: compiled =>
      if eligible engine cp then
        (spliceEntry query (entryOf cp) CacheStatusMiss, lru_add key (entryOf cp) cache)
      else serveActive engine key query cache compiled
  end.

(** Cache, then loader: what the injectors do with the query of the pin step,
    [serve] being their loops over the loaded rows. *)
Definition lookupAndServe (engine tid query : gostring) (t : TableRef) (cache : C)
    (serve : CacheKey -> C -> list CompiledPolicy -> reply * C) : proxyProg :=
  let key := cacheKey engine tid t in
  let '(found, cache) := lru_get key cache in
  match found with
  | Some entry => Ret (spliceEntry query entry CacheStatusHit, cache)
  | None =>
      Do (R := proxyR) (LoadCompiled (icebergRef t)) (fun r : option (list CompiledPolicy) =>
      match r with
      | None => Ret (failure ErrPolicyEngineUnavailable, cache)
      | Some compiled => Ret (serve key cache compiled)
      end)
  end.

(** The two loops of [trino.go] and [spark.go]. *)
Definition prePassServe (engine query : gostring) (key : CacheKey) (cache : C)
    (compiled : list CompiledPolicy) : reply * C :=
  if suspended engine compiled then (failure ErrPolicyEngineUnavailable, cache)
  else serveActive engine key query cache compiled.

(** The one loop of [dremio.go]: a suspended row fails when it is reached. *)
Fixpoint dremioServe (query : gostring) (key : CacheKey) (cache : C)
    (compiled : list CompiledPolicy) : reply * C :=
  match compiled with
  | [] => (mkReply (Err ErrPolicyEngineUnavailable) CacheStatusMiss, cache)
  | cp :: compiled =>
      if bool_decide (EngineKind cp <> "dremio") then dremioServe query key cache compiled
      else if bool_decide (Status cp = StatusDivergentSuspended) then
        (failure ErrPolicyEngineUnavailable, cache)
      else if eligible "dremio" cp then
        (spliceEntry query (entryOf cp) CacheStatusMiss, lru_add key (entryOf cp) cache)
      else dremioServe query key cache compiled
  end.

(** An injector: tenant of the context, query, table and the shared cache. *)
Definition Injector : Type := option gostring -> gostring -> TableRef -> C -> proxyProg.

Definition TrinoInjectPolicy (hasPinStore : bool) : Injector := fun tenant query t cache =>
  match tenant with
  | None => Ret (failure ErrPolicyEngineUnavailable, cache)
  | Some tid =>
      bind (pinned PinDialectTrino hasPinStore query t) (fun r =>
      match r with
      | Err e => Ret (failure e, cache)
      | Ok query => lookupAndServe "trino" tid query t cache (prePassServe "trino" query)
      end)
  end.

Definition SparkInjectPolicy : Injector := fun tenant query t cache =>
  match tenant with
  | None => Ret (failure ErrPolicyEngineUnavailable, cache)
  | Some tid => lookupAndServe "spark" tid query t cache (prePassServe "spark" query)
  end.

Definition DremioInjectPolicy (hasPinStore : bool) : Injector := fun tenant query t cache =>
  match tenant with
  | None => Ret (failure ErrPolicyEngineUnavailable, cache)
  | Some tid =>
      bind (pinned PinDialectDremio hasPinStore query t) (fun r =>
      match r with
      | Err e => Ret (failure e, cache)
      | Ok query => lookupAndServe "dremio" tid query t cache (dremioServe query)
      end)
  end.

(** [BuildInjector]: the injectors it builds have no pin store. *)
Definition BuildInjector (engineKind : gostring) : result sqlproxy_err Injector :=
  if bool_decide (engineKind = "trino") then Ok (TrinoInjectPolicy false)
  else if bool_decide (engineKind = "spark") then Ok SparkInjectPolicy
  else if bool_decide (engineKind = "dremio") then Ok (DremioInjectPolicy false)
  else Err ErrEngineNotSupported.

(** [Cache.Invalidate]: over a snapshot of the keys. *)
Definition Invalidate (tenantID tableID : gostring) (cache : C) : C :=
  fold_left (fun c k =>
      if bool_decide (k_TenantID k = tenantID) && bool_decide (k_Table k = tableID)
      then lru_remove k c else c)
    (lru_keys cache) cache.
End injectors.
Arguments Injector : clear implicits.

(** ** The handler ([server.go]) *)

Definition maxSQLBodyBytes : N := 1048576.

(** [^[a-zA-Z0-9_-]+$]. *)
Definition identifierByte (c : ascii) : bool :=
  isUpper c || isLower c || isDigit c || bool_decide (c = "_"%char) || bool_decide (c = "-"%char).

Definition identifierRegex (s : gostring) : bool :=
  negb (bool_decide (s = [])) && forallb identifierByte s.

(** The decoded body; the principal is left out, the splicers ignore it. *)
Record sqlRequest := mkRequest { Query : gostring; Table : TableRef }.

(** A request: the tenant of its context, the path values, and the body, [None]
    when the connection fails. *)
Record httpRequest := mkHttp {
  r_tenant : option gostring; r_engine : gostring; r_prefix : gostring;
  r_body : option gostring
}.

(** A response, with the counters the request increments: failures by engine and
    reason, lookups by engine and cache status. *)
Record response := mkResponse {
  status : N;
  rewritten_query : option gostring;
  failures : list (gostring * gostring);
  lookups : list (gostring * gostring)
}.

Definition httpError (code : N) : response := mkResponse code None [] [].

(** What [errors.Is] tells apart in an injector's error. *)
Inductive injector_err :=
  | Sentinel (e : sqlproxy_err)
  | ErrAdapterStub
  | OtherErr.

Definition errorStatus (e : injector_err) : N * gostring :=
  match e with
  | Sentinel ErrPolicyEngineUnavailable => (503, "policy_engine_unavailable")
  | Sentinel ErrEngineNotSupported | ErrAdapterStub => (501, "engine_not_supported")
  | Sentinel ErrUnsupportedQueryShape => (422, "unsupported_query_shape")
  | Sentinel ErrSpliceMismatch => (422, "splice_mismatch")
  | Sentinel ErrInjectionFailed => (422, "injection_failed")
  | OtherErr => (500, "injection_failed")
  end%N.

Definition injectorError (engine : gostring) (e : injector_err) : response :=
  let '(code, reason) := errorStatus e in mkResponse code None [(engine, reason)] [].

Definition normalizeCacheStatus (s : gostring) : gostring :=
  let s := lowerWord (trimSpace s) in
  if bool_decide (s = CacheStatusHit) then CacheStatusHit
  else if bool_decide (s = CacheStatusMiss) then CacheStatusMiss
  else CacheStatusError.

Section handler.
Context {C : Type} (unmarshal : gostring -> option sqlRequest)
  (Injectors : gmap gostring (Injector C)).

(** Steps 6 to 8: the answer of the injector. *)
Definition respond (engine : gostring) (r : reply) : response :=
  match outcome r with
  | Err e => injectorError engine (Sentinel e)
  | Ok rewritten =>
      mkResponse 200 (Some rewritten) [] [(engine, normalizeCacheStatus (cacheStatus r))]
  end.

Definition handleInject (r : httpRequest) (cache : C) : prog proxyR (response * C) :=
  match r_tenant r with
  | None => Ret (httpError 500, cache)
  | Some tid =>
      if negb (identifierRegex (r_engine r)) || negb (identifierRegex (r_prefix r))
      then Ret (httpError 400, cache)
      else
        match r_body r with
        | None => Ret (httpError 400, cache)
        | Some body =>
            if (maxSQLBodyBytes <? N.of_nat (length body))%N then Ret (httpError 413, cache)
            else
              match unmarshal body with
              | None => Ret (httpError 400, cache)
              | Some req =>
                  if bool_decide (Query req = [] \/ Name (Table req) = [])
                  then Ret (httpError 400, cache)
                  else
                    match Injectors !! r_engine r with
                    | None => Ret (mkResponse 501 None [(r_engine r, "engine_not_supported")] [], cache)
                    | Some injector =>
                        bind (injector (r_tenant r) (Query req) (Table req) cache)
                          (fun '(reply, cache) => Ret (respond (r_engine r) reply, cache))
                    end
              end
        end
  end.
End handler.
