(* ===== verification/SqlproxySpec.v ===== *)
(** * The SQL proxy: what it guarantees

    An injector serves a query only through the splice of an artifact that was
    loaded as an active policy of the same tenant, table and engine: stated for
    one request ([served]), for the cache over any history of requests and
    invalidations ([rtc proxyStep]) and for the handler, which is proved against
    the interface [SoundInjector]. *)

From S2P Require Import Prelude Lru Splice SpliceLemmas SpliceSpec Effects PolicyStore Sqlproxy.
From Stdlib Require Import Lia.

(** The loader answered [rows] for the table within the trace. *)
Definition loaded (t : TableRef) (rows : list CompiledPolicy) (tr : trace proxyR) : Prop :=
  ev (R := proxyR) (LoadCompiled (icebergRef t)) (Some rows) ∈ tr.

(** The artifact is that of an eligible row loaded for the table. *)
Definition origin (engine : gostring) (t : TableRef) (tr : trace proxyR) (e : ArtifactEntry) : Prop :=
  exists rows cp, loaded t rows tr /\ cp ∈ rows /\ eligible engine cp = true /\ e = entryOf cp.

(** ** One request *)

Section served.
Context {C : Type} `{!Lru CacheKey ArtifactEntry C}.

(** What an injector's answer to a request of tenant [tid] satisfies, with the
    cache before and after and the calls made. *)
Record served (engine tid query : gostring) (t : TableRef) (c : C)
    (rep : reply) (c' : C) (tr : trace proxyR) : Prop := {
  (* a rewritten query is the splice of a cached or a just loaded artifact *)
  served_splice : forall q', outcome rep = Ok q' -> exists entry,
    SpliceArtifact query (Body entry) (Kind entry) = Ok q' /\
    (cacheStatus rep = CacheStatusHit /\
       lru_contents c !! cacheKey engine tid t = Some entry \/
     cacheStatus rep = CacheStatusMiss /\
       lru_contents c !! cacheKey engine tid t = None /\ origin engine t tr entry);
  (* the cache gains at most that artifact, under the request's key *)
  served_frame : forall k e, lru_contents c' !! k = Some e ->
    lru_contents c !! k = Some e \/ k = cacheKey engine tid t /\ origin engine t tr e
}.

(** The promise of an injector to the handler. *)
Class SoundInjector (engine : gostring) (inj : Injector C) : Prop := {
  inj_tenantless : forall query t c,
    inj None query t c = Ret (failure ErrPolicyEngineUnavailable, c);
  inj_served : forall tid query t c,
    always (inj (Some tid) query t c) [] (fun '(rep, c') tr =>
      served engine tid query t c rep c' tr)
}.

Lemma served_failure engine tid query t c e (c' : C) tr st :
  lru_contents c' = lru_contents c -> served engine tid query t c (mkReply (Err e) st) c' tr.
Proof. intros Hc. split; [done|]. intros k x. rewrite Hc. by left. Qed.

(** The row a loop serves: spliced and cached. *)
Lemma served_row engine tid query t (c c0 : C) rows cp tr :
  lru_contents c0 = lru_contents c -> lru_contents c !! cacheKey engine tid t = None ->
  loaded t rows tr -> cp ∈ rows -> eligible engine cp = true ->
  served engine tid query t c (spliceEntry query (entryOf cp) CacheStatusMiss)
    (lru_add (cacheKey engine tid t) (entryOf cp) c0) tr.
Proof.
  intros Hc Hn Hl Hin He.
  assert (origin engine t tr (entryOf cp)) as Ho by (by exists rows, cp).
  split.
  - intros q'. unfold spliceEntry.
    destruct (SpliceArtifact query _ _) as [r|e] eqn:Es; [|done]. intros [= <-].
    exists (entryOf cp). split; [done|]. by right.
  - intros k e [[-> ->]|Hk]%lru_add_inv; [by right|left]. by rewrite <- Hc.
Qed.

Lemma serveActive_served engine tid query t (c c0 : C) rows tr :
  lru_contents c0 = lru_contents c -> lru_contents c !! cacheKey engine tid t = None ->
  loaded t rows tr ->
  forall todo, todo ⊆ rows ->
  let '(rep, c') := serveActive engine (cacheKey engine tid t) query c0 todo in
  served engine tid query t c rep c' tr.
Proof.
  intros Hc Hn Hl. induction todo as [|cp todo IH]; intros Hs; cbn [serveActive].
  - by apply served_failure.
  - destruct (eligible engine cp) eqn:E.
    + eapply served_row; try done. apply Hs. by left.
    + apply IH. set_solver.
Qed.

Lemma dremioServe_served tid query t (c c0 : C) rows tr :
  lru_contents c0 = lru_contents c -> lru_contents c !! cacheKey "dremio" tid t = None ->
  loaded t rows tr ->
  forall todo, todo ⊆ rows ->
  let '(rep, c') := dremioServe query (cacheKey "dremio" tid t) c0 todo in
  served "dremio" tid query t c rep c' tr.
Proof.
  intros Hc Hn Hl. induction todo as [|cp todo IH]; intros Hs; cbn [dremioServe].
  - by apply served_failure.
  - assert (todo ⊆ rows) by set_solver.
    destruct (bool_decide (EngineKind cp <> "dremio")); [by apply IH|].
    destruct (bool_decide (Status cp = StatusDivergentSuspended)); [by apply served_failure|].
    destruct (eligible "dremio" cp) eqn:E; [|by apply IH].
    eapply served_row; try done. apply Hs. by left.
Qed.

(** Cache, loader and a loop that is sound over the loaded rows. *)
Lemma lookupAndServe_served engine tid query t (c : C) serve h :
  (forall c0 rows tr, lru_contents c0 = lru_contents c ->
    lru_contents c !! cacheKey engine tid t = None -> loaded t rows tr ->
    let '(rep, c') := serve (cacheKey engine tid t) c0 rows in
    served engine tid query t c rep c' tr) ->
  always (lookupAndServe engine tid query t c serve) h (fun '(rep, c') tr =>
    served engine tid query t c rep c' tr).
Proof.
  intros Hs. unfold lookupAndServe.
  pose proof (lru_get_value (cacheKey engine tid t) c) as Hv.
  pose proof (lru_get_contents (cacheKey engine tid t) c) as Hc.
  destruct (lru_get (cacheKey engine tid t) c) as [[entry|] c0]; cbn [fst snd] in *.
  - cbn [always]. split.
    + intros q'. unfold spliceEntry.
      destruct (SpliceArtifact query _ _) as [r|e] eqn:Es; [|done]. intros [= <-].
      exists entry. split; [done|]. by left.
    + intros k e. rewrite Hc. by left.
  - cbn [always]. intros [rows|]; cbn [always]; [|by apply served_failure].
    specialize (Hs c0 rows (h ++ [ev (LoadCompiled (icebergRef t)) (Some rows)])
      Hc (eq_sym Hv)).
    destruct (serve (cacheKey engine tid t) c0 rows) as [rep c']. apply Hs.
    unfold loaded. rewrite elem_of_app. right. by left.
Qed.

Lemma unparsed_never_spliced query body kind e q' :
  parseSelect query = Err e -> SpliceArtifact query body kind <> Ok q'.
Proof.
  intros H. unfold SpliceArtifact, spliceRowFilter, spliceColumnMask. rewrite H.
  destruct (bool_decide _); [done|]. by destruct (bool_decide _).
Qed.

(** A pinned query is not served, whatever is served for it. *)
Lemma served_pinned engine tid query id d pinnedQuery t (c c' : C) rep tr :
  RewriteFromForSnapshotPin query id d = Ok pinnedQuery ->
  served engine tid pinnedQuery t c rep c' tr ->
  served engine tid query t c rep c' tr /\ is_ok (outcome rep) = false.
Proof.
  intros Hp%pinned_unparsed [Hs Hf].
  assert (forall q', outcome rep <> Ok q') as Hno.
  { intros q' Hq. destruct (Hs q' Hq) as (entry & He & _).
    by eapply unparsed_never_spliced in He. }
  split; [split; [|done]|].
  - intros q' Hq. by apply Hno in Hq.
  - destruct (outcome rep) as [q'|]; [|done]. by destruct (Hno q').
Qed.

Lemma prePass_served engine tid query t (c c0 : C) rows tr :
  lru_contents c0 = lru_contents c -> lru_contents c !! cacheKey engine tid t = None ->
  loaded t rows tr ->
  let '(rep, c') := prePassServe engine query (cacheKey engine tid t) c0 rows in
  served engine tid query t c rep c' tr.
Proof.
  intros Hc Hn Hl. unfold prePassServe.
  destruct (suspended engine rows); [by apply served_failure|].
  by apply (serveActive_served engine tid query t c c0 rows tr Hc Hn Hl rows).
Qed.

(** The pin step, then a serve that is sound for any query. *)
Lemma pinned_served engine tid d b query t (c : C) (serve : gostring -> prog proxyR (reply * C)) :
  (forall q h, always (serve q) h (fun '(rep, c') tr => served engine tid q t c rep c' tr)) ->
  always (bind (pinned d b query t) (fun r =>
    match r with Err e => Ret (failure e, c) | Ok q => serve q end)) []
    (fun '(rep, c') tr => served engine tid query t c rep c' tr).
Proof.
  intros Hs. unfold pinned. destruct b; cbn [bind always]; [|apply Hs].
  intros [snapID|]; cbn [bind always]; [|by apply served_failure].
  destruct (bool_decide (snapID = [])); cbn [bind]; [apply Hs|].
  destruct (RewriteFromForSnapshotPin query snapID d) as [q|e] eqn:E; cbn [always];
    [|by apply served_failure].
  eapply always_mono; [apply Hs|]. intros [rep c'] tr H. by eapply served_pinned in E as [? _].
Qed.

#[export] Instance Trino_sound b : SoundInjector "trino" (TrinoInjectPolicy b).
Proof.
  split; [done|]. intros tid query t c. apply pinned_served. intros q h.
  apply lookupAndServe_served. intros c0 rows tr. apply prePass_served.
Qed.

#[export] Instance Spark_sound : SoundInjector "spark" SparkInjectPolicy.
Proof.
  split; [done|]. intros tid query t c.
  apply lookupAndServe_served. intros c0 rows tr. apply prePass_served.
Qed.

#[export] Instance Dremio_sound b : SoundInjector "dremio" (DremioInjectPolicy b).
Proof.
  split; [done|]. intros tid query t c. apply pinned_served. intros q h.
  apply lookupAndServe_served. intros c0 rows tr Hc Hn Hl.
  by apply (dremioServe_served tid q t c c0 rows tr Hc Hn Hl rows).
Qed.

Lemma built_sound engine inj : BuildInjector engine = Ok inj -> SoundInjector engine inj.
Proof.
  unfold BuildInjector. repeat case_bool_decide; subst; try done; intros [= <-]; apply _.
Qed.
End served.

(** ** Histories of the cache *)

Section history.
Context {C : Type} `{!Lru CacheKey ArtifactEntry C}.

(** The cache and the requests so far, each the tenant and the calls made. *)
Record proxyState := mkState { cache : C; requests : list (gostring * trace proxyR) }.

Inductive proxyStep : proxyState -> proxyState -> Prop :=
  | step_request engine inj tid query t c h (o : env proxyR) rep c' tr :
      BuildInjector engine = Ok inj ->
      run o [] (inj (Some tid) query t c) = ((rep, c'), tr) ->
      proxyStep (mkState c h) (mkState c' ((tid, tr) :: h))
  | step_invalidate tenantID tableID c h :
      proxyStep (mkState c h) (mkState (Invalidate tenantID tableID c) h).

(** Every cached artifact was loaded, as an active row of the key's engine and
    for the key's table, by a request of the key's tenant. *)
Definition provenance (s : proxyState) : Prop := forall k e,
  lru_contents (cache s) !! k = Some e -> exists tr,
    (k_TenantID k, tr) ∈ requests s /\
    origin (k_Engine k) (mkTable (k_Namespace k) (k_Table k)) tr e.

Lemma fold_remove (P : CacheKey -> bool) keys (c : C) k :
  lru_contents (fold_left (fun c k => if P k then lru_remove k c else c) keys c) !! k =
  if bool_decide (k ∈ keys) && P k then None else lru_contents c !! k.
Proof.
  revert c. induction keys as [|k0 keys IH]; intros c; cbn [fold_left]; [done|].
  rewrite IH, (bool_decide_ext (k ∈ k0 :: keys) (k = k0 \/ k ∈ keys)) by apply elem_of_cons.
  rewrite bool_decide_or. destruct (P k0) eqn:E; [rewrite lru_remove_contents|].
  - destruct (decide (k = k0)) as [->|Hne].
    + rewrite lookup_delete_eq, E, (bool_decide_eq_true_2 (k0 = k0)) by done.
      by destruct (bool_decide (k0 ∈ keys)).
    + by rewrite lookup_delete_ne, (bool_decide_eq_false_2 (k = k0)) by done.
  - destruct (decide (k = k0)) as [->|Hne].
    + by rewrite E, !andb_false_r.
    + by rewrite (bool_decide_eq_false_2 (k = k0)) by done.
Qed.

(** What an invalidation leaves: the entries of other tenants and tables. *)
Lemma Invalidate_lookup tenantID tableID (c : C) k :
  lru_contents (Invalidate tenantID tableID c) !! k =
  if bool_decide (k_TenantID k = tenantID) && bool_decide (k_Table k = tableID) then None
  else lru_contents c !! k.
Proof.
  unfold Invalidate. rewrite (fold_remove (fun k => bool_decide (k_TenantID k = tenantID) &&
    bool_decide (k_Table k = tableID))).
  destruct (bool_decide (k_TenantID k = tenantID) && bool_decide (k_Table k = tableID));
    [|by rewrite andb_false_r].
  rewrite andb_true_r. case_bool_decide as Hk; [done|]. rewrite lru_keys_contents in Hk.
  by apply eq_None_not_Some.
Qed.

Lemma provenance_step s s' : proxyStep s s' -> provenance s -> provenance s'.
Proof.
  intros [engine inj tid query t c h o rep c' tr Hb Hr|tenantID tableID c h] Hp k e; cbn.
  - apply built_sound in Hb. pose proof (always_run _ _ [] o (inj_served tid query t c)) as H.
    rewrite Hr in H. cbn in H. intros [Hk|[-> Ho]]%(served_frame _ _ _ _ _ _ _ _ H).
    + destruct (Hp _ _ Hk) as (tr' & ? & ?). exists tr'. split; [by right|done].
    + exists tr. split; [by left|]. by destruct t.
  - rewrite Invalidate_lookup. case_match; [done|]. apply Hp.
Qed.
End history.
Arguments proxyState : clear implicits.

(** ** Single runs *)

Section runs.
Context {C : Type} `{!Lru CacheKey ArtifactEntry C}.

(** What the cache answers, from its contents. *)
Lemma lru_get_hit k (c : C) e :
  lru_contents c !! k = Some e ->
  exists c', lru_get k c = (Some e, c') /\ lru_contents c' = lru_contents c.
Proof.
  intros H. pose proof (lru_get_value k c). pose proof (lru_get_contents k c).
  destruct (lru_get k c) as [x c']. exists c'. cbn in *.
  split; congruence.
Qed.

Lemma lru_get_miss k (c : C) :
  lru_contents c !! k = None ->
  exists c', lru_get k c = (None, c') /\ lru_contents c' = lru_contents c.
Proof.
  intros H. pose proof (lru_get_value k c). pose proof (lru_get_contents k c).
  destruct (lru_get k c) as [x c']. exists c'. cbn in *.
  split; congruence.
Qed.

(** The serve step of a run that missed the cache. *)
Lemma lookupAndServe_miss engine tid query t (c : C) serve o h :
  lru_contents c !! cacheKey engine tid t = None ->
  exists c0, lru_contents c0 = lru_contents c /\
  run o h (lookupAndServe engine tid query t c serve) =
    let r := o h (LoadCompiled (icebergRef t)) in
    (match r with
     | None => (failure ErrPolicyEngineUnavailable, c0)
     | Some rows => serve (cacheKey engine tid t) c0 rows
     end, [ev (LoadCompiled (icebergRef t)) r]).
Proof.
  intros (c0 & E & Hc)%lru_get_miss. exists c0. split; [done|].
  unfold lookupAndServe. rewrite E. cbn [run]. by destruct (o h (LoadCompiled (icebergRef t))).
Qed.

End runs.

(** ** Properties *)

Section properties.
Context {C : Type} `{!Lru CacheKey ArtifactEntry C}.

(** (C2) No injector passes a query through unfiltered: for every engine, with
    or without a pin store, whatever the loader and the pin store answer, a
    rewritten query is the splice of an artifact cached under the request's
    tenant, table and engine or loaded by this request as an active row of
    that table and engine; without a tenant it fails with no call. *)
Theorem InjectPolicy_fails_closed engine (inj : Injector C) b tenant query t c (o : env proxyR) :
  (engine, inj) ∈ [("trino" : gostring, TrinoInjectPolicy b);
                   ("spark" : gostring, SparkInjectPolicy);
                   ("dremio" : gostring, DremioInjectPolicy b)] ->
  let '((rep, c'), tr) := run o [] (inj tenant query t c) in
  match tenant with
  | None => rep = failure ErrPolicyEngineUnavailable /\ c' = c /\ tr = []
  | Some tid => served engine tid query t c rep c' tr
  end.
Proof.
  intros Hi. assert (SoundInjector engine inj) as Hs.
  { apply list_elem_of_In in Hi. cbn in Hi.
    destruct Hi as [[= <- <-]|[[= <- <-]|[[= <- <-]|[]]]]; apply _. }
  destruct tenant as [tid|].
  - pose proof (always_run _ _ [] o (inj_served tid query t c)) as H.
    by destruct (run o [] (inj (Some tid) query t c)) as [[rep c'] tr].
  - by rewrite inj_tenantless.
Qed.

(** The artifact cache keeps tenants, tables and engines apart: in every
    state reached from an empty cache by requests and invalidations, a cached
    artifact was loaded for its key's table, as an active row of its key's
    engine, by a request of its key's tenant. *)
Theorem cache_provenance (c0 : C) s :
  lru_contents c0 = ∅ -> rtc proxyStep (mkState c0 []) s -> provenance s.
Proof.
  intros Hc Hs. assert (provenance (mkState c0 [])) as Hp.
  { intros k e. cbn. by rewrite Hc, lookup_empty. }
  revert Hp. induction Hs as [|s1 s2 s3 H12 H23 IH]; [done|].
  intros Hp. by apply IH, (provenance_step s1).
Qed.

(** An invalidation removes the entries of its tenant and table, in every
    namespace and for every engine, and no other. *)
Theorem Invalidate_exact tenantID tableID (c : C) :
  lru_contents (Invalidate tenantID tableID c) =
  filter (fun '(k, _) => ~ (k_TenantID k = tenantID /\ k_Table k = tableID)) (lru_contents c).
Proof.
  apply map_eq. intros k. rewrite Invalidate_lookup, map_lookup_filter.
  destruct (lru_contents c !! k) as [e|]; cbn; [|by case_match].
  destruct (decide (k_TenantID k = tenantID)) as [E1|E1];
    [destruct (decide (k_Table k = tableID)) as [E2|E2]|].
  - rewrite !bool_decide_eq_true_2 by done. cbn. rewrite option_guard_False; [done|tauto].
  - rewrite (bool_decide_eq_false_2 (k_Table k = tableID)), andb_false_r by done.
    rewrite option_guard_True; [done|tauto].
  - rewrite (bool_decide_eq_false_2 (k_TenantID k = tenantID)) by done.
    rewrite option_guard_True; [done|tauto].
Qed.

(** Trino and Spark refuse a table with a suspended row, wherever it is
    among the loaded rows; the one loop of Dremio serves an active row that
    comes before it. *)
Theorem suspension_by_engine engine query key (c : C) rows cp susp rest :
  suspended engine rows = true -> eligible "dremio" cp = true ->
  suspended "dremio" [susp] = true ->
  prePassServe engine query key c rows = (failure ErrPolicyEngineUnavailable, c) /\
  dremioServe query key c (susp :: cp :: rest) = (failure ErrPolicyEngineUnavailable, c) /\
  dremioServe query key c (cp :: susp :: rest) =
    (spliceEntry query (entryOf cp) CacheStatusMiss, lru_add key (entryOf cp) c).
Proof.
  intros Hs He Hd. unfold prePassServe. rewrite Hs. split; [done|].
  cbn [suspended existsb] in Hd. rewrite orb_false_r, andb_true_iff, !bool_decide_eq_true in Hd.
  destruct Hd as [Hk Hst]. pose proof He as Hcp. unfold eligible in Hcp.
  rewrite !andb_true_iff, !bool_decide_eq_true in Hcp. destruct Hcp as [[Hck Hcs] _].
  cbn [dremioServe]. rewrite Hk, Hst, Hck, Hcs, He. split; reflexivity.
Qed.

(** A cached artifact is served without asking the loader, so a policy
    suspended after it was cached is still served, until the entry is
    invalidated or evicted. *)
Theorem cached_artifact_outlives_suspension engine (inj : Injector C) tid query t c e
    (o : env proxyR) :
  BuildInjector engine = Ok inj -> lru_contents c !! cacheKey engine tid t = Some e ->
  exists c', lru_contents c' = lru_contents c /\
  run o [] (inj (Some tid) query t c) = ((spliceEntry query e CacheStatusHit, c'), []).
Proof.
  intros Hb (c' & Hg & Hc)%lru_get_hit. exists c'. split; [done|].
  revert Hb. unfold BuildInjector.
  repeat case_bool_decide; subst; try done; intros [= <-];
    unfold TrinoInjectPolicy, SparkInjectPolicy, DremioInjectPolicy, lookupAndServe;
    cbn [pinned bind]; rewrite Hg; reflexivity.
Qed.

(** With a pin active for the table, Trino and Dremio serve no query at
    all. *)
Theorem pinned_requests_fail (inj : Injector C) tid query t c snapID (o : env proxyR) :
  inj ∈ [TrinoInjectPolicy true; DremioInjectPolicy true] -> snapID <> [] ->
  o [] (ActiveSnapshotIDForTable (icebergRef t)) = Some snapID ->
  let '((rep, _), _) := run o [] (inj (Some tid) query t c) in is_ok (outcome rep) = false.
Proof.
  intros Hi Hn Ho.
  assert (exists engine d serve,
    inj (Some tid) query t c = bind (pinned d true query t) (fun r =>
      match r with Err e => Ret (failure e, c) | Ok q => serve q end) /\
    forall q h, always (serve q) h (fun '(rep, c') tr => served engine tid q t c rep c' tr))
    as (engine & d & serve & -> & Hs).
  { apply list_elem_of_In in Hi. cbn in Hi. destruct Hi as [<-|[<-|[]]].
    - exists "trino", PinDialectTrino. eexists. split; [reflexivity|]. cbn beta. intros q h.
      apply lookupAndServe_served. intros c0 rows tr. apply prePass_served.
    - exists "dremio", PinDialectDremio. eexists. split; [reflexivity|]. cbn beta. intros q h.
      apply lookupAndServe_served. intros c0 rows tr Hc Hm Hl.
      by apply (dremioServe_served tid q t c c0 rows tr Hc Hm Hl rows). }
  cbn [pinned bind run]. rewrite Ho, bool_decide_eq_false_2 by done. cbn [bind].
  destruct (RewriteFromForSnapshotPin query snapID d) as [q|e] eqn:E; [|done].
  pose proof (always_run _ _ _ o (Hs q ([] ++ [ev (ActiveSnapshotIDForTable (icebergRef t))
    (Some snapID)]))) as H.
  destruct (run o _ (serve q)) as [[rep c'] tr].
  by eapply served_pinned in E as [_ ?].
Qed.

(** The table of the request is trusted: it alone selects the policy, and
    the query's own table [table s] is never compared with it, so a request
    that names a table with a row filter reads any other table under that
    filter, whatever policies the other table has. *)
Theorem request_table_trusted tid t query s (c : C) cp rows (o : env proxyR) :
  parseSelect query = Ok s ->
  lru_contents c !! cacheKey "trino" tid t = None ->
  o [] (LoadCompiled (icebergRef t)) = Some (cp :: rows) ->
  suspended "trino" (cp :: rows) = false -> eligible "trino" cp = true ->
  ArtifactKind cp = KindRowFilter \/ ArtifactKind cp = [] ->
  let '((rep, _), tr) := run o [] (TrinoInjectPolicy false (Some tid) query t c) in
  outcome rep = Ok (selectHead s ++ " WHERE " ++
    conjunction (trimSpace (where_ s)) (ArtifactBody cp) ++ tailText s) /\
  calls tr = [LoadCompiled (icebergRef t)].
Proof.
  intros Hq Hm Ho Hs He Hk. unfold TrinoInjectPolicy. cbn [pinned bind].
  edestruct (lookupAndServe_miss "trino" tid query t c (prePassServe "trino" query) o [])
    as (c0 & Hc & ->); [done|].
  rewrite Ho. cbn zeta beta iota. unfold prePassServe. rewrite Hs. cbn [serveActive].
  rewrite He. unfold spliceEntry, SpliceArtifact. cbn [entryOf Body Kind].
  rewrite (bool_decide_eq_true_2 _ Hk). by rewrite (spliceRowFilter_text _ _ _ Hq).
Qed.
End properties.

(** ** The handler *)

Section handler.
Context {C : Type} `{!Lru CacheKey ArtifactEntry C}.
Context (unmarshal : gostring -> option sqlRequest) (Injectors : gmap gostring (Injector C)).

(** The guards of the handler, up to the request it dispatches. *)
Record admitted (r : httpRequest) (tid : gostring) (req : sqlRequest) : Prop := {
  adm_tenant : r_tenant r = Some tid;
  adm_engine : identifierRegex (r_engine r) = true;
  adm_prefix : identifierRegex (r_prefix r) = true;
  adm_body : exists body, r_body r = Some body /\
    (N.of_nat (length body) <= maxSQLBodyBytes)%N /\ unmarshal body = Some req;
  adm_query : Query req <> [];
  adm_table : Name (Table req) <> []
}.

(** What a response satisfies, with the cache before and after and the calls. *)
Record handled (r : httpRequest) (c : C) (resp : response) (c' : C) (tr : trace proxyR)
    : Prop := {
  (* a query is returned only with 200, and is a served one *)
  h_ok : forall q', rewritten_query resp = Some q' ->
    status resp = 200%N /\ failures resp = [] /\
    exists tid req rep, admitted r tid req /\ is_Some (Injectors !! r_engine r) /\
      outcome rep = Ok q' /\ served (r_engine r) tid (Query req) (Table req) c rep c' tr /\
      lookups resp = [(r_engine r, cacheStatus rep)];
  (* anything else is an error status, counted at most once *)
  h_err : rewritten_query resp = None ->
    status resp ∈ ([400; 413; 422; 500; 501; 503]%N : list N) /\ lookups resp = [] /\
    (length (failures resp) <= 1)%nat;
  (* calls are made for admitted requests of a registered engine only *)
  h_calls : tr <> [] -> exists tid req,
    admitted r tid req /\ is_Some (Injectors !! r_engine r)
}.

Lemma handled_error r (c : C) code fs :
  code ∈ ([400; 413; 422; 500; 501; 503]%N : list N) -> (length fs <= 1)%nat ->
  handled r c (mkResponse code None fs []) c [].
Proof. intros Hc Hf. by split. Qed.

Lemma errorStatus_in e :
  (errorStatus e).1 ∈ ([400; 413; 422; 500; 501; 503]%N : list N).
Proof. destruct e as [[]| |]; apply (bool_decide_eq_true_1 (_ ∈ _)); reflexivity. Qed.

(** The handler returns a query only with status 200 and only one that the
    injector of the path's engine served for the body's table and the
    context's tenant, and counts its lookup as the hit or miss it was; every
    other response is one of six error statuses with no query in it, and a
    request that fails a guard reaches no injector. *)
Theorem handleInject_spec r (c : C) (o : env proxyR) :
  map_Forall (fun engine inj => SoundInjector engine inj) Injectors ->
  let '((resp, c'), tr) := run o [] (handleInject unmarshal Injectors r c) in
  handled r c resp c' tr.
Proof.
  intros Hs.
  enough (always (handleInject unmarshal Injectors r c) []
    (fun '(resp, c') tr => handled r c resp c' tr)) as H.
  { pose proof (always_run _ _ _ o H) as Hr.
    by destruct (run o [] (handleInject unmarshal Injectors r c)) as [[resp c'] tr]. }
  unfold handleInject, httpError.
  assert (forall n, bool_decide (n ∈ ([400; 413; 422; 500; 501; 503]%N : list N)) = true ->
    handled r c (mkResponse n None [] []) c []) as Herr.
  { intros n Hn%bool_decide_eq_true_1. apply handled_error; [done|cbn; lia]. }
  destruct (r_tenant r) as [tid|] eqn:Et; [|by apply Herr].
  destruct (identifierRegex (r_engine r)) eqn:Ee; [|by apply Herr].
  destruct (identifierRegex (r_prefix r)) eqn:Ep; cbn [negb orb]; [|by apply Herr].
  destruct (r_body r) as [body|] eqn:Eb; [|by apply Herr].
  destruct (maxSQLBodyBytes <? N.of_nat (length body))%N eqn:El; [by apply Herr|].
  destruct (unmarshal body) as [req|] eqn:Eu; [|by apply Herr].
  case_bool_decide as Hq; [by apply Herr|].
  destruct (Injectors !! r_engine r) as [inj|] eqn:Ei.
  2: { apply handled_error; [|cbn; lia].
       apply (bool_decide_eq_true_1 (501%N ∈ _)). reflexivity. }
  assert (admitted r tid req) as Ha.
  { split; try done; [exists body; split_and!; [done|by apply N.ltb_ge|done]|tauto|tauto]. }
  apply always_bind. specialize (Hs _ _ Ei). cbn beta in Hs.
  eapply always_mono; [apply (inj_served tid)|]. intros [rep c'] tr Hserved. cbn [always].
  unfold respond. destruct (outcome rep) as [q'|e] eqn:Eo.
  - split; cbn; [|done|by exists tid, req].
    intros ? [= <-]. split; [done|]. split; [done|]. exists tid, req, rep.
    split_and!; [done|by eexists|done|done|].
    destruct (served_splice _ _ _ _ _ _ _ _ Hserved q' Eo) as (entry & _ & [[-> _]|[-> _]]);
      reflexivity.
  - unfold injectorError. pose proof (errorStatus_in (Sentinel e)) as He.
    destruct (errorStatus (Sentinel e)) as [code reason].
    split; cbn; [done| |by exists tid, req]. intros _. split_and!; [done|done|lia].
Qed.
End handler.

(** ** Witnesses *)

Module Samples.

(** A cache of two entries, a loader that knows one table, a pin store. *)
Definition proxyCache : Type := bounded CacheKey ArtifactEntry.
#[export] Instance proxyCache_lru : Lru CacheKey ArtifactEntry proxyCache := bounded_Lru 2.

Definition emptyCache : proxyCache := mkBounded [].
Definition orders : TableRef := mkTable "sales" "orders".
Definition active (engine : gostring) : CompiledPolicy :=
  mkCompiledPolicy "p1" engine "431" "orders" "sales" StatusActive "ck" "region = 'EU'" [].
Definition suspendedRow (engine : gostring) : CompiledPolicy :=
  mkCompiledPolicy "p2" engine "431" "orders" "sales" StatusDivergentSuspended "ck" "1=0" [].

Definition world : env proxyR := fun _ c =>
  match c with
  | ActiveSnapshotIDForTable _ => Some "42"
  | LoadCompiled _ => Some [active "trino"]
  end.

Definition ordersKey : CacheKey := cacheKey "trino" "t1" orders.
Definition filled : proxyCache := mkBounded [(ordersKey, entryOf (active "trino"))].

Definition salesQuery : gostring := "SELECT id FROM sales.orders".

Definition decoder (_ : gostring) : option sqlRequest := Some (mkRequest salesQuery orders).
Definition request : httpRequest := mkHttp (Some "t1") "trino" "cat" (Some "{}").
Definition registry : gmap gostring (Injector proxyCache) :=
  {[ ("trino" : gostring) := TrinoInjectPolicy false ]}.

End Samples.
Import Samples.

Lemma InjectPolicy_fails_closed_witness :
  served "trino" "t1" salesQuery orders emptyCache
    (run world [] (TrinoInjectPolicy false (Some "t1") salesQuery orders emptyCache)).1.1
    (run world [] (TrinoInjectPolicy false (Some "t1") salesQuery orders emptyCache)).1.2
    (run world [] (TrinoInjectPolicy false (Some "t1") salesQuery orders emptyCache)).2 /\
  outcome (run world [] (TrinoInjectPolicy false (Some "t1") salesQuery orders emptyCache)).1.1 =
    Ok "SELECT id FROM sales.orders WHERE (region = 'EU')".
Proof.
  split; [|vm_compute; reflexivity].
  pose proof (InjectPolicy_fails_closed "trino" (TrinoInjectPolicy false) false (Some "t1")
    salesQuery orders emptyCache world ltac:(left)) as H.
  destruct (run world [] (TrinoInjectPolicy false (Some "t1") salesQuery orders emptyCache))
    as [[rep c'] tr]. exact H.
Defined.

Lemma cache_provenance_witness : provenance (mkState (C := proxyCache) filled
  [("t1", [ev (R := proxyR) (LoadCompiled (icebergRef orders)) (Some [active "trino"])])]).
Proof.
  apply (cache_provenance emptyCache); [reflexivity|].
  eapply rtc_l; [|apply rtc_refl].
  apply (step_request "trino" (TrinoInjectPolicy false) "t1" salesQuery orders emptyCache []
    world (mkReply (Ok "SELECT id FROM sales.orders WHERE (region = 'EU')") CacheStatusMiss)).
  - reflexivity.
  - vm_compute. reflexivity.
Defined.

Lemma suspension_by_engine_witness :
  prePassServe "trino" salesQuery ordersKey emptyCache [active "trino"; suspendedRow "trino"] =
    (failure ErrPolicyEngineUnavailable, emptyCache) /\
  (dremioServe salesQuery ordersKey emptyCache [active "dremio"; suspendedRow "dremio"]).1 =
    mkReply (Ok "SELECT id FROM sales.orders WHERE (region = 'EU')") CacheStatusMiss.
Proof.
  destruct (suspension_by_engine "trino" salesQuery ordersKey emptyCache
    [active "trino"; suspendedRow "trino"] (active "dremio") (suspendedRow "dremio") []
    eq_refl eq_refl eq_refl) as (H1 & _ & H3).
  split; [exact H1|]. rewrite H3. vm_compute. reflexivity.
Defined.

Lemma cached_artifact_outlives_suspension_witness :
  exists c', (run world [] (TrinoInjectPolicy false (Some "t1") salesQuery orders filled)) =
    ((mkReply (Ok "SELECT id FROM sales.orders WHERE (region = 'EU')") CacheStatusHit, c'), []).
Proof.
  assert (lru_contents filled !! cacheKey "trino" "t1" orders = Some (entryOf (active "trino")))
    as Hk by (vm_compute; reflexivity).
  destruct (cached_artifact_outlives_suspension "trino" (TrinoInjectPolicy false) "t1" salesQuery
    orders filled (entryOf (active "trino")) world eq_refl Hk) as (c' & _ & H).
  exists c'. rewrite H. vm_compute. reflexivity.
Defined.

Lemma pinned_requests_fail_witness :
  is_ok (outcome (run world [] (TrinoInjectPolicy true (Some "t1") salesQuery orders emptyCache)).1.1)
    = false.
Proof.
  pose proof (pinned_requests_fail (TrinoInjectPolicy true) "t1" salesQuery orders emptyCache "42"
    world ltac:(left) ltac:(discriminate) eq_refl) as H.
  destruct (run world [] (TrinoInjectPolicy true (Some "t1") salesQuery orders emptyCache))
    as [[rep c'] tr]. exact H.
Defined.

Lemma request_table_trusted_witness :
  outcome (run world [] (TrinoInjectPolicy false (Some "t1") "SELECT ssn FROM hr.payroll" orders
    emptyCache)).1.1 = Ok "SELECT ssn FROM hr.payroll WHERE (region = 'EU')".
Proof.
  assert (lru_contents emptyCache !! cacheKey "trino" "t1" orders = None) as Hk
    by (vm_compute; reflexivity).
  pose proof (request_table_trusted "t1" orders "SELECT ssn FROM hr.payroll"
    (mkSelect "ssn" "hr.payroll" [] []) emptyCache (active "trino") [] world
    ltac:(vm_compute; reflexivity) Hk eq_refl eq_refl eq_refl (or_intror eq_refl)) as H.
  destruct (run world [] (TrinoInjectPolicy false (Some "t1") "SELECT ssn FROM hr.payroll" orders
    emptyCache)) as [[rep c'] tr].
  destruct H as [H _]. cbn [fst]. rewrite H. vm_compute. reflexivity.
Defined.

Lemma handleInject_spec_witness :
  handled decoder registry request emptyCache
    (run world [] (handleInject decoder registry request emptyCache)).1.1
    (run world [] (handleInject decoder registry request emptyCache)).1.2
    (run world [] (handleInject decoder registry request emptyCache)).2 /\
  rewritten_query (run world [] (handleInject decoder registry request emptyCache)).1.1 =
    Some "SELECT id FROM sales.orders WHERE (region = 'EU')".
Proof.
  split; [|vm_compute; reflexivity].
  pose proof (handleInject_spec decoder registry request emptyCache world) as H.
  destruct (run world [] (handleInject decoder registry request emptyCache)) as [[resp c'] tr].
  apply H, map_Forall_singleton, Trino_sound.
Defined.
