(* ===== verification/Compiler.v ===== *)
(** * The cross-engine policy compiler

    [internal/policy/compiler]: [compileArtifact] over the dialect emitters, the
    artifact cache, the probe runner, [compileOne] and [CompileAll] as programs
    that call the engine registry, the policy store and the engines, and the
    [policy_changed] notification handler with its reconnect backoff. *)

From S2P Require Import Prelude Effects Lru SqlGrammar SqlPrint Dialect PolicyStore.
From Stdlib Require Import Lia.

(** ** Data *)

(** [CompiledArtifact]; the live CEL program is left out. *)
Record CompiledArtifact := mkArtifact { art_Kind : gostring; art_Body : gostring }.

#[export] Instance CompiledArtifact_eq_dec : EqDecision CompiledArtifact.
Proof. solve_decision. Defined.

Record PolicySource := mkSource {
  src_PolicyID : gostring; src_PolicyKind : gostring;
  src_DefinitionCEL : gostring; src_DefinitionSQL : gostring
}.

(** [store.Engine]. *)
Record Engine := mkEngine {
  eng_ID : gostring; eng_Kind : gostring; eng_Version : gostring; eng_EndpointURL : gostring
}.

(** The sentinels an error wraps; [ErrPersist] is the one of [persist]. *)
Inductive compile_err :=
  | ErrCompileFailed
  | ErrProbeFailed
  | ErrCompilerStub
  | ErrPersist
  | ErrEngineRegistry.

Record CompileResult := mkResult {
  res_EngineKind : gostring; res_EngineVersion : gostring;
  res_Status : CompiledPolicyStatus; res_Err : option compile_err
}.

(** [artifactCacheKey]. *)
Record artifactCacheKey := mkArtKey {
  ak_PolicyID : gostring; ak_EngineKind : gostring; ak_EngineVersion : gostring;
  ak_SourceHash : gostring
}.

#[export] Instance artifactCacheKey_eq_dec : EqDecision artifactCacheKey.
Proof. solve_decision. Defined.
#[export] Instance artifactCacheKey_countable : Countable artifactCacheKey.
Proof.
  refine (inj_countable'
    (fun k => (ak_PolicyID k, ak_EngineKind k, ak_EngineVersion k, ak_SourceHash k))
    (fun '(a, b, c, d) => mkArtKey a b c d) _).
  by intros [].
Defined.

(** ** Calls *)

(** The engine registry, the compiled-policy store, and an engine's probe: the
    answers are the engines or a failure, whether the row was written, and the
    scanned rows or a failure. *)
Inductive compilerCall :=
  | ListEngines
  | Upsert (cp : CompiledPolicy)
  | Submit (engineKind query : gostring).

Definition compilerR (c : compilerCall) : Type :=
  match c with
  | ListEngines => option (list Engine)
  | Upsert _ => bool
  | Submit _ _ => option Z
  end.

Section compiler.
(** [crypto/sha256], the CEL compiler of cel-go with the manifest encoding when
    it is wired, the emitters, and the engines with a probe executor. *)
Context (sha256 : gostring -> gostring).
Context (compileCEL : option (gostring -> gostring -> option gostring)).
Context (dialects : gmap gostring DialectCompiler).
Context (executors : gset gostring).
Context {C : Type} `{!Lru artifactCacheKey CompiledArtifact C}.

(** ** Artifacts *)

Definition sha256Hex (s : gostring) : gostring := hexEncode (sha256 s).

(** The emitter's error, as [compileArtifact] wraps it. *)
Definition wrapDialect (e : dialect_err) : compile_err :=
  match e with ErrDialectStub => ErrCompilerStub | _ => ErrCompileFailed end.

Definition joinTable (engineKind policyID : gostring) : gostring := policyID.

Definition compileRowFilter (d : DialectCompiler) (p : PolicySource) (e : Engine)
  : result compile_err CompiledArtifact :=
  frag ← map_err (fun _ => ErrCompileFailed) (ParseRowFilter (src_DefinitionSQL p));
  match frag_Row frag with
  | None => Err ErrCompileFailed
  | Some row =>
      sql ← map_err wrapDialect
        (dc_CompileRowFilter d (joinTable (eng_Kind e) (src_PolicyID p)) (adaptNodeForDialect row));
      Ok (mkArtifact "sql_row_filter" sql)
  end.

Definition compileColumnMask (d : DialectCompiler) (p : PolicySource) (e : Engine)
  : result compile_err CompiledArtifact :=
  frag ← map_err (fun _ => ErrCompileFailed) (ParseColumnMask (src_DefinitionSQL p));
  sql ← map_err wrapDialect
    (dc_CompileColumnMask d (joinTable (eng_Kind e) (src_PolicyID p))
       (adaptMaskForDialect (frag_Mask frag)));
  Ok (mkArtifact "sql_column_mask" sql).

Definition compileArtifact (p : PolicySource) (e : Engine)
  : result compile_err CompiledArtifact :=
  if negb (bool_decide (src_DefinitionCEL p = [])) then
    match compileCEL with
    | None => Err ErrCompileFailed
    | Some compile =>
        match compile (src_PolicyID p) (src_DefinitionCEL p) with
        | None => Err ErrCompileFailed
        | Some encoded => Ok (mkArtifact "cel" encoded)
        end
    end
  else
    match dialects !! eng_Kind e with
    | None => Err ErrCompileFailed
    | Some d =>
        if bool_decide (src_PolicyKind p = "row_filter") then compileRowFilter d p e
        else if bool_decide (src_PolicyKind p = "column_mask") then compileColumnMask d p e
        else Err ErrCompileFailed
    end.

(** ** The probe ([probe.go]) *)

Definition buildProbeQuery (tableFQN rowFilter : gostring) : gostring :=
  if bool_decide (rowFilter = []) then "SELECT 1 FROM " ++ tableFQN ++ " WHERE 1=0"
  else "SELECT 1 FROM " ++ tableFQN ++ " WHERE (" ++ rowFilter ++ ") AND 1=0".

Definition engineTableFQN (engineKind ns name : gostring) : gostring :=
  if bool_decide (engineKind = "trino" \/ engineKind = "dremio")
  then "iceberg." ++ ns ++ "." ++ name
  else ns ++ "." ++ name.

(** [ProbeRunner.Run]: no executor, no probe; a probe must scan no row. *)
Definition probe (engineKind tableFQN rowFilter : gostring)
  : prog compilerR (option compile_err) :=
  if bool_decide (engineKind ∈ executors) then
    Do (R := compilerR) (Submit engineKind (buildProbeQuery tableFQN rowFilter))
      (fun r : option Z =>
       Ret (match r with
            | None => Some ErrProbeFailed
            | Some rows => if bool_decide (rows = 0%Z) then None else Some ErrProbeFailed
            end))
  else Ret None.

(** ** One engine *)

Definition compiledRow (p : PolicySource) (name ns : gostring) (e : Engine)
    (art : CompiledArtifact) (st : CompiledPolicyStatus) (checksum : gostring) : CompiledPolicy :=
  mkCompiledPolicy (src_PolicyID p) (eng_Kind e) (eng_Version e) name ns st checksum
    (art_Body art) [].

Definition persist (p : PolicySource) (name ns : gostring) (e : Engine)
    (art : CompiledArtifact) (st : CompiledPolicyStatus) (checksum : gostring)
  : prog compilerR bool :=
  Do (R := compilerR) (Upsert (compiledRow p name ns e art st checksum)) (fun ok : bool => Ret ok).

Definition sourceText (p : PolicySource) : gostring :=
  if bool_decide (src_DefinitionSQL p = []) then src_DefinitionCEL p else src_DefinitionSQL p.

Definition makeKey (p : PolicySource) (e : Engine) : artifactCacheKey :=
  mkArtKey (src_PolicyID p) (eng_Kind e) (eng_Version e) (sha256 (sourceText p)).

(** The result of an attempt to persist [st] that counts as a failure to
    compile when it fails. *)
Definition persisted (e : Engine) (ok : bool) : CompileResult :=
  if ok then mkResult (eng_Kind e) (eng_Version e) StatusActive None
  else mkResult (eng_Kind e) (eng_Version e) StatusCompileFailed (Some ErrPersist).

Definition failedResult (e : Engine) (st : CompiledPolicyStatus) (err : compile_err)
  : CompileResult := mkResult (eng_Kind e) (eng_Version e) st (Some err).

(** The probe step of [compileOne]: for row filters only. *)
Definition probeStep (name ns : gostring) (e : Engine) (art : CompiledArtifact)
  : prog compilerR (option compile_err) :=
  if bool_decide (art_Kind art = "sql_row_filter")
  then probe (eng_Kind e) (engineTableFQN (eng_Kind e) ns name) (art_Body art)
  else Ret None.

Definition compileOne (p : PolicySource) (name ns : gostring) (e : Engine) (cache : C)
  : prog compilerR (CompileResult * C) :=
  let checksum := sha256Hex (sourceText p) in
  let '(cached, cache) := lru_get (makeKey p e) cache in
  match cached with
  | Some art =>
      bind (persist p name ns e art StatusActive checksum) (fun ok =>
        Ret (persisted e ok, cache))
  | None =>
      match compileArtifact p e with
      | Err err =>
          bind (persist p name ns e (mkArtifact "failed" []) StatusCompileFailed checksum)
            (fun _ => Ret (failedResult e StatusCompileFailed err, cache))
      | Ok art =>
          bind (probeStep name ns e art) (fun probeErr =>
          match probeErr with
          | Some err =>
              bind (persist p name ns e art StatusProbeFailed checksum)
                (fun _ => Ret (failedResult e StatusProbeFailed err, cache))
          | None =>
              bind (persist p name ns e art StatusActive checksum) (fun ok =>
                Ret (persisted e ok, if ok then lru_add (makeKey p e) art cache else cache))
          end)
      end
  end.

(** ** All engines *)

Fixpoint compileEngines (p : PolicySource) (name ns : gostring) (engines : list Engine) (cache : C)
  : prog compilerR (list CompileResult * C) :=
  match engines with
  | [] => Ret ([], cache)
  | e :: engines =>
      bind (compileOne p name ns e cache) (fun '(res, cache) =>
      bind (compileEngines p name ns engines cache) (fun '(results, cache) =>
      Ret (res :: results, cache)))
  end.

Definition CompileAll (p : PolicySource) (ref : TableRef) (cache : C)
  : prog compilerR (result compile_err (list CompileResult) * C) :=
  Do (R := compilerR) ListEngines (fun r : option (list Engine) =>
  match r with
  | None => Ret (Err ErrEngineRegistry, cache)
  | Some engines =>
      bind (compileEngines p (ref_Name ref) (join "." (ref_Namespace ref)) engines cache)
        (fun '(results, cache) => Ret (Ok results, cache))
  end).
End compiler.

(** ** The notification consumer ([trigger.go]) *)

(** The calls of a notification: the tenant validator, the policy loader under
    the tenant, and the compiler's own calls under the tenant. *)
Inductive triggerCall :=
  | TenantExists (tenantID : gostring)
  | LoadPolicyForCompile (tenantID policyID : gostring)
  | Compile (tenantID : gostring) (c : compilerCall).

Definition triggerR (c : triggerCall) : Type :=
  match c with
  | TenantExists _ => option bool
  | LoadPolicyForCompile _ _ => option (PolicySource * TableRef)
  | Compile _ c => compilerR c
  end.

(** The compiler's calls under the tenant's context. *)
Fixpoint underTenant {A} (tenantID : gostring) (p : prog compilerR A) : prog triggerR A :=
  match p with
  | Ret a => Ret a
  | Do c k => Do (R := triggerR) (Compile tenantID c) (fun r => underTenant tenantID (k r))
  end.

(** Why a notification is skipped; [Dispatched] when it reached the compiler. *)
Inductive notified :=
  | MalformedPayload
  | InvalidTenant
  | EmptyPolicy
  | InvalidPolicy
  | TenantLookupFailed
  | UnknownTenant
  | LoadFailed
  | Dispatched (r : result compile_err (list CompileResult)).

Section trigger.
Context (unmarshalPayload : gostring -> option (gostring * gostring)).
Context (parseUUID : gostring -> option gostring).
Context {C : Type}.
Context (compileAll : PolicySource -> TableRef -> C ->
  prog compilerR (result compile_err (list CompileResult) * C)).

Definition handleNotification (payload : gostring) (cache : C) : prog triggerR (notified * C) :=
  match unmarshalPayload payload with
  | None => Ret (MalformedPayload, cache)
  | Some (rawTenant, policyID) =>
      match parseUUID rawTenant with
      | None => Ret (InvalidTenant, cache)
      | Some tenantID =>
          if bool_decide (policyID = []) then Ret (EmptyPolicy, cache)
          else
            match parseUUID policyID with
            | None => Ret (InvalidPolicy, cache)
            | Some _ =>
                Do (R := triggerR) (TenantExists tenantID) (fun r : option bool =>
                match r with
                | None => Ret (TenantLookupFailed, cache)
                | Some false => Ret (UnknownTenant, cache)
                | Some true =>
                    Do (R := triggerR) (LoadPolicyForCompile tenantID policyID)
                      (fun r : option (PolicySource * TableRef) =>
                    match r with
                    | None => Ret (LoadFailed, cache)
                    | Some (src, ref) =>
                        bind (underTenant tenantID (compileAll src ref cache))
                          (fun '(results, cache) => Ret (Dispatched results, cache))
                    end)
                end)
            end
      end
  end.
End trigger.

(** ** The reconnect loop of [Listen]

    One attempt: it ends by cancellation or fails after some time, in
    nanoseconds. *)
Definition second : Z := 1000000000.
Definition backoffMax : Z := 60 * second.
Definition reconnectHealthy : Z := 30 * second.

Inductive attempt := Cancelled | FailedAfter (ran : Z).

(** The sleeps between the attempts, and whether the loop returned. *)
Fixpoint Listen (backoff : Z) (attempts : list attempt) : list Z * bool :=
  match attempts with
  | [] => ([], false)
  | Cancelled :: _ => ([], true)
  | FailedAfter ran :: attempts =>
      let backoff := if bool_decide (reconnectHealthy <= ran)%Z then second else backoff in
      let next := (backoff * 2)%Z in
      let '(sleeps, returned) :=
        Listen (if bool_decide (backoffMax < next)%Z then backoffMax else next) attempts in
      (backoff :: sleeps, returned)
  end.
