(* ===== verification/CompilerSpec.v ===== *)
(** * The policy compiler: what it guarantees

    A policy row becomes active only with an artifact that compiled and, for a
    row filter, whose probe scanned no row; what the artifact cache weakens; the
    outcome of [CompileAll] engine by engine; and what a compiled row filter
    says. *)

From S2P Require Import Prelude SqlGrammar SqlPrint Dialect Effects Lru PolicyStore Compiler.
From Stdlib Require Import Lia.

Section spec.
Context (sha256 : gostring -> gostring).
Context (compileCEL : option (gostring -> gostring -> option gostring)).
Context (dialects : gmap gostring DialectCompiler).
Context (executors : gset gostring).
Context {C : Type} `{!Lru artifactCacheKey CompiledArtifact C}.

Abbreviation compileArtifact := (compileArtifact compileCEL dialects).
Abbreviation compileOne := (compileOne sha256 compileCEL dialects executors).
Abbreviation compileEngines := (compileEngines sha256 compileCEL dialects executors).
Abbreviation CompileAll := (CompileAll sha256 compileCEL dialects executors).
Abbreviation makeKey := (makeKey sha256).

(** The row one engine's compile writes. *)
Definition rowOf (p : PolicySource) (name ns : gostring) (e : Engine) (art : CompiledArtifact)
    (st : CompiledPolicyStatus) : compilerCall :=
  Upsert (compiledRow p name ns e art st (sha256Hex sha256 (sourceText p))).

Definition wrote (p : PolicySource) (name ns : gostring) (e : Engine) (art : CompiledArtifact)
    (st : CompiledPolicyStatus) (ok : bool) : event compilerR :=
  ev (R := compilerR) (Upsert (compiledRow p name ns e art st (sha256Hex sha256 (sourceText p)))) ok.

(** The probe an artifact needs on a table, and the calls of one that passed. *)
Definition needsProbe (e : Engine) (art : CompiledArtifact) : Prop :=
  art_Kind art = "sql_row_filter" /\ eng_Kind e ∈ executors.

Definition probeCall (name ns : gostring) (e : Engine) (art : CompiledArtifact) : compilerCall :=
  Submit (eng_Kind e)
    (buildProbeQuery (engineTableFQN (eng_Kind e) ns name) (art_Body art)).

Inductive probePassed (name ns : gostring) (e : Engine) (art : CompiledArtifact)
    : trace compilerR -> Prop :=
  | probe_none : ~ needsProbe e art -> probePassed name ns e art []
  | probe_zero : needsProbe e art ->
      probePassed name ns e art [ev (R := compilerR) (probeCall name ns e art) (Some 0%Z)].

(** The four ways [compileOne] ends, with the cache it leaves and its calls. *)
Inductive oneOutcome (p : PolicySource) (name ns : gostring) (e : Engine) (c : C)
    : CompileResult -> C -> trace compilerR -> Prop :=
  | one_cached art c' (ok : bool) :
      lru_contents c !! makeKey p e = Some art -> lru_contents c' = lru_contents c ->
      oneOutcome p name ns e c (persisted e ok) c' [wrote p name ns e art StatusActive ok]
  | one_failed err c' (ok : bool) :
      lru_contents c !! makeKey p e = None -> lru_contents c' = lru_contents c ->
      compileArtifact p e = Err err ->
      oneOutcome p name ns e c (failedResult e StatusCompileFailed err) c'
        [wrote p name ns e (mkArtifact "failed" []) StatusCompileFailed ok]
  | one_probe_failed art r c' (ok : bool) :
      lru_contents c !! makeKey p e = None -> lru_contents c' = lru_contents c ->
      compileArtifact p e = Ok art -> needsProbe e art -> r <> Some 0%Z ->
      oneOutcome p name ns e c (failedResult e StatusProbeFailed ErrProbeFailed) c'
        [ev (R := compilerR) (probeCall name ns e art) r;
         wrote p name ns e art StatusProbeFailed ok]
  | one_compiled art c0 c' probes (ok : bool) :
      lru_contents c !! makeKey p e = None -> lru_contents c0 = lru_contents c ->
      compileArtifact p e = Ok art -> probePassed name ns e art probes ->
      c' = (if ok then lru_add (makeKey p e) art c0 else c0) ->
      oneOutcome p name ns e c (persisted e ok) c'
        (probes ++ [wrote p name ns e art StatusActive ok]).

Lemma probeStep_always name ns e art h (Q : option compile_err -> trace compilerR -> Prop) :
  (forall probes, probePassed name ns e art probes -> Q None (h ++ probes)) ->
  (forall r, needsProbe e art -> r <> Some 0%Z ->
    Q (Some ErrProbeFailed) (h ++ [ev (R := compilerR) (probeCall name ns e art) r])) ->
  always (probeStep executors name ns e art) h Q.
Proof.
  intros Hok Hfail. unfold probeStep, probe.
  case_bool_decide as Hk; [case_bool_decide as Hx|]; cbn [always].
  - intros [rows|]; [case_bool_decide as Hr|].
    + subst rows. apply (Hok [_]). by constructor.
    + apply Hfail; [done|]. congruence.
    + by apply Hfail.
  - rewrite <- (app_nil_r h). apply Hok. constructor. by intros [].
  - rewrite <- (app_nil_r h). apply Hok. constructor. by intros [].
Qed.

Lemma compileOne_always p name ns e c h (Q : CompileResult * C -> trace compilerR -> Prop) :
  (forall res c' t, oneOutcome p name ns e c res c' t -> Q (res, c') (h ++ t)) ->
  always (compileOne p name ns e c) h Q.
Proof.
  intros HQ. unfold Compiler.compileOne.
  pose proof (lru_get_value (makeKey p e) c) as Hv.
  pose proof (lru_get_contents (makeKey p e) c) as Hc.
  destruct (lru_get (makeKey p e) c) as [[art|] c0]; cbn [fst snd] in *.
  - cbn [persist bind always]. intros ok. apply HQ. by constructor.
  - destruct (compileArtifact p e) as [art|err] eqn:Ea.
    + apply always_bind, probeStep_always.
      * intros probes Hp. cbn [persist bind always]. intros ok.
        rewrite <- app_assoc. apply HQ. by eapply one_compiled.
      * intros r Hn Hr. cbn [persist bind always]. intros ok.
        rewrite <- app_assoc. apply HQ. by constructor.
    + cbn [persist bind always]. intros ok. apply HQ. by constructor.
Qed.

(** What follows from an outcome for a result that says active. *)
Lemma outcome_active p name ns e c res c' t :
  oneOutcome p name ns e c res c' t -> res_Status res = StatusActive ->
  exists art probes, t = probes ++ [wrote p name ns e art StatusActive true] /\
    (lru_contents c !! makeKey p e = Some art /\ probes = [] \/
     compileArtifact p e = Ok art /\ probePassed name ns e art probes).
Proof.
  intros [art c0 ok Hk Hc|err c0 ok Hk Hc Ha|art r c0 ok Hk Hc Ha Hn Hr
    |art c0 c1 probes ok Hk Hc Ha Hp ->].
  - destruct ok; [|done]. intros _. exists art, []. split; [done|]. by left.
  - done.
  - done.
  - destruct ok; [|done]. intros _. exists art, probes. split; [done|]. by right.
Qed.

(** Every call of an outcome is a write for the policy, the table and the engine
    or a probe of the table. *)
Lemma outcome_frame p name ns e c res c' t k art :
  oneOutcome p name ns e c res c' t -> lru_contents c' !! k = Some art ->
  lru_contents c !! k = Some art \/
  k = makeKey p e /\ compileArtifact p e = Ok art /\
    exists probes, probePassed name ns e art probes /\
      t = probes ++ [wrote p name ns e art StatusActive true].
Proof.
  intros [art' c0 ok Hk Hc|err c0 ok Hk Hc Ha|art' r c0 ok Hk Hc Ha Hn Hr
    |art' c0 c1 probes ok Hk Hc Ha Hp ->]; try (rewrite Hc; by left).
  destruct ok; [|rewrite Hc; by left].
  intros [[-> ->]|H]%lru_add_inv; [right|left; by rewrite <- Hc].
  split; [done|]. split; [done|]. by exists probes.
Qed.

(** ** Properties *)

(** (C40) An engine's row is written as active, and reported as active, only for
    an artifact that is in the cache or that compiled from this policy for this
    engine and, being a row filter for an engine with a probe executor, was
    probed on this table with no row scanned; the write is the last call and
    succeeded. *)
Theorem active_only_if_checked p name ns e c (o : env compilerR) :
  let '((res, c'), t) := run o [] (compileOne p name ns e c) in
  res_Status res = StatusActive ->
  exists art probes, t = probes ++ [wrote p name ns e art StatusActive true] /\
    (lru_contents c !! makeKey p e = Some art /\ probes = [] \/
     compileArtifact p e = Ok art /\ probePassed name ns e art probes).
Proof.
  pose proof (always_run (compileOne p name ns e c) (fun '(res, c') t =>
    res_Status res = StatusActive -> exists art probes,
      t = probes ++ [wrote p name ns e art StatusActive true] /\
      (lru_contents c !! makeKey p e = Some art /\ probes = [] \/
       compileArtifact p e = Ok art /\ probePassed name ns e art probes)) [] o) as H.
  destruct (run o [] (compileOne p name ns e c)) as [[res c'] t]. apply H.
  apply compileOne_always. intros res' c'' t'. apply outcome_active.
Qed.

(** ** Histories of the artifact cache *)

Record compilerState := mkCState { artifacts : C; writes : list (trace compilerR) }.

Inductive compilerStep : compilerState -> compilerState -> Prop :=
  | step_compile p name ns e c h (o : env compilerR) res c' t :
      run o [] (compileOne p name ns e c) = ((res, c'), t) ->
      compilerStep (mkCState c h) (mkCState c' (t :: h)).

(** A cached artifact compiled from a policy source of its key, passed its probe
    on the table of that compile, and was written as an active row there. *)
Definition artifactProvenance (s : compilerState) : Prop := forall k art,
  lru_contents (artifacts s) !! k = Some art -> exists p name ns e probes,
    k = makeKey p e /\ compileArtifact p e = Ok art /\ probePassed name ns e art probes /\
    probes ++ [wrote p name ns e art StatusActive true] ∈ writes s.

Lemma artifactProvenance_step s s' :
  compilerStep s s' -> artifactProvenance s -> artifactProvenance s'.
Proof.
  intros [p name ns e c h o res c' t Hr] Hs k art. cbn.
  pose proof (always_run (compileOne p name ns e c) (fun '(res, c') t =>
    oneOutcome p name ns e c res c' t) [] o) as H.
  rewrite Hr in H. cbn in H. specialize (H (compileOne_always p name ns e c [] _
    (fun res c' t H => H))).
  intros [Hk|(-> & Ha & probes & Hp & ->)]%(outcome_frame _ _ _ _ _ _ _ _ _ _ H).
  - destruct (Hs _ _ Hk) as (p' & name' & ns' & e' & probes & ? & ? & ? & ?).
    exists p', name', ns', e', probes. split_and!; [done|done|done|]. by right.
  - exists p, name, ns, e, probes. split_and!; [done|done|done|]. by left.
Qed.

(** The artifact cache never serves an artifact its policy did not compile
    to: in every state reached from an empty cache, a cached artifact compiled
    from a policy with its key's id, engine and source hash, passed its probe
    and was written as active, on some table. *)
Theorem artifact_cache_provenance (c0 : C) s :
  lru_contents c0 = ∅ -> rtc compilerStep (mkCState c0 []) s -> artifactProvenance s.
Proof.
  intros Hc Hs. assert (artifactProvenance (mkCState c0 [])) as Hp.
  { intros k e. cbn. by rewrite Hc, lookup_empty. }
  revert Hp. induction Hs as [|s1 s2 s3 H12 H23 IH]; [done|].
  intros Hp. by apply IH, (artifactProvenance_step s1).
Qed.

(** A cached artifact is written as active for any table without a probe of
    that table, and for a policy of any kind with the same id and source: the
    cache key has neither, so a row filter that would fail its probe on a
    second table, or a policy whose kind was changed, is active with the
    artifact of the first compile. *)
Theorem cache_hit_skips_probe p kind name ns e c art (o : env compilerR) :
  lru_contents c !! makeKey p e = Some art ->
  let p' := mkSource (src_PolicyID p) kind (src_DefinitionCEL p) (src_DefinitionSQL p) in
  let '((res, c'), t) := run o [] (compileOne p' name ns e c) in
  calls t = [rowOf p' name ns e art StatusActive] /\
  (o [] (rowOf p' name ns e art StatusActive) = true -> res_Status res = StatusActive) /\
  lru_contents c' = lru_contents c.
Proof.
  intros Hk p'. change (makeKey p e) with (makeKey p' e) in Hk.
  unfold Compiler.compileOne.
  pose proof (lru_get_value (makeKey p' e) c) as Hv.
  pose proof (lru_get_contents (makeKey p' e) c) as Hc.
  destruct (lru_get (makeKey p' e) c) as [found c0]. cbn [fst snd] in *. rewrite Hv, Hk.
  cbn [persist bind run]. split_and!; [done| |done]. unfold rowOf. by intros ->.
Qed.

(** What [CompileAll] returns with its calls after the registry answered. *)
Inductive allOutcomes (p : PolicySource) (name ns : gostring) :
    list Engine -> C -> list CompileResult -> C -> trace compilerR -> Prop :=
  | all_nil c : allOutcomes p name ns [] c [] c []
  | all_cons e engines c res c1 t results c2 t' :
      oneOutcome p name ns e c res c1 t ->
      allOutcomes p name ns engines c1 results c2 t' ->
      allOutcomes p name ns (e :: engines) c (res :: results) c2 (t ++ t').

Lemma compileEngines_always p name ns engines c h
    (Q : list CompileResult * C -> trace compilerR -> Prop) :
  (forall results c' t, allOutcomes p name ns engines c results c' t -> Q (results, c') (h ++ t)) ->
  always (compileEngines p name ns engines c) h Q.
Proof.
  revert c h Q; induction engines as [|e engines IH]; intros c h Q HQ.
  - cbn [Compiler.compileEngines always]. rewrite <- (app_nil_r h). apply HQ. constructor.
  - cbn [Compiler.compileEngines]. apply always_bind, compileOne_always. intros res c1 t H1.
    apply always_bind, IH. intros results c2 t' H2. cbn [always]. rewrite <- app_assoc.
    apply HQ. by econstructor.
Qed.

Definition isWrite (p : PolicySource) (name ns : gostring) (ev : event compilerR) : bool :=
  match projT1 ev with
  | Upsert cp => bool_decide (PolicyID cp = src_PolicyID p) && bool_decide (TableName cp = name)
                 && bool_decide (TableNamespace cp = ns)
  | _ => false
  end.

(** The number of rows written for a policy on a table. *)
Definition rowsWritten (p : PolicySource) (name ns : gostring) (t : trace compilerR) : nat :=
  length (List.filter (isWrite p name ns) t).

Lemma rowsWritten_app p name ns t t' :
  rowsWritten p name ns (t ++ t') = rowsWritten p name ns t + rowsWritten p name ns t'.
Proof. unfold rowsWritten. by rewrite List.filter_app, length_app. Qed.

Lemma rowsWritten_wrote p name ns e art st ok t :
  rowsWritten p name ns (wrote p name ns e art st ok :: t) = S (rowsWritten p name ns t).
Proof. unfold rowsWritten. cbn. by rewrite !bool_decide_eq_true_2. Qed.

Lemma outcome_engine p name ns e c res c' t :
  oneOutcome p name ns e c res c' t ->
  (res_EngineKind res, res_EngineVersion res) = (eng_Kind e, eng_Version e) /\
  rowsWritten p name ns t = 1 /\
  (res_Err res = None <-> res_Status res = StatusActive).
Proof.
  intros [art c0 ok Hk Hc|err c0 ok Hk Hc Ha|art r c0 ok Hk Hc Ha Hn Hr
    |art c0 c1 probes ok Hk Hc Ha Hp ->].
  - rewrite rowsWritten_wrote. by destruct ok.
  - by rewrite rowsWritten_wrote.
  - split; [done|]. split; [|done]. exact (rowsWritten_wrote p name ns e art _ ok []).
  - rewrite rowsWritten_app, rowsWritten_wrote. destruct Hp; by destruct ok.
Qed.

(** [CompileAll] gives one result per registered engine, in the registry's
    order, with one row written for each whatever happens to the others, and
    an error on exactly the results that are not active; it fails only when
    the registry does, with no row written. *)
Theorem CompileAll_spec p ref c (o : env compilerR) :
  let '((r, c'), t) := run o [] (CompileAll p ref c) in
  match r, o [] ListEngines with
  | Err e, engines => engines = None /\ e = ErrEngineRegistry /\ calls t = [ListEngines]
  | Ok results, Some engines =>
      map (fun res => (res_EngineKind res, res_EngineVersion res)) results =
        map (fun e => (eng_Kind e, eng_Version e)) engines /\
      Forall (fun res => res_Err res = None <-> res_Status res = StatusActive) results /\
      rowsWritten p (ref_Name ref) (join "." (ref_Namespace ref)) t = length engines
  | Ok _, None => False
  end.
Proof.
  unfold Compiler.CompileAll. cbn [run].
  destruct (o [] ListEngines) as [engines|]; [|done]. rewrite run_bind.
  set (name := ref_Name ref). set (ns := join "." (ref_Namespace ref)).
  set (h := [] ++ [ev (R := compilerR) ListEngines (Some engines)]).
  pose proof (always_run (compileEngines p name ns engines c) (fun '(results, c') t =>
    exists t0, t = h ++ t0 /\ allOutcomes p name ns engines c results c' t0) h o) as H.
  destruct (run o h (compileEngines p name ns engines c)) as [[results c'] t].
  cbn [run]. rewrite app_nil_r.
  destruct H as (t0 & <-%(inj _) & H).
  { apply compileEngines_always. intros results' c'' t' Ht. by exists t'. }
  change (rowsWritten p name ns (_ :: t)) with (rowsWritten p name ns t).
  clear o.
  induction H as [c|e engines c res c1 t results c2 t' H1 H2 IH]; [done|].
  apply outcome_engine in H1 as (E & Hl & Hs). destruct IH as (IH1 & IH2 & IH3).
  cbn [map]. rewrite E, IH1, rowsWritten_app, Hl, IH3. split_and!; [done|by constructor|done].
Qed.

(** No SQL policy is ever active on Dremio: its emitter is a stub, so a
    compile reports a failure, without a probe, and caches nothing. *)
Theorem dremio_never_active p name ns e c (o : env compilerR) :
  dialects !! eng_Kind e = Some DremioCompiler -> src_DefinitionCEL p = [] ->
  lru_contents c !! makeKey p e = None ->
  let '((res, c'), t) := run o [] (compileOne p name ns e c) in
  res_Status res = StatusCompileFailed /\ lru_contents c' = lru_contents c /\
  calls t = [rowOf p name ns e (mkArtifact "failed" []) StatusCompileFailed].
Proof.
  intros Hd Hcel Hk.
  assert (exists err, compileArtifact p e = Err err) as [err Ha].
  { unfold Compiler.compileArtifact. rewrite Hcel, Hd, (bool_decide_eq_true_2 (([] : gostring) = [])) by done. cbn [negb].
    case_bool_decide; [|case_bool_decide; [|by eexists]].
    - unfold compileRowFilter. destruct (ParseRowFilter _) as [f|]; [|eexists; reflexivity].
      cbn. destruct (frag_Row f); eexists; reflexivity.
    - unfold compileColumnMask. destruct (ParseColumnMask _); eexists; reflexivity. }
  unfold Compiler.compileOne.
  pose proof (lru_get_value (makeKey p e) c) as Hv.
  pose proof (lru_get_contents (makeKey p e) c) as Hc.
  destruct (lru_get (makeKey p e) c) as [found c0]. cbn [fst snd] in *. rewrite Hv, Hk.
  rewrite Ha. cbn [persist bind run]. done.
Qed.
End spec.

(** ** Notifications *)

Section notifications.
Context (unmarshalPayload : gostring -> option (gostring * gostring)).
Context (parseUUID : gostring -> option gostring).
Context {C : Type}.
Context (compileAll : PolicySource -> TableRef -> C ->
  prog compilerR (result compile_err (list CompileResult) * C)).

Definition underCall (tenantID : gostring) (c : triggerCall) : bool :=
  match c with Compile tid _ => bool_decide (tid = tenantID) | _ => false end.

Lemma underTenant_always {A} tenantID (p : prog compilerR A) h
    (Q : A -> trace triggerR -> Prop) :
  (forall a t, forallb (underCall tenantID) (calls t) = true -> Q a (h ++ t)) ->
  always (underTenant tenantID p) h Q.
Proof.
  revert h; induction p as [a|c k IH]; intros h HQ; cbn [underTenant always].
  - rewrite <- (app_nil_r h). by apply HQ.
  - intros r. apply IH. intros a t Ht. rewrite <- app_assoc. apply HQ. cbn.
    by rewrite bool_decide_eq_true_2.
Qed.

(** The guards of a notification: two valid ids, an existing tenant, a policy. *)
Record dispatchable (payload tenantID policyID : gostring) : Prop := {
  disp_payload : exists rawTenant, unmarshalPayload payload = Some (rawTenant, policyID) /\
    parseUUID rawTenant = Some tenantID;
  disp_policy : policyID <> [] /\ is_Some (parseUUID policyID)
}.

(** The calls of a notification: none of the compiler's unless the tenant was
    found to exist and the policy loaded under it, and then all of them under
    that tenant. *)
Definition notificationCalls (payload : gostring) (n : notified) (t : trace triggerR) : Prop :=
  match n with
  | Dispatched _ => exists tenantID policyID src ref u,
      dispatchable payload tenantID policyID /\
      t = [ev (R := triggerR) (TenantExists tenantID) (Some true);
           ev (R := triggerR) (LoadPolicyForCompile tenantID policyID) (Some (src, ref))] ++ u /\
      forallb (underCall tenantID) (calls u) = true
  | _ => existsb (fun c => match c with Compile _ _ => true | _ => false end) (calls t) = false
  end.

(** A notification reaches the compiler only when its tenant and policy ids
    parse, the tenant exists and the policy loads under it, and every call of
    the compile is then made under that tenant; a forged or malformed payload
    writes nothing. *)
Theorem handleNotification_guarded payload c (o : env triggerR) :
  let '((n, c'), t) :=
    run o [] (handleNotification unmarshalPayload parseUUID compileAll payload c) in
  notificationCalls payload n t.
Proof.
  pose proof (always_run (handleNotification unmarshalPayload parseUUID compileAll payload c)
    (fun '(n, c') t => notificationCalls payload n t) [] o) as H.
  destruct (run o [] _) as [[n c'] t]. apply H. clear H. unfold handleNotification.
  destruct (unmarshalPayload payload) as [[rawTenant policyID]|] eqn:E1; [|done].
  destruct (parseUUID rawTenant) as [tenantID|] eqn:E2; [|done].
  case_bool_decide as E3; [done|].
  destruct (parseUUID policyID) as [pid|] eqn:E4; [|done].
  cbn [always]. intros [[]|]; [|done..]. cbn [always]. intros [[src ref]|]; [|done].
  apply always_bind, underTenant_always. intros [results c''] u Hu. cbn [always].
  exists tenantID, policyID, src, ref, u. split_and!; [|done|done].
  split; [by exists rawTenant|]. split; [done|by eexists].
Qed.
End notifications.

(** ** The reconnect loop *)

Lemma Listen_quick b k n :
  (0 <= k)%Z -> b = Z.min (second * 2 ^ k) backoffMax ->
  (Listen b (repeat (FailedAfter 0) n)).1 =
    map (fun i => Z.min (second * 2 ^ (k + Z.of_nat i)) backoffMax) (seq 0 n).
Proof.
  revert b k; induction n as [|n IH]; intros b k Hk Hb; [done|].
  cbn [repeat Listen]. rewrite (bool_decide_eq_false_2 (reconnectHealthy <= 0)%Z) by (by vm_compute).
  set (next := if bool_decide (backoffMax < b * 2)%Z then backoffMax else (b * 2)%Z).
  specialize (IH next (k + 1)%Z).
  destruct (Listen next (repeat (FailedAfter 0) n)) as [sleeps r].
  cbn [fst] in *. rewrite IH; [|lia|].
  - cbn [seq map]. rewrite <- seq_shift, map_map. f_equal; [by rewrite Z.add_0_r|].
    apply map_ext. intros i. do 3 f_equal. lia.
  - subst next b. rewrite Z.pow_add_r by lia.
    pose proof (Z.pow_pos_nonneg 2 k ltac:(lia) Hk).
    unfold backoffMax, second in *. case_bool_decide; lia.
Qed.

(** The reconnect loop always waits between one second and a minute: after
    [n] quick failures in a row the waits were [1, 2, 4, ...] seconds capped at
    sixty, and a connection that was healthy for half a minute starts over at
    one second. *)
Theorem Listen_backoff n ran attempts :
  (reconnectHealthy <= ran)%Z ->
  (Listen second (repeat (FailedAfter 0) n)).1 =
    map (fun i => Z.min (second * 2 ^ Z.of_nat i) backoffMax) (seq 0 n) /\
  (forall b, (second <= b <= backoffMax)%Z ->
    Forall (fun s => second <= s <= backoffMax)%Z (Listen b attempts).1 /\
    (Listen b (FailedAfter ran :: attempts)).1 = second :: (Listen (2 * second) attempts).1).
Proof.
  intros Hran. split; [by apply (Listen_quick second 0)|].
  intros b Hb. split.
  - revert b Hb. induction attempts as [|[|r] attempts IH]; intros b Hb; [constructor..|].
    cbn [Listen]. set (b' := if bool_decide (reconnectHealthy <= r)%Z then second else b).
    assert (second <= b' <= backoffMax)%Z as Hb'.
    { subst b'. unfold backoffMax, second in *. case_bool_decide; lia. }
    set (next := if bool_decide (backoffMax < b' * 2)%Z then backoffMax else (b' * 2)%Z).
    assert (second <= next <= backoffMax)%Z as Hn.
    { subst next. unfold backoffMax, second in *. case_bool_decide; lia. }
    specialize (IH next Hn). destruct (Listen next attempts) as [sleeps ret].
    by constructor.
  - cbn [Listen]. rewrite (bool_decide_eq_true_2 (reconnectHealthy <= ran)%Z) by done.
    rewrite (bool_decide_eq_false_2 (backoffMax < second * 2)%Z) by (by vm_compute).
    rewrite (Z.mul_comm second 2). by destruct (Listen (2 * second) attempts).
Qed.

Lemma Listen_backoff_witness :
  (Listen second (repeat (FailedAfter 0) 8)).1 =
    map (fun s => (s * second)%Z) [1; 2; 4; 8; 16; 32; 60; 60]%Z.
Proof.
  rewrite (proj1 (Listen_backoff 8 reconnectHealthy [] (Z.le_refl _))). vm_compute. reflexivity.
Defined.

(** ** Witnesses *)

Module CompilerSamples.

Definition artCache : Type := bounded artifactCacheKey CompiledArtifact.
#[export] Instance artCache_lru : Lru artifactCacheKey CompiledArtifact artCache := bounded_Lru 2.

(** A stand-in for the hash, the emitters, one probe executor. *)
Definition hash (s : gostring) : gostring := s.
Definition emitters : gmap gostring DialectCompiler :=
  {[ ("trino" : gostring) := TrinoCompiler; ("dremio" : gostring) := DremioCompiler ]}.
Definition probes : gset gostring := {[ ("trino" : gostring) ]}.

Definition trino : Engine := mkEngine "e1" "trino" "431" "http://t".
Definition dremio : Engine := mkEngine "e2" "dremio" "25" "http://d".
Definition filterPolicy : PolicySource := mkSource "p1" "row_filter" [] "region = 'EU'".
Definition filterArt : CompiledArtifact := mkArtifact "sql_row_filter" "(region = 'EU')".
Definition ordersRef : TableRef := mkTableRef ["sales"] "orders".

Definition noArtifacts : artCache := mkBounded [].
Definition warm : artCache := mkBounded [(makeKey hash filterPolicy trino, filterArt)].

(** Every call succeeds and a probe scans no row. *)
Definition fine : env compilerR := fun _ c =>
  match c with
  | ListEngines => Some [trino; dremio]
  | Upsert _ => true
  | Submit _ _ => Some 0%Z
  end.

Definition compileTrino : prog compilerR (CompileResult * artCache) :=
  compileOne hash None emitters probes filterPolicy "orders" "sales" trino noArtifacts.

End CompilerSamples.
Import CompilerSamples.

Lemma active_only_if_checked_witness :
  res_Status (run fine [] compileTrino).1.1 = StatusActive /\
  exists art pt, (run fine [] compileTrino).2 =
    pt ++ [wrote hash filterPolicy "orders" "sales" trino art StatusActive true].
Proof.
  pose proof (active_only_if_checked hash None emitters probes filterPolicy "orders" "sales" trino
    noArtifacts fine) as H.
  assert (res_Status (run fine [] compileTrino).1.1 = StatusActive) as Hs
    by (vm_compute; reflexivity).
  split; [exact Hs|]. unfold compileTrino in *.
  destruct (run fine [] _) as [[res c'] t].
  destruct (H Hs) as (art & pt & Ht & _). exists art, pt. exact Ht.
Defined.

Lemma artifact_cache_provenance_witness :
  exists s, lru_contents (artifacts s) !! makeKey hash filterPolicy trino = Some filterArt /\
  artifactProvenance hash None emitters probes (C := artCache) s.
Proof.
  exists (mkCState (run fine [] compileTrino).1.2 [(run fine [] compileTrino).2]).
  split; [vm_compute; reflexivity|].
  apply (artifact_cache_provenance hash None emitters probes noArtifacts); [reflexivity|].
  eapply rtc_l; [|apply rtc_refl].
  apply (step_compile hash None emitters probes filterPolicy "orders" "sales" trino noArtifacts []
    fine (run fine [] compileTrino).1.1).
  unfold compileTrino. destruct (run fine [] _) as [[res c'] t]. reflexivity.
Defined.

Lemma cache_hit_skips_probe_witness :
  calls (run fine [] (compileOne hash None emitters probes
    (mkSource "p1" "column_mask" [] "region = 'EU'") "customers" "crm" trino warm)).2 =
  [rowOf hash (mkSource "p1" "column_mask" [] "region = 'EU'") "customers" "crm" trino filterArt
     StatusActive].
Proof.
  assert (lru_contents warm !! makeKey hash filterPolicy trino = Some filterArt) as Hk
    by (vm_compute; reflexivity).
  pose proof (cache_hit_skips_probe hash None emitters probes filterPolicy "column_mask"
    "customers" "crm" trino warm filterArt fine Hk) as H.
  cbv zeta in H. cbn [filterPolicy src_PolicyID src_DefinitionCEL src_DefinitionSQL] in H.
  destruct (run fine [] _) as [[res c'] t]. exact (proj1 H).
Defined.

Lemma dremio_never_active_witness :
  res_Status (run fine [] (compileOne hash None emitters probes filterPolicy "orders" "sales"
    dremio noArtifacts)).1.1 = StatusCompileFailed.
Proof.
  assert (lru_contents noArtifacts !! makeKey hash filterPolicy dremio = None) as Hk
    by (vm_compute; reflexivity).
  pose proof (dremio_never_active hash None emitters probes filterPolicy "orders" "sales" dremio
    noArtifacts fine ltac:(vm_compute; reflexivity) eq_refl Hk) as H.
  destruct (run fine [] _) as [[res c'] t]. exact (proj1 H).
Defined.
