(* ===== verification/Registry.v ===== *)
(** * The registry of engines

    [internal/policy/store/engine.go]: the engines of a tenant, read in its
    transaction, all of them or those of one kind.  Row-level security (V0070)
    shows a transaction the rows of its tenant. *)

From stdpp Require Import sorting.
From S2P Require Import Prelude Effects Cypher PolicyStore Compiler.
From Stdlib Require Import Lia.
#[local] Open Scope go_scope.

(** ** Reading *)

(** The rows of a query, each unless it does not scan, and whether they ended
    without an error. *)
Inductive regCall :=
  | OpenTenant (tid : gostring)
  | SelectEngines (kind : option gostring)
  | CloseTenant (commit : bool).

Definition regR (c : regCall) : Type :=
  match c with SelectEngines _ => option (list (option Engine) * bool) | _ => bool end.

Abbreviation regProg := (prog regR).

Definition readEngines (kind : option gostring) : regProg (result store_err (list Engine)) :=
  Do (R := regR) (SelectEngines kind) (fun r : option (list (option Engine) * bool) =>
  Ret (match r with
       | None => Err ErrQuery
       | Some (rows, ok) =>
           match mapM (fun e => e) rows with
           | Some engines => if ok then Ok engines else Err ErrQuery
           | None => Err ErrQuery
           end
       end)).

(** [ExecuteInTenant]. *)
Definition underTenantTx (tid : gostring) (body : regProg (result store_err (list Engine)))
  : regProg (result store_err (list Engine)) :=
  Do (R := regR) (OpenTenant tid) (fun ok : bool =>
  if ok then
    bind body (fun r =>
    match r with
    | Ok l => Do (R := regR) (CloseTenant true) (fun ok : bool => Ret (if ok then Ok l else Err ErrTx))
    | Err e => Do (R := regR) (CloseTenant false) (fun _ : bool => Ret (Err e))
    end)
  else Ret (Err ErrTx)).

Definition List_ (tenant : option gostring) : regProg (result store_err (list Engine)) :=
  match tenant with
  | None => Ret (Err ErrTenantMissing)
  | Some tid => underTenantTx tid (readEngines None)
  end.

Definition ListByKind (tenant : option gostring) (kind : gostring) : regProg (result store_err (list Engine)) :=
  match tenant with
  | None => Ret (Err ErrTenantMissing)
  | Some tid =>
      match MustSanitizeCypherLiteral kind with
      | None => Ret (Err Panic)
      | Some _ => underTenantTx tid (readEngines (Some kind))
      end
  end.

(** ** The table *)

Record engineRow := mkEngineRow { er_tenant : gostring; er_created : Z; er_engine : Engine }.

Definition earlier (a b : engineRow) : Prop := (er_created a <= er_created b)%Z.
#[export] Instance earlier_dec : RelDecision earlier.
Proof. intros a b. unfold earlier. apply _. Defined.

(** The rows a query of the tenant's transaction is about. *)
Definition selected (tid : gostring) (kind : option gostring) (r : engineRow) : Prop :=
  er_tenant r = tid /\ match kind with Some k => eng_Kind (er_engine r) = k | None => True end.
#[export] Instance selected_dec tid kind r : Decision (selected tid kind r).
Proof. unfold selected. destruct kind; apply _. Defined.

(** A list the query may answer: rows of the same instant come in any order. *)
Definition listing (table : list engineRow) (tid : gostring) (kind : option gostring) (l : list Engine) : Prop :=
  exists rows, rows ≡ₚ filter (selected tid kind) table /\ StronglySorted earlier rows /\ l = map er_engine rows.

(** ** Theorems *)

(** The tenant of the last transaction that was opened. *)
Fixpoint openTenant (h : list regCall) (cur : option gostring) : option gostring :=
  match h with
  | [] => cur
  | OpenTenant tid :: h => openTenant h (Some tid)
  | _ :: h => openTenant h cur
  end.

(** PostgreSQL: a query that ends without an error has answered a listing. *)
Definition postgres (table : list engineRow) (o : env regR) : Prop :=
  forall h kind rows,
    o h (SelectEngines kind) = Some (rows, true) ->
    exists tid l, openTenant (calls h) None = Some tid /\ rows = map Some l /\ listing table tid kind l.

Lemma mapM_Some {A} (l : list A) : mapM (fun e => e) (map Some l) = Some l.
Proof. induction l as [|a l IH]; [done|]. cbn. by rewrite IH. Qed.

Lemma underTenantTx_listing table o tid kind l :
  postgres table o -> (run o [] (underTenantTx tid (readEngines kind))).1 = Ok l -> listing table tid kind l.
Proof.
  intros Ho. unfold underTenantTx, readEngines. cbn [run]. destruct (o [] (OpenTenant tid)) eqn:E1; [|done].
  cbn [bind run app].
  destruct (o [ev (OpenTenant tid) true] (SelectEngines kind)) as [[rows ok]|] eqn:E2; [|by cbn].
  destruct ok; [|destruct (mapM _ rows); by cbn].
  pose proof E2 as E3. apply Ho in E3 as (t & l' & Ht & -> & Hl). injection Ht as <-. rewrite mapM_Some.
  cbn [run]. match goal with |- context [o ?h (CloseTenant true)] => destruct (o h (CloseTenant true)) end; [|done].
  by intros [= <-].
Qed.

(** The engines that are listed are those of the tenant, all of them, in the order
    of their registration; those listed for a kind are the ones of that kind among
    them. *)
Theorem ListByKind_of_List table o o' tid kind all ofKind :
  postgres table o -> postgres table o' ->
  (run o [] (List_ (Some tid))).1 = Ok all -> (run o' [] (ListByKind (Some tid) kind)).1 = Ok ofKind ->
  listing table tid None all /\ listing table tid (Some kind) ofKind /\
  ofKind ≡ₚ filter (fun e => eng_Kind e = kind) all.
Proof.
  intros Ho Ho' Hall Hsome. apply (underTenantTx_listing table) in Hall; [|done].
  unfold ListByKind in Hsome. destruct (MustSanitizeCypherLiteral kind); [|done].
  apply (underTenantTx_listing table) in Hsome; [|done]. split_and!; [done..|].
  destruct Hall as (r1 & H1 & _ & ->), Hsome as (r2 & H2 & _ & ->). rewrite H1, H2. clear r1 r2 H1 H2.
  clear Ho Ho'. induction table as [|r table IH]; [done|]. rewrite !filter_cons.
  destruct (decide (er_tenant r = tid)) as [Ht|Ht].
  - rewrite (decide_True _ _ (conj Ht I : selected tid None r)). cbn [map]. rewrite filter_cons.
    destruct (decide (eng_Kind (er_engine r) = kind)) as [Hk|Hk].
    + rewrite (decide_True _ _ (conj Ht Hk : selected tid (Some kind) r)). cbn [map]. by rewrite IH.
    + rewrite decide_False by (by intros []). exact IH.
  - rewrite !decide_False by (by intros []). exact IH.
Qed.
