(* ===== verification/Gateway.v ===== *)
(** * The Iceberg commit gateway

    [internal/gateway/iceberg]: the principal chain, the write coordinator, the
    audit emission, and the single- and multi-table commit handlers as programs
    over the catalog, the policy store, the policy engine and the audit
    transaction.  A handler is a sequence of steps that may answer early
    ([step]); the CEL engine is the answer of a call and [Evaluate] its
    fail-closed reading. *)

From S2P Require Import Prelude Effects Cypher PolicyStore.
From Stdlib Require Import Lia.

(** ** Policy evaluation ([internal/policy/cel/eval.go]) *)

Inductive Action := ActionAllow | ActionDeny.

Record Decision := mkDecision { dec_Action : Action; dec_Reason : gostring }.

(** What compiling and running one CEL program comes to: cel-go's part. *)
Inductive celAnswer :=
  | CompileFails
  | EvalFails
  | Panics
  | BoolValue (b : bool)
  | OtherValue.

Inductive eval_err :=
  | ErrCelCompileFailed
  | ErrPolicyEvalFailed
  | ErrPolicyReturnedNonBool
  | ErrEvalPanic.

Definition Evaluate (p : Policy) (a : celAnswer) : result eval_err Decision :=
  match a with
  | CompileFails => Err ErrCelCompileFailed
  | EvalFails => Err ErrPolicyEvalFailed
  | Panics => Err ErrEvalPanic
  | OtherValue => Err ErrPolicyReturnedNonBool
  | BoolValue true => Ok (mkDecision ActionAllow [])
  | BoolValue false => Ok (mkDecision ActionDeny ("policy " ++ pol_ID p ++ " denied"))
  end.

(** ** The principal ([principal.go]) *)

Record Principal := mkPrincipal { prin_Sub : gostring; prin_Email : gostring;
                                  prin_Roles : list gostring }.

Definition SourceMTLS : gostring := "mtls_san".
Definition SourceAuthHeader : gostring := "auth_header".
Definition SourceSession : gostring := "session".

(** The SANs of a peer certificate; a URI is given as its string. *)
Record certificate := mkCert { cert_URIs : list gostring; cert_DNSNames : list gostring }.

Definition extractSAN (cert : certificate) : gostring :=
  default [] (head (filter (fun s => s <> []) (cert_URIs cert ++ cert_DNSNames cert))).

(** The JSON values a claim can hold, as far as the code tells them apart. *)
#[warnings="-register-all"]
Inductive claim :=
  | CString (s : gostring)
  | CArray (l : list claim)
  | COther.

Definition claims := gmap gostring claim.

(** [strings.Fields], with [fuel] at least the length. *)
Fixpoint fieldsFrom (fuel : nat) (s cur : gostring) : list gostring :=
  let flush := if bool_decide (cur = []) then [] else [reverse cur] in
  match fuel with
  | 0 => flush
  | S fuel =>
      match s with
      | [] => flush
      | c :: s' =>
          match findPrefix spaceRunes s with
          | Some n => flush ++ fieldsFrom fuel (drop n s) []
          | None => fieldsFrom fuel s' (c :: cur)
          end
      end
  end.

Definition Fields (s : gostring) : list gostring := fieldsFrom (S (length s)) s [].

Definition stringClaims (l : list claim) : list gostring :=
  omap (fun c => match c with
                 | CString s => if bool_decide (s = []) then None else Some s
                 | _ => None
                 end) l.

Definition extractRoles (c : claims) : list gostring :=
  match c !! ("roles" : gostring) with
  | Some (CArray rs) => stringClaims rs
  | roles =>
      match roles with
      | Some (CString rs) =>
          if bool_decide (rs = []) then
            match c !! ("groups" : gostring) with
            | Some (CArray gs) => stringClaims gs
            | _ => []
            end
          else Fields rs
      | _ =>
          match c !! ("groups" : gostring) with
          | Some (CArray gs) => stringClaims gs
          | _ => []
          end
      end
  end.

Definition stringClaim (c : claims) (name : gostring) : gostring :=
  match c !! name with Some (CString s) => s | _ => [] end.

(** ** Data *)

(** [iceberg.CommitResult]; the acceptance time is left out. *)
Record CommitResult := mkCommitResult { cr_NewMetadataLocation : gostring; cr_NewSnapshotID : Z }.

Inductive creds_err := ErrCredentialsNotFound | CredsOther.
Inductive load_err := ErrTableNotFound | ErrCredentialsExpired | LoadOther.
Inductive commit_err := ErrCommitConflict | CommitOther.

(** The row of the tenant's [audit_log]: the actor is the subject of the
    principal, the payload holds the principal, the table and the reason. *)
Record auditRow := mkAudit {
  au_Tenant : gostring; au_Principal : Principal; au_Reason : gostring;
  au_Decision : gostring; au_Source : gostring; au_Hash : gostring; au_Ref : TableRef
}.

(** A response: status, text of an error, results of a success. *)
Record response := mkResponse {
  code : N; text : gostring; results : list (option CommitResult)
}.

(** How a request ends: a response, or a panic of the handler. *)
Inductive outcome := Responded (r : response) | Panicked.

Section gateway.
(** The types the handler passes through, the active spec of a table's metadata,
    the decoders, the JWT parser and the hash. *)
Context {Creds Adapter Metadata CommitRequest : Type}.
Context (specID : Metadata -> Z).
Context (unmarshalCommit : gostring -> option CommitRequest).
Context (parseUnverified : gostring -> option claims).
Context (sha256 : gostring -> gostring).

Record tableChange := mkChange { tc_Ref : TableRef; tc_Commit : CommitRequest }.
Context (unmarshalMulti : gostring -> option (list tableChange)).

(** [Deps]: whether the two commercial stores are wired. *)
Record Deps := mkDeps { hasWriteConflictStore : bool; hasPartitionSpecStore : bool }.

(** A request: method, tenant of the context, path values, peer certificate,
    headers, and the body ([None] when the connection fails). *)
Record request := mkRequest {
  rq_method : gostring; rq_tenant : option gostring;
  rq_prefix : gostring; rq_namespace : gostring; rq_table : gostring;
  rq_cert : option certificate; rq_authorization : gostring; rq_userAgent : gostring;
  rq_body : option gostring
}.

(** ** Calls *)

Inductive gwCall :=
  | GetCatalogCredentials (prefix : gostring)
  | BuildAdapter (cred : Creds)
  | LoadTable (adapter : Adapter) (ref : TableRef)
  | LoadActive (ref : TableRef)
  | LoadForTable (ref : TableRef)
  | LoadPolicies (ref : TableRef)
  | RunPolicy (p : Policy) (table : Metadata) (commit : CommitRequest) (principal : Principal)
  | CommitTable (adapter : Adapter) (ref : TableRef) (commit : CommitRequest)
      (conflictPolicy : option gostring)
  | CommitRejected (reason : gostring)
  | FreshIDs
  | OpenAuditTx (tenantID : gostring)
  | AuditExec (stmt : gostring)
  | AuditInsert (row : auditRow)
  | CloseAuditTx (commit : bool)
  | MergeSnapshot (tenantID : gostring) (snapshotID : Z) (location : gostring).

(** The answers; [CommitRejected] increments the counter, [FreshIDs] gives the
    commit id and the time. *)
Definition gwR (c : gwCall) : Type :=
  match c with
  | GetCatalogCredentials _ => result creds_err Creds
  | BuildAdapter _ => option Adapter
  | LoadTable _ _ => result load_err Metadata
  | LoadActive _ => option (option Z)
  | LoadForTable _ => option gostring
  | LoadPolicies _ => option (list Policy)
  | RunPolicy _ _ _ _ => celAnswer
  | CommitTable _ _ _ _ => result commit_err (option CommitResult)
  | CommitRejected _ => unit
  | FreshIDs => gostring * gostring
  | _ => bool
  end.

(** ** Steps: a handler that may have answered *)

Definition step (A : Type) : Type := prog gwR (outcome + A).

Definition andThen {A B} (m : step A) (f : A -> step B) : step B :=
  bind m (fun r => match r with inl out => Ret (inl out) | inr a => f a end).

Definition httpError {A} (status : N) (msg : gostring) : step A :=
  Ret (inl (Responded (mkResponse status msg []))).

Definition ask (c : gwCall) : prog gwR (gwR c) := call c.

Definition guard {A} (ok : bool) (status : N) (msg : gostring) (k : step A) : step A :=
  if ok then k else httpError status msg.

(** A rejection counted under [reason]. *)
Definition rejectWith {A} (reason : gostring) (status : N) (msg : gostring) : step A :=
  Do (R := gwR) (CommitRejected reason) (fun _ : unit => httpError status msg).

Definition unavailable {A} : step A :=
  rejectWith "policy_engine_unavailable" 503 "policy-engine-unavailable".

(** ** Principal extraction *)

Definition parseJWTUnverified (token : gostring) : option Principal :=
  match parseUnverified token with
  | None => None
  | Some c =>
      let sub := stringClaim c "sub" in
      if bool_decide (sub = []) then None
      else Some (mkPrincipal sub (stringClaim c "email") (extractRoles c))
  end.

Definition bearerPrincipal (authz : gostring) : option Principal :=
  if hasPrefix "Bearer " authz then parseJWTUnverified (drop 7 authz) else None.

Definition ExtractPrincipal (r : request) : option (Principal * gostring) :=
  let san := match rq_cert r with Some cert => extractSAN cert | None => [] end in
  if negb (bool_decide (san = [])) then Some (mkPrincipal san [] [], SourceMTLS)
  else
    match bearerPrincipal (rq_authorization r) with
    | Some p => Some (p, SourceAuthHeader)
    | None =>
        match rq_tenant r with
        | Some tid => Some (mkPrincipal tid [] [], SourceSession)
        | None => None
        end
    end.

(** ** The write coordinator ([writecoordinator.go]) *)

Definition detectEngineKind (userAgent : gostring) : gostring :=
  let ua := lowerWord userAgent in
  if contains ua "trino" then "trino"
  else if contains ua "dremio" then "dremio"
  else if contains ua "iceberg-spark" || contains ua "spark" then "spark"
  else [].

(** [active] is [None] for a nil spec. *)
Definition specMatches (commitSpec : Z) (active : option Z) : bool :=
  match active with
  | None => true
  | Some a => bool_decide (a = 0%Z) || bool_decide (commitSpec = a)
  end.

Inductive coordinator_err := ErrPartitionSpecMismatch | CoordinatorStore.

(** The conflict policy attached to the context, if any. *)
Definition WriteCoordinatorPreCommit (deps : Deps) (engineKind : gostring) (ref : TableRef)
    (current : Metadata) (req : CommitRequest)
  : prog gwR (result coordinator_err (option gostring)) :=
  if bool_decide (engineKind <> "trino") && bool_decide (engineKind <> "dremio")
  then Ret (Ok None)
  else
    bind (if hasPartitionSpecStore deps then
            Do (R := gwR) (LoadActive ref) (fun r : option (option Z) =>
            match r with
            | None => Ret (Err CoordinatorStore)
            | Some active =>
                if specMatches (specID current) active then Ret (Ok tt)
                else Ret (Err ErrPartitionSpecMismatch)
            end)
          else Ret (Ok tt)) (fun checked : result coordinator_err unit =>
    match checked with
    | Err e => Ret (Err e)
    | Ok _ =>
        if hasWriteConflictStore deps then
          Do (R := gwR) (LoadForTable ref) (fun r : option gostring =>
          match r with
          | None => Ret (Err CoordinatorStore)
          | Some policy => Ret (Ok (Some policy))
          end)
        else Ret (Ok None)
    end).

(** Step 8.5 of the handler. *)
Definition coordinate (deps : Deps) (userAgent : gostring) (ref : TableRef)
    (current : Metadata) (req : CommitRequest) : step (option gostring) :=
  if hasWriteConflictStore deps || hasPartitionSpecStore deps then
    bind (WriteCoordinatorPreCommit deps (detectEngineKind userAgent) ref current req)
      (fun r =>
       match r with
       | Ok policy => Ret (inr policy)
       | Err ErrPartitionSpecMismatch =>
           rejectWith "policy_partition_spec_mismatch" 403
             "commit rejected: partition spec mismatch"
       | Err CoordinatorStore => unavailable
       end)
  else Ret (inr None).

(** ** The audit emission ([audit.go]) *)

(** [%d]. *)
Fixpoint uintDigits (u : Decimal.uint) : gostring :=
  match u with
  | Decimal.Nil => []
  | Decimal.D0 u => "0"%char :: uintDigits u
  | Decimal.D1 u => "1"%char :: uintDigits u
  | Decimal.D2 u => "2"%char :: uintDigits u
  | Decimal.D3 u => "3"%char :: uintDigits u
  | Decimal.D4 u => "4"%char :: uintDigits u
  | Decimal.D5 u => "5"%char :: uintDigits u
  | Decimal.D6 u => "6"%char :: uintDigits u
  | Decimal.D7 u => "7"%char :: uintDigits u
  | Decimal.D8 u => "8"%char :: uintDigits u
  | Decimal.D9 u => "9"%char :: uintDigits u
  end.

Definition formatInt (z : Z) : gostring :=
  (if bool_decide (z < 0)%Z then "-" else []) ++ uintDigits (N.to_uint (Z.abs_N z)).

Definition escapeCypher (s : gostring) : option gostring := MustSanitizeCypherLiteral s.

(** The arguments of an emission. *)
Record writeEvent := mkWriteEvent {
  we_tenant : gostring; we_commitID : gostring; we_now : gostring;
  we_ref : TableRef; we_decision : gostring; we_principal : Principal; we_source : gostring;
  we_hash : gostring; we_result : option CommitResult; we_reason : gostring
}.

Definition we_snapshotID (e : writeEvent) : gostring :=
  match we_result e with Some r => formatInt (cr_NewSnapshotID r) | None => [] end.

Definition we_ns (e : writeEvent) : gostring := joinNamespace (ref_Namespace (we_ref e)).

(** [COALESCE(we.field, 'value')]. *)
Definition coalesce (field value : gostring) : gostring :=
  "we." ++ field ++ " = COALESCE(we." ++ field ++ ", " ++ lit value ++ ")".

(** The statements, each [None] where [escapeCypher] panics. *)
Definition mergeWriteEvent (e : writeEvent) : option gostring :=
  commitID ← escapeCypher (we_commitID e); tenant ← escapeCypher (we_tenant e);
  sub ← escapeCypher (prin_Sub (we_principal e)); snap ← escapeCypher (we_snapshotID e);
  decision ← escapeCypher (we_decision e); reason ← escapeCypher (we_reason e);
  source ← escapeCypher (we_source e);
  Some ("MERGE (we:WriteEvent {commit_id: " ++ lit commitID ++ ", tenant_id: " ++ lit tenant ++
    "}) WITH we SET " ++ join ", " [coalesce "committer" sub; coalesce "snapshot_id" snap;
      coalesce "decision" decision; coalesce "policy_version" "v1"; coalesce "reason" reason;
      coalesce "created_at" (we_now e); coalesce "principal_source" source] ++ " RETURN id(we)").

Definition mergePerson (e : writeEvent) : option gostring :=
  sub ← escapeCypher (prin_Sub (we_principal e)); tenant ← escapeCypher (we_tenant e);
  Some ("MERGE (p:Person {sub: " ++ lit sub ++ ", tenant_id: " ++ lit tenant ++ "}) RETURN id(p)").

Definition mergeTable (e : writeEvent) : option gostring :=
  name ← escapeCypher (ref_Name (we_ref e)); ns ← escapeCypher (we_ns e);
  tenant ← escapeCypher (we_tenant e);
  Some ("MERGE (t:Table {name: " ++ lit name ++ ", namespace: " ++ lit ns ++ ", tenant_id: " ++
    lit tenant ++ "}) RETURN id(t)").

Definition mergeIntended (e : writeEvent) : option gostring :=
  sub ← escapeCypher (prin_Sub (we_principal e)); name ← escapeCypher (ref_Name (we_ref e));
  ns ← escapeCypher (we_ns e); tenant ← escapeCypher (we_tenant e);
  Some ("MATCH (p:Person {sub: " ++ lit sub ++ "}), (t:Table {name: " ++ lit name ++
    ", namespace: " ++ lit ns ++ "}) MERGE (p)-[r:INTENDED_WRITE {tenant_id: " ++ lit tenant ++
    "}]->(t) WITH r SET r.first_at = COALESCE(r.first_at, " ++ lit (we_now e) ++
    "), r.last_at = " ++ lit (we_now e) ++ " RETURN id(r)").

Definition mergeSnapshotForAudit (e : writeEvent) (location : gostring) : option gostring :=
  loc ← escapeCypher location; tenant ← escapeCypher (we_tenant e);
  Some ("MERGE (s:Snapshot {metadata_location: " ++ lit loc ++ ", tenant_id: " ++ lit tenant ++
    "}) RETURN id(s)").

Definition mergeActual (e : writeEvent) (location : gostring) : option gostring :=
  loc ← escapeCypher location; name ← escapeCypher (ref_Name (we_ref e));
  ns ← escapeCypher (we_ns e); tenant ← escapeCypher (we_tenant e);
  Some ("MATCH (s:Snapshot {metadata_location: " ++ lit loc ++ "}), (t:Table {name: " ++
    lit name ++ ", namespace: " ++ lit ns ++ "}) MERGE (s)-[r:ACTUAL_WRITE {tenant_id: " ++
    lit tenant ++ "}]->(t) WITH r SET r.at = COALESCE(r.at, " ++ lit (we_now e) ++
    ") RETURN id(r)").

(** The location of the new metadata of an approved commit, when it has one. *)
Definition newLocation (e : writeEvent) : option gostring :=
  match we_result e with
  | Some r =>
      if bool_decide (we_decision e = "APPROVED")
         && negb (bool_decide (cr_NewMetadataLocation r = []))
      then Some (cr_NewMetadataLocation r) else None
  | None => None
  end.

Definition auditStatements (e : writeEvent) : list (option gostring) :=
  [mergeWriteEvent e; mergePerson e; mergeTable e; mergeIntended e] ++
  match newLocation e with
  | Some loc => [mergeSnapshotForAudit e loc; mergeActual e loc]
  | None => []
  end.

Inductive emitted := EmitOk | EmitErr | EmitPanic.

(** [execAGE] on each statement; a panic or a failure ends the transaction. *)
Fixpoint execAudit (stmts : list (option gostring)) (row : auditRow) : prog gwR emitted :=
  match stmts with
  | None :: _ => Do (R := gwR) (CloseAuditTx false) (fun _ : bool => Ret EmitPanic)
  | Some s :: stmts =>
      Do (R := gwR) (AuditExec (cypherSQL s "result ag_catalog.agtype")) (fun ok : bool =>
      if ok then execAudit stmts row
      else Do (R := gwR) (CloseAuditTx false) (fun _ : bool => Ret EmitErr))
  | [] =>
      Do (R := gwR) (AuditInsert row) (fun ok : bool =>
      Do (R := gwR) (CloseAuditTx ok) (fun closed : bool =>
      Ret (if ok && closed then EmitOk else EmitErr)))
  end.

Definition EmitWriteEvent (tenant : option gostring) (ref : TableRef) (decision : gostring)
    (principal : Principal) (source hash : gostring) (res : option CommitResult)
    (reason : gostring) : prog gwR emitted :=
  match tenant with
  | None => Ret EmitErr
  | Some tid =>
      Do (R := gwR) FreshIDs (fun ids : gostring * gostring =>
      let e := mkWriteEvent tid ids.1 ids.2 ref decision principal source hash res reason in
      Do (R := gwR) (OpenAuditTx tid) (fun ok : bool =>
      if ok then
        execAudit (auditStatements e)
          (mkAudit tid principal reason decision source hash ref)
      else Ret EmitErr))
  end.

(** ** The single-table handler ([handler.go]) *)

Definition maxCommitBodyBytes : N := 16777216.

(** [^[a-zA-Z0-9_-]+$]. *)
Definition identifierByte (c : ascii) : bool :=
  isUpper c || isLower c || isDigit c || bool_decide (c = "_"%char) || bool_decide (c = "-"%char).

Definition identifierRegex (s : gostring) : bool :=
  negb (bool_decide (s = [])) && forallb identifierByte s.

(** Steps 3 to 4: a principal with a non-empty subject, and the body. *)
Definition principalStep (r : request) : step (Principal * gostring) :=
  match ExtractPrincipal r with
  | None => httpError 401 "unauthorized: principal missing"
  | Some (p, src) =>
      guard (negb (bool_decide (prin_Sub p = []))) 401 "unauthorized: principal sub empty"
        (Ret (inr (p, src)))
  end.

Definition bodyStep (r : request) : step gostring :=
  match rq_body r with
  | Some body =>
      guard (N.of_nat (length body) <=? maxCommitBodyBytes)%N 400 "invalid request body"
        (Ret (inr body))
  | None => httpError 400 "invalid request body"
  end.

(** Steps 6 and 7. *)
Definition adapterStep (prefix : gostring) : step Adapter :=
  Do (R := gwR) (GetCatalogCredentials prefix) (fun r : result creds_err Creds =>
  match r with
  | Err ErrCredentialsNotFound => httpError 404 "catalog credentials not found"
  | Err CredsOther => httpError 500 "catalog creds fetch failed"
  | Ok cred =>
      Do (R := gwR) (BuildAdapter cred) (fun r : option Adapter =>
      match r with
      | None => httpError 500 "catalog adapter build failed"
      | Some adapter => Ret (inr adapter)
      end)
  end).

(** Step 8; [notFound] and [failed] word the errors. *)
Definition loadStep (notFound failed : gostring) (adapter : Adapter) (ref : TableRef)
  : step Metadata :=
  Do (R := gwR) (LoadTable adapter ref) (fun r : result load_err Metadata =>
  match r with
  | Ok m => Ret (inr m)
  | Err ErrTableNotFound => httpError 404 notFound
  | Err ErrCredentialsExpired => httpError 401 "upstream credentials expired"
  | Err LoadOther => httpError 502 failed
  end).

Definition policiesStep (ref : TableRef) : step (list Policy) :=
  Do (R := gwR) (LoadPolicies ref) (fun r : option (list Policy) =>
  match r with None => unavailable | Some ps => Ret (inr ps) end).

(** What does not change along the policies of one table: who commits what. *)
Record commitContext := mkContext {
  cc_tenant : option gostring; cc_principal : Principal; cc_source : gostring;
  cc_hash : gostring
}.

(** A denial is audited before it is answered; [what] is the message. *)
Definition denied (cc : commitContext) (ref : TableRef) (reason what : gostring) : step unit :=
  Do (R := gwR) (CommitRejected "policy_denied") (fun _ : unit =>
  bind (EmitWriteEvent (cc_tenant cc) ref "REJECTED" (cc_principal cc) (cc_source cc)
          (cc_hash cc) None reason) (fun r =>
  match r with
  | EmitOk => httpError 403 what
  | EmitErr => rejectWith "policy_engine_unavailable" 503
                 "policy-engine-unavailable: audit emission failed on policy denial"
  | EmitPanic => Ret (inl Panicked)
  end)).

(** The loop over the policies of a table; [denial] words the answer. *)
Fixpoint evaluateAll (cc : commitContext) (ref : TableRef) (denial : gostring -> gostring)
    (current : Metadata) (commit : CommitRequest) (policies : list Policy) : step unit :=
  match policies with
  | [] => Ret (inr tt)
  | p :: policies =>
      Do (R := gwR) (RunPolicy p current commit (cc_principal cc)) (fun a : celAnswer =>
      match Evaluate p a with
      | Err _ => unavailable
      | Ok d =>
          match dec_Action d with
          | ActionDeny => denied cc ref (dec_Reason d) (denial (dec_Reason d))
          | ActionAllow => evaluateAll cc ref denial current commit policies
          end
      end)
  end.

(** Steps 12 and 13, after a commit: the audit, whose failure is logged with the
    snapshot of the result, and the best-effort ingest. *)
Definition recordCommit (cc : commitContext) (ref : TableRef) (logsSnapshot : bool)
    (res : option CommitResult) : step unit :=
  bind (EmitWriteEvent (cc_tenant cc) ref "APPROVED" (cc_principal cc) (cc_source cc)
          (cc_hash cc) res []) (fun r =>
  let ingest :=
    match res, cc_tenant cc with
    | Some r, Some tid =>
        if bool_decide (cr_NewMetadataLocation r = []) then Ret (inr tt)
        else Do (R := gwR) (MergeSnapshot tid (cr_NewSnapshotID r) (cr_NewMetadataLocation r))
               (fun _ : bool => Ret (inr tt))
    | _, _ => Ret (inr tt)
    end in
  match r with
  | EmitPanic => Ret (inl Panicked)
  | EmitErr =>
      if logsSnapshot && bool_decide (res = None) then Ret (inl Panicked) else ingest
  | EmitOk => ingest
  end).

Definition commitStep (adapter : Adapter) (ref : TableRef) (commit : CommitRequest)
    (conflictPolicy : option gostring) (conflict failed : gostring) : step (option CommitResult) :=
  Do (R := gwR) (CommitTable adapter ref commit conflictPolicy)
    (fun r : result commit_err (option CommitResult) =>
  match r with
  | Ok res => Ret (inr res)
  | Err ErrCommitConflict => httpError 409 conflict
  | Err CommitOther => httpError 502 failed
  end).

(** The answer of a handler that ran to its end. *)
Definition answer (m : step (list (option CommitResult))) : prog gwR outcome :=
  bind m (fun r => Ret (match r with
                        | inl out => out
                        | inr res => Responded (mkResponse 200 [] res)
                        end)).

Definition pathRef (r : request) : TableRef := mkTableRef [rq_namespace r] (rq_table r).

Definition CommitHandler (deps : Deps) (r : request) : prog gwR outcome :=
  answer (
  guard (bool_decide (rq_method r = "POST")) 405 "method not allowed" (
  guard (bool_decide (is_Some (rq_tenant r))) 500 "tenant missing" (
  guard (identifierRegex (rq_prefix r) && identifierRegex (rq_namespace r)
         && identifierRegex (rq_table r)) 400 "malformed path identifier" (
  andThen (principalStep r) (fun '(principal, src) =>
  andThen (bodyStep r) (fun body =>
  match unmarshalCommit body with
  | None => httpError 400 "invalid commit body"
  | Some commit =>
      let ref := pathRef r in
      let cc := mkContext (rq_tenant r) principal src (sha256 body) in
      andThen (adapterStep (rq_prefix r)) (fun adapter =>
      andThen (loadStep "table not found" "upstream load table failed" adapter ref)
        (fun current =>
      andThen (coordinate deps (rq_userAgent r) ref current commit) (fun conflictPolicy =>
      andThen (policiesStep ref) (fun policies =>
      andThen (evaluateAll cc ref (fun reason => "policy denied: " ++ reason) current commit
                 policies) (fun _ =>
      andThen (commitStep adapter ref commit conflictPolicy "commit conflict"
                 "upstream commit failed") (fun res =>
      andThen (recordCommit cc ref true res) (fun _ =>
      Ret (inr [res]))))))))
  end)))))).

(** ** The multi-table handler ([multi_table.go]) *)

(** Step 8: the gate of one table. *)
Definition gateOne (cc : commitContext) (adapter : Adapter) (tc : tableChange) : step unit :=
  let ref := tc_Ref tc in
  guard (identifierRegex (ref_Name ref)) 400 "multi-table: malformed table identifier" (
  guard (forallb identifierRegex (ref_Namespace ref)) 400
    "multi-table: malformed namespace identifier" (
  andThen (loadStep "multi-table: table not found" "upstream load failed" adapter ref)
    (fun current =>
  andThen (policiesStep ref) (fun policies =>
  evaluateAll cc ref
    (fun reason => "multi-table reject-all: policy denied on " ++ ref_Name ref ++ ": " ++ reason)
    current (tc_Commit tc) policies)))).

Fixpoint gateAll (cc : commitContext) (adapter : Adapter) (changes : list tableChange)
  : step unit :=
  match changes with
  | [] => Ret (inr tt)
  | tc :: changes => andThen (gateOne cc adapter tc) (fun _ => gateAll cc adapter changes)
  end.

(** Step 9: the commits, one after the other. *)
Fixpoint forwardAll (cc : commitContext) (adapter : Adapter) (changes : list tableChange)
  : step (list (option CommitResult)) :=
  match changes with
  | [] => Ret (inr [])
  | tc :: changes =>
      andThen (commitStep adapter (tc_Ref tc) (tc_Commit tc) None
                 ("multi-table: commit conflict on " ++ ref_Name (tc_Ref tc))
                 ("upstream commit failed on " ++ ref_Name (tc_Ref tc))) (fun res =>
      andThen (recordCommit cc (tc_Ref tc) false res) (fun _ =>
      andThen (forwardAll cc adapter changes) (fun rest => Ret (inr (res :: rest)))))
  end.

Definition MultiTableCommitHandler (r : request) : prog gwR outcome :=
  answer (
  guard (bool_decide (rq_method r = "POST")) 405 "method not allowed" (
  guard (bool_decide (is_Some (rq_tenant r))) 500 "tenant missing" (
  guard (identifierRegex (rq_prefix r)) 400 "malformed path identifier" (
  andThen (principalStep r) (fun '(principal, src) =>
  andThen (bodyStep r) (fun body =>
  match unmarshalMulti body with
  | None => httpError 400 "invalid multi-table body"
  | Some changes =>
      guard (negb (bool_decide (length changes = 0))) 400 "multi-table body: empty table-changes" (
      let cc := mkContext (rq_tenant r) principal src (sha256 body) in
      andThen (adapterStep (rq_prefix r)) (fun adapter =>
      andThen (gateAll cc adapter changes) (fun _ =>
      forwardAll cc adapter changes)))
  end)))))).
End gateway.
