(* ===== verification/GatewaySpec.v ===== *)
(** * The commit gateway: what it guarantees

    No commit reaches the catalog before every policy of its table allowed it,
    in the single-table handler and, for all tables together, in the multi-table
    handler; a denial is answered only once it is audited; and where the code
    falls short: unaudited commits of principals the audit cannot spell, and a
    partition-spec check that looks at neither the commit nor, in a multi-table
    commit, anything. *)

From S2P Require Import Prelude Effects Cypher PolicyStore Gateway.
From Stdlib Require Import Lia.

Create HintDb gateway.

Section spec.
Context {Creds Adapter Metadata CommitRequest : Type}.
Context (specID : Metadata -> Z).
Context (unmarshalCommit : gostring -> option CommitRequest).
Context (parseUnverified : gostring -> option claims).
Context (sha256 : gostring -> gostring).
Context (unmarshalMulti : gostring -> option (list (tableChange (CommitRequest := CommitRequest)))).

Abbreviation gwCall := (@gwCall Creds Adapter Metadata CommitRequest).
Abbreviation gwR := (@gwR Creds Adapter Metadata CommitRequest).
Abbreviation step := (@step Creds Adapter Metadata CommitRequest).
Abbreviation tableChange := (@tableChange CommitRequest).
Abbreviation CommitHandler :=
  (CommitHandler (Creds := Creds) (Adapter := Adapter) specID unmarshalCommit parseUnverified sha256).
Abbreviation MultiTableCommitHandler :=
  (MultiTableCommitHandler (Creds := Creds) (Adapter := Adapter) (Metadata := Metadata)
     parseUnverified sha256 unmarshalMulti).

(** ** Traces *)

(** The commits sent to the catalog. *)
Definition commitsOf (t : trace gwR) : list (TableRef * CommitRequest) :=
  omap (fun c : gwCall => match c with
                 | CommitTable _ ref commit _ => Some (ref, commit)
                 | _ => None
                 end) (calls t).

(** The calls of an audit transaction. *)
Definition auditCall (c : gwCall) : bool :=
  match c with
  | FreshIDs | OpenAuditTx _ | AuditExec _ | AuditInsert _ | CloseAuditTx _ => true
  | _ => false
  end.

Definition isInsert (c : gwCall) : bool := match c with AuditInsert _ => true | _ => false end.

Definition coordinatorCall (c : gwCall) : bool :=
  match c with LoadActive _ | LoadForTable _ => true | _ => false end.

Lemma commitsOf_app t u : commitsOf (t ++ u) = commitsOf t ++ commitsOf u.
Proof. unfold commitsOf. by rewrite calls_app, omap_app. Qed.

Lemma audit_no_commit t : forallb auditCall (calls t) = true -> commitsOf t = [].
Proof.
  induction t as [|[c r] t IH]; [done|]. cbn [calls map projT1 forallb].
  rewrite andb_true_iff. intros [Hc Ht]. unfold commitsOf. cbn.
  destruct c; try done; by apply IH.
Qed.

(** ** The audit emission *)

(** What one emission did, by its outcome. *)
Record emission (row : auditRow) (r : emitted) (t : trace gwR) : Prop := {
  em_calls : forallb auditCall (calls t) = true;
  em_ok : r = EmitOk ->
    ev (R := gwR) (AuditInsert row) true ∈ t /\ ev (R := gwR) (CloseAuditTx true) true ∈ t
}.

Lemma execAudit_always stmts row h (Q : emitted -> trace gwR -> Prop) :
  (forall r t, emission row r t -> Q r (h ++ t)) -> always (execAudit stmts row) h Q.
Proof.
  revert h Q; induction stmts as [|[s|] stmts IH]; intros h Q HQ; cbn [execAudit always].
  - intros ok closed. rewrite <- app_assoc. apply HQ. split; [done|].
    destruct ok, closed; try done. intros _. split; [by left|by right; left].
  - intros []; cbn [always].
    + apply IH. intros r t [Hc Hok]. rewrite <- app_assoc. apply HQ. split; [done|].
      intros [? ?]%Hok. split; by right.
    + intros closed. rewrite <- app_assoc. by apply HQ.
  - intros closed. by apply HQ.
Qed.

Lemma EmitWriteEvent_always tenant ref decision principal source hash res reason h
    (Q : emitted -> trace gwR -> Prop) :
  (forall r t, emission (mkAudit (default [] tenant) principal reason decision source hash ref) r t ->
     Q r (h ++ t)) ->
  always (EmitWriteEvent tenant ref decision principal source hash res reason) h Q.
Proof.
  intros HQ. unfold EmitWriteEvent. destruct tenant as [tid|]; cbn [always].
  2: { rewrite <- (app_nil_r h). by apply HQ. }
  intros ids []; cbn [always].
  2: { rewrite <- app_assoc. by apply HQ. }
  apply execAudit_always. intros r t [Hc Hok]. rewrite <- !app_assoc. apply HQ. split; [done|].
  intros [? ?]%Hok. split; by do 2 right.
Qed.

(** A subject outside the literal allowlist panics the first statement of the
    emission: no audit row is ever inserted for it. *)
Lemma EmitWriteEvent_unsafe tenant ref decision principal source hash res reason :
  forallb cypherLiteralAllow (prin_Sub principal) = false ->
  only (fun c => negb (isInsert c))
    (EmitWriteEvent tenant ref decision principal source hash res reason).
Proof.
  intros H. destruct tenant as [tid|]; [|done]. cbn [EmitWriteEvent only].
  split; [done|]. intros ids. split; [done|]. intros []; [|done].
  unfold auditStatements, mergeWriteEvent, escapeCypher.
  cbn [app we_commitID we_tenant we_principal].
  destruct (MustSanitizeCypherLiteral ids.1); [|by cbn].
  destruct (MustSanitizeCypherLiteral tid); [|by cbn]. cbn [mbind option_bind].
  rewrite (MustSanitize_spec (prin_Sub principal)), H. by cbn.
Qed.

Lemma EmitWriteEvent_only tenant ref decision principal source hash res reason :
  only auditCall (EmitWriteEvent tenant ref decision principal source hash res reason).
Proof.
  destruct tenant as [tid|]; [|done]. cbn [EmitWriteEvent only].
  split; [done|]. intros ids. split; [done|]. intros []; [|done].
  generalize (mkAudit tid principal reason decision source hash ref) as row.
  match goal with |- context [auditStatements ?e] => generalize (auditStatements e) as stmts end.
  intros stmts row. induction stmts as [|[s|] stmts IH]; cbn [execAudit only]; [done| |done].
  split; [done|]. by intros [].
Qed.

(** ** Endings without a commit *)

Definition isDenial (e : event gwR) : bool :=
  match e with existT (RunPolicy _ _ _ _) (BoolValue false) => true | _ => false end.

Definition hasDenial (t : trace gwR) : bool := existsb isDenial t.

Definition allows (current : Metadata) (commit : CommitRequest) (principal : Principal)
    (p : Policy) : event gwR :=
  ev (R := gwR) (RunPolicy p current commit principal) (BoolValue true).

(** The answer to a denial: 403 once the rejection is in the audit log, else 503;
    or a panic of the audit. *)
Definition deniedOutcome (out : outcome) (t : trace gwR) : Prop :=
  exists p current commit principal,
    ev (R := gwR) (RunPolicy p current commit principal) (BoolValue false) ∈ t /\
    match out with
    | Responded resp =>
        code resp = 503%N \/
        code resp = 403%N /\ exists row, au_Decision row = "REJECTED" /\
          au_Principal row = principal /\ au_Reason row = "policy " ++ pol_ID p ++ " denied" /\
          ev (R := gwR) (AuditInsert row) true ∈ t /\
          ev (R := gwR) (CloseAuditTx true) true ∈ t
    | Panicked => True
    end.

(** A handler that ended before the catalog was asked to commit. *)
Record early (out : outcome) (t : trace gwR) : Prop := {
  early_commits : commitsOf t = [];
  early_error : match out with
                | Responded resp => code resp <> 200%N /\ results resp = []
                | Panicked => hasDenial t = true
                end;
  early_denied : hasDenial t = true -> deniedOutcome out t
}.

(** Nothing committed and nothing denied so far. *)
Definition clean (t : trace gwR) : Prop := commitsOf t = [] /\ hasDenial t = false.

Lemma clean_app t u : clean t -> clean u -> clean (t ++ u).
Proof.
  intros [H1 H2] [H3 H4]. split; [by rewrite commitsOf_app, H1, H3|].
  unfold hasDenial in *. by rewrite existsb_app, H2, H4.
Qed.

Lemma clean_nil : clean [].
Proof. done. Qed.

(** A call that neither commits nor runs a policy. *)
Definition plainCall (c : gwCall) : bool :=
  match c with CommitTable _ _ _ _ | RunPolicy _ _ _ _ => false | _ => true end.

Lemma clean_snoc t c (r : gwR c) : clean t -> plainCall c = true -> clean (t ++ [ev c r]).
Proof. intros Ht Hc. apply clean_app; [done|]. by destruct c. Qed.

Lemma clean_audit t : forallb auditCall (calls t) = true -> clean t.
Proof.
  intros H. split; [by apply audit_no_commit|].
  induction t as [|[c r] t IH]; [done|]. cbn [calls map projT1 forallb] in H.
  rewrite andb_true_iff in H. destruct H as [Hc Ht]. unfold hasDenial in *. cbn.
  rewrite IH by done. by destruct c.
Qed.

Lemma early_http h status msg :
  clean h -> status <> 200%N -> early (Responded (mkResponse status msg [])) h.
Proof. intros [H1 H2] Hs. split; [done|done|]. by rewrite H2. Qed.

#[local] Hint Resolve clean_nil clean_snoc clean_app clean_audit early_http : gateway.

(** ** Stepping through a handler *)

Lemma always_andThen {A B} (m : step A) (f : A -> step B) h
    (Q : (outcome + B) -> trace gwR -> Prop) :
  always m h (fun r t => match r with inl out => Q (inl out) t | inr a => always (f a) t Q end) ->
  always (andThen m f) h Q.
Proof.
  intros H. apply always_bind. eapply always_mono; [exact H|]. by intros [out|a] t.
Qed.

Lemma always_answer m h (Q : outcome -> trace gwR -> Prop) :
  always m h (fun r t => Q (match r with
                            | inl out => out
                            | inr res => Responded (mkResponse 200 [] res)
                            end) t) ->
  always (answer m) h Q.
Proof. intros H. unfold answer. apply always_bind. exact H. Qed.

Section steps.
(** Any postcondition that accepts every early ending. *)
Context {A : Type} (Q : (outcome + A) -> trace gwR -> Prop).
Context (HE : forall out t, early out t -> Q (inl out) t).

Lemma always_http h status msg :
  clean h -> status <> 200%N -> always (httpError status msg) h Q.
Proof. intros Hh Hs. cbn [httpError always]. by apply HE, early_http. Qed.

Lemma always_guard h ok status msg (k : step A) :
  clean h -> status <> 200%N -> (ok = true -> always k h Q) ->
  always (guard ok status msg k) h Q.
Proof. intros Hh Hs Hk. destruct ok; [by apply Hk|by apply always_http]. Qed.

Lemma always_reject h reason status msg :
  clean h -> status <> 200%N -> always (rejectWith reason status msg) h Q.
Proof. intros Hh Hs. cbn [rejectWith always]. intros r. apply always_http; auto with gateway. Qed.
End steps.

Lemma always_unavailable {A} (Q : (outcome + A) -> trace gwR -> Prop) h :
  (forall out t, early out t -> Q (inl out) t) -> clean h -> always unavailable h Q.
Proof. intros HE Hh. by apply always_reject. Qed.

Lemma principalStep_always r h (Q : (outcome + Principal * gostring) -> trace gwR -> Prop) :
  (forall out t, early out t -> Q (inl out) t) -> clean h ->
  (forall p src, ExtractPrincipal parseUnverified r = Some (p, src) -> prin_Sub p <> [] ->
     Q (inr (p, src)) h) ->
  always (principalStep parseUnverified r) h Q.
Proof.
  intros HE Hh HQ. unfold principalStep.
  destruct (ExtractPrincipal parseUnverified r) as [[p src]|] eqn:E; [|by apply always_http].
  apply always_guard; [done..|]. intros Hp. cbn [always]. apply HQ; [done|].
  by rewrite negb_true_iff, bool_decide_eq_false in Hp.
Qed.

Lemma bodyStep_always r h (Q : (outcome + gostring) -> trace gwR -> Prop) :
  (forall out t, early out t -> Q (inl out) t) -> clean h ->
  (forall body, rq_body r = Some body -> (N.of_nat (length body) <= maxCommitBodyBytes)%N ->
     Q (inr body) h) ->
  always (bodyStep r) h Q.
Proof.
  intros HE Hh HQ. unfold bodyStep. destruct (rq_body r) as [body|]; [|by apply always_http].
  apply always_guard; [done..|]. intros Hb%N.leb_le. cbn [always]. by apply HQ.
Qed.

Lemma adapterStep_always prefix h (Q : (outcome + Adapter) -> trace gwR -> Prop) :
  (forall out t, early out t -> Q (inl out) t) -> clean h ->
  (forall adapter t, clean t -> Q (inr adapter) t) ->
  always (adapterStep prefix) h Q.
Proof.
  intros HE Hh HQ. cbn [adapterStep always].
  intros [cred|[]]; [|apply always_http; auto with gateway..].
  cbn [always]. intros [adapter|]; [|apply always_http; auto with gateway].
  cbn [always]. auto with gateway.
Qed.

Lemma loadStep_always nf fl adapter ref h (Q : (outcome + Metadata) -> trace gwR -> Prop) :
  (forall out t, early out t -> Q (inl out) t) -> clean h ->
  (forall m, Q (inr m) (h ++ [ev (R := gwR) (LoadTable adapter ref) (Ok m)])) ->
  always (loadStep nf fl adapter ref) h Q.
Proof.
  intros HE Hh HQ. cbn [loadStep always].
  intros [m|[]]; [|apply always_http; auto with gateway..]. apply HQ.
Qed.

Lemma policiesStep_always ref h (Q : (outcome + list Policy) -> trace gwR -> Prop) :
  (forall out t, early out t -> Q (inl out) t) -> clean h ->
  (forall ps, Q (inr ps) (h ++ [ev (R := gwR) (LoadPolicies ref) (Some ps)])) ->
  always (policiesStep ref) h Q.
Proof.
  intros HE Hh HQ. cbn [policiesStep always].
  intros [ps|]; [apply HQ|]. apply always_unavailable; auto with gateway.
Qed.

(** What the write coordinator established, in [t], before it let a commit of an
    engine go on with [policy]. *)
Definition coordinated (deps : Deps) (userAgent : gostring) (ref : TableRef)
    (current : Metadata) (policy : option gostring) (t : trace gwR) : Prop :=
  if bool_decide (detectEngineKind userAgent = "trino")
     || bool_decide (detectEngineKind userAgent = "dremio")
  then
    (hasPartitionSpecStore deps = true -> exists active,
       ev (R := gwR) (LoadActive ref) (Some active) ∈ t /\
       specMatches (specID current) active = true) /\
    (if hasWriteConflictStore deps
     then exists p, policy = Some p /\ ev (R := gwR) (LoadForTable ref) (Some p) ∈ t
     else policy = None)
  else policy = None.

Lemma coordinated_app deps ua ref current policy t u v :
  coordinated deps ua ref current policy u -> coordinated deps ua ref current policy (t ++ u ++ v).
Proof.
  assert (forall e : event gwR, e ∈ u -> e ∈ t ++ u ++ v) as Hin.
  { intros e He. apply elem_of_app; right. apply elem_of_app; by left. }
  unfold coordinated. destruct (_ || _); [|done]. intros [H1 H2]. split.
  - intros Hs. destruct (H1 Hs) as (active & ? & ?). exists active. auto.
  - destruct (hasWriteConflictStore deps); [|done]. destruct H2 as (p & -> & ?). exists p. auto.
Qed.

Lemma coordinate_always deps ua ref current commit h
    (Q : (outcome + option gostring) -> trace gwR -> Prop) :
  (forall out t, early out t -> Q (inl out) t) -> clean h ->
  (forall policy u, clean u -> coordinated deps ua ref current policy u -> Q (inr policy) (h ++ u)) ->
  always (coordinate specID deps ua ref current commit) h Q.
Proof.
  intros HE Hh HQ.
  assert (forall t, clean t -> always (unavailable : step (option gostring)) (h ++ t) Q) as Hun.
  { intros t Ht. apply always_unavailable; auto with gateway. }
  assert (coordinated deps ua ref current None [] ->
    always (Ret (inr None) : step (option gostring)) h Q) as Hnone.
  { intros Hc. cbn [always]. rewrite <- (app_nil_r h). by apply HQ. }
  unfold coordinate, WriteCoordinatorPreCommit. rewrite !bool_decide_not.
  unfold coordinated in Hnone, HQ.
  destruct (hasPartitionSpecStore deps) eqn:Es, (hasWriteConflictStore deps) eqn:Ec,
    (bool_decide (detectEngineKind ua = "trino") || bool_decide (detectEngineKind ua = "dremio"))
    eqn:Ek; cbn [orb];
    rewrite <- ?negb_orb, ?Ek; cbn [negb bind always]; try (by apply Hnone).
  - intros [active|]; cbn [bind]; [|by apply (Hun [_]), (clean_snoc [])].
    destruct (specMatches (specID current) active) eqn:Em; cbn [bind always];
      [|apply always_reject; auto with gateway].
    intros [p|]; cbn [bind always]; rewrite <- app_assoc.
    + apply HQ; [by apply (clean_snoc [_]); [apply (clean_snoc [])|]|].
      split; [intros _; exists active|exists p; split; [done|by right; left]].
      split; [by left|done].
    + apply (Hun [_; _]). by apply (clean_snoc [_]); [apply (clean_snoc [])|].
  - intros [active|]; cbn [bind]; [|by apply (Hun [_]), (clean_snoc [])].
    destruct (specMatches (specID current) active) eqn:Em; cbn [bind always];
      [|apply always_reject; auto with gateway].
    apply HQ; [by apply (clean_snoc [])|]. split; [|done]. intros _. exists active.
    split; [by left|done].
  - intros [p|]; cbn [bind always]; [|by apply (Hun [_]), (clean_snoc [])].
    apply HQ; [by apply (clean_snoc [])|]. split; [done|]. exists p. split; [done|by left].
Qed.

Lemma clean_allows current commit principal ps :
  clean (map (allows current commit principal) ps).
Proof. induction ps as [|p ps [IH1 IH2]]; done. Qed.

Lemma denied_always cc ref p current commit what h (Q : (outcome + unit) -> trace gwR -> Prop) :
  (forall out t, early out t -> Q (inl out) t) -> commitsOf h = [] ->
  ev (R := gwR) (RunPolicy p current commit (cc_principal cc)) (BoolValue false) ∈ h ->
  always (denied cc ref ("policy " ++ pol_ID p ++ " denied") what) h Q.
Proof.
  intros HE Hc Hin. cbn [denied always]. intros r. apply always_bind, EmitWriteEvent_always.
  intros em t Hem. pose proof (em_calls _ _ _ Hem) as Hcalls.
  pose proof (em_ok _ _ _ Hem) as Hok. rewrite <- app_assoc.
  assert (forall u, commitsOf u = [] -> commitsOf (h ++ [ev (R := gwR)
    (CommitRejected "policy_denied") r] ++ t ++ u) = []) as Hcom.
  { intros u Hu. by rewrite !commitsOf_app, Hc, Hu, (audit_no_commit _ Hcalls). }
  assert (forall u, hasDenial (h ++ u) = true) as Hden.
  { intros u. unfold hasDenial. rewrite existsb_app. apply orb_true_intro. left.
    apply existsb_exists. eexists. split; [by apply list_elem_of_In|done]. }
  assert (forall out u, (match out with
      | Responded resp => code resp = 503%N \/ code resp = 403%N /\ em = EmitOk
      | Panicked => True end) ->
    deniedOutcome out (h ++ [ev (R := gwR) (CommitRejected "policy_denied") r] ++ t ++ u))
    as Hdo.
  { intros out u Hout. exists p, current, commit, (cc_principal cc).
    split; [apply elem_of_app; by left|]. destruct out as [resp|]; [|done].
    destruct Hout as [?|[? He]]; [by left|right]. destruct (Hok He) as [Ha Hb].
    split; [done|]. eexists.
    assert (forall e, e ∈ t -> e ∈ h ++ [ev (R := gwR) (CommitRejected "policy_denied") r] ++ t ++ u)
      as Hin_t.
    { intros e Het. do 2 (apply elem_of_app; right). apply elem_of_app. by left. }
    split_and!; [| | |by apply Hin_t, Ha|by apply Hin_t]; done. }
  destruct em; cbn [httpError rejectWith always].
  - apply HE. rewrite <- (app_nil_r t).
    split; [by apply Hcom|done|intros _; apply Hdo; by right].
  - intros u. rewrite <- !app_assoc. apply HE.
    split; [by apply Hcom|done|intros _; apply Hdo; by left].
  - apply HE. rewrite <- (app_nil_r t). split; [by apply Hcom|apply Hden|intros _; by apply Hdo].
Qed.

Lemma evaluateAll_always cc ref denial current commit ps h
    (Q : (outcome + unit) -> trace gwR -> Prop) :
  (forall out t, early out t -> Q (inl out) t) -> clean h ->
  Q (inr tt) (h ++ map (allows current commit (cc_principal cc)) ps) ->
  always (evaluateAll cc ref denial current commit ps) h Q.
Proof.
  intros HE. revert h; induction ps as [|p ps IH]; intros h Hh HQ.
  - cbn [evaluateAll always]. by rewrite app_nil_r in HQ.
  - cbn [evaluateAll always].
    assert (forall a, a <> BoolValue false ->
      clean (h ++ [ev (R := gwR) (RunPolicy p current commit (cc_principal cc)) a])) as Hcl.
    { intros a Ha. apply clean_app; [done|]. by destruct a as [| | |[]|]. }
    intros [| | |[]|]; cbn [Evaluate dec_Action dec_Reason];
      try (apply always_unavailable; [done|by apply Hcl]).
    + apply IH; [by apply Hcl|]. by rewrite <- app_assoc.
    + apply (denied_always _ _ _ current commit); [done| |set_solver]. rewrite commitsOf_app. by rewrite (proj1 Hh).
Qed.

(** ** After a commit *)

Lemma recordCommit_always cc ref logs res h (Q : (outcome + unit) -> trace gwR -> Prop) :
  (forall u, clean u -> Q (inl Panicked) (h ++ u)) ->
  (forall u, clean u -> Q (inr tt) (h ++ u)) ->
  always (recordCommit cc ref logs res) h Q.
Proof.
  intros HP HQ. unfold recordCommit. apply always_bind, EmitWriteEvent_always.
  intros em t [Hcalls%clean_audit _].
  assert (always (match res, cc_tenant cc with
    | Some r, Some tid =>
        if bool_decide (cr_NewMetadataLocation r = []) then Ret (inr tt)
        else Do (R := gwR) (MergeSnapshot tid (cr_NewSnapshotID r) (cr_NewMetadataLocation r))
               (fun _ : bool => Ret (inr tt))
    | _, _ => Ret (inr tt)
    end) (h ++ t) Q) as Hingest.
  { destruct res as [r|], (cc_tenant cc) as [tid|]; [|by apply HQ..].
    case_bool_decide; [by apply HQ|]. cbn [always]. intros b. rewrite <- app_assoc.
    by apply HQ, clean_snoc. }
  destruct em; [done| |by apply HP].
  destruct (logs && bool_decide (res = None)); [by apply HP|done].
Qed.

(** ** The single-table handler *)

(** The guards of the handler. *)
Record admitted (r : request) (principal : Principal) (commit : CommitRequest) : Prop := {
  adm_method : rq_method r = "POST";
  adm_tenant : is_Some (rq_tenant r);
  adm_path : identifierRegex (rq_prefix r) = true /\ identifierRegex (rq_namespace r) = true /\
             identifierRegex (rq_table r) = true;
  adm_principal : (exists src, ExtractPrincipal parseUnverified r = Some (principal, src)) /\
                  prin_Sub principal <> [];
  adm_body : exists body, rq_body r = Some body /\
    (N.of_nat (length body) <= maxCommitBodyBytes)%N /\ unmarshalCommit body = Some commit
}.

(** Every policy loaded for the table allowed this commit by this principal. *)
Record cleared (adapter : Adapter) (ref : TableRef) (principal : Principal)
    (commit : CommitRequest) (t : trace gwR) : Prop := {
  cl_policies : exists current policies,
    ev (R := gwR) (LoadTable adapter ref) (Ok current) ∈ t /\
    ev (R := gwR) (LoadPolicies ref) (Some policies) ∈ t /\
    forall p, p ∈ policies -> allows current commit principal p ∈ t
}.

(** How the handler answers a commit of the catalog. *)
Definition answered (ans : result commit_err (option CommitResult)) (out : outcome) : Prop :=
  match ans, out with
  | Ok res, Responded resp => code resp = 200%N /\ results resp = [res]
  | Ok _, Panicked => True
  | Err ErrCommitConflict, Responded resp => code resp = 409%N /\ results resp = []
  | Err CommitOther, Responded resp => code resp = 502%N /\ results resp = []
  | Err _, Panicked => False
  end.

(** One commit, after the gate, and its aftermath. *)
Record forwarded (deps : Deps) (r : request) (out : outcome) (t : trace gwR) : Prop := {
  fw_commit : exists principal commit adapter policy ans t1 t2,
    admitted r principal commit /\
    t = t1 ++ ev (R := gwR) (CommitTable adapter (pathRef r) commit policy) ans :: t2 /\
    commitsOf t1 = [] /\ commitsOf t2 = [] /\ hasDenial t = false /\
    cleared adapter (pathRef r) principal commit t1 /\ answered ans out /\
    exists current, ev (R := gwR) (LoadTable adapter (pathRef r)) (Ok current) ∈ t1 /\
      coordinated deps (rq_userAgent r) (pathRef r) current policy t1
}.

Definition ending (deps : Deps) (r : request) (out : outcome) (t : trace gwR) : Prop :=
  early out t \/ forwarded deps r out t.

Lemma CommitHandler_ending deps r :
  always (CommitHandler deps r) [] (ending deps r).
Proof.
  apply always_answer.
  set (Q := fun (x : outcome + list (option CommitResult)) (t : trace gwR) =>
    ending deps r (match x with
              | inl out => out
              | inr res => Responded (mkResponse 200 [] res)
              end) t).
  assert (forall out t, early out t -> Q (inl out) t) as HE by (intros out t ?; by left).
  apply (always_guard Q); [done|done|done|]. intros Hm%bool_decide_eq_true.
  apply (always_guard Q); [done|done|done|]. intros Ht%bool_decide_eq_true.
  apply (always_guard Q); [done|done|done|]. rewrite !andb_true_iff. intros [[Hp Hn] Htb].
  apply always_andThen, principalStep_always; [done|done|]. intros principal src Hx Hsub.
  apply always_andThen, bodyStep_always; [done|done|]. intros body Hb Hl.
  destruct (unmarshalCommit body) as [commit|] eqn:Eu; [|by apply always_http].
  assert (admitted r principal commit) as Hadm.
  { split; [done|done|done|split; [by exists src|done]|by exists body]. }
  apply always_andThen, adapterStep_always; [done|done|]. intros adapter h Hh.
  apply always_andThen, loadStep_always; [done|done|]. intros current.
  apply always_andThen, coordinate_always; [done|by apply clean_snoc|]. intros policy u Hu Hco.
  apply always_andThen, policiesStep_always; [done|by apply clean_app; [apply clean_snoc|]|].
  intros policies. apply always_andThen, evaluateAll_always; [done| |].
  { apply clean_snoc; [|done]. apply clean_app; [by apply clean_snoc|done]. }
  set (cc := mkContext (rq_tenant r) principal src (sha256 body)).
  match goal with |- always _ ?t1 _ => set (h1 := t1) end.
  assert (clean h1) as Hcl.
  { apply clean_app; [|apply clean_allows]. apply clean_snoc; [|done].
    apply clean_app; [by apply clean_snoc|done]. }
  assert (cleared adapter (pathRef r) principal commit h1) as Hcleared.
  { split. exists current, policies. subst h1. split_and!; [set_solver|set_solver|].
    intros p Hpin. apply elem_of_app. right. by apply list_elem_of_fmap_2. }
  assert (exists current, ev (R := gwR) (LoadTable adapter (pathRef r)) (Ok current) ∈ h1 /\
    coordinated deps (rq_userAgent r) (pathRef r) current policy h1) as Hcoord.
  { exists current. subst h1. rewrite <- !app_assoc. split.
    - apply elem_of_app; right. apply elem_of_app; left. by left.
    - rewrite app_assoc. by apply coordinated_app. }
  clearbody h1. apply always_andThen. cbn [commitStep always]. intros ans.
  assert (forall out v, clean v -> answered ans out ->
    ending deps r out ((h1 ++ [ev (R := gwR) (CommitTable adapter (pathRef r) commit policy) ans]) ++ v))
    as Hfw.
  { intros out v [Hu1 Hu2] Ha. right. split.
    exists principal, commit, adapter, policy, ans, h1, v. rewrite <- app_assoc.
    split_and!; [done|done|apply Hcl|done| |done|done|exact Hcoord].
    pose proof (proj2 Hcl) as Hd. unfold hasDenial in *. rewrite existsb_app, Hd. exact Hu2. }
  assert (clean []) as Hnil by done.
  destruct ans as [res|[]]; cbn [httpError always].
  - apply always_andThen, recordCommit_always; intros v Hua; cbn [always]; by apply Hfw.
  - rewrite <- app_nil_r. by apply (Hfw _ []).
  - rewrite <- app_nil_r. by apply (Hfw _ []).
Qed.

(** ** The multi-table handler *)

Lemma cleared_app adapter ref principal commit t u v :
  cleared adapter ref principal commit u -> cleared adapter ref principal commit (t ++ u ++ v).
Proof.
  intros [(current & ps & H1 & H2 & H3)]. split. exists current, ps.
  assert (forall e : event gwR, e ∈ u -> e ∈ t ++ u ++ v) as Hin.
  { intros e He. apply elem_of_app; right. apply elem_of_app; by left. }
  split_and!; auto.
Qed.

(** One table of the transaction passed the gate. *)
Definition passed (adapter : Adapter) (principal : Principal) (t : trace gwR)
    (tc : tableChange) : Prop :=
  identifierRegex (ref_Name (tc_Ref tc)) = true /\
  forallb identifierRegex (ref_Namespace (tc_Ref tc)) = true /\
  cleared adapter (tc_Ref tc) principal (tc_Commit tc) t.

Lemma gateOne_always cc adapter tc h (Q : (outcome + unit) -> trace gwR -> Prop) :
  (forall out t, early out t -> Q (inl out) t) -> clean h ->
  (forall u, clean u -> passed adapter (cc_principal cc) u tc -> Q (inr tt) (h ++ u)) ->
  always (gateOne cc adapter tc) h Q.
Proof.
  intros HE Hh HQ.
  apply (always_guard Q); [done|done|done|]. intros Hn.
  apply (always_guard Q); [done|done|done|]. intros Hns.
  apply always_andThen, loadStep_always; [done|done|]. intros current.
  apply always_andThen, policiesStep_always; [done|by apply clean_snoc|]. intros ps.
  apply evaluateAll_always; [done|by repeat apply clean_snoc|].
  rewrite <- !app_assoc. apply HQ.
  - apply clean_app; [done|]. apply clean_app; [done|]. apply clean_allows.
  - split_and!; [done|done|]. split. exists current, ps. split_and!.
    + apply elem_of_app; left. by left.
    + apply elem_of_app; right. apply elem_of_app; left. by left.
    + intros p Hp. do 2 (apply elem_of_app; right). by apply list_elem_of_fmap_2.
Qed.

Lemma gateAll_always cc adapter changes h (Q : (outcome + unit) -> trace gwR -> Prop) :
  (forall out t, early out t -> Q (inl out) t) -> clean h ->
  (forall u, clean u -> Forall (passed adapter (cc_principal cc) u) changes ->
     Q (inr tt) (h ++ u)) ->
  always (gateAll cc adapter changes) h Q.
Proof.
  intros HE. revert h Q HE; induction changes as [|tc changes IH]; intros h Q HE Hh HQ.
  - cbn [gateAll always]. rewrite <- (app_nil_r h). by apply HQ.
  - cbn [gateAll]. apply always_andThen, gateOne_always; [done|done|]. intros u Hu Hp.
    apply IH; [done|by apply clean_app|]. intros v Hv Hps. rewrite <- app_assoc.
    apply HQ; [by apply clean_app|]. constructor.
    + destruct Hp as (? & ? & Hp). split_and!; [done|done|]. by apply (cleared_app _ _ _ _ []).
    + eapply Forall_impl; [exact Hps|]. intros tc' (? & ? & Hp'). split_and!; [done|done|].
      rewrite <- (app_nil_r v). by apply cleared_app.
Qed.

Definition asked (tc : tableChange) : TableRef * CommitRequest := (tc_Ref tc, tc_Commit tc).

(** How the forwarding of the changes ended, after the first [n] were asked. *)
Definition forwardedOutcome (changes : list tableChange) (n : nat)
    (r : outcome + list (option CommitResult)) : Prop :=
  match r with
  | inr res => n = length changes /\ length res = n
  | inl (Responded resp) =>
      1 <= n <= length changes /\ (code resp = 409%N \/ code resp = 502%N) /\ results resp = []
  | inl Panicked => 1 <= n <= length changes
  end.

Lemma forwardAll_always cc adapter changes h
    (Q : (outcome + list (option CommitResult)) -> trace gwR -> Prop) :
  (forall r n u, hasDenial u = false -> commitsOf u = map asked (take n changes) ->
     forwardedOutcome changes n r -> Q r (h ++ u)) ->
  always (forwardAll cc adapter changes) h Q.
Proof.
  revert h Q; induction changes as [|tc changes IH]; intros h Q HQ; cbn [forwardAll].
  - cbn [always]. rewrite <- (app_nil_r h). by apply (HQ (inr []) 0).
  - apply always_andThen. cbn [commitStep always].
    intros [res|[]]; cbn [httpError always].
    2,3: apply (HQ _ 1); [done|done|]; cbn; split_and!; [lia|lia|tauto|done].
    apply always_andThen, recordCommit_always; intros u [Hu1 Hu2]; cbn [always];
      rewrite <- app_assoc.
    + apply (HQ _ 1); [exact Hu2| |cbn; lia].
      cbn [app]. change (?a :: u) with ([a] ++ u). rewrite commitsOf_app, Hu1. done.
    + apply always_andThen, IH. intros r n v Hv1 Hv2 Hr. rewrite <- app_assoc.
      destruct r as [out|rest]; cbn [always]; apply (HQ _ (S n)).
      1,4: cbn; unfold hasDenial in *; by rewrite existsb_app, Hu2.
      1,3: rewrite <- app_assoc, !commitsOf_app, Hu1, Hv2; done.
      * destruct out as [resp|]; cbn in Hr |- *; destruct Hr; [|lia].
        split; [lia|done].
      * cbn in Hr |- *. lia.
Qed.

(** The guards of the multi-table handler. *)
Record admittedMulti (r : request) (principal : Principal) (changes : list tableChange) : Prop := {
  admm_method : rq_method r = "POST";
  admm_tenant : is_Some (rq_tenant r);
  admm_path : identifierRegex (rq_prefix r) = true;
  admm_principal : (exists src, ExtractPrincipal parseUnverified r = Some (principal, src)) /\
                   prin_Sub principal <> [];
  admm_body : exists body, rq_body r = Some body /\
    (N.of_nat (length body) <= maxCommitBodyBytes)%N /\ unmarshalMulti body = Some changes;
  admm_changes : changes <> []
}.

(** The whole transaction passed the gate in [t1], before the first commit. *)
Record forwardedMulti (r : request) (out : outcome) (t : trace gwR) : Prop := {
  fwm_commit : exists principal changes adapter t1 t2 n res,
    admittedMulti r principal changes /\ t = t1 ++ t2 /\ clean t1 /\ hasDenial t2 = false /\
    Forall (passed adapter principal t1) changes /\
    commitsOf t2 = map asked (take n changes) /\ forwardedOutcome changes n res /\
    out = match res with inl out => out | inr res => Responded (mkResponse 200 [] res) end
}.

Lemma MultiTableCommitHandler_ending r :
  always (MultiTableCommitHandler r) [] (fun out t => early out t \/ forwardedMulti r out t).
Proof.
  apply always_answer.
  set (Q := fun (x : outcome + list (option CommitResult)) (t : trace gwR) =>
    let out := match x with
               | inl out => out
               | inr res => Responded (mkResponse 200 [] res)
               end in early out t \/ forwardedMulti r out t).
  assert (forall out t, early out t -> Q (inl out) t) as HE by (intros out t ?; by left).
  apply (always_guard Q); [done|done|done|]. intros Hm%bool_decide_eq_true.
  apply (always_guard Q); [done|done|done|]. intros Ht%bool_decide_eq_true.
  apply (always_guard Q); [done|done|done|]. intros Hp.
  apply always_andThen, principalStep_always; [done|done|]. intros principal src Hx Hsub.
  apply always_andThen, bodyStep_always; [done|done|]. intros body Hb Hl.
  destruct (unmarshalMulti body) as [changes|] eqn:Eu; [|by apply always_http].
  apply (always_guard Q); [done|done|done|]. intros Hlen.
  assert (admittedMulti r principal changes) as Hadm.
  { split; [done|done|done|split; [by exists src|done]|by exists body|]. by intros ->. }
  apply always_andThen, adapterStep_always; [done|done|]. intros adapter h Hh.
  apply always_andThen, gateAll_always; [done|done|]. cbn [cc_principal]. intros u Hu Hpassed.
  apply forwardAll_always. intros res n v Hv1 Hv2 Hr. right. split.
  exists principal, changes, adapter, (h ++ u), v, n, res.
  split_and!; [done|done|by apply clean_app|done| |done|done|done].
  eapply Forall_impl; [exact Hpassed|]. intros tc (? & ? & Hc). split_and!; [done|done|].
  rewrite <- (app_nil_r u). by apply cleared_app.
Qed.
(** ** Which calls a handler makes at all *)

Lemma only_andThen {A B} P (m : step A) (f : A -> step B) :
  only P m -> (forall a, only P (f a)) -> only P (andThen m f).
Proof. intros Hm Hf. apply only_bind; [done|]. by intros [out|a]. Qed.

Lemma only_answer P (m : step (list (option CommitResult))) : only P m -> only P (answer m).
Proof. intros Hm. by apply only_bind. Qed.

Lemma only_guard {A} P ok status msg (k : step A) : only P k -> only P (guard ok status msg k).
Proof. by destruct ok. Qed.

Section only_calls.
Context (P : gwCall -> bool).
Context (HP : forall c, auditCall c = false -> coordinatorCall c = false -> P c = true).

Lemma only_reject {A} reason status msg : only P (rejectWith reason status msg : step A).
Proof. split; [by apply HP|done]. Qed.

Lemma adapterStep_only prefix : only P (adapterStep prefix).
Proof.
  split; [by apply HP|]. intros [cred|[]]; [|done..]. split; [by apply HP|]. by intros [].
Qed.

Lemma loadStep_only nf fl adapter ref : only P (loadStep nf fl adapter ref).
Proof. split; [by apply HP|]. by intros [m|[]]. Qed.

Lemma policiesStep_only ref : only P (policiesStep ref).
Proof. split; [by apply HP|]. intros [ps|]; [done|]. by apply only_reject. Qed.

Lemma commitStep_only adapter ref commit policy cf fl :
  only P (commitStep adapter ref commit policy cf fl).
Proof. split; [by apply HP|]. by intros [res|[]]. Qed.

Section principal.
Context (cc : commitContext).
Context (HE : forall tenant ref decision source hash res reason,
  only P (EmitWriteEvent tenant ref decision (cc_principal cc) source hash res reason)).

Lemma evaluateAll_only ref denial current commit ps :
  only P (evaluateAll cc ref denial current commit ps).
Proof.
  induction ps as [|p ps IH]; [done|]. split; [by apply HP|].
  intros [| | |[]|]; cbn [Evaluate dec_Action]; try (by apply only_reject); [done|].
  split; [by apply HP|]. intros r. apply only_bind; [apply HE|].
  intros []; [done| |done]. by apply only_reject.
Qed.

Lemma recordCommit_only ref logs res : only P (recordCommit cc ref logs res).
Proof.
  apply only_bind; [apply HE|].
  assert (only P (match res, cc_tenant cc with
    | Some r, Some tid =>
        if bool_decide (cr_NewMetadataLocation r = []) then Ret (inr tt)
        else Do (R := gwR) (MergeSnapshot tid (cr_NewSnapshotID r) (cr_NewMetadataLocation r))
               (fun _ : bool => Ret (inr tt))
    | _, _ => Ret (inr tt)
    end : step unit)) as Hingest.
  { destruct res as [r|], (cc_tenant cc) as [tid|]; [|done..].
    case_bool_decide; [done|]. by split; [apply HP|]. }
  intros []; [done| |done]. by destruct (logs && bool_decide (res = None)).
Qed.

Lemma gateAll_only adapter changes : only P (gateAll cc adapter changes).
Proof.
  induction changes as [|tc changes IH]; [done|]. apply only_andThen; [|done].
  apply only_guard, only_guard, only_andThen; [apply loadStep_only|]. intros current.
  apply only_andThen; [apply policiesStep_only|]. intros ps. apply evaluateAll_only.
Qed.

Lemma forwardAll_only adapter changes : only P (forwardAll cc adapter changes).
Proof.
  induction changes as [|tc changes IH]; [done|].
  apply only_andThen; [apply commitStep_only|]. intros res.
  apply only_andThen; [apply recordCommit_only|]. intros _.
  by apply only_andThen.
Qed.
End principal.

(** Both handlers, when the emissions for the principal of the request make only
    calls in [P]; the single-table one also asks the write coordinator. *)
Context (r : request).
Context (HE : forall principal src, ExtractPrincipal parseUnverified r = Some (principal, src) ->
  forall tenant ref decision source hash res reason,
  only P (EmitWriteEvent tenant ref decision principal source hash res reason)).

Lemma with_principal_only {A} (k : Principal * gostring -> step A) :
  (forall p src, ExtractPrincipal parseUnverified r = Some (p, src) -> only P (k (p, src))) ->
  only P (andThen (principalStep parseUnverified r) k).
Proof.
  unfold principalStep. intros Hk.
  destruct (ExtractPrincipal parseUnverified r) as [[p src]|] eqn:Ep; [|done].
  unfold guard. destruct (negb _); [|done]. by apply Hk.
Qed.

Lemma bodyStep_only : only P (bodyStep r).
Proof. unfold bodyStep. destruct (rq_body r); [|done]. by apply only_guard. Qed.

Lemma MultiTableCommitHandler_only : only P (MultiTableCommitHandler r).
Proof.
  apply only_answer, only_guard, only_guard, only_guard, with_principal_only.
  intros principal src Hp. apply only_andThen; [apply bodyStep_only|]. intros body.
  destruct (unmarshalMulti body) as [changes|]; [|done]. apply only_guard.
  apply only_andThen; [apply adapterStep_only|]. intros adapter.
  apply only_andThen; [by apply gateAll_only, (HE _ src)|]. intros _.
  by apply forwardAll_only, (HE _ src).
Qed.

Lemma CommitHandler_only deps :
  (forall c, coordinatorCall c = true -> P c = true) -> only P (CommitHandler deps r).
Proof.
  intros HC. apply only_answer, only_guard, only_guard, only_guard, with_principal_only.
  intros principal src Hp. apply only_andThen; [apply bodyStep_only|]. intros body.
  destruct (unmarshalCommit body) as [commit|]; [|done].
  apply only_andThen; [apply adapterStep_only|]. intros adapter.
  apply only_andThen; [apply loadStep_only|]. intros current.
  apply only_andThen.
  { unfold coordinate, WriteCoordinatorPreCommit.
    destruct (hasPartitionSpecStore deps), (hasWriteConflictStore deps), (bool_decide _ && bool_decide _);
      cbn [orb bind only]; try done; (split; [by apply HC|]); intros [a|]; cbn [bind];
      try (by apply only_reject); try destruct (specMatches _ _); cbn [bind only]; try done;
      try (by apply only_reject); (split; [by apply HC|]); intros []; cbn [bind];
      [done|by apply only_reject]. }
  intros policy. apply only_andThen; [apply policiesStep_only|]. intros ps.
  apply only_andThen; [by apply evaluateAll_only, (HE _ src)|]. intros _.
  apply only_andThen; [apply commitStep_only|]. intros res.
  apply only_andThen; [by apply recordCommit_only, (HE _ src)|]. done.
Qed.
End only_calls.

(** ** The properties *)

(** (C3) The gate of the single-table handler: on every run, either no commit is
    sent to the catalog and the answer is not a success, or exactly one commit is
    sent, of the table of the path, by a request that passed every check, after
    the policies of the table were loaded and each of them allowed this very
    commit by this very principal; the answer is then the catalog's (200, 409 or
    502), unless the handler panics after an accepted commit. *)
Theorem commit_only_if_allowed deps r o :
  let '(out, t) := run o [] (CommitHandler deps r) in
  commitsOf t = [] /\
    match out with Responded resp => code resp <> 200%N | Panicked => hasDenial t = true end \/
  exists principal commit adapter policy ans t1 t2,
    admitted r principal commit /\
    t = t1 ++ ev (R := gwR) (CommitTable adapter (pathRef r) commit policy) ans :: t2 /\
    commitsOf t1 = [] /\ commitsOf t2 = [] /\ hasDenial t = false /\
    cleared adapter (pathRef r) principal commit t1 /\ answered ans out.
Proof.
  pose proof (always_run _ (ending deps r) [] o (CommitHandler_ending deps r)) as H.
  destruct (run o [] (CommitHandler deps r)) as [out t]. destruct H as [[Hc He _]|[Hf]].
  - left. split; [exact Hc|]. destruct out as [resp|]; [apply He|exact He].
  - right. destruct Hf as (principal & commit & adapter & policy & ans & t1 & t2 & H1 & H2 & H3 &
      H4 & H5 & H6 & H7 & _).
    exists principal, commit, adapter, policy, ans, t1, t2. split_and!; done.
Qed.

(** (C32) A denial stops the transaction and is on record: in both handlers, once a
    policy denies, no commit of any table reaches the catalog, and the answer is
    a 403 only when the REJECTED row of the principal, with the reason of a
    policy that denied, was inserted in an audit transaction that committed;
    otherwise it is a 503, or the audit panicked. *)
Theorem denial_audited deps r o :
  (let '(out, t) := run o [] (CommitHandler deps r) in
   hasDenial t = true -> commitsOf t = [] /\ deniedOutcome out t) /\
  (let '(out, t) := run o [] (MultiTableCommitHandler r) in
   hasDenial t = true -> commitsOf t = [] /\ deniedOutcome out t).
Proof.
  pose proof (always_run _ (ending deps r) [] o (CommitHandler_ending deps r)) as H1.
  pose proof (always_run _ (fun out t => early out t \/ forwardedMulti r out t) [] o
    (MultiTableCommitHandler_ending r)) as H2.
  split.
  - destruct (run o [] (CommitHandler deps r)) as [out t]. intros Hd.
    destruct H1 as [[Hc _ Hdo]|[Hf]]; [by auto|].
    destruct Hf as (? & ? & ? & ? & ? & ? & ? & _ & _ & _ & _ & Hf & _).
    discriminate (eq_trans (eq_sym Hd) Hf).
  - destruct (run o [] (MultiTableCommitHandler r)) as [out t]. intros Hd.
    destruct H2 as [[Hc _ Hdo]|[Hf]]; [by auto|].
    destruct Hf as (? & ? & ? & t1 & t2 & ? & ? & _ & Ht & [_ Hf1] & Hf2 & _).
    cbn in Ht. subst t. unfold hasDenial in *. rewrite existsb_app, Hf1 in Hd.
    discriminate (eq_trans (eq_sym Hd) Hf2).
Qed.

(** Reject-all: the multi-table handler sends no commit at all before every
    table of the transaction passed its checks and every policy of every table
    allowed its change; the commits it then sends are the changes in their order,
    up to the first the catalog refuses (answered 409 or 502, the earlier ones
    staying committed) or after which it panics; a 200 means all were committed,
    with one result each. *)
Theorem multi_reject_all r o :
  let '(out, t) := run o [] (MultiTableCommitHandler r) in
  commitsOf t = [] /\
    match out with Responded resp => code resp <> 200%N | Panicked => hasDenial t = true end \/
  exists principal changes adapter t1 t2 n,
    admittedMulti r principal changes /\ t = t1 ++ t2 /\ commitsOf t1 = [] /\
    Forall (passed adapter principal t1) changes /\
    commitsOf t = map asked (take n changes) /\
    match out with
    | Responded resp =>
        if bool_decide (code resp = 200%N)
        then n = length changes /\ length (results resp) = length changes
        else 1 <= n <= length changes /\ (code resp = 409%N \/ code resp = 502%N)
    | Panicked => 1 <= n <= length changes
    end.
Proof.
  pose proof (always_run _ (fun out t => early out t \/ forwardedMulti r out t) [] o
    (MultiTableCommitHandler_ending r)) as H.
  destruct (run o [] (MultiTableCommitHandler r)) as [out t]. destruct H as [[Hc He _]|[Hf]].
  - left. split; [exact Hc|]. destruct out as [resp|]; [apply He|exact He].
  - right. destruct Hf as (principal & changes & adapter & t1 & t2 & n & res & H1 & H2 & [H3 _] &
      _ & H5 & H6 & H7 & ->).
    cbn in H2. subst t. exists principal, changes, adapter, t1, t2, n.
    split_and!; [done|done|done|done|by rewrite commitsOf_app, H3, H6|].
    destruct res as [[resp|]|rs]; cbn in H7 |- *; [|done|].
    + destruct H7 as (Hn & Hcode & _). rewrite bool_decide_eq_false_2; [done|lia].
    + destruct H7 as [-> ->]. done.
Qed.

(** The write coordinator: with a partition-spec store, a commit sent for a
    Trino or Dremio client was preceded by a check of the spec of the table's
    metadata against the active one, and with a conflict store it carries the
    policy loaded for the table; a commit for any other client carries none.  The
    multi-table handler consults neither store, whatever the client. *)
Theorem coordinator_enforced deps r o :
  (let '(_, t) := run o [] (CommitHandler deps r) in
   commitsOf t = [] \/
   exists adapter commit policy ans t1 t2 current,
     t = t1 ++ ev (R := gwR) (CommitTable adapter (pathRef r) commit policy) ans :: t2 /\
     ev (R := gwR) (LoadTable adapter (pathRef r)) (Ok current) ∈ t1 /\
     coordinated deps (rq_userAgent r) (pathRef r) current policy t1) /\
  forallb (fun c => negb (coordinatorCall c)) (calls (run o [] (MultiTableCommitHandler r)).2) = true.
Proof.
  split.
  - pose proof (always_run _ (ending deps r) [] o (CommitHandler_ending deps r)) as H.
    destruct (run o [] (CommitHandler deps r)) as [out t]. destruct H as [[Hc _ _]|[Hf]].
    + left. exact Hc.
    + right. destruct Hf as (principal & commit & adapter & policy & ans & t1 & t2 & _ & H2 & _ & _ &
        _ & _ & _ & current & H8 & H9).
      exists adapter, commit, policy, ans, t1, t2, current. split_and!; done.
  - apply only_run, MultiTableCommitHandler_only.
    + intros c _ H. by rewrite H.
    + intros principal src _ tenant ref decision source hash res reason.
      eapply only_weaken; [|apply EmitWriteEvent_only]. by intros [].
Qed.

(** No audit row is ever inserted, in either handler and whatever the
    environment answers, for a principal whose subject holds a character outside
    the Cypher literal allowlist, such as the [|] of [auth0|42]: the emission
    panics first.  The commits of such a principal are not refused (see the
    witness: the catalog accepts, the handler panics). *)
Theorem unsafe_principal_unaudited deps r o principal src :
  ExtractPrincipal parseUnverified r = Some (principal, src) ->
  forallb cypherLiteralAllow (prin_Sub principal) = false ->
  forallb (fun c => negb (isInsert c)) (calls (run o [] (CommitHandler deps r)).2) = true /\
  forallb (fun c => negb (isInsert c)) (calls (run o [] (MultiTableCommitHandler r)).2) = true.
Proof.
  intros Hx Hs.
  assert (forall c : gwCall, auditCall c = false -> coordinatorCall c = false ->
    negb (isInsert c) = true) as HP by (by intros []).
  assert (forall p s, ExtractPrincipal parseUnverified r = Some (p, s) ->
    forall tenant ref decision source hash res reason,
    only (fun c => negb (isInsert c))
      (EmitWriteEvent tenant ref decision p source hash res reason)) as HE.
  { intros p s Hp. rewrite Hx in Hp. injection Hp as <- <-. intros. by apply EmitWriteEvent_unsafe. }
  split; apply only_run.
  - apply CommitHandler_only; [done|done|]. by intros [].
  - by apply MultiTableCommitHandler_only.
Qed.
End spec.

(** ** Concrete runs *)

Module Sample.
(** Metadata is its spec id, a commit is its body, a token is its subject, and
    the body of a transaction is split at its semicolons. *)
Definition parseUnverified (token : gostring) : option claims :=
  Some {["sub" : gostring := CString token]}.

Definition unmarshalMulti (body : gostring) : option (list (tableChange (CommitRequest := gostring))) :=
  Some (map (fun t => mkChange (mkTableRef ["db"] t) body) (Fields body)).

Definition request (token body : gostring) : request :=
  mkRequest "POST" (Some "t1") "prod" "db" "orders" None ("Bearer " ++ token) "Trino" (Some body).

(** Everything succeeds; the policy [deny] denies, and [active] is the active spec. *)
Definition env (policies : list Policy) (denies : gostring) (active : Z)
  : env (gwR (Creds := unit) (Adapter := unit) (Metadata := Z) (CommitRequest := gostring)) :=
  fun _ c =>
    match c return gwR c with
    | GetCatalogCredentials _ => Ok tt
    | BuildAdapter _ => Some tt
    | LoadTable _ _ => Ok 3%Z
    | LoadActive _ => Some (Some active)
    | LoadForTable _ => Some "retry"
    | LoadPolicies _ => Some policies
    | RunPolicy p _ _ _ => BoolValue (negb (bool_decide (pol_ID p = denies)))
    | CommitTable _ _ _ _ => Ok (Some (mkCommitResult "s3://m/2.json" 7))
    | CommitRejected _ => tt
    | FreshIDs => ("c1" : gostring, "now" : gostring)
    | OpenAuditTx _ => true
    | AuditExec _ => true
    | AuditInsert _ => true
    | CloseAuditTx _ => true
    | MergeSnapshot _ _ _ => true
    end.

Definition policies : list Policy := [mkPolicy "p1" "P2" "true"; mkPolicy "p2" "P2" "true"].

Definition single (token : gostring) (denies : gostring) (active : Z) :=
  run (env policies denies active) []
    (CommitHandler (fun z : Z => z) Some parseUnverified (fun b => b) (mkDeps true true)
       (request token "commit")).

Definition multi (tables denies : gostring) :=
  run (env policies denies 3) []
    (MultiTableCommitHandler parseUnverified (fun b => b) unmarshalMulti (request "alice" tables)).
End Sample.

Example commit_accepted :
  (Sample.single "alice" "" 3).1 =
    Responded (mkResponse 200 [] [Some (mkCommitResult "s3://m/2.json" 7)]) /\
  commitsOf (Sample.single "alice" "" 3).2 = [(mkTableRef ["db"] "orders", "commit" : gostring)].
Proof. by vm_compute. Qed.

Example commit_denied :
  (Sample.single "alice" "p2" 3).1 =
    Responded (mkResponse 403 "policy denied: policy p2 denied" []) /\
  commitsOf (Sample.single "alice" "p2" 3).2 = [].
Proof. by vm_compute. Qed.

Example commit_stale_spec :
  (Sample.single "alice" "" 4).1 =
    Responded (mkResponse 403 "commit rejected: partition spec mismatch" []).
Proof. by vm_compute. Qed.

Example transaction_accepted :
  code <$> (match (Sample.multi "a b" "").1 with Responded r => Some r | Panicked => None end)
    = Some 200%N /\
  map (fun c => ref_Name c.1) (commitsOf (Sample.multi "a b" "").2) = ["a"; "b"].
Proof. by vm_compute. Qed.

(** The catalog accepts the commit of [auth0|42], and the handler panics. *)
Lemma unsafe_principal_unaudited_witness :
  let '(out, t) := Sample.single "auth0|42" "" 3 in
  out = Panicked /\ length (commitsOf t) = 1 /\
  forallb (fun c => negb (isInsert c)) (calls t) = true.
Proof.
  destruct (unsafe_principal_unaudited (fun z : Z => z) Some Sample.parseUnverified (fun b => b)
    Sample.unmarshalMulti (mkDeps true true) (Sample.request "auth0|42" "commit")
    (Sample.env Sample.policies "" 3) (mkPrincipal "auth0|42" [] []) SourceAuthHeader
    ltac:(by vm_compute) ltac:(by vm_compute)) as [H _].
  fold (Sample.single "auth0|42" "" 3) in H.
  assert ((Sample.single "auth0|42" "" 3).1 = Panicked) as H1 by (by vm_compute).
  assert (length (commitsOf (Sample.single "auth0|42" "" 3).2) = 1) as H2 by (by vm_compute).
  destruct (Sample.single "auth0|42" "" 3) as [out t]. split_and!; [exact H1|exact H2|exact H].
Defined.
