(* ===== verification/Cel.v ===== *)
(** * The CEL engine: projections, bindings, attributes, compile cache

    [internal/policy/cel] and [internal/policy/store/attribute.go], with the
    projections of [internal/gateway/iceberg/handler.go]: what a policy sees of a
    commit, the functions it can call, where the attributes of a principal come
    from, and the evaluation with its cache.  Compiling and running an expression
    is cel-go's part and a parameter, as are the digest, the regular expressions
    and the reader of JSON. *)

From stdpp Require Import sorting.
From S2P Require Import Prelude Effects Lru Order Dynamic JsonText IngestMeta Cypher PolicyStore Gateway.
From Stdlib Require Import Lia.
#[local] Open Scope go_scope.

(** ** Dynamic values *)

(** A CEL value: a Go value behind its adapter, or a map or list that the
    expression itself wrote. *)
#[warnings="-register-all"]
Inductive refVal :=
  | Native (v : goval)
  | Literal (entries : list (gostring * refVal))
  | LiteralList (items : list refVal).

(** [traits.Mapper] with its [Find], and [traits.Lister]. *)
Definition asMapper (r : refVal) : option (gostring -> option refVal) :=
  match r with
  | Native (VMap m) => Some (fun k => Native <$> keyed k m)
  | Literal m => Some (fun k => keyed k m)
  | _ => None
  end.

Definition asLister (r : refVal) : option (list refVal) :=
  match r with
  | Native (VList l) => Some (map Native l)
  | LiteralList l => Some l
  | _ => None
  end.

(** [Value()], and the assertions of its type; the map of an expression has
    another Go type. *)
Definition goValue (r : refVal) : option goval :=
  match r with Native v => Some v | _ => None end.
Definition goString (r : refVal) : option gostring := goValue r ≫= stringOf.
Definition goMap (r : refVal) : option (list (gostring * goval)) := goValue r ≫= mapOf.

(** ** The bindings ([functions.go]) *)

Definition locationRegionImpl (commitVal : refVal) : gostring :=
  default [] (find ← asMapper commitVal; find "location_region" ≫= goString).

(** A walk over the fields of a part of the table. *)
Definition fieldNamed (name : gostring) (f : goval) : bool :=
  match mapOf f with
  | Some field => bool_decide (default [] (keyed "name" field ≫= stringOf) = name)
  | None => false
  end.

Definition hasField (part : gostring) (tableVal nameVal : refVal) : bool :=
  default false
    (tbl ← goMap tableVal; name ← goString nameVal;
     schema ← keyed part tbl ≫= mapOf;
     fields ← keyed "fields" schema ≫= listOf;
     Some (existsb (fieldNamed name) fields)).

Definition hasColumnImpl : refVal -> refVal -> bool := hasField "schema".
Definition hasPartitionImpl : refVal -> refVal -> bool := hasField "partition_spec".

(** A role that is not a string counts as the empty one. *)
Definition principalRoleImpl (principalVal roleVal : refVal) : bool :=
  default false
    (principal ← goMap principalVal; role ← goString roleVal;
     roles ← keyed "roles" principal ≫= listOf;
     Some (existsb (fun r => bool_decide (default [] (stringOf r) = role)) roles)).

(** The entries with a string. *)
Definition stringEntries (m : list (gostring * goval)) : list (gostring * gostring) :=
  omap (fun e => pair e.1 <$> stringOf e.2) m.

Definition partitionSpecImpl (tableVal : refVal) : list (gostring * gostring) :=
  default [] (find ← asMapper tableVal; spec ← find "partition_spec"; stringEntries <$> goMap spec).

Section classification.
(** [regexp.Compile], and [MatchString] of what it gives. *)
Context (regexpCompile : gostring -> option (gostring -> bool)).

(** Column and tag of an entry of the classifications. *)
Definition entryTag (entry : refVal) : option (gostring * gostring) :=
  find ← asMapper entry;
  colVal ← find "column_name"; tagVal ← find "tag";
  col ← goString colVal; tag ← goString tagVal; Some (col, tag).

Definition indexTag (m : gmap gostring (gset gostring)) (entry : refVal)
  : gmap gostring (gset gostring) :=
  match entryTag entry with
  | Some (col, tag) => <[col := {[tag]} ∪ default ∅ (m !! col)]> m
  | None => m
  end.

Definition tagsByCol (entries : list refVal) : gmap gostring (gset gostring) :=
  fold_left indexTag entries ∅.

Definition columnName (entry : refVal) : option gostring :=
  find ← asMapper entry; find "name" ≫= goString.

(** The walk stops at the first matching column without the tag. *)
Fixpoint columnsTagged (re : gostring -> bool) (tag : gostring)
    (tags : gmap gostring (gset gostring)) (cols : list refVal) : bool :=
  match cols with
  | [] => true
  | entry :: cols =>
      match columnName entry with
      | Some name =>
          if re name && bool_decide (tag ∉ default ∅ (tags !! name)) then false
          else columnsTagged re tag tags cols
      | None => columnsTagged re tag tags cols
      end
  end.

Definition classificationSatisfiedImpl (args : list refVal) : bool :=
  match args with
  | [table; pattern; requiredTag] =>
      default false
        (find ← asMapper table;
         pattern ← goString pattern; requiredTag ← goString requiredTag;
         re ← regexpCompile pattern;
         clsVal ← find "classifications"; clsList ← asLister clsVal;
         colsVal ← find "columns"; colsList ← asLister colsVal;
         Some (columnsTagged re requiredTag (tagsByCol clsList) colsList))
  | _ => false
  end.
End classification.

(** ** Attributes of the principal *)

Definition principalAttributeLayer1 (find : gostring -> option refVal) (name : gostring) : gostring :=
  default [] (claims ← find "claims" ≫= goMap; keyed name claims ≫= stringOf).

Definition principalAttributeFuncImpl (args : list refVal) : gostring :=
  match args with
  | [principalVal; nameVal] =>
      default [] (find ← asMapper principalVal; name ← goString nameVal;
                  Some (principalAttributeLayer1 find name))
  | _ => []
  end.

Definition principalSubFromMap (find : gostring -> option refVal) : gostring :=
  default [] (find "sub" ≫= goString).

(** The claims that are non-empty strings. *)
Definition oidcClaimsFromPrincipal (find : gostring -> option refVal) : list (gostring * gostring) :=
  default [] ((fun claims => filter (fun e => e.2 <> []) (stringEntries claims)) <$> (find "claims" ≫= goMap)).

(** ** The resolver ([store/attribute.go]) *)

(** The transaction in the graph, and the row of the tenant. *)
Inductive attrCall := OnStore (c : storeCall) | TenantDefaults (tenantID : gostring).

(** [TenantDefaults] answers the bytes of the column, or fails. *)
Definition attrR (c : attrCall) : Type :=
  match c with OnStore c => storeR c | TenantDefaults _ => option gostring end.

Abbreviation attrProg := (prog attrR).

Fixpoint onStore {A} (p : storeProg A) : attrProg A :=
  match p with
  | Ret a => Ret a
  | Do c k => Do (R := attrR) (OnStore c) (fun r : attrR (OnStore c) => onStore (k r))
  end.

Definition attributeQuery (sub name : gostring) : gostring :=
  cypherSQL ("MATCH (p:Principal {sub: " ++ lit sub ++ "})-[:HAS_ATTRIBUTE]->(a:Attribute {name: "
     ++ lit name ++ "}) RETURN a.value LIMIT 1") "value ag_catalog.agtype".

(** The first row, if there is one. *)
Definition scanAttribute (rows : option (list (list gostring))) : result store_err gostring :=
  match rows with
  | None => Err ErrQuery
  | Some [] => Ok []
  | Some ([raw] :: _) => Ok (stripAgtypeQuotes raw)
  | Some _ => Err ErrQuery
  end.

Definition layer2Graph (tenantID principalSub name : gostring) : attrProg gostring :=
  match assertSafeCypherLiteral principalSub, assertSafeCypherLiteral name with
  | Ok safeSub, Ok safeName =>
      bind (onStore (inTenant tenantID
             (bind (query (attributeQuery safeSub safeName)) (fun r => Ret (scanAttribute r)))))
        (fun r => Ret (match r with Ok v => v | Err _ => [] end))
  | _, _ => Ret []
  end.

Section resolver.
(** The reader of JSON. *)
Context (parseJSON : gostring -> option goval).

(** [json.Unmarshal] into a [map[string]string]: a null is skipped over, any other
    value that is not a string fails the whole. *)
Definition unmarshalStrings (v : goval) : option (list (gostring * gostring)) :=
  match v with
  | VNil => Some []
  | VMap m => mapM (fun e => match e.2 with
                             | VString s => Some (e.1, s)
                             | VNil => Some (e.1, [])
                             | _ => None
                             end) m
  | _ => None
  end.

Definition tenantDefault (attrsRaw name : gostring) : gostring :=
  default [] (attrs ← parseJSON attrsRaw ≫= unmarshalStrings; keyed name attrs).

Definition layer3TenantDefault (tenantID name : gostring) : attrProg gostring :=
  Do (R := attrR) (TenantDefaults tenantID) (fun r : option gostring =>
  Ret (match r with
       | None | Some [] => []
       | Some attrsRaw => tenantDefault attrsRaw name
       end)).

(** Whether the resolver has the graph client and the pool. *)
Record resolverDeps := mkResolver { has_gc : bool; has_adminPool : bool }.

(** A layer that is asked when the ones before gave nothing. *)
Definition orElse (first second : attrProg gostring) : attrProg gostring :=
  bind first (fun v => if bool_decide (v = []) then second else Ret v).

Definition onTenant (has : bool) (tenant : option gostring) (p : gostring -> attrProg gostring)
  : attrProg gostring :=
  match tenant with
  | Some tid => if has then p tid else Ret []
  | None => Ret []
  end.

Definition Resolve (r : resolverDeps) (tenant : option gostring) (principalSub name : gostring)
    (oidcClaims : list (gostring * gostring)) : attrProg gostring :=
  orElse (Ret (default [] (keyed name oidcClaims)))
    (orElse (onTenant (has_gc r) tenant (fun tid => layer2Graph tid principalSub name))
       (onTenant (has_adminPool r) tenant (fun tid => layer3TenantDefault tid name))).

(** ** The activation ([eval.go]) *)

(** The resolver and the tenant of the context are there together or not at all. *)
Record activation := mkActivation {
  act_table : goval; act_commit : goval; act_principal : goval;
  act_resolver : option (resolverDeps * option gostring)
}.

Definition principalAttributeEval (act : activation) (args : list refVal) : attrProg gostring :=
  match args with
  | [principalVal; nameVal] =>
      match asMapper principalVal, goString nameVal with
      | Some find, Some name =>
          match act_resolver act with
          | None => Ret (principalAttributeLayer1 find name)
          | Some (resolver, tenant) =>
              Resolve resolver tenant (principalSubFromMap find) name (oidcClaimsFromPrincipal find)
          end
      | _, _ => Ret []
      end
  | _ => Ret []
  end.

(** ** The functions of the environment ([registerManifestFunctions]) *)

Inductive celType := StringType | BoolType | DynMapType | StringMapType.

Record overload := mkOverload {
  fn_Function : gostring; fn_Overload : gostring; fn_Args : list celType; fn_Result : celType
}.

Definition registerManifestFunctions : list overload := [
  mkOverload "manifest.has_column" "manifest_has_column_map_string" [DynMapType; StringType] BoolType;
  mkOverload "manifest.has_partition" "manifest_has_partition_map_string" [DynMapType; StringType] BoolType;
  mkOverload "principal.role" "principal_role_map_string" [DynMapType; StringType] BoolType;
  mkOverload "location.region" "location_region_map_string" [DynMapType] StringType;
  mkOverload "manifest.classification_satisfied" "manifest_classification_satisfied_map_string_string"
    [DynMapType; StringType; StringType] BoolType;
  mkOverload "manifest.partition_spec" "manifest_partition_spec_map" [DynMapType] StringMapType;
  mkOverload "principal.attribute" "principal_attribute_map_string" [DynMapType; StringType] StringType].

Definition principalAttributeFunctionName : gostring := "principal.attribute".

Section bindings.
Context (regexpCompile : gostring -> option (gostring -> bool)).

(** The binding of each function on the arguments of a call. *)
Definition binding (fn : gostring) (args : list refVal) : option goval :=
  match args with
  | [a; b] =>
      if bool_decide (fn = "manifest.has_column") then Some (VBool (hasColumnImpl a b))
      else if bool_decide (fn = "manifest.has_partition") then Some (VBool (hasPartitionImpl a b))
      else if bool_decide (fn = "principal.role") then Some (VBool (principalRoleImpl a b))
      else if bool_decide (fn = principalAttributeFunctionName)
      then Some (VString (principalAttributeFuncImpl args)) else None
  | [a] =>
      if bool_decide (fn = "location.region") then Some (VString (locationRegionImpl a))
      else if bool_decide (fn = "manifest.partition_spec")
      then Some (VMap (map (fun e => (e.1, VString e.2)) (partitionSpecImpl a))) else None
  | [_; _; _] =>
      if bool_decide (fn = "manifest.classification_satisfied")
      then Some (VBool (classificationSatisfiedImpl regexpCompile args)) else None
  | _ => None
  end.

(** A call in a program: the decorator takes over one function. *)
Definition callFunction (act : activation) (fn : gostring) (args : list refVal)
  : attrProg (option goval) :=
  if bool_decide (fn = principalAttributeFunctionName)
  then bind (principalAttributeEval act args) (fun s => Ret (Some (VString s)))
  else Ret (binding fn args).
End bindings.

(** ** Compilation with its cache ([compile.go]) *)

Record celKey := mkCelKey { ck_PolicyID : gostring; ck_ASTHash : gostring }.

#[export] Instance celKey_eq_dec : EqDecision celKey.
Proof. solve_decision. Defined.
#[export] Instance celKey_countable : Countable celKey.
Proof.
  refine (inj_countable' (fun k => (ck_PolicyID k, ck_ASTHash k)) (fun '(a, b) => mkCelKey a b) _).
  by intros [].
Defined.

Context (sha256 : gostring -> gostring).
(** cel-go: the environment's compiler with the options of the program, and the
    run of a program, which may call the bindings. *)
Context {Program : Type} (compileProgram : gostring -> option Program).
Context (contextEval : Program -> activation -> attrProg celAnswer).
Context {C : Type} `{!Lru celKey Program C}.

Definition CompileOrGet (policyID text : gostring) (cache : C) : result eval_err Program * C :=
  let key := mkCelKey policyID (sha256 text) in
  let '(hit, cache) := lru_get key cache in
  match hit with
  | Some p => (Ok p, cache)
  | None =>
      match compileProgram text with
      | None => (Err ErrCelCompileFailed, cache)
      | Some prog => (Ok prog, lru_add key prog cache)
      end
  end.

Record Inputs := mkInputs {
  in_Table : goval; in_Commit : goval; in_Principal : goval;
  in_AttributeResolver : option resolverDeps
}.

Definition activationOf (tenant : option gostring) (i : Inputs) : activation :=
  mkActivation (in_Table i) (in_Commit i) (in_Principal i)
    ((fun r => (r, tenant)) <$> in_AttributeResolver i).

(** The whole of [Evaluate]; the reading of the answer is [Gateway.Evaluate]. *)
Definition EvaluateInputs (tenant : option gostring) (p : Policy) (i : Inputs) (cache : C)
  : attrProg (result eval_err Decision * C) :=
  let '(r, cache) := CompileOrGet (pol_ID p) (pol_Text p) cache in
  match r with
  | Err _ => Ret (Evaluate p CompileFails, cache)
  | Ok prog =>
      bind (contextEval prog (activationOf tenant i)) (fun a => Ret (Evaluate p a, cache))
  end.
End resolver.

(** ** The projections of the gateway ([handler.go]); the fields and snapshots are
    those of [IngestMeta] *)

Record PartitionField := mkPartField { pf_Source : Z; pf_Transform : gostring; pf_Name : gostring }.
Record TableMetadata := mkMetadata {
  tm_UUID : gostring; tm_Schema : list SchemaField;
  tm_SpecID : Z; tm_Partition : list PartitionField;
  tm_CurrentSnapshotID : Z; tm_Location : gostring;
  tm_Snapshots : list Snapshot; tm_Properties : list (gostring * gostring)
}.

Definition schemaToMap (fields : list SchemaField) : goval :=
  VMap [("fields" : gostring, VList (map (fun f => VMap
    [("id" : gostring, VInt (field_ID f)); ("name" : gostring, VString (field_Name f));
     ("type" : gostring, VString (field_Type f)); ("required" : gostring, VBool (field_Required f));
     ("doc" : gostring, VString (field_Doc f))]) fields))].

Definition partitionSpecToMap (specID : Z) (fields : list PartitionField) : goval :=
  VMap [("spec_id" : gostring, VInt specID);
        ("fields" : gostring, VList (map (fun f => VMap
          [("source_column_id" : gostring, VInt (pf_Source f));
           ("transform" : gostring, VString (pf_Transform f));
           ("name" : gostring, VString (pf_Name f))]) fields))].

Definition snapshotsToList (l : list Snapshot) : goval :=
  VList (map (fun s => VMap
    [("snapshot_id" : gostring, VInt (SnapshotID s)); ("parent_snapshot_id" : gostring, VInt (ParentSnapshotID s));
     ("timestamp_ms" : gostring, VInt (TimestampMs s));
     ("operation" : gostring, VString (Operation s));
     ("metadata_location" : gostring, VString (MetadataLocation s))]) l).

Definition stringMapToAny (m : list (gostring * gostring)) : goval :=
  VMap (map (fun e => (e.1, VString e.2)) m).

(** A whole number as a [float64]: 53 bits, rounded half to even. *)
Definition toFloat64 (z : Z) : Z :=
  let e := Z.max 0 (Z.log2 (Z.abs z) - 52) in
  let m := (Z.abs z / 2 ^ e)%Z in
  let r := (Z.abs z mod 2 ^ e)%Z in
  let up := ((2 ^ e <? 2 * r) || ((2 ^ e =? 2 * r) && Z.odd m))%Z in
  (Z.sgn z * ((if up then m + 1 else m) * 2 ^ e))%Z.

Definition entryLeq {A} (a b : gostring * A) : Prop := stringLeq a.1 b.1.

#[export] Instance entryLeq_dec {A} (a b : gostring * A) : base.Decision (entryLeq a b).
Proof. unfold entryLeq. apply _. Defined.

(** What a decoder keeps of an object with equal keys: the last. *)
Fixpoint lastOfKeys {A} (m : list (gostring * A)) : list (gostring * A) :=
  match m with
  | [] => []
  | e :: m => if existsb (fun x => bool_decide (x.1 = e.1)) m then lastOfKeys m else e :: lastOfKeys m
  end.

(** A value after [json.Marshal] and [json.Unmarshal]: numbers are floats, text is
    valid UTF-8, and an object was written in the order of its keys. *)
Fixpoint throughJSON (v : goval) : goval :=
  match v with
  | VInt z => VFloat (toFloat64 z)
  | VString s => VString (toValidUTF8 s)
  | VList l => VList (map throughJSON l)
  | VMap m =>
      VMap (lastOfKeys (map (fun e => (toValidUTF8 e.1, e.2))
             (merge_sort entryLeq (map (fun e => (e.1, throughJSON e.2)) m))))
  | v => v
  end.

Definition projectViaJSON (v : goval) : goval := throughJSON v.

Definition tableMetadataToMap (m : option TableMetadata) : goval :=
  match m with
  | None => VMap []
  | Some m =>
      projectViaJSON (VMap
        [("uuid" : gostring, VString (tm_UUID m)); ("schema" : gostring, schemaToMap (tm_Schema m));
         ("partition_spec" : gostring, partitionSpecToMap (tm_SpecID m) (tm_Partition m));
         ("current_snapshot_id" : gostring, VInt (tm_CurrentSnapshotID m));
         ("metadata_location" : gostring, VString (tm_Location m));
         ("snapshots" : gostring, snapshotsToList (tm_Snapshots m));
         ("properties" : gostring, stringMapToAny (tm_Properties m))])
  end.

(** The requirements and the updates are decoded maps already. *)
Definition commitRequestToMap (requirements updates : list (list (gostring * goval))) : goval :=
  VMap [("requirements" : gostring, VList (map VMap requirements));
        ("updates" : gostring, VList (map VMap updates))].

Definition principalToMap (p : option Principal) : goval :=
  match p with
  | None => VMap [("sub" : gostring, VString []); ("email" : gostring, VString []);
                  ("roles" : gostring, VList [])]
  | Some p => VMap [("sub" : gostring, VString (prin_Sub p)); ("email" : gostring, VString (prin_Email p));
                    ("roles" : gostring, VList (map VString (prin_Roles p)))]
  end.

(** Steps 9 and 10 of the handlers. *)
Definition gatewayInputs (m : option TableMetadata)
    (requirements updates : list (list (gostring * goval))) (p : option Principal)
    (resolver : option resolverDeps) : Inputs :=
  mkInputs (tableMetadataToMap m) (commitRequestToMap requirements updates) (principalToMap p) resolver.
