(* ===== verification/CelSpec.v ===== *)
(** * What policies see: the theorems on the CEL engine

    The bindings on the projections of the gateway, the layers of the attribute
    resolver, the classification check against its specification, and the
    compile cache, which no evaluation can observe. *)

From stdpp Require Import sorting relations.
From S2P Require Import Prelude Effects Lru Order JsonText IngestMeta Cypher PolicyStore Gateway Dynamic Cel.
From Stdlib Require Import Lia.
#[local] Open Scope go_scope.

(** ** Objects through JSON *)

Lemma keyed_cons {A} k (e : gostring * A) m :
  keyed k (e :: m) = if bool_decide (e.1 = k) then Some e.2 else keyed k m.
Proof. unfold keyed. cbn [List.find]. by case_bool_decide. Qed.

Lemma keyed_none {A} k (m : list (gostring * A)) : keyed k m = None <-> k ∉ map fst m.
Proof.
  induction m as [|[k' v'] m IH]; [split; [by intros _ []%not_elem_of_nil|done]|].
  rewrite keyed_cons. cbn [fst snd map]. rewrite not_elem_of_cons, <- IH. case_bool_decide as E; [|by intuition].
  split; [done|]. intros [H _]. congruence.
Qed.

Lemma elem_keyed {A} k (m : list (gostring * A)) v :
  NoDup (map fst m) -> (k, v) ∈ m -> keyed k m = Some v.
Proof.
  induction m as [|[k' v'] m IH]; [by intros _ []%not_elem_of_nil|]. cbn [map fst].
  rewrite keyed_cons. intros [Hk Hm]%NoDup_cons [[= <- <-]|Hin]%elem_of_cons; cbn [fst snd].
  - by rewrite bool_decide_eq_true_2.
  - rewrite bool_decide_eq_false_2; [by apply IH|]. intros ->. apply Hk.
    apply list_elem_of_fmap. by exists (k, v).
Qed.

Lemma keyed_perm {A} k (m m' : list (gostring * A)) :
  m ≡ₚ m' -> NoDup (map fst m) -> keyed k m = keyed k m'.
Proof.
  intros Hp Hn. assert (NoDup (map fst m')) as Hn' by by rewrite <- Hp.
  destruct (keyed k m) as [v|] eqn:E.
  - symmetry. apply elem_keyed; [done|]. rewrite <- Hp. by apply keyed_elem.
  - symmetry. rewrite keyed_none in *. by rewrite <- Hp.
Qed.

Lemma lastOfKeys_id {A} (m : list (gostring * A)) : NoDup (map fst m) -> lastOfKeys m = m.
Proof.
  induction m as [|e m IH]; [done|]. cbn [map lastOfKeys]. intros [Hk Hm]%NoDup_cons.
  destruct (existsb _ m) eqn:E; [|by rewrite IH]. apply existsb_exists in E as (x & Hx & E).
  apply bool_decide_eq_true in E. destruct Hk. apply list_elem_of_fmap. exists x. by rewrite list_elem_of_In.
Qed.

Lemma keyed_map {A B} k (f : A -> B) (m : list (gostring * A)) :
  keyed k (map (fun e => (e.1, f e.2)) m) = f <$> keyed k m.
Proof.
  induction m as [|e m IH]; [done|]. cbn [map]. rewrite !keyed_cons. cbn [fst snd].
  by case_bool_decide.
Qed.

(** An object whose keys are distinct and valid keeps them. *)
Lemma throughJSON_object m :
  NoDup (map fst m) -> forallb validUTF8 (map fst m) = true ->
  exists m', throughJSON (VMap m) = VMap m' /\ forall k, keyed k m' = throughJSON <$> keyed k m.
Proof.
  intros Hn Hv. cbn [throughJSON]. set (m1 := map (fun e => (e.1, throughJSON e.2)) m).
  assert (map fst m1 = map fst m) as Hk1 by (unfold m1; rewrite map_map; by apply map_ext).
  pose proof (merge_sort_Permutation entryLeq m1) as Hp.
  set (m2 := merge_sort entryLeq m1) in *.
  assert (NoDup (map fst m2)) as Hn2 by by rewrite Hp, Hk1.
  assert (map (fun e => (toValidUTF8 e.1, e.2)) m2 = m2) as ->.
  { rewrite <- (map_id m2) at 2. apply map_ext_in. intros [k v] Hin. cbn [fst snd]. f_equal.
    apply toValidUTF8_valid. rewrite forallb_forall in Hv. apply Hv. rewrite <- Hk1.
    apply list_elem_of_In. rewrite <- Hp. apply list_elem_of_fmap. exists (k, v). by rewrite list_elem_of_In. }
  rewrite lastOfKeys_id by done. exists m2. split; [done|]. intros k.
  rewrite <- (keyed_perm k m1 m2) by (done || by rewrite Hk1). apply keyed_map.
Qed.

(** ** The bindings on the projections *)

Lemma throughJSON_list l : throughJSON (VList l) = VList (map throughJSON l).
Proof. done. Qed.

Lemma existsb_map {A B} (f : B -> bool) (g : A -> B) l : existsb f (map g l) = existsb (fun x => f (g x)) l.
Proof. induction l as [|x l IH]; [done|]. cbn [map existsb]. by rewrite IH. Qed.

(** An object with a name, as [fieldNamed] finds it. *)
Lemma fieldNamed_object name m n :
  NoDup (map fst m) -> forallb validUTF8 (map fst m) = true -> keyed "name" m = Some (VString n) ->
  fieldNamed name (throughJSON (VMap m)) = bool_decide (toValidUTF8 n = name).
Proof.
  intros Hn Hv Hk. destruct (throughJSON_object m Hn Hv) as (m' & E & H). rewrite E. cbn [fieldNamed mapOf].
  by rewrite H, Hk.
Qed.

Ltac distinct_keys :=
  cbn; repeat (apply NoDup_cons_2; [rewrite list_elem_of_In; cbn; intuition discriminate|]); apply NoDup_nil_2.

(** A part of the table with fields that have names. *)
Lemma hasField_part {A} part m rest (fields : list A) (obj : A -> list (gostring * goval)) (nameOf : A -> gostring) name :
  NoDup (map fst m) -> forallb validUTF8 (map fst m) = true ->
  keyed part m = Some (VMap rest) -> NoDup (map fst rest) -> forallb validUTF8 (map fst rest) = true ->
  keyed "fields" rest = Some (VList (map (fun f => VMap (obj f)) fields)) ->
  (forall f, NoDup (map fst (obj f)) /\ forallb validUTF8 (map fst (obj f)) = true /\
     keyed "name" (obj f) = Some (VString (nameOf f))) ->
  hasField part (Native (throughJSON (VMap m))) (Native (VString name)) =
    existsb (fun f => bool_decide (toValidUTF8 (nameOf f) = name)) fields.
Proof.
  intros Hn Hv Hp Hn1 Hv1 Hf Ho. destruct (throughJSON_object m Hn Hv) as (m' & E & H).
  destruct (throughJSON_object rest Hn1 Hv1) as (r' & E1 & H1).
  rewrite E. unfold hasField, goMap, goString. cbn [goValue mbind option_bind mapOf stringOf].
  rewrite H, Hp. cbn [fmap option_fmap option_map]. rewrite E1. cbn [mbind option_bind mapOf].
  rewrite H1, Hf. cbn [fmap option_fmap option_map]. rewrite throughJSON_list. cbn [mbind option_bind listOf default from_option Datatypes.id].
  rewrite !existsb_map. clear Hf. induction fields as [|f fields IH]; [done|]. cbn [existsb]. rewrite IH. f_equal.
  destruct (Ho f) as (Ha & Hb & Hc). by apply fieldNamed_object.
Qed.

Lemma hasColumn_projected m name :
  hasColumnImpl (Native (tableMetadataToMap (Some m))) (Native (VString name)) =
    existsb (fun f => bool_decide (toValidUTF8 (field_Name f) = name)) (tm_Schema m).
Proof.
  unfold hasColumnImpl. cbn [tableMetadataToMap]. unfold projectViaJSON, schemaToMap.
  eapply hasField_part; [distinct_keys|reflexivity|reflexivity|distinct_keys|reflexivity|reflexivity|].
  intros f. split_and!; [distinct_keys|reflexivity|reflexivity].
Qed.

Lemma hasPartition_projected m name :
  hasPartitionImpl (Native (tableMetadataToMap (Some m))) (Native (VString name)) =
    existsb (fun f => bool_decide (toValidUTF8 (pf_Name f) = name)) (tm_Partition m).
Proof.
  unfold hasPartitionImpl. cbn [tableMetadataToMap]. unfold projectViaJSON, partitionSpecToMap.
  eapply hasField_part; [distinct_keys|reflexivity|reflexivity|distinct_keys|reflexivity|reflexivity|].
  intros f. split_and!; [distinct_keys|reflexivity|reflexivity].
Qed.

Lemma existsb_bool_decide {A} (P : A -> Prop) `{forall x, base.Decision (P x)} l :
  existsb (fun x => bool_decide (P x)) l = true <-> exists x, x ∈ l /\ P x.
Proof.
  rewrite existsb_exists. setoid_rewrite <- list_elem_of_In. setoid_rewrite bool_decide_eq_true. done.
Qed.

(** The bindings mean what policies take them for: on the inputs the gateway
    builds, [manifest.has_column] holds exactly for the names of the columns,
    [manifest.has_partition] for those of the partition fields, [principal.role]
    for the roles of the principal; and for no table or principal, for nothing. *)
Theorem gateway_bindings (m : option TableMetadata) reqs upds (p : option Principal) res name :
  let i := gatewayInputs m reqs upds p res in
  let arg := Native (VString name) in
  (hasColumnImpl (Native (in_Table i)) arg = true <->
     exists m', m = Some m' /\ exists f, f ∈ tm_Schema m' /\ toValidUTF8 (field_Name f) = name) /\
  (hasPartitionImpl (Native (in_Table i)) arg = true <->
     exists m', m = Some m' /\ exists f, f ∈ tm_Partition m' /\ toValidUTF8 (pf_Name f) = name) /\
  (principalRoleImpl (Native (in_Principal i)) arg = true <->
     exists p', p = Some p' /\ name ∈ prin_Roles p').
Proof.
  cbn [gatewayInputs in_Table in_Principal]. split_and!.
  - destruct m as [m|]; [|split; [done|by intros (? & ? & _)]].
    rewrite hasColumn_projected, existsb_bool_decide. split; [eauto|by intros (? & [= <-] & H)].
  - destruct m as [m|]; [|split; [done|by intros (? & ? & _)]].
    rewrite hasPartition_projected, existsb_bool_decide. split; [eauto|by intros (? & [= <-] & H)].
  - destruct p as [p|]; [|split; [done|by intros (? & ? & _)]].
    unfold principalRoleImpl, goMap, goString. cbn [principalToMap goValue mbind option_bind mapOf stringOf].
    rewrite !keyed_cons. cbn [fst snd]. rewrite !bool_decide_eq_false_2, bool_decide_eq_true_2 by done.
    cbn [mbind option_bind listOf default from_option Datatypes.id]. rewrite existsb_map. cbn [stringOf default from_option Datatypes.id].
    rewrite existsb_bool_decide. split; [intros (r & Hr & ->); eauto|intros (? & [= <-] & H); eauto].
Qed.

(** The other bindings see nothing in what the gateway builds: the region is
    always empty, no classification is ever satisfied - such a policy denies every
    commit -, the partition spec has no entry, and the principal has no claims, so
    that the first layer of the attributes is never asked. *)
Theorem gateway_bindings_vacuous regexpCompile m reqs upds p res pattern tag name :
  let i := gatewayInputs m reqs upds p res in
  locationRegionImpl (Native (in_Commit i)) = [] /\
  classificationSatisfiedImpl regexpCompile [Native (in_Table i); pattern; tag] = false /\
  partitionSpecImpl (Native (in_Table i)) = [] /\
  principalAttributeFuncImpl [Native (in_Principal i); name] = [] /\
  (forall find, asMapper (Native (in_Principal i)) = Some find -> oidcClaimsFromPrincipal find = []).
Proof.
  assert (forall k, k ∉ ["uuid"; "schema"; "partition_spec"; "current_snapshot_id"; "metadata_location";
      "snapshots"; "properties" : gostring] ->
    forall find, asMapper (Native (tableMetadataToMap m)) = Some find -> find k = None) as Habsent.
  { intros k Hk find. destruct m as [m|]; cbn [tableMetadataToMap asMapper]; [|by intros [= <-]].
    unfold projectViaJSON. match goal with |- context [throughJSON (VMap ?l)] =>
      destruct (throughJSON_object l) as (m' & E & H); [distinct_keys|reflexivity|] end.
    rewrite E. cbn [asMapper]. intros [= <-]. rewrite H.
    match goal with |- context [keyed k ?l] => assert (keyed k l = None) as -> by (by apply keyed_none) end. done. }
  assert (forall find, asMapper (Native (principalToMap p)) = Some find -> find "claims" = None) as Hclaims.
  { intros find. by destruct p; intros [= <-]. }
  cbn [gatewayInputs in_Table in_Commit in_Principal]. split_and!.
  - done.
  - unfold classificationSatisfiedImpl. destruct (asMapper (Native (tableMetadataToMap m))) as [find|] eqn:E; [|done].
    cbn [mbind option_bind]. destruct (goString pattern); [|done]. destruct (goString tag); [|done].
    cbn [mbind option_bind]. destruct (regexpCompile _); [|done]. cbn [mbind option_bind].
    rewrite (Habsent "classifications"); [done| |done]. rewrite list_elem_of_In. cbn. intuition discriminate.
  - unfold partitionSpecImpl. destruct m as [m|]; [|done]. cbn [tableMetadataToMap]. unfold projectViaJSON.
    match goal with |- context [throughJSON (VMap ?l)] =>
      destruct (throughJSON_object l) as (m' & E & H); [distinct_keys|reflexivity|] end.
    rewrite E. cbn [asMapper mbind option_bind]. rewrite H. rewrite !keyed_cons. cbn [fst snd].
    rewrite !bool_decide_eq_false_2, bool_decide_eq_true_2 by done. cbn [fmap option_fmap option_map mbind option_bind].
    done.
  - unfold principalAttributeFuncImpl. destruct (asMapper (Native (principalToMap p))) as [find|] eqn:E; [|done].
    cbn [mbind option_bind]. destruct (goString name); [|done]. cbn [mbind option_bind default from_option Datatypes.id].
    unfold principalAttributeLayer1. by rewrite (Hclaims find eq_refl).
  - intros find E. unfold oidcClaimsFromPrincipal. by rewrite (Hclaims find E).
Qed.

(** ** Snapshot ids *)

(** A power of two and its half. *)
Lemma pow2_half e : (0 < e)%Z -> (2 ^ e = 2 * 2 ^ (e - 1))%Z.
Proof. intros H. rewrite <- Z.pow_succ_r by lia. f_equal. lia. Qed.

(** Numbers reach the policies as floats: ids up to 2^53 unchanged, larger ones
    within half a unit of the last place, so that different snapshots may look the
    same to a policy. *)
Theorem snapshot_id_rounding z :
  (Z.abs z <= 2 ^ 53 -> toFloat64 z = z)%Z /\
  (2 ^ 53 <= Z.abs z -> 2 * Z.abs (toFloat64 z - z) <= 2 ^ (Z.log2 (Z.abs z) - 52))%Z.
Proof.
  assert (forall m e, 0 <= e -> let r := (m mod 2 ^ e)%Z in
    let up := ((2 ^ e <? 2 * r) || ((2 ^ e =? 2 * r) && Z.odd (m / 2 ^ e)))%Z in
    2 * Z.abs ((if up then m / 2 ^ e + 1 else m / 2 ^ e) * 2 ^ e - m) <= 2 ^ e)%Z as Hround.
  { intros m e He r up. assert (0 < 2 ^ e)%Z as Hpos by (apply Z.pow_pos_nonneg; lia).
    pose proof (Z.div_mod m (2 ^ e) ltac:(lia)) as Hm. fold r in Hm.
    pose proof (Z.mod_pos_bound m (2 ^ e) Hpos) as Hr. fold r in Hr.
    assert (up = true -> 2 ^ e <= 2 * r)%Z as Hup.
    { unfold up. rewrite orb_true_iff, andb_true_iff, Z.ltb_lt, Z.eqb_eq. lia. }
    assert (up = false -> 2 * r <= 2 ^ e)%Z as Hdown.
    { unfold up. rewrite orb_false_iff, Z.ltb_ge. lia. }
    set (q := (m / 2 ^ e)%Z) in *. destruct up; [specialize (Hup eq_refl)|specialize (Hdown eq_refl)].
    - replace ((q + 1) * 2 ^ e - m)%Z with (2 ^ e - r)%Z by (rewrite Hm; ring). lia.
    - replace (q * 2 ^ e - m)%Z with (- r)%Z by (rewrite Hm; ring). lia. }
  unfold toFloat64. split; intros Hz.
  - destruct (decide (Z.abs z = 2 ^ 53)%Z) as [E|Hne].
    + destruct z as [|q|q]; cbn in E; [discriminate| |]; injection E as ->; done.
    + assert (Z.log2 (Z.abs z) - 52 <= 0)%Z as Hl.
      { destruct (decide (z = 0)%Z) as [->|H0]; [done|].
        assert (Z.log2 (Z.abs z) < 53)%Z by (apply Z.log2_lt_pow2; lia). lia. }
      rewrite Z.max_l by lia. change (2 ^ 0)%Z with 1%Z. rewrite Z.div_1_r, Z.mod_1_r. by destruct z; cbn; rewrite ?Z.mul_1_r.
  - assert (53 <= Z.log2 (Z.abs z))%Z as Hl by (apply Z.log2_le_pow2; lia).
    rewrite Z.max_r by lia. specialize (Hround (Z.abs z) (Z.log2 (Z.abs z) - 52)%Z ltac:(lia)). cbn zeta in Hround.
    match type of Hround with (2 * Z.abs (?x - _) <= _)%Z => set (y := x) in * end.
    destruct z as [|z|z]; cbn [Z.sgn] in *; [cbn in Hz; lia| |]; cbn [Z.abs] in *; lia.
Qed.

(** Two snapshots of a table that a policy cannot tell apart. *)
Example snapshot_ids_conflated :
  keyed "current_snapshot_id" (default [] (mapOf (tableMetadataToMap
    (Some (mkMetadata [] [] 0 [] 8744736658442914487 [] [] []))))) =
  keyed "current_snapshot_id" (default [] (mapOf (tableMetadataToMap
    (Some (mkMetadata [] [] 0 [] 8744736658442914488 [] [] []))))).
Proof. reflexivity. Qed.

(** ** The classification check *)

Lemma tagsByCol_spec entries col tag :
  tag ∈ default ∅ (tagsByCol entries !! col) <-> exists e, e ∈ entries /\ entryTag e = Some (col, tag).
Proof.
  assert (forall m, tag ∈ default ∅ (fold_left indexTag entries m !! col) <->
    tag ∈ default ∅ (m !! col) \/ exists e, e ∈ entries /\ entryTag e = Some (col, tag)) as H.
  { induction entries as [|e entries IH]; intros m; cbn [fold_left].
    - split; [by left|]. by intros [?|(e & []%not_elem_of_nil & _)].
    - rewrite IH. setoid_rewrite elem_of_cons. unfold indexTag at 1.
      assert (tag ∈ default ∅ (indexTag m e !! col) <->
        tag ∈ default ∅ (m !! col) \/ entryTag e = Some (col, tag)) as Hi.
      { unfold indexTag. destruct (entryTag e) as [[c t]|]; [|by intuition].
        destruct (decide (c = col)) as [->|Hne].
        - rewrite lookup_insert_eq. cbn [default from_option Datatypes.id].
          rewrite elem_of_union, elem_of_singleton. split.
          + intros [->|H]; [by right|by left].
          + intros [H|[= ->]]; [by right|by left].
        - rewrite lookup_insert_ne by done. split; [by left|]. intros [H|H]; [done|congruence]. }
      unfold indexTag in Hi. rewrite Hi. split.
      + intros [[H|H]|(x & H1 & H2)]; eauto 6.
      + intros [H|(x & [->|H1] & H2)]; eauto 6. }
  unfold tagsByCol. rewrite H, lookup_empty. cbn. split; [by intros [[]%not_elem_of_empty|?]|by right].
Qed.

Lemma columnsTagged_spec re tag tags cols :
  columnsTagged re tag tags cols = true <->
  forall c name, c ∈ cols -> columnName c = Some name -> re name = true -> tag ∈ default ∅ (tags !! name).
Proof.
  induction cols as [|c cols IH]; cbn [columnsTagged].
  - split; [|done]. by intros _ c name []%not_elem_of_nil.
  - setoid_rewrite elem_of_cons. destruct (columnName c) as [n|] eqn:E.
    + destruct (re n && bool_decide (tag ∉ default ∅ (tags !! n))) eqn:Hb.
      * split; [done|]. intros H. apply andb_true_iff in Hb as [Hr Hb].
        apply bool_decide_eq_true in Hb. destruct Hb. apply (H c); auto.
      * rewrite IH. split; [|eauto]. intros H c' name [->|Hin] En Hr; [|by eapply H].
        rewrite E in En. injection En as <-. apply andb_false_iff in Hb as [?|Hb]; [congruence|].
        apply bool_decide_eq_false in Hb. destruct (decide (tag ∈ default ∅ (tags !! n))); tauto.
    + rewrite IH. split; [|eauto]. intros H c' name [->|Hin] En Hr; [congruence|by eapply H].
Qed.

(** [manifest.classification_satisfied] holds exactly when the table has both
    lists, the pattern compiles, and every column whose name matches is listed
    with the tag among the classifications; anything else is false. *)
Theorem classificationSatisfied_spec regexpCompile table pattern tag :
  classificationSatisfiedImpl regexpCompile [table; pattern; tag] = true <->
  exists find p t re clsVal cls colsVal cols,
    asMapper table = Some find /\ goString pattern = Some p /\ goString tag = Some t /\
    regexpCompile p = Some re /\
    find "classifications" = Some clsVal /\ asLister clsVal = Some cls /\
    find "columns" = Some colsVal /\ asLister colsVal = Some cols /\
    forall c name, c ∈ cols -> columnName c = Some name -> re name = true ->
      exists e, e ∈ cls /\ entryTag e = Some (name, t).
Proof.
  unfold classificationSatisfiedImpl. split.
  - destruct (asMapper table) as [find|]; [|done]. cbn [mbind option_bind].
    destruct (goString pattern) as [p|]; [|done]. destruct (goString tag) as [t|]; [|done]. cbn [mbind option_bind].
    destruct (regexpCompile p) as [re|] eqn:Er; [|done]. cbn [mbind option_bind].
    destruct (find "classifications") as [clsVal|] eqn:E1; [|done]. cbn [mbind option_bind].
    destruct (asLister clsVal) as [cls|] eqn:E2; [|done]. cbn [mbind option_bind].
    destruct (find "columns") as [colsVal|] eqn:E3; [|done]. cbn [mbind option_bind].
    destruct (asLister colsVal) as [cols|] eqn:E4; [|done]. cbn [mbind option_bind default from_option Datatypes.id].
    rewrite columnsTagged_spec. setoid_rewrite tagsByCol_spec. intros H.
    exists find, p, t, re, clsVal, cls, colsVal, cols. by split_and!.
  - intros (find & p & t & re & clsVal & cls & colsVal & cols & -> & -> & -> & E & E1 & E2 & E3 & E4 & H).
    cbn [mbind option_bind]. rewrite E. cbn [mbind option_bind]. rewrite E1. cbn [mbind option_bind]. rewrite E2.
    cbn [mbind option_bind]. rewrite E3. cbn [mbind option_bind]. rewrite E4.
    cbn [mbind option_bind default from_option Datatypes.id].
    rewrite columnsTagged_spec. setoid_rewrite tagsByCol_spec. exact H.
Qed.

(** ** The layers of the attributes *)

Section resolver.
Context (parseJSON : gostring -> option goval).

(** The calls of the second layer with what they answer, and its value. *)
Inductive graphLayer (tid sub name : gostring) : trace attrR -> gostring -> Prop :=
  | graph_unsafe : IsSafeCypherLiteral sub && IsSafeCypherLiteral name = false ->
      graphLayer tid sub name [] []
  | graph_closed : IsSafeCypherLiteral sub && IsSafeCypherLiteral name = true ->
      graphLayer tid sub name [ev (R := attrR) (OnStore (OpenTx tid)) false] []
  | graph_failed rows e b : IsSafeCypherLiteral sub && IsSafeCypherLiteral name = true ->
      scanAttribute rows = Err e ->
      graphLayer tid sub name
        [ev (R := attrR) (OnStore (OpenTx tid)) true;
         ev (R := attrR) (OnStore (Query (attributeQuery sub name))) rows;
         ev (R := attrR) (OnStore (CloseTx false)) b] []
  | graph_found rows v (ok : bool) : IsSafeCypherLiteral sub && IsSafeCypherLiteral name = true ->
      scanAttribute rows = Ok v ->
      graphLayer tid sub name
        [ev (R := attrR) (OnStore (OpenTx tid)) true;
         ev (R := attrR) (OnStore (Query (attributeQuery sub name))) rows;
         ev (R := attrR) (OnStore (CloseTx true)) ok] (if ok then v else []).

Definition defaultLayer (tid name : gostring) (t : trace attrR) (v : gostring) : Prop :=
  exists r, t = [ev (R := attrR) (TenantDefaults tid) r] /\
    v = match r with None | Some [] => [] | Some raw => tenantDefault parseJSON raw name end.

(** A layer that is there, or not. *)
Definition layerOf (has : bool) (layer : trace attrR -> gostring -> Prop) (t : trace attrR) (v : gostring) : Prop :=
  if has then layer t v else t = [] /\ v = [].

Lemma assertSafe_ok s : IsSafeCypherLiteral s = true -> assertSafeCypherLiteral s = Ok s.
Proof.
  unfold IsSafeCypherLiteral, assertSafeCypherLiteral, SanitizeCypherLiteral.
  by destruct (sanitizeLoop s 0).
Qed.

Lemma assertSafe_err s : IsSafeCypherLiteral s = false -> exists e, assertSafeCypherLiteral s = Err e.
Proof.
  unfold IsSafeCypherLiteral, assertSafeCypherLiteral, SanitizeCypherLiteral.
  destruct (sanitizeLoop s 0); [|done]. cbn. eauto.
Qed.

Lemma layer2Graph_run tid sub name (o : env attrR) h :
  let '(v, t) := run o h (layer2Graph tid sub name) in graphLayer tid sub name t v.
Proof.
  unfold layer2Graph. destruct (IsSafeCypherLiteral sub) eqn:Hs; [|destruct (assertSafe_err _ Hs) as [e ->]].
  2: { cbn [run]. apply graph_unsafe. by rewrite Hs. }
  rewrite assertSafe_ok by done. destruct (IsSafeCypherLiteral name) eqn:Hn; [|destruct (assertSafe_err _ Hn) as [e ->]].
  2: { cbn [run]. apply graph_unsafe. by rewrite Hs, Hn. }
  assert (IsSafeCypherLiteral sub && IsSafeCypherLiteral name = true) as Hsn by by rewrite Hs, Hn.
  rewrite assertSafe_ok by done. unfold inTenant, query. cbn [onStore bind run].
  destruct (o h (OnStore (OpenTx tid))) eqn:E1; cbn [onStore bind run].
  2: { by apply graph_closed. }
  set (h1 := h ++ _). destruct (o h1 (OnStore (Query (attributeQuery sub name)))) as [rows|] eqn:E2;
    cbn [onStore bind run].
  - destruct (scanAttribute (Some rows)) as [v|e] eqn:Ec; cbn [onStore bind run];
      set (h2 := h1 ++ _).
    + destruct (o h2 (OnStore (CloseTx true))) eqn:E3; cbn [onStore bind run].
      * by apply (graph_found tid sub name (Some rows) v true).
      * by apply (graph_found tid sub name (Some rows) v false).
    + by eapply graph_failed.
  - by eapply (graph_failed tid sub name None).
Qed.

Lemma orElse_run p q (o : env attrR) h :
  let '(v, t) := run o h (orElse p q) in
  exists v1 t1, run o h p = (v1, t1) /\
    (v1 <> [] /\ v = v1 /\ t = t1 \/
     v1 = [] /\ exists t2, run o (h ++ t1) q = (v, t2) /\ t = t1 ++ t2).
Proof.
  unfold orElse. rewrite run_bind. destruct (run o h p) as [v1 t1] eqn:E. case_bool_decide as Hv.
  - destruct (run o (h ++ t1) q) as [v t2] eqn:E2. exists v1, t1. split; [done|]. right. eauto.
  - cbn [run]. rewrite app_nil_r. exists v1, t1. split; [done|]. by left.
Qed.

(** The three layers: a claim that is there wins and nothing is asked; without a
    tenant nothing else is asked; otherwise the graph is asked, for the tenant of
    the request and only about names it can hold literally, and the defaults of
    the tenant only if the graph gave nothing, for whatever reason.  The answer is
    that of the first layer that has one, and an error never surfaces. *)
Theorem Resolve_layers deps tenant sub name claims (o : env attrR) h :
  let '(v, t) := run o h (Resolve parseJSON deps tenant sub name claims) in
  let claim := default [] (keyed name claims) in
  claim <> [] /\ v = claim /\ t = [] \/
  claim = [] /\
  match tenant with
  | None => v = [] /\ t = []
  | Some tid =>
      exists t2 v2 t3, t = t2 ++ t3 /\ layerOf (has_gc deps) (graphLayer tid sub name) t2 v2 /\
        (v2 <> [] /\ v = v2 /\ t3 = [] \/
         v2 = [] /\ layerOf (has_adminPool deps) (defaultLayer tid name) t3 v)
  end.
Proof.
  pose proof (orElse_run (Ret (default [] (keyed name claims)))
    (orElse (onTenant (has_gc deps) tenant (fun tid => layer2Graph tid sub name))
       (onTenant (has_adminPool deps) tenant (fun tid => layer3TenantDefault parseJSON tid name))) o h) as H.
  unfold Resolve. destruct (run o h (orElse _ _)) as [v t]. cbn zeta.
  destruct H as (v1 & t1 & [= <- <-] & [H|(Hc & t' & H & ->)]); [by left|right]. split; [done|].
  rewrite app_nil_r in H. cbn [app].
  pose proof (orElse_run (onTenant (has_gc deps) tenant (fun tid => layer2Graph tid sub name))
       (onTenant (has_adminPool deps) tenant (fun tid => layer3TenantDefault parseJSON tid name)) o h) as H2.
  rewrite H in H2. destruct H2 as (v2 & t2 & E2 & H2).
  destruct tenant as [tid|]; cbn [onTenant] in *.
  2: { cbn [run] in *. injection E2 as <- <-. destruct H2 as [(? & _)|(_ & t3 & [= <- <-] & ->)]; done. }
  assert (layerOf (has_gc deps) (graphLayer tid sub name) t2 v2) as Hg.
  { destruct (has_gc deps); cbn [layerOf]; [|by injection E2 as <- <-].
    pose proof (layer2Graph_run tid sub name o h) as Hg. by rewrite E2 in Hg. }
  destruct H2 as [(Hv & -> & ->)|(Hv & t3 & E3 & ->)].
  - exists t2, v2, []. rewrite app_nil_r. by split_and!; [| |left].
  - exists t2, v2, t3. split_and!; [done|done|right; split; [done|]].
    destruct (has_adminPool deps); cbn [layerOf]; [|by injection E3 as <- <-].
    unfold layer3TenantDefault in E3. cbn [run] in E3. injection E3 as <- <-. eexists. by split.
Qed.

(** The values of a type. *)
Definition hasType (ty : celType) (v : goval) : Prop :=
  match ty, v with
  | StringType, VString _ | BoolType, VBool _ | DynMapType, VMap _ => True
  | StringMapType, VMap m => Forall (fun e => is_Some (stringOf e.2)) m
  | _, _ => False
  end.

(** The functions are total and typed: a call of a declared function with as many
    arguments as declared, of whatever values, returns a value of the declared
    type, whatever the graph and the database answer; only one of them calls out. *)
Theorem callFunction_typed regexpCompile act f args (o : env attrR) h :
  f ∈ registerManifestFunctions -> length args = length (fn_Args f) ->
  let '(v, t) := run o h (callFunction parseJSON regexpCompile act (fn_Function f) args) in
  (exists x, v = Some x /\ hasType (fn_Result f) x) /\
  (fn_Function f <> principalAttributeFunctionName -> t = []).
Proof.
  intros Hf Hl. unfold registerManifestFunctions in Hf. unfold callFunction.
  repeat (apply elem_of_cons in Hf as [->|Hf]); [..|by apply elem_of_nil in Hf];
    cbn [fn_Args length fn_Function fn_Result] in *.
  all: destruct args as [|a1 [|a2 [|a3 [|]]]]; cbn [length] in Hl; try lia.
  all: try (rewrite bool_decide_eq_false_2 by done; cbn [run]; split; [|done]; eexists; split; [reflexivity|]; try exact I).
  - apply Forall_map, Forall_forall. intros e _. cbn. by eexists.
  - rewrite bool_decide_eq_true_2 by done. rewrite run_bind.
    destruct (run o h (principalAttributeEval _ _ _)) as [s t]. cbn [run]. split; [|done]. by eexists.
Qed.

(** What the decoding of the defaults looks at. *)
Definition stringOrNull (e : gostring * goval) : bool :=
  match e.2 with VString _ | VNil => true | _ => false end.

(** The defaults of a tenant count as a whole: if all of them are strings, each
    is found under its name; a single other value - the doc says it counts as
    empty - makes every one of them disappear. *)
Theorem tenantDefault_spec raw m name :
  parseJSON raw = Some (VMap m) ->
  tenantDefault parseJSON raw name =
    if forallb stringOrNull m then default [] (keyed name m ≫= stringOf) else [].
Proof.
  intros H. unfold tenantDefault. rewrite H. cbn [mbind option_bind unmarshalStrings].
  set (f := fun e : gostring * goval => match e.2 with VString s => Some (e.1, s) | VNil => Some (e.1, []) | _ => None end).
  assert (forall l, mapM f l = if forallb stringOrNull l
    then Some (map (fun e => (e.1, default [] (stringOf e.2))) l) else None) as Hm.
  { induction l as [|[k v] l IH]; [done|]. cbn [mapM forallb map].
    destruct v; cbn [f fst snd stringOrNull andb mbind option_bind]; try done; rewrite IH; by destruct (forallb _ l). }
  rewrite Hm. destruct (forallb stringOrNull m); [|done]. cbn [mbind option_bind].
  rewrite (keyed_map name (fun v => default [] (stringOf v))). by destruct (keyed name m).
Qed.
End resolver.

(** ** Evaluation with the compile cache *)

Section cache.
Context (parseJSON : gostring -> option goval).
Context (sha256 : gostring -> gostring).
Context {Program : Type} (compileProgram : gostring -> option Program).
Context (contextEval : Program -> activation -> attrProg celAnswer).
Context {C : Type} `{!Lru celKey Program C}.
Abbreviation CompileOrGet := (CompileOrGet sha256 compileProgram).
Abbreviation EvaluateInputs := (EvaluateInputs sha256 compileProgram contextEval).

(** Every program of the cache was compiled from a text with the digest of its key. *)
Definition celCacheOk (c : C) : Prop :=
  forall k p, lru_contents c !! k = Some p ->
    exists text, ck_ASTHash k = sha256 text /\ compileProgram text = Some p.

(** The caches of a process: what calls of [CompileOrGet] leave. *)
Inductive celStep : C -> C -> Prop :=
  | cel_compile id text c : celStep c (CompileOrGet id text c).2.

Lemma celCacheOk_step id text c : celCacheOk c -> celCacheOk (CompileOrGet id text c).2.
Proof.
  intros Hc. unfold Cel.CompileOrGet. set (key := mkCelKey id (sha256 text)).
  pose proof (lru_get_contents key c) as Hg. destruct (lru_get key c) as [[p|] c'] eqn:E; cbn [snd] in *;
    [intros k p' Hk; rewrite Hg in Hk; by apply Hc|].
  destruct (compileProgram text) as [p|] eqn:Ep; cbn [snd]; intros k p' Hk.
  - apply lru_add_inv in Hk as [[-> ->]|Hk]; [by exists text|]. rewrite Hg in Hk. by apply Hc.
  - rewrite Hg in Hk. by apply Hc.
Qed.

Lemma CompileOrGet_spec id text c :
  celCacheOk c -> (forall text', sha256 text' = sha256 text -> text' = text) ->
  (CompileOrGet id text c).1 =
    match compileProgram text with Some p => Ok p | None => Err ErrCelCompileFailed end.
Proof.
  intros Hc Hinj. unfold Cel.CompileOrGet. set (key := mkCelKey id (sha256 text)).
  pose proof (lru_get_value key c) as Hv. destruct (lru_get key c) as [[p|] c']; cbn [fst] in *.
  - symmetry in Hv. apply Hc in Hv as (text' & Hh & Hp). apply symmetry, Hinj in Hh as ->. by rewrite Hp.
  - by destruct (compileProgram text).
Qed.

(** (C31) The compile cache cannot be observed: whatever was compiled before, an
    evaluation makes the calls and gives the decision of one that compiles its own
    text, as long as no other text has the same digest; and it allows only if the
    text compiles and the program answered true. *)
Theorem cached_evaluation c0 c tenant p i (o : env attrR) h :
  lru_contents c0 = ∅ -> rtc celStep c0 c ->
  (forall text', sha256 text' = sha256 (pol_Text p) -> text' = pol_Text p) ->
  let '((d, _), t) := run o h (EvaluateInputs tenant p i c) in
  match compileProgram (pol_Text p) with
  | None => d = Err ErrCelCompileFailed /\ t = []
  | Some prog =>
      let '(a, t') := run o h (contextEval prog (activationOf tenant i)) in
      d = Evaluate p a /\ t = t' /\ (forall dec, d = Ok dec -> dec_Action dec = ActionAllow -> a = BoolValue true)
  end.
Proof.
  intros H0 Hr Hinj. assert (celCacheOk c) as Hc.
  { assert (celCacheOk c0) as Hc0 by (intros k q Hk; by rewrite H0, lookup_empty in Hk).
    clear -Hc0 Hr. induction Hr as [|? ? ? [] ? IH]; [done|]. by apply IH, celCacheOk_step. }
  pose proof (CompileOrGet_spec (pol_ID p) (pol_Text p) c Hc Hinj) as H. unfold Cel.EvaluateInputs.
  destruct (Cel.CompileOrGet _ _ _ _ c) as [r c'] eqn:E. cbn [fst] in H. subst r.
  destruct (compileProgram (pol_Text p)) as [prog|]; [|done]. rewrite run_bind.
  destruct (run o h (contextEval prog _)) as [a t']. cbn [run]. rewrite app_nil_r.
  split_and!; [done|done|]. intros dec Hd Ha. destruct a as [| | |[]|]; cbn in Hd; try done.
  injection Hd as <-. done.
Qed.
End cache.

(** ** Examples *)

Module CelDemo.
(** A reader for one text. *)
Definition parse (s : gostring) : option goval :=
  if bool_decide (s = "{}") then Some (VMap [])
  else Some (VMap [("region" : gostring, VString "eu"); ("level" : gostring, VInt 3)]).

Lemma tenantDefault_spec_witness : tenantDefault parse "x" "region" = [].
Proof.
  rewrite (tenantDefault_spec parse "x" [("region" : gostring, VString "eu"); ("level" : gostring, VInt 3)]);
    reflexivity.
Defined.

(** Nothing outside works. *)
Definition env0 : env attrR := fun _ c =>
  match c with
  | OnStore c => match c with Query _ => None | OpenTx _ | CloseTx _ => false end
  | TenantDefaults _ => None
  end.

Definition bare : activation := mkActivation VNil VNil VNil None.
Definition regionArgs : list refVal := [Native (VMap [("location_region" : gostring, VString "eu")])].

Lemma callFunction_typed_witness :
  exists x, (run env0 [] (callFunction parse (fun _ => None) bare "location.region" regionArgs)).1 = Some x /\
    hasType StringType x.
Proof.
  pose proof (callFunction_typed parse (fun _ => None) bare
    (mkOverload "location.region" "location_region_map_string" [DynMapType] StringType) regionArgs env0 []
    (list_elem_of_lookup_2 registerManifestFunctions 3 _ eq_refl) eq_refl) as H.
  cbn [fn_Function fn_Result] in H. destruct (run _ _ _) as [v t]. apply H.
Defined.

(** A program is its text here, and answers whether it is [true]. *)
Definition compile (text : gostring) : option gostring := if bool_decide (text = []) then None else Some text.
Definition eval (p : gostring) (act : activation) : attrProg celAnswer :=
  Ret (BoolValue (bool_decide (p = "true"))).
Definition sample : Policy := mkPolicy "p1" "schema" "true".
Definition inputs : Inputs := gatewayInputs None [] [] None None.
Definition cache : Type := bounded celKey gostring.
#[global] Instance cache_lru : Lru celKey gostring cache := bounded_Lru 2.
Definition cache0 : cache := mkBounded [].
Definition cache1 : cache := (CompileOrGet Datatypes.id compile "p1" "true" cache0).2.

Lemma cached_evaluation_witness :
  (run env0 [] (EvaluateInputs Datatypes.id compile eval None sample inputs cache1)).1.1 =
    Ok (mkDecision ActionAllow []).
Proof.
  pose proof (cached_evaluation Datatypes.id compile eval cache0 cache1 None sample inputs env0 [] eq_refl
    (rtc_once _ _ (cel_compile Datatypes.id compile "p1" "true" cache0)) (fun _ H => H)) as H.
  destruct (run _ _ _) as [[d c] t]. by destruct H as (-> & _).
Defined.
End CelDemo.
