(* ===== verification/CelArtifact.v ===== *)
(** * The artifact of a CEL policy

    [internal/policy/compiler/cel_artifact.go]: the compilation of an expression
    with the names it refers to, and the manifest that is stored for it.  It is
    what the compiler of [Compiler] calls for a policy in CEL.  Compiling an
    expression, its syntax tree and the decoding of JSON are parameters. *)

From stdpp Require Import sorting.
From S2P Require Import Prelude Effects Lru Order Decimal JsonText PolicyStore Gateway Dynamic Cel CelSpec Compiler.
From Stdlib Require Import Lia.
#[local] Open Scope go_scope.

Record CELArtifact := mkCELArtifact {
  ca_Type : gostring; ca_PolicyID : gostring; ca_Version : Z; ca_Source : gostring;
  ca_Bindings : list gostring; ca_Checksum : gostring
}.

Definition celArtifactSchemaVersion : Z := 1.

Definition celArtifactType : gostring := "cel".

(** ** [Encode]: the fields in the order of the struct *)

Definition fieldText (name text : gostring) : gostring := quoteJSON name ++ ":" ++ text.

Definition Encode (a : CELArtifact) : gostring :=
  "{" ++ join "," [fieldText "type" (encodeValue (JString (ca_Type a)));
                   fieldText "policy_id" (encodeValue (JString (ca_PolicyID a)));
                   fieldText "version" (Sprintf_d (ca_Version a));
                   fieldText "source" (encodeValue (JString (ca_Source a)));
                   fieldText "bindings" (encodeValue (JStrings (ca_Bindings a)));
                   fieldText "checksum" (encodeValue (JString (ca_Checksum a)))] ++ "}".

(** [json.Unmarshal] into the struct, then the two checks. *)
Definition DecodeCELArtifact (unmarshal : gostring -> option CELArtifact) (s : gostring)
  : result compile_err CELArtifact :=
  match unmarshal s with
  | None => Err ErrCompileFailed
  | Some a =>
      if negb (bool_decide (ca_Type a = celArtifactType)) then Err ErrCompileFailed
      else if negb (bool_decide (ca_Version a = celArtifactSchemaVersion)) then Err ErrCompileFailed
      else Ok a
  end.

(** ** [CompileCELArtifact] *)

(** A node of the tree, as far as the visitor looks at it. *)
Inductive expr := IdentExpr (name : gostring) | OtherExpr.

Definition identOf (e : expr) : option gostring :=
  match e with IdentExpr name => Some name | OtherExpr => None end.

Section artifact.
Context (sha256 : gostring -> gostring).
Context {Program : Type} (compileProgram : gostring -> option Program).
Context {C : Type} `{!Lru celKey Program C}.
(** [env.Compile], and the nodes of a tree in preorder. *)
Context {Ast : Type} (envCompile : gostring -> option Ast) (preOrder : Ast -> list expr).

(** The keys of the map [seen], sorted. *)
Definition extractBindings (a : Ast) : list gostring :=
  sortStrings (remove_dups (omap identOf (preOrder a))).

Definition manifest (policyID source : gostring) (a : Ast) : CELArtifact :=
  mkCELArtifact celArtifactType policyID celArtifactSchemaVersion source (extractBindings a) (hexEncode (sha256 source)).

Definition CompileCELArtifact (policyID source : gostring) (cache : C)
  : result compile_err (CELArtifact * Program) * C :=
  let '(r, cache) := CompileOrGet sha256 compileProgram policyID source cache in
  (match r with
   | Err _ => Err ErrCompileFailed
   | Ok prog =>
       match envCompile source with
       | None => Err ErrCompileFailed
       | Some a => Ok (manifest policyID source a, prog)
       end
   end, cache).

(** What [compileArtifact] of [Compiler] stores as the body of a CEL policy. *)
Definition encodedCEL (cache : C) (policyID source : gostring) : option gostring :=
  match (CompileCELArtifact policyID source cache).1 with Ok (a, _) => Some (Encode a) | Err _ => None end.

(** ** Lemmas *)

(** The names are those of the expression, each once and in order. *)
Theorem extractBindings_spec a :
  StronglySorted stringLeq (extractBindings a) /\ NoDup (extractBindings a) /\
  forall x, x ∈ extractBindings a <-> IdentExpr x ∈ preOrder a.
Proof.
  unfold extractBindings, sortStrings. split_and!.
  - apply StronglySorted_merge_sort; apply _.
  - rewrite (merge_sort_Permutation stringLeq). apply NoDup_remove_dups.
  - intros x. rewrite (merge_sort_Permutation stringLeq), elem_of_remove_dups, list_elem_of_omap. split.
    + by intros ([]&Hin&[= ->]).
    + intros Hin. by exists (IdentExpr x).
Qed.

(** The cache is not observed: the artifact is that of the policy's own text. *)
Lemma CompileCELArtifact_spec policyID source c :
  celCacheOk sha256 compileProgram c -> (forall t, sha256 t = sha256 source -> t = source) ->
  (CompileCELArtifact policyID source c).1 =
    match compileProgram source, envCompile source with
    | Some prog, Some a => Ok (manifest policyID source a, prog)
    | _, _ => Err ErrCompileFailed
    end.
Proof.
  intros Hc Hi. unfold CompileCELArtifact. pose proof (CompileOrGet_spec _ _ policyID source c Hc Hi) as H.
  destruct (CompileOrGet _ _ policyID source c) as [r c']. cbn [fst] in *. subst r. by destruct (compileProgram source).
Qed.
End artifact.

(** ** The stored text determines the artifact *)

Definition validArtifact (a : CELArtifact) : bool :=
  validUTF8 (ca_Type a) && validUTF8 (ca_PolicyID a) && validUTF8 (ca_Source a) &&
  forallb validUTF8 (ca_Bindings a) && validUTF8 (ca_Checksum a).

Lemma fieldText_inj name v1 v2 r1 r2 :
  validValue v1 = true -> validValue v2 = true ->
  fieldText name (encodeValue v1) ++ r1 = fieldText name (encodeValue v2) ++ r2 -> v1 = v2 /\ r1 = r2.
Proof.
  intros H1 H2 E. unfold fieldText in E. rewrite <- !app_assoc in E. apply app_inv_head, app_inv_head in E.
  by apply encodeValue_inj in E.
Qed.

(** The text of an artifact whose strings are valid determines it: no two policies,
    sources or sets of names have the same one. *)
Theorem Encode_inj a b :
  ca_Version a = ca_Version b -> validArtifact a = true -> validArtifact b = true ->
  Encode a = Encode b -> a = b.
Proof.
  destruct a as [ta pa va sa ba ka], b as [tb pb vb sb bb kb]; cbn [ca_Version]. intros ->.
  unfold validArtifact; cbn [ca_Type ca_PolicyID ca_Source ca_Bindings ca_Checksum].
  rewrite !andb_true_iff. intros ((((Ha1&Ha2)&Ha3)&Ha4)&Ha5) ((((Hb1&Hb2)&Hb3)&Hb4)&Hb5) E.
  unfold Encode in E; cbn [join ca_Type ca_PolicyID ca_Version ca_Source ca_Bindings ca_Checksum] in E.
  rewrite <- !app_assoc in E. apply app_inv_head in E.
  apply fieldText_inj in E as [[= ->] E]; [|done..]. apply app_inv_head in E.
  apply fieldText_inj in E as [[= ->] E]; [|done..]. apply app_inv_head in E.
  apply app_inv_head, app_inv_head in E.
  apply fieldText_inj in E as [[= ->] E]; [|done..]. apply app_inv_head in E.
  apply fieldText_inj in E as [[= ->] E]; [|done..]. apply app_inv_head in E.
  by apply fieldText_inj in E as [[= ->] _].
Qed.

(** Outside of UTF-8 the text does not determine the source, and the checksum in
    it is of another text than the source in it. *)
Lemma Encode_invalid :
  let a := mkCELArtifact celArtifactType "p1" 1 [ascii_of_N 255] [] "ab" in
  let b := mkCELArtifact celArtifactType "p1" 1 [ascii_of_N 254] [] "ab" in
  Encode a = Encode b /\ ca_Source a <> ca_Source b.
Proof. split; [vm_compute; reflexivity|done]. Qed.
