(* ===== verification/Catalogs.v ===== *)
(** * The catalog adapters

    [internal/iceberg]: the interface [IcebergCatalogClient] and its four
    implementations over the REST client of iceberg-go ([polaris], [nessie],
    [glue], [unity]), with their configurations, and the dispatch of
    [internal/gateway/iceberg/forwarder.go].  The four packages hold copies of
    one text that differ in the classification of errors, in the guard of
    Polaris and in [New]: the text is given once, over a [flavor], and each
    package is a Module.  The REST client, the loading of AWS credentials and
    the compaction coordinator are calls; an error of the client is what the
    adapters read of it, whether it is [ErrNoSuchTable] and its text.  An
    instant is in nanoseconds. *)

From S2P Require Import Prelude Effects Decimal PolicyStore JsonText IngestMeta Credvend Gateway Dynamic Cel.
From Stdlib Require Import Lia.
#[local] Open Scope go_scope.

(** ** What the REST client gives *)

Record upErr := mkUp { up_noSuchTable : bool; up_text : gostring }.

(** Pointers and interfaces that may be nil are options. *)
Record restField := mkRestField {
  rf_ID : Z; rf_Name : gostring; rf_Type : option gostring; rf_Required : bool; rf_Doc : gostring
}.
Record restPartField := mkRestPart {
  rp_SourceID : Z; rp_Name : gostring; rp_Transform : option gostring
}.
Record restSnapshot := mkRestSnapshot {
  rs_SnapshotID : Z; rs_Parent : option Z; rs_TimestampMs : Z; rs_Operation : option gostring
}.
Record restMetadata := mkRestMetadata {
  rm_UUID : gostring; rm_Schema : option (list restField);
  rm_SpecID : Z; rm_Partition : list restPartField;
  rm_Current : option restSnapshot; rm_Snapshots : list restSnapshot;
  rm_Properties : list (gostring * gostring)
}.
Record restTable := mkRestTable {
  rt_Location : gostring; rt_Metadata : option restMetadata; rt_Properties : gmap gostring gostring
}.

(** The typed requirements and updates of iceberg-go that the adapters make. *)
Inductive restRequirement :=.
Inductive restUpdate := RemoveSnapshots (ids : list Z).

(** ** Data ([client.go]) *)

Record CommitRequest := mkCommitRequest {
  Requirements : list (list (gostring * goval)); Updates : list (list (gostring * goval))
}.

Record Capabilities := mkCapabilities {
  cap_Name : gostring; cap_SupportsBranches : bool; cap_SupportsCredVend : bool;
  cap_SupportsWebhooks : bool; cap_MaxNamespaceDepth : Z
}.

(** The errors, by the sentinel [errors.Is] finds. *)
Inductive cat_err :=
  | ErrTableNotFound
  | ErrCommitConflict
  | ErrCredentialsExpired
  | ErrAdapterStub
  | ErrLakeFormationDenied
  | ErrInvalidConfig (msg : gostring)
  | ErrConfigUnmarshal
  | ErrCatalogKindUnsupported (kind : gostring)
  | Upstream (e : upErr)
  | NotConverted
  | GuardFailed
  | VendFailed (e : polaris_err)
  | Setup (msg : gostring).

(** What a method returns: a value, an error, or a panic. *)
Inductive ret (A : Type) := Val (a : A) | Fail (e : cat_err) | Panics.
Arguments Val {A} a.
Arguments Fail {A} e.
Arguments Panics {A}.

(** ** Calls *)

(** The transports of a client, from the one the REST client sees inwards. *)
Inductive transport :=
  | SessionPolicyTransport
  | SigV4Transport (region : gostring)
  | RefreshOn401
  | DatabricksContext (workspaceID : gostring).

(** The options of [rest.NewCatalog]. *)
Record restOptions := mkRest {
  ro_name : gostring; ro_uri : gostring; ro_credential : option gostring;
  ro_authURI : option gostring; ro_scope : option gostring; ro_warehouse : gostring;
  ro_prefix : option gostring; ro_props : list (gostring * gostring);
  ro_transport : list transport
}.

Inductive catCall :=
  | RestListTables (ns : list gostring)
  | RestLoadTable (ident : list gostring) (sessionPolicy : option gostring)
  | RestCommitTable (ident : list gostring) (requirements : list restRequirement)
      (updates : list restUpdate)
  | GuardExpireSnapshots (ref : TableRef) (candidateIDs : list gostring)
  | NewCatalog (o : restOptions)
  | LoadDefaultConfig (region : gostring).

Definition catR (c : catCall) : Type :=
  match c with
  | RestListTables _ => list (result upErr (list gostring))
  | RestLoadTable _ _ => result upErr (option restTable)
  | RestCommitTable _ _ _ => result upErr (option restMetadata * gostring)
  | GuardExpireSnapshots _ _ => option (list gostring * list gostring)
  | NewCatalog _ | LoadDefaultConfig _ => bool
  end.

Definition catProg (A : Type) : Type := prog catR (ret A).

(** [iceberg.IcebergCatalogClient]. *)
Record IcebergCatalogClient := mkClient {
  cl_ListTables : gostring -> catProg (list TableRef);
  cl_GetTable : TableRef -> catProg (option TableMetadata);
  cl_LoadTable : TableRef -> catProg (option TableMetadata);
  cl_CommitTable : TableRef -> CommitRequest -> catProg CommitResult;
  cl_ExpireSnapshots : TableRef -> Z -> catProg unit;
  cl_Capabilities : Capabilities;
  cl_IssueScopedSTSCredentials : TableRef -> gostring -> catProg STSCredentials
}.

(** ** Conversions; each package has its copy *)

Definition convertSchema (sc : option (list restField)) : list SchemaField :=
  map (fun f => mkField (rf_ID f) (rf_Name f) (default [] (rf_Type f)) (rf_Required f) (rf_Doc f))
    (default [] sc).

Definition convertPartitionSpec (fields : list restPartField) : list PartitionField :=
  map (fun f => mkPartField (rp_SourceID f) (default [] (rp_Transform f)) (rp_Name f)) fields.

(** The properties of the summary, which nothing behind the adapters reads, are
    left out. *)
Definition convertSnapshots (l : list restSnapshot) (fallbackMetaLoc : gostring) : list Snapshot :=
  map (fun s => mkSnapshot (rs_SnapshotID s) (default 0%Z (rs_Parent s)) (rs_TimestampMs s)
                  (default [] (rs_Operation s)) fallbackMetaLoc) l.

Definition convertTable (tbl : option restTable) : option TableMetadata :=
  match tbl with
  | None => None
  | Some t =>
      Some (match rt_Metadata t with
            | None => mkMetadata [] [] 0 [] 0 (rt_Location t) [] []
            | Some meta =>
                mkMetadata (rm_UUID meta) (convertSchema (rm_Schema meta)) (rm_SpecID meta)
                  (convertPartitionSpec (rm_Partition meta))
                  (match rm_Current meta with Some s => rs_SnapshotID s | None => 0%Z end)
                  (rt_Location t) (convertSnapshots (rm_Snapshots meta) (rt_Location t))
                  (rm_Properties meta)
            end)
  end.

Definition currentSnapshot (meta : option restMetadata) : option restSnapshot :=
  meta ≫= rm_Current.

(** Only nothing can be converted. *)
Definition convertRequirements (l : list (list (gostring * goval))) : option (list restRequirement) :=
  match l with [] => Some [] | _ :: _ => None end.
Definition convertUpdates (l : list (list (gostring * goval))) : option (list restUpdate) :=
  match l with [] => Some [] | _ :: _ => None end.

(** ** Classification of errors *)

Definition wordByte (c : ascii) : bool :=
  isUpper c || isLower c || isDigit c || bool_decide (c = "_"%char).

Definition headWord (s : gostring) : bool :=
  match s with c :: _ => wordByte c | [] => false end.

(** [\b(?:w1|w2|...)\b] for words; [prev] tells whether the byte before is of a
    word. *)
Fixpoint wordMatch (prev : bool) (ws : list gostring) (s : gostring) : bool :=
  (negb prev && existsb (fun w => hasPrefix w s && negb (headWord (drop (length w) s))) ws)
  || match s with [] => false | c :: s => wordMatch (wordByte c) ws s end.

Definition authWords : list gostring := ["401"; "403"; "Unauthorized"; "Forbidden"].
Definition authErrRE (msg : gostring) : bool := wordMatch false authWords msg.

Definition conflictWords : list gostring := ["409"; "CommitFailedException"; "commit conflict"; "Conflict"].

(** What differs between the copies: which texts are conflicts, how the other
    errors translate, and whether a compaction coordinator is configured. *)
Record flavor := mkFlavor {
  fl_isCommitConflict : gostring -> bool;
  fl_translateError : upErr -> cat_err;
  fl_hasCoordinator : bool
}.

(** ** The methods *)

Section methods.
Context (fl : flavor).

(** The loop over the identifiers. *)
Fixpoint collectRefs (out : list TableRef) (l : list (result upErr (list gostring)))
  : ret (list TableRef) :=
  match l with
  | [] => Val out
  | Err e :: _ => Fail (fl_translateError fl e)
  | Ok ident :: l =>
      match last ident with
      | None => collectRefs out l
      | Some name => collectRefs (out ++ [mkTableRef (removelast ident) name]) l
      end
  end.

Definition ListTables (namespace : gostring) : catProg (list TableRef) :=
  Do (R := catR) (RestListTables [namespace]) (fun l : list (result upErr (list gostring)) =>
  Ret (collectRefs [] l)).

Definition LoadTable (ref : TableRef) : catProg (option TableMetadata) :=
  Do (R := catR) (RestLoadTable (toIdentifier ref) None)
    (fun r : result upErr (option restTable) =>
  Ret (match r with
       | Err e => Fail (fl_translateError fl e)
       | Ok tbl => Val (convertTable tbl)
       end)).

Definition GetTable (ref : TableRef) : catProg (option TableMetadata) := LoadTable ref.

(** An error of a commit. *)
Definition commitError (e : upErr) : cat_err :=
  if fl_isCommitConflict fl (up_text e) then ErrCommitConflict else fl_translateError fl e.

Definition CommitTable (ref : TableRef) (req : CommitRequest) : catProg CommitResult :=
  match convertRequirements (Requirements req), convertUpdates (Updates req) with
  | Some requirements, Some updates =>
      Do (R := catR) (RestCommitTable (toIdentifier ref) requirements updates)
        (fun r : result upErr (option restMetadata * gostring) =>
      Ret (match r with
           | Err e => Fail (commitError e)
           | Ok (meta, newLoc) =>
               Val (mkCommitResult newLoc
                      (match currentSnapshot meta with Some c => rs_SnapshotID c | None => 0%Z end))
           end))
  | _, _ => Ret (Fail NotConverted)
  end.

(** [olderThan.UnixMilli()]. *)
Definition UnixMilli (t : Z) : Z := (t / 1000000)%Z.

Definition doomedBefore (olderThan : Z) (l : list restSnapshot) : list Z :=
  map rs_SnapshotID (List.filter (fun s => rs_TimestampMs s <? UnixMilli olderThan)%Z l).

Definition removeSnapshots (ref : TableRef) (doomed : list Z) : catProg unit :=
  Do (R := catR) (RestCommitTable (toIdentifier ref) [] [RemoveSnapshots doomed])
    (fun r : result upErr (option restMetadata * gostring) =>
  Ret (match r with Err e => Fail (commitError e) | Ok _ => Val tt end)).

Definition ExpireSnapshots (ref : TableRef) (olderThan : Z) : catProg unit :=
  Do (R := catR) (RestLoadTable (toIdentifier ref) None)
    (fun r : result upErr (option restTable) =>
  match r with
  | Err e => Ret (Fail (fl_translateError fl e))
  | Ok tbl =>
      match tbl ≫= rt_Metadata with
      | None => Ret Panics
      | Some meta =>
          let doomed := doomedBefore olderThan (rm_Snapshots meta) in
          if bool_decide (doomed = []) then Ret (Val tt)
          else if fl_hasCoordinator fl then
            Do (R := catR) (GuardExpireSnapshots ref (map Sprintf_d doomed))
              (fun r : option (list gostring * list gostring) =>
            match r with
            | None => Ret (Fail GuardFailed)
            | Some (allowed, _) =>
                if bool_decide (allowed = []) then Ret (Val tt)
                else removeSnapshots ref (omap Sscanf_d allowed)
            end)
          else removeSnapshots ref doomed
      end
  end).

(** The three catalogs without vending. *)
Definition stubSTS (table : TableRef) (region : gostring) : catProg STSCredentials :=
  Ret (Fail ErrAdapterStub).
End methods.

(** ** Common parts of the configurations *)

(** The first check that fails, with its message. *)
Fixpoint firstFailure (checks : list (bool * gostring)) : option gostring :=
  match checks with
  | [] => None
  | (fails, msg) :: checks => if fails then Some msg else firstFailure checks
  end.

Definition isEmpty (s : gostring) : bool := bool_decide (s = []).

Definition orDefault (s d : gostring) : gostring := if isEmpty s then d else s.

(** The errors that three of the packages share: no such table, then the words
    of an authentication error. *)
Definition translateByWords (e : upErr) : cat_err :=
  if up_noSuchTable e then ErrTableNotFound
  else if authErrRE (up_text e) then ErrCredentialsExpired
  else Upstream e.

Definition conflictByWords (msg : gostring) : bool := existsb (contains msg) conflictWords.

(** What [New] does after the options are built. *)
Definition connect (o : restOptions) (c : IcebergCatalogClient) : catProg IcebergCatalogClient :=
  Do (R := catR) (NewCatalog o) (fun ok : bool =>
  Ret (if ok then Val c else Fail (Setup "new catalog"))).

Definition ifValid {A} (checked : option gostring) (k : catProg A) : catProg A :=
  match checked with Some msg => Ret (Fail (ErrInvalidConfig msg)) | None => k end.

(** ** Polaris *)

Module Polaris.

(** [hasCoordinator] tells whether [CompactionCoordinator] is set; the hook of
    the integration tests on the transport is left out. *)
Record Config := mkConfig {
  Endpoint : gostring; Warehouse : gostring; ClientID : gostring; ClientSecret : gostring;
  Scope : gostring; CredentialMode : gostring; hasCoordinator : bool
}.

Definition Validate (c : Config) : option gostring :=
  firstFailure
    [(isEmpty (Endpoint c), "Endpoint required" : gostring);
     (isEmpty (ClientID c), "ClientID required" : gostring);
     (isEmpty (ClientSecret c), "ClientSecret required" : gostring);
     (isEmpty (Warehouse c), "Warehouse required" : gostring);
     (contains (ClientID c) ":", "ClientID must not contain ':'" : gostring);
     (contains (ClientSecret c) ":", "ClientSecret must not contain ':'" : gostring)].

Definition withDefaults (c : Config) : Config :=
  mkConfig (Endpoint c) (Warehouse c) (ClientID c) (ClientSecret c)
    (orDefault (Scope c) "PRINCIPAL_ROLE:ALL") (orDefault (CredentialMode c) "passthrough")
    (hasCoordinator c).

Definition translateError (e : upErr) : cat_err := translateByWords e.
Definition IsCommitConflict (msg : gostring) : bool := conflictByWords msg.

Definition flavorOf (c : Config) : flavor :=
  mkFlavor IsCommitConflict translateError (hasCoordinator c).

Definition capabilities : Capabilities := mkCapabilities "polaris" false true true 100.

Section new.
(** [time.Parse], and whether [url.Parse] accepts a text. *)
Context (timeParse : gostring -> gostring -> option Z).
Context (urlParse : gostring -> bool).

Definition IssueScopedSTSCredentials (c : Config) (table : TableRef) (region : gostring)
  : catProg STSCredentials :=
  match Build table region (Warehouse c) with
  | None => Ret (Fail (VendFailed PolicyMalformed))
  | Some policyJSON =>
      Do (R := catR) (RestLoadTable (toIdentifier table) (Some policyJSON))
        (fun r : result upErr (option restTable) =>
      Ret (match r with
           | Err e => Fail (translateError e)
           | Ok None => Panics
           | Ok (Some tbl) =>
               match parseVendedCreds timeParse (rt_Properties tbl) with
               | Err e => Fail (VendFailed e)
               | Ok s => Val (mkSTS (AccessKeyID s) (SecretAccessKey s) (SessionToken s)
                                (Expiration s) region)
               end
           end))
  end.

Definition client (c : Config) : IcebergCatalogClient :=
  let fl := flavorOf c in
  mkClient (ListTables fl) (GetTable fl) (LoadTable fl) (CommitTable fl) (ExpireSnapshots fl)
    capabilities (IssueScopedSTSCredentials c).

Definition options (c : Config) : restOptions :=
  let auth := (Endpoint c ++ "/v1/oauth/tokens")%go in
  mkRest "polaris" (Endpoint c) (Some (ClientID c ++ ":" ++ ClientSecret c)) (Some auth)
    (Some (Scope c)) (Warehouse c) None
    [("uri" : gostring, Endpoint c); ("warehouse" : gostring, Warehouse c);
     ("oauth2-server-uri" : gostring, auth); ("scope" : gostring, Scope c);
     ("header.X-Iceberg-Access-Delegation" : gostring, CredentialMode c)]
    [SessionPolicyTransport].

Definition New (cfg : Config) : catProg IcebergCatalogClient :=
  ifValid (Validate cfg) (
  let cfg := withDefaults cfg in
  if urlParse (Endpoint cfg ++ "/v1/oauth/tokens") then connect (options cfg) (client cfg)
  else Ret (Fail (Setup "parse oauth2-server-uri"))).
End new.
End Polaris.

(** ** Nessie *)

Module Nessie.

Definition nessieWarehouse : gostring := "warehouse".
Definition AuthModeNone : gostring := "none".
Definition AuthModeBearer : gostring := "bearer".
Definition AuthModeAWSIAM : gostring := "aws-iam".
Definition DefaultBranchName : gostring := "main".

Record Config := mkConfig {
  Endpoint : gostring; DefaultBranch : gostring; AuthMode : gostring; BearerToken : gostring
}.

Definition Validate (c : Config) : option gostring :=
  if isEmpty (Endpoint c) then Some "Endpoint required"
  else
    let mode :=
      if bool_decide (AuthMode c = AuthModeNone) then None
      else if bool_decide (AuthMode c = AuthModeBearer) then
        if isEmpty (BearerToken c) then Some "BearerToken required for AuthMode=bearer" else None
      else if bool_decide (AuthMode c = AuthModeAWSIAM) then
        Some "AuthMode=aws-iam deferred to Phase 3"
      else Some "AuthMode not supported" in
    match mode with
    | Some msg => Some msg
    | None => if isEmpty (DefaultBranch c) then Some "DefaultBranch required" else None
    end.

Definition withDefaults (c : Config) : Config :=
  mkConfig (Endpoint c) (orDefault (DefaultBranch c) DefaultBranchName)
    (orDefault (AuthMode c) AuthModeNone) (BearerToken c).

(** Substrings, not words. *)
Definition translateError (e : upErr) : cat_err :=
  if up_noSuchTable e then ErrTableNotFound
  else if existsb (contains (up_text e)) authWords then ErrCredentialsExpired
  else Upstream e.

Definition isCommitConflict (msg : gostring) : bool :=
  existsb (contains msg) (conflictWords ++ ["ReferenceConflictException" : gostring]).

Definition theFlavor : flavor := mkFlavor isCommitConflict translateError false.

Definition capabilities : Capabilities := mkCapabilities "nessie" true false false 1.

Definition ListTables : gostring -> catProg (list TableRef) := ListTables theFlavor.
Definition LoadTable : TableRef -> catProg (option TableMetadata) := LoadTable theFlavor.
Definition GetTable : TableRef -> catProg (option TableMetadata) := LoadTable.
Definition CommitTable : TableRef -> CommitRequest -> catProg CommitResult := CommitTable theFlavor.
Definition ExpireSnapshots : TableRef -> Z -> catProg unit := ExpireSnapshots theFlavor.
Definition IssueScopedSTSCredentials : TableRef -> gostring -> catProg STSCredentials := stubSTS.

Definition client : IcebergCatalogClient :=
  mkClient ListTables GetTable LoadTable CommitTable ExpireSnapshots capabilities
    IssueScopedSTSCredentials.

Definition options (c : Config) : restOptions :=
  mkRest "nessie" (Endpoint c) None None None nessieWarehouse (Some (DefaultBranch c))
    ([("uri" : gostring, Endpoint c); ("warehouse" : gostring, nessieWarehouse);
      ("nessie.commit.ref" : gostring, DefaultBranch c); ("prefix" : gostring, DefaultBranch c)]
     ++ (if bool_decide (AuthMode c = AuthModeBearer)
         then [("token" : gostring, BearerToken c)] else []))
    [].

Definition New (cfg : Config) : catProg IcebergCatalogClient :=
  let cfg := withDefaults cfg in
  ifValid (Validate cfg) (connect (options cfg) client).
End Nessie.

(** ** Glue *)

Module Glue.

(** [IAMRoleARN] is not used for anything. *)
Record Config := mkConfig {
  Region : gostring; IAMRoleARN : gostring; CatalogID : gostring; CredentialMode : gostring
}.

Definition Validate (c : Config) : option gostring :=
  firstFailure [(isEmpty (Region c), "Region required" : gostring);
                (isEmpty (CatalogID c), "CatalogID required" : gostring)].

Definition withDefaults (c : Config) : Config :=
  mkConfig (Region c) (IAMRoleARN c) (CatalogID c)
    (orDefault (CredentialMode c) "vended-credentials").

Definition translateError (e : upErr) : cat_err :=
  if up_noSuchTable e then ErrTableNotFound
  else if authErrRE (up_text e) then ErrCredentialsExpired
  else if contains (up_text e) "AccessDeniedException" then ErrLakeFormationDenied
  else Upstream e.

Definition isCommitConflict (msg : gostring) : bool := conflictByWords msg.

Definition theFlavor : flavor := mkFlavor isCommitConflict translateError false.

Definition capabilities : Capabilities := mkCapabilities "glue" false true false 2.

Definition ListTables : gostring -> catProg (list TableRef) := ListTables theFlavor.
Definition LoadTable : TableRef -> catProg (option TableMetadata) := LoadTable theFlavor.
Definition GetTable : TableRef -> catProg (option TableMetadata) := LoadTable.
Definition CommitTable : TableRef -> CommitRequest -> catProg CommitResult := CommitTable theFlavor.
Definition ExpireSnapshots : TableRef -> Z -> catProg unit := ExpireSnapshots theFlavor.
Definition IssueScopedSTSCredentials : TableRef -> gostring -> catProg STSCredentials := stubSTS.

Definition client : IcebergCatalogClient :=
  mkClient ListTables GetTable LoadTable CommitTable ExpireSnapshots capabilities
    IssueScopedSTSCredentials.

Definition options (c : Config) : restOptions :=
  let endpoint := ("https://glue." ++ Region c ++ ".amazonaws.com/iceberg")%go in
  mkRest "glue" endpoint None None None (CatalogID c) None
    [("uri" : gostring, endpoint); ("warehouse" : gostring, CatalogID c);
     ("rest.sigv4-enabled" : gostring, "true" : gostring);
     ("rest.signing-name" : gostring, "glue" : gostring);
     ("header.X-Iceberg-Access-Delegation" : gostring, CredentialMode c)]
    [SigV4Transport (Region c)].

Definition New (cfg : Config) : catProg IcebergCatalogClient :=
  ifValid (Validate cfg) (
  let cfg := withDefaults cfg in
  Do (R := catR) (LoadDefaultConfig (Region cfg)) (fun ok : bool =>
  if ok then connect (options cfg) client else Ret (Fail (Setup "load aws config")))).
End Glue.

(** ** Unity *)

Module Unity.

Record Config := mkConfig {
  WorkspaceHost : gostring; WorkspaceID : gostring; OAuthClientID : gostring;
  OAuthClientSecret : gostring; CatalogName : gostring; CredentialMode : gostring
}.

Definition Validate (c : Config) : option gostring :=
  firstFailure
    [(isEmpty (WorkspaceHost c), "WorkspaceHost required" : gostring);
     (isEmpty (WorkspaceID c), "WorkspaceID required" : gostring);
     (isEmpty (OAuthClientID c), "OAuthClientID required" : gostring);
     (isEmpty (OAuthClientSecret c), "OAuthClientSecret required" : gostring);
     (isEmpty (CatalogName c), "CatalogName required" : gostring);
     (contains (OAuthClientID c) ":", "OAuthClientID must not contain ':'" : gostring);
     (contains (OAuthClientSecret c) ":", "OAuthClientSecret must not contain ':'" : gostring)].

Definition withDefaults (c : Config) : Config :=
  mkConfig (WorkspaceHost c) (WorkspaceID c) (OAuthClientID c) (OAuthClientSecret c)
    (CatalogName c) (orDefault (CredentialMode c) "vended-credentials").

Definition translateError (e : upErr) : cat_err := translateByWords e.
Definition isCommitConflict (msg : gostring) : bool := conflictByWords msg.

Definition theFlavor : flavor := mkFlavor isCommitConflict translateError false.

Definition capabilities : Capabilities := mkCapabilities "unity" false true true 1.

Definition ListTables : gostring -> catProg (list TableRef) := ListTables theFlavor.
Definition LoadTable : TableRef -> catProg (option TableMetadata) := LoadTable theFlavor.
Definition GetTable : TableRef -> catProg (option TableMetadata) := LoadTable.
Definition CommitTable : TableRef -> CommitRequest -> catProg CommitResult := CommitTable theFlavor.
Definition ExpireSnapshots : TableRef -> Z -> catProg unit := ExpireSnapshots theFlavor.
Definition IssueScopedSTSCredentials : TableRef -> gostring -> catProg STSCredentials := stubSTS.

Definition client : IcebergCatalogClient :=
  mkClient ListTables GetTable LoadTable CommitTable ExpireSnapshots capabilities
    IssueScopedSTSCredentials.

Definition options (c : Config) : restOptions :=
  let icebergURI := (WorkspaceHost c ++ "/api/2.1/unity-catalog/iceberg")%go in
  let oauthURI := (WorkspaceHost c ++ "/oidc/v1/token")%go in
  mkRest "unity" icebergURI (Some (OAuthClientID c ++ ":" ++ OAuthClientSecret c))
    (Some oauthURI) (Some ("all-apis" : gostring)) (CatalogName c) None
    [("uri" : gostring, icebergURI); ("warehouse" : gostring, CatalogName c);
     ("oauth2-server-uri" : gostring, oauthURI); ("scope" : gostring, "all-apis" : gostring);
     ("header.X-Iceberg-Access-Delegation" : gostring, CredentialMode c)]
    [RefreshOn401; DatabricksContext (WorkspaceID c)].

Definition New (urlParse : gostring -> bool) (cfg : Config) : catProg IcebergCatalogClient :=
  ifValid (Validate cfg) (
  let cfg := withDefaults cfg in
  if urlParse (WorkspaceHost cfg ++ "/oidc/v1/token") then connect (options cfg) client
  else Ret (Fail (Setup "parse oauth2-server-uri"))).
End Unity.

(** ** Dispatch ([gateway/iceberg/forwarder.go]) of a row of [Credvend.Credentials] *)

(** What is decoded of [config_json]; a key that is missing reads as empty. *)
Record polarisCfg := mkPolarisCfg {
  pc_Warehouse : gostring; pc_ClientID : gostring; pc_ClientSecret : gostring;
  pc_Scope : gostring; pc_CredentialMode : gostring
}.
Record nessieCfg := mkNessieCfg {
  nc_DefaultBranch : gostring; nc_AuthMode : gostring; nc_BearerToken : gostring
}.
Record glueCfg := mkGlueCfg {
  gc_Region : gostring; gc_CatalogID : gostring; gc_IAMRoleARN : gostring
}.
Record unityCfg := mkUnityCfg {
  uc_WorkspaceHost : gostring; uc_WorkspaceID : gostring; uc_OAuthClientID : gostring;
  uc_OAuthClientSecret : gostring; uc_CatalogName : gostring; uc_CredentialMode : gostring
}.

(** [json.Unmarshal] into each of them. *)
Record decoders := mkDecoders {
  dec_polaris : gostring -> option polarisCfg; dec_nessie : gostring -> option nessieCfg;
  dec_glue : gostring -> option glueCfg; dec_unity : gostring -> option unityCfg
}.

Section forwarder.
Context (timeParse : gostring -> gostring -> option Z).
Context (urlParse : gostring -> bool).
Context (unmarshal : decoders).

Definition decoded {A B} (v : option A) (k : A -> catProg B) : catProg B :=
  match v with None => Ret (Fail ErrConfigUnmarshal) | Some a => k a end.

Definition BuildAdapter (creds : option Credentials) : catProg IcebergCatalogClient :=
  match creds with
  | None => Ret (Fail (Setup "nil credentials"))
  | Some creds =>
      if bool_decide (Kind creds = "polaris") then
        decoded (dec_polaris unmarshal (ConfigJSON creds)) (fun pc =>
        Polaris.New timeParse urlParse
          (Polaris.mkConfig (Endpoint creds) (pc_Warehouse pc) (pc_ClientID pc)
             (pc_ClientSecret pc) (pc_Scope pc) (pc_CredentialMode pc) false))
      else if bool_decide (Kind creds = "nessie") then
        decoded (dec_nessie unmarshal (ConfigJSON creds)) (fun nc =>
        Nessie.New (Nessie.mkConfig (Endpoint creds) (nc_DefaultBranch nc) (nc_AuthMode nc)
                      (nc_BearerToken nc)))
      else if bool_decide (Kind creds = "glue") then
        decoded (dec_glue unmarshal (ConfigJSON creds)) (fun gc =>
        Glue.New (Glue.mkConfig (gc_Region gc) (gc_IAMRoleARN gc) (gc_CatalogID gc) []))
      else if bool_decide (Kind creds = "unity") then
        decoded (dec_unity unmarshal (ConfigJSON creds)) (fun uc =>
        Unity.New urlParse
          (Unity.mkConfig (uc_WorkspaceHost uc) (uc_WorkspaceID uc) (uc_OAuthClientID uc)
             (uc_OAuthClientSecret uc) (uc_CatalogName uc) (uc_CredentialMode uc)))
      else Ret (Fail (ErrCatalogKindUnsupported (Kind creds)))
  end.
End forwarder.
