(* ===== verification/Transport.v ===== *)
(** * The transports of the catalog clients

    [polaris/transport.go], [unity/transport.go] and [glue/sigv4_transport.go]:
    what happens to a request between the REST client and the network.  A
    round-tripper is a program of calls: sending on the network, retrieving
    credentials, reading a body, signing.  The body of a request is a stream
    that sending uses up: a clone of a request shares it. *)

From S2P Require Import Prelude Effects.
From Stdlib Require Import Lia.
#[local] Open Scope go_scope.

(** ** Requests *)

(** [Spent] is a body that was sent: its reader is at the end, and closed. *)
Inductive body := NoBody | Unread (data : gostring) | Spent.

(** Headers by canonical name; the session policy of the context; the length is
    0 when it is not known, also with a body. *)
Record request := mkRequest {
  rq_headers : gmap gostring gostring; rq_policy : option gostring;
  rq_body : body; rq_ContentLength : Z
}.

Definition setHeader (k v : gostring) (r : request) : request :=
  mkRequest (<[k := v]> (rq_headers r)) (rq_policy r) (rq_body r) (rq_ContentLength r).

Definition withHeaders (h : gmap gostring gostring) (r : request) : request :=
  mkRequest h (rq_policy r) (rq_body r) (rq_ContentLength r).

Definition withBody (data : gostring) (r : request) : request :=
  mkRequest (rq_headers r) (rq_policy r) (Unread data) (Z.of_nat (length data)).

(** The request that is left after a round trip, which closes the body. *)
Definition afterSend (r : request) : request :=
  mkRequest (rq_headers r) (rq_policy r)
    (match rq_body r with Unread _ => Spent | b => b end) (rq_ContentLength r).

Section transports.
(** The responses, with their status; the credentials of AWS. *)
Context {Response Creds : Type}.
Context (StatusCode : Response -> Z).
Context (sha256 : gostring -> gostring).

(** ** Calls *)

Inductive httpCall :=
  | Send (r : request)
  | CloseBody (resp : Response)
  | Retrieve
  | ReadAll (data : gostring)
  | SignHTTP (creds : Creds) (r : request) (payloadHash service region : gostring).

(** A round trip and a signature may fail; [ReadAll] tells whether it read. *)
Definition httpR (c : httpCall) : Type :=
  match c with
  | Send _ => option Response
  | CloseBody _ => unit
  | Retrieve => option Creds
  | ReadAll _ => bool
  | SignHTTP _ _ _ _ _ => option (gmap gostring gostring)
  end.

Definition roundTripper : Type := request -> prog httpR (option Response).

(** The transport of net/http. *)
Definition network : roundTripper := fun r => Do (R := httpR) (Send r) (fun a => Ret a).

(** ** Polaris *)

Definition sessionPolicyHeader : gostring := "X-Iceberg-Session-Policy".

Definition contextWithSessionPolicy (policy : gostring) (r : request) : request :=
  mkRequest (rq_headers r) (Some policy) (rq_body r) (rq_ContentLength r).

Definition sessionPolicyRoundTrip (next : roundTripper) : roundTripper := fun r =>
  match rq_policy r with
  | Some policy =>
      if bool_decide (policy = []) then next r
      else next (setHeader sessionPolicyHeader policy r)
  | None => next r
  end.

(** ** Unity *)

Definition workspaceHeader : gostring := "X-Databricks-Workspace-Id".

Definition databricksContextRoundTrip (workspaceID : gostring) (next : roundTripper)
  : roundTripper :=
  fun r => next (setHeader workspaceHeader workspaceID r).

(** The retry clones the request, whose body the first attempt has used up. *)
Definition refreshOn401RoundTrip (next : roundTripper) : roundTripper := fun r =>
  bind (next r) (fun first : option Response =>
  match first with
  | None => Ret None
  | Some resp =>
      if (StatusCode resp =? 401)%Z then
        Do (R := httpR) (CloseBody resp) (fun _ : unit => next (afterSend r))
      else Ret (Some resp)
  end).

(** ** Glue *)

Definition unsignedPayloadHash : gostring :=
  "e3b0c44298fc1c149afbf4c8996fb92427ae41e4649b934ca495991b7852b855".

(** The hash, and the request with its body restored. *)
Definition computeBodyHash (r : request) : prog httpR (option (gostring * request)) :=
  match rq_body r with
  | NoBody => Ret (Some (unsignedPayloadHash, r))
  | b =>
      if (rq_ContentLength r =? 0)%Z then Ret (Some (unsignedPayloadHash, r))
      else
        let bodyBytes := match b with Unread data => data | _ => [] end in
        Do (R := httpR) (ReadAll bodyBytes) (fun ok : bool =>
        Ret (if ok then
               Some (if bool_decide (bodyBytes = []) then unsignedPayloadHash
                     else hexEncode (sha256 bodyBytes), withBody bodyBytes r)
             else None))
  end.

Definition sigv4RoundTrip (region : gostring) (next : roundTripper) : roundTripper := fun r =>
  Do (R := httpR) Retrieve (fun creds : option Creds =>
  match creds with
  | None => Ret None
  | Some creds =>
      bind (computeBodyHash r) (fun h =>
      match h with
      | None => Ret None
      | Some (payloadHash, r) =>
          Do (R := httpR) (SignHTTP creds r payloadHash "glue" region)
            (fun signed : option (gmap gostring gostring) =>
          match signed with
          | None => Ret None
          | Some headers => next (withHeaders headers r)
          end)
      end)
  end).

(** ** The clients' transports, the network innermost *)

Definition polarisTransport : roundTripper := sessionPolicyRoundTrip network.
Definition unityTransport (workspaceID : gostring) : roundTripper :=
  refreshOn401RoundTrip (databricksContextRoundTrip workspaceID network).
Definition newSigV4Transport (region : gostring) : roundTripper := sigv4RoundTrip region network.
End transports.
