(* ===== verification/CatalogsSpec.v ===== *)
(** * The catalog adapters: what they send, and how they fail

    The classification of errors by words; which snapshots are expired; that no
    adapter ever sends a requirement or an update of a commit, and what the
    gateway answers then; what a configuration must hold and where its secret
    goes; the vended credentials; what the transports do to a request. *)

From S2P Require Import Prelude Effects Decimal PolicyStore JsonText IngestMeta Credvend Gateway GatewaySpec Dynamic Cel Catalogs Transport.
From Stdlib Require Import Lia.
#[local] Open Scope go_scope.

(** ** Words *)

Lemma contains_spec s sub : contains s sub = true <-> exists a z, s = a ++ sub ++ z.
Proof.
  induction s as [|c s IH]; cbn [contains].
  - rewrite orb_false_r, hasPrefix_spec. split.
    + intros [t Ht]. by exists [], t.
    + intros (a & z & H). exists z. symmetry in H. by apply app_nil in H as [-> H].
  - rewrite orb_true_iff, IH, hasPrefix_spec. split.
    + intros [[t Ht]|(a & z & ->)]; [by exists [], t|by exists (c :: a), z].
    + intros ([|d a] & z & H); [left; by exists z|right]. injection H as -> ->. eauto.
Qed.

(** Whether the byte before the rest is of a word, after [a]. *)
Definition lastWord (prev : bool) (a : gostring) : bool :=
  match last a with Some c => wordByte c | None => prev end.

(** [s] has one of the words, with no byte of a word on either side. *)
Definition hasWord (prev : bool) (ws : list gostring) (s : gostring) : Prop :=
  exists a w z, w ∈ ws /\ s = a ++ w ++ z /\ lastWord prev a = false /\ headWord z = false.

Lemma lastWord_cons prev c a : lastWord prev (c :: a) = lastWord (wordByte c) a.
Proof. unfold lastWord. rewrite last_cons. by destruct (last a). Qed.

Lemma wordMatch_spec prev ws s :
  Forall (fun w => w <> []) ws -> wordMatch prev ws s = true <-> hasWord prev ws s.
Proof.
  rewrite Forall_forall. intros Hws. revert prev.
  induction s as [|c s IH]; intros prev; cbn [wordMatch];
    rewrite orb_true_iff, andb_true_iff, negb_true_iff, existsb_exists.
  - split.
    + intros [[Hp (w & Hw & [Hpre _]%andb_true_iff)]|[=]].
      apply hasPrefix_spec in Hpre as [t Ht]. symmetry in Ht. apply app_nil in Ht as [-> _].
      apply list_elem_of_In in Hw. by destruct (Hws _ Hw).
    + intros (a & w & z & Hw & H & _). symmetry in H.
      apply app_nil in H as [_ [-> _]%app_nil]. by destruct (Hws _ Hw).
  - rewrite IH. split.
    + intros [[Hp (w & Hw & [Hpre Hz]%andb_true_iff)]|(a & w & z & Hw & -> & Ha & Hz)].
      * apply hasPrefix_spec in Hpre as [t Ht]. rewrite Ht, drop_app_length in Hz.
        apply negb_true_iff in Hz. apply list_elem_of_In in Hw. by exists [], w, t.
      * exists (c :: a), w, z. by rewrite lastWord_cons.
    + intros ([|d a] & w & z & Hw & H & Ha & Hz).
      * left. split; [exact Ha|]. exists w. split; [by apply list_elem_of_In|].
        cbn [app] in H. rewrite H, hasPrefix_app, drop_app_length, Hz. done.
      * right. injection H as -> ->. exists a, w, z. by rewrite lastWord_cons in Ha.
Qed.

Lemma authErrRE_spec msg : authErrRE msg = true <-> hasWord false authWords msg.
Proof. apply wordMatch_spec. by repeat constructor. Qed.

Lemma any_contains_spec ws s :
  existsb (contains s) ws = true <-> exists w a z, w ∈ ws /\ s = a ++ w ++ z.
Proof.
  rewrite existsb_exists. setoid_rewrite contains_spec. setoid_rewrite <- list_elem_of_In.
  naive_solver.
Qed.

Lemma hasWord_contained ws s : hasWord false ws s -> existsb (contains s) ws = true.
Proof. rewrite any_contains_spec. intros (a & w & z & Hw & -> & _). eauto 6. Qed.

(** ** The classification of errors *)

(** How the adapters translate an error, whatever it is: [ErrNoSuchTable] first;
    then, as a word in Polaris and Unity and Glue and anywhere in Nessie, one of
    401, 403, Unauthorized and Forbidden; then Glue's [AccessDeniedException].
    Nessie differs from Polaris exactly on a text that has one of them inside a
    longer word only, as in an account number: it reports expired credentials. *)
Theorem error_classification (e : upErr) :
  (Polaris.translateError e = ErrTableNotFound <-> up_noSuchTable e = true) /\
  (Polaris.translateError e = ErrCredentialsExpired <->
     up_noSuchTable e = false /\ hasWord false authWords (up_text e)) /\
  Unity.translateError e = Polaris.translateError e /\
  (Glue.translateError e <> Polaris.translateError e <->
     Glue.translateError e = ErrLakeFormationDenied) /\
  (Glue.translateError e = ErrLakeFormationDenied <->
     Polaris.translateError e = Upstream e /\ exists a z, up_text e = a ++ "AccessDeniedException" ++ z) /\
  (Nessie.translateError e <> Polaris.translateError e <->
     up_noSuchTable e = false /\ ~ hasWord false authWords (up_text e) /\
     exists w a z, w ∈ authWords /\ up_text e = a ++ w ++ z) /\
  (Nessie.translateError e <> Polaris.translateError e ->
     Nessie.translateError e = ErrCredentialsExpired /\ Polaris.translateError e = Upstream e).
Proof.
  rewrite <- authErrRE_spec, <- contains_spec, <- any_contains_spec.
  pose proof (hasWord_contained authWords (up_text e)) as Hsub. rewrite <- authErrRE_spec in Hsub.
  unfold Polaris.translateError, Unity.translateError, Glue.translateError, Nessie.translateError,
    translateByWords.
  destruct (up_noSuchTable e), (authErrRE (up_text e)),
    (existsb (contains (up_text e)) authWords) eqn:?, (contains (up_text e) "AccessDeniedException");
    try (by specialize (Hsub eq_refl)); intuition congruence.
Qed.

(** Nessie's fifth text holds the fourth. *)
Lemma nessie_conflict msg : Nessie.isCommitConflict msg = conflictByWords msg.
Proof.
  apply eq_true_iff_eq. unfold Nessie.isCommitConflict, conflictByWords.
  rewrite !any_contains_spec. setoid_rewrite elem_of_app. split.
  - intros (w & a & z & [Hw| ->%list_elem_of_singleton] & ->); [eauto 6|].
    exists ("Conflict" : gostring), (a ++ "Reference"), ("Exception" ++ z).
    split; [by apply (list_elem_of_lookup_2 _ 3)|]. by rewrite <- !app_assoc.
  - intros (w & a & z & Hw & ->). eauto 8.
Qed.

(** The flavors of the four packages. *)
Inductive packageFlavor : flavor -> Prop :=
  | flavor_polaris c : packageFlavor (Polaris.flavorOf c)
  | flavor_nessie : packageFlavor Nessie.theFlavor
  | flavor_glue : packageFlavor Glue.theFlavor
  | flavor_unity : packageFlavor Unity.theFlavor.

Lemma packageFlavor_conflict fl msg :
  packageFlavor fl -> fl_isCommitConflict fl msg = conflictByWords msg.
Proof. intros []; [done|apply nessie_conflict|done..]. Qed.

(** A conflict is recognised by a substring alone, before everything else: an
    error of a commit is reported as [ErrCommitConflict] exactly when its text
    holds 409 - in a longer number, a name or an id too - or one of the other
    three, in all four catalogs; so a table that is gone is a conflict, to be
    retried, when its name spells one of them. *)
Theorem conflict_by_substring (fl : flavor) (Hfl : packageFlavor fl) :
  (forall e : upErr, commitError fl e = ErrCommitConflict <->
     exists w a z, w ∈ conflictWords /\ up_text e = a ++ w ++ z) /\
  commitError fl (mkUp true "Table does not exist: sales.t4091") = ErrCommitConflict.
Proof.
  unfold commitError. setoid_rewrite (packageFlavor_conflict fl _ Hfl). split; [|done].
  intros e. rewrite <- any_contains_spec. fold (conflictByWords (up_text e)).
  destruct (conflictByWords (up_text e)); [done|]. split; [|done].
  intros H. exfalso. revert H. destruct Hfl;
    unfold Polaris.flavorOf, Nessie.theFlavor, Glue.theFlavor, Unity.theFlavor, fl_translateError,
      Polaris.translateError, Unity.translateError, Glue.translateError, Nessie.translateError,
      translateByWords; by repeat case_match.
Qed.

(** ** Where adapters come from *)

(** A client with the methods of one of the packages. *)
Definition fromPackage (c : IcebergCatalogClient) : Prop :=
  exists fl, packageFlavor fl /\ cl_ListTables c = ListTables fl /\ cl_GetTable c = GetTable fl /\
    cl_LoadTable c = LoadTable fl /\ cl_CommitTable c = CommitTable fl /\
    cl_ExpireSnapshots c = ExpireSnapshots fl.

Definition connects (c : catCall) : bool := match c with NewCatalog _ => true | _ => false end.

(** A successful construction: the client is the one of the kind, and the last
    call, the only one to a catalog, opened the client of that kind. *)
Definition dispatched (creds : Credentials) (c : IcebergCatalogClient) (t : trace catR) : Prop :=
  cap_Name (cl_Capabilities c) = Kind creds /\ fromPackage c /\
  exists u o, t = u ++ [ev (R := catR) (NewCatalog o) true] /\ ro_name o = Kind creds /\
    existsb connects (calls u) = false /\
    (Kind creds = "polaris" \/ Kind creds = "nessie" ->
     ro_uri o = Endpoint creds /\ Endpoint creds <> []).

(** What the outcomes of [BuildAdapter] say of a row. *)
Definition dispatchSpec (creds : Credentials) (r : ret IcebergCatalogClient)
    (t : trace catR) : Prop :=
  match r with
  | Val c => dispatched creds c t
  | Fail (ErrCatalogKindUnsupported k) =>
      k = Kind creds /\ t = [] /\ Kind creds ∉ (["polaris"; "nessie"; "glue"; "unity"] : list gostring)
  | Fail ErrConfigUnmarshal => t = []
  | Fail (ErrInvalidConfig _) => t = []
  | Fail (Setup _) => True
  | _ => False
  end.

Lemma run_connect o h op (c : IcebergCatalogClient) :
  run o h (connect op c) =
    if o h (NewCatalog op) : bool then (Val c, [ev (R := catR) (NewCatalog op) true])
    else (Fail (Setup "new catalog"), [ev (R := catR) (NewCatalog op) false]).
Proof. unfold connect. cbn [run]. by destruct (o h (NewCatalog op)). Qed.

Lemma firstFailure_none l : firstFailure l = None <-> Forall (fun x => x.1 = false) l.
Proof.
  induction l as [|[b msg] l IH]; cbn [firstFailure]; [by split|].
  rewrite Forall_cons, <- IH. destruct b; cbn [fst]; naive_solver.
Qed.

Lemma isEmpty_false s : isEmpty s = false <-> s <> [].
Proof. unfold isEmpty. by rewrite bool_decide_eq_false. Qed.

(** A client that connects is one of the kind. *)
Lemma run_connect_spec creds o h op c (u : trace catR) :
  cap_Name (cl_Capabilities c) = Kind creds -> fromPackage c -> ro_name op = Kind creds ->
  existsb connects (calls u) = false ->
  (Kind creds = "polaris" \/ Kind creds = "nessie" ->
     ro_uri op = Endpoint creds /\ Endpoint creds <> []) ->
  let '(r, t) := run o h (connect op c) in dispatchSpec creds r (u ++ t).
Proof.
  intros Hc Hp Hn Hu Hk. rewrite run_connect. destruct (o h (NewCatalog op)); [|done].
  split; [done|]. split; [done|]. by exists u, op.
Qed.

Section forwarder.
Context (timeParse : gostring -> gostring -> option Z) (urlParse : gostring -> bool).
Context (unmarshal : decoders).

Lemma Polaris_New_spec creds o h cfg :
  Kind creds = "polaris" -> Polaris.Endpoint cfg = Endpoint creds ->
  let '(r, t) := run o h (Polaris.New timeParse urlParse cfg) in dispatchSpec creds r t.
Proof.
  intros Hk He. unfold Polaris.New, ifValid.
  destruct (Polaris.Validate cfg) eqn:Hv; [done|].
  apply firstFailure_none, Forall_cons in Hv as [Hv%isEmpty_false _].
  destruct (urlParse _); [|done].
  apply (run_connect_spec creds o h _ _ []); try done.
  - eexists. by split; [constructor|].
  - intros _. cbn. by rewrite <- He.
Qed.

Lemma Nessie_New_spec creds o h cfg :
  Kind creds = "nessie" -> Nessie.Endpoint cfg = Endpoint creds ->
  let '(r, t) := run o h (Nessie.New cfg) in dispatchSpec creds r t.
Proof.
  intros Hk He. unfold Nessie.New, ifValid.
  destruct (Nessie.Validate (Nessie.withDefaults cfg)) eqn:Hv; [done|].
  apply (run_connect_spec creds o h _ _ []); try done.
  - eexists. by split; [constructor|].
  - intros _. cbn. rewrite <- He. split; [done|]. intros E.
    unfold Nessie.Validate in Hv. cbn in Hv. by rewrite E in Hv.
Qed.

Lemma Glue_New_spec creds o h cfg :
  Kind creds = "glue" -> let '(r, t) := run o h (Glue.New cfg) in dispatchSpec creds r t.
Proof.
  intros Hk. unfold Glue.New, ifValid. destruct (Glue.Validate cfg) eqn:Hv; [done|].
  cbn [run]. set (c := LoadDefaultConfig _). destruct (o h c : bool); [|done].
  match goal with |- context [run o ?h ?p] => pose proof
    (run_connect_spec creds o h (Glue.options (Glue.withDefaults cfg)) Glue.client
      [ev (R := catR) c true]) as H; destruct (run o h p) as [r t] eqn:E end.
  apply H; try done.
  - eexists. by split; [constructor|].
  - rewrite Hk. by intros [|].
Qed.

Lemma Unity_New_spec creds o h cfg :
  Kind creds = "unity" -> let '(r, t) := run o h (Unity.New urlParse cfg) in dispatchSpec creds r t.
Proof.
  intros Hk. unfold Unity.New, ifValid. destruct (Unity.Validate cfg) eqn:Hv; [done|].
  destruct (urlParse _); [|done]. apply (run_connect_spec creds o h _ _ []); try done.
  - eexists. by split; [constructor|].
  - rewrite Hk. by intros [|].
Qed.

(** The dispatch of a row: whatever the configuration, the catalog and AWS
    answer, the construction does not panic; it succeeds only with the adapter
    of the row's kind after one connection, made for that kind and, for Polaris
    and Nessie, to the endpoint of the row; an unknown kind, a configuration
    that does not decode and one that is not valid make no call at all. *)
Theorem BuildAdapter_dispatch (creds : Credentials) (o : env catR) (h : trace catR) :
  let '(r, t) := run o h (BuildAdapter timeParse urlParse unmarshal (Some creds)) in
  dispatchSpec creds r t.
Proof.
  unfold BuildAdapter, decoded. case_bool_decide as Hp.
  { destruct (dec_polaris _ _); [by apply Polaris_New_spec|done]. }
  case_bool_decide as Hn. { destruct (dec_nessie _ _); [by apply Nessie_New_spec|done]. }
  case_bool_decide as Hg. { destruct (dec_glue _ _); [by apply Glue_New_spec|done]. }
  case_bool_decide as Hu. { destruct (dec_unity _ _); [by apply Unity_New_spec|done]. }
  cbn. split; [done|]. split; [done|]. rewrite !elem_of_cons, elem_of_nil. tauto.
Qed.

(** The endpoint of a Glue or Unity row is not used. *)
Lemma row_endpoint_ignored kind nick e1 e2 cfg :
  kind = "glue" \/ kind = "unity" ->
  BuildAdapter timeParse urlParse unmarshal (Some (mkCredentials kind nick e1 cfg)) =
  BuildAdapter timeParse urlParse unmarshal (Some (mkCredentials kind nick e2 cfg)).
Proof. by intros [-> | ->]. Qed.
End forwarder.

(** ** Expiry *)

(** What the events of a run tell: the metadata that was loaded, what the
    coordinator allowed and blocked, the snapshots whose removal was sent. *)
Definition loadedOf (e : event catR) : option restMetadata :=
  match e with
  | existT (RestLoadTable _ _) (Ok (Some tbl)) => rt_Metadata tbl
  | _ => None
  end.

Definition guardOf (e : event catR) : option (list gostring * list gostring) :=
  match e with existT (GuardExpireSnapshots _ _) (Some p) => Some p | _ => None end.

Definition removedIn (c : catCall) : list Z :=
  match c with RestCommitTable _ _ [RemoveSnapshots ids] => ids | _ => [] end.

Definition removed (t : trace catR) : list Z := flat_map removedIn (calls t).

(** The snapshots whose removal the catalog confirmed. *)
Definition confirmedIn (e : event catR) : list Z :=
  match e with existT (RestCommitTable _ _ [RemoveSnapshots ids]) (Ok _) => ids | _ => [] end.

Definition confirmed (t : trace catR) : list Z := flat_map confirmedIn t.

(** A call for the table. *)
Definition callFor (ref : TableRef) (c : catCall) : Prop :=
  match c with
  | RestLoadTable ident _ | RestCommitTable ident _ _ => ident = toIdentifier ref
  | GuardExpireSnapshots ref' _ => ref' = ref
  | _ => False
  end.

Definition int64 (z : Z) : Prop := (- 2 ^ 63 <= z < 2 ^ 63)%Z.

(** The coordinator keeps its promise: it answers with a part of the candidates,
    none of which it also blocks; the ids of snapshots are 64-bit. *)
Definition faithfulCatalog (o : env catR) : Prop :=
  (forall h ref candidates,
     match o h (GuardExpireSnapshots ref candidates) return Prop with
     | Some (allowed, blocked) => forall s, s ∈ allowed -> s ∈ candidates /\ s ∉ blocked
     | None => True
     end) /\
  (forall h ident policy,
     match o h (RestLoadTable ident policy) return Prop with
     | Ok (Some tbl) =>
         forall meta s, rt_Metadata tbl = Some meta -> s ∈ rm_Snapshots meta -> int64 (rs_SnapshotID s)
     | _ => True
     end).

Lemma elem_of_doomed id olderThan l :
  id ∈ doomedBefore olderThan l <->
  exists s, s ∈ l /\ rs_SnapshotID s = id /\ (rs_TimestampMs s < UnixMilli olderThan)%Z.
Proof.
  unfold doomedBefore. rewrite list_elem_of_fmap. setoid_rewrite list_elem_of_In.
  setoid_rewrite filter_In. setoid_rewrite Z.ltb_lt. naive_solver.
Qed.

(** The ids read back from what the coordinator allowed. *)
Lemma elem_of_allowed id (doomed : list Z) (allowed : list gostring) :
  Forall int64 doomed -> (forall s, s ∈ allowed -> s ∈ map Sprintf_d doomed) ->
  id ∈ omap Sscanf_d allowed <-> id ∈ doomed /\ Sprintf_d id ∈ allowed.
Proof.
  rewrite Forall_forall. intros Hd Ha. rewrite list_elem_of_omap. split.
  - intros (s & Hs & E). specialize (Ha s Hs) as (z & -> & Hz)%list_elem_of_fmap.
    rewrite Sscanf_Sprintf in E by (by apply Hd). by injection E as <-.
  - intros [Hz Hs]. exists (Sprintf_d id). by rewrite Sscanf_Sprintf by (by apply Hd).
Qed.

(** What a run on the table [ref] says of the old snapshots. *)
Definition expirySpec (fl : flavor) (ref : TableRef) (olderThan : Z) (r : ret unit) (t : trace catR) : Prop :=
  Forall (callFor ref) (calls t) /\
  (forall id, id ∈ removed t -> exists meta s, meta ∈ omap loadedOf t /\ s ∈ rm_Snapshots meta /\
     rs_SnapshotID s = id /\ (rs_TimestampMs s < UnixMilli olderThan)%Z /\
     (fl_hasCoordinator fl = true -> exists allowed blocked,
        (allowed, blocked) ∈ omap guardOf t /\ Sprintf_d id ∈ allowed /\ Sprintf_d id ∉ blocked)) /\
  (r = Val tt -> exists meta, meta ∈ omap loadedOf t /\
     forall s, s ∈ rm_Snapshots meta -> (rs_TimestampMs s < UnixMilli olderThan)%Z ->
     rs_SnapshotID s ∈ confirmed t \/
     (fl_hasCoordinator fl = true /\ exists allowed blocked,
        (allowed, blocked) ∈ omap guardOf t /\ Sprintf_d (rs_SnapshotID s) ∉ allowed)).

Lemma expirySpec_intro fl ref olderThan r (t : trace catR) meta guards ids :
  Forall (callFor ref) (calls t) ->
  omap loadedOf t = [meta] -> omap guardOf t = guards -> removed t = ids ->
  (r = Val tt -> confirmed t = ids) ->
  (forall id, id ∈ ids -> id ∈ doomedBefore olderThan (rm_Snapshots meta) /\
     (fl_hasCoordinator fl = true -> exists a b, (a, b) ∈ guards /\ Sprintf_d id ∈ a /\ Sprintf_d id ∉ b)) ->
  (r = Val tt -> forall id, id ∈ doomedBefore olderThan (rm_Snapshots meta) ->
     id ∈ ids \/ (fl_hasCoordinator fl = true /\ exists a b, (a, b) ∈ guards /\ Sprintf_d id ∉ a)) ->
  expirySpec fl ref olderThan r t.
Proof.
  intros Hf Hl Hg Hr Hc H1 H2. unfold expirySpec. rewrite Hl, Hg, Hr. split_and!; [done| |].
  - intros id Hid. destruct (H1 id Hid) as [(s & Hs & E & Ht)%elem_of_doomed Hco].
    exists meta, s. split; [by apply list_elem_of_singleton|done].
  - intros Hok. exists meta. split; [by apply list_elem_of_singleton|]. intros s Hs Ht. rewrite (Hc Hok).
    apply (H2 Hok). apply elem_of_doomed. eauto.
Qed.

(** A run that removes nothing, before or without the metadata. *)
Lemma expirySpec_quiet fl ref olderThan r (t : trace catR) :
  Forall (callFor ref) (calls t) -> removed t = [] -> r <> Val tt -> expirySpec fl ref olderThan r t.
Proof. intros Hf Hr Hn. unfold expirySpec. rewrite Hr. by split_and!; [|intros id []%not_elem_of_nil|]. Qed.

Lemma removeSnapshots_run fl o h ref ids :
  let '(r, t) := run o h (removeSnapshots fl ref ids) in
  Forall (callFor ref) (calls t) /\ removed t = ids /\ (r = Val tt -> confirmed t = ids) /\
  omap loadedOf t = [] /\ omap guardOf t = [].
Proof.
  unfold removeSnapshots. cbn [run]. set (c := RestCommitTable _ _ _).
  destruct (o h c); (split_and!; [by repeat constructor|apply app_nil_r| |done|done]); [|done].
  intros _. apply app_nil_r.
Qed.

(** The end of a run, after the events [t0]. *)
Lemma expirySpec_remove fl o h ref olderThan ids (t0 : trace catR) meta guards :
  Forall (callFor ref) (calls t0) ->
  omap loadedOf t0 = [meta] -> omap guardOf t0 = guards -> removed t0 = [] -> confirmed t0 = [] ->
  (forall id, id ∈ ids -> id ∈ doomedBefore olderThan (rm_Snapshots meta) /\
     (fl_hasCoordinator fl = true -> exists a b, (a, b) ∈ guards /\ Sprintf_d id ∈ a /\ Sprintf_d id ∉ b)) ->
  (forall id, id ∈ doomedBefore olderThan (rm_Snapshots meta) ->
     id ∈ ids \/ (fl_hasCoordinator fl = true /\ exists a b, (a, b) ∈ guards /\ Sprintf_d id ∉ a)) ->
  let '(r, t) := run o h (removeSnapshots fl ref ids) in expirySpec fl ref olderThan r (t0 ++ t).
Proof.
  intros Hf Hl Hg Hr Hc H1 H2. pose proof (removeSnapshots_run fl o h ref ids) as H.
  destruct (run o h (removeSnapshots fl ref ids)) as [r t]. destruct H as (F & R & C & L & G).
  apply (expirySpec_intro fl ref olderThan r _ meta guards ids); auto.
  - rewrite calls_app. by apply Forall_app.
  - by rewrite omap_app, Hl, L.
  - by rewrite omap_app, Hg, G, app_nil_r.
  - unfold removed in *. by rewrite calls_app, flat_map_app, Hr, R.
  - intros Hok. unfold confirmed in *. rewrite flat_map_app, Hc. by apply C.
Qed.

(** (C30) Only old snapshots are expired, and where a compaction coordinator is
    configured none that it does not allow.  Whatever else fails: what a run
    asks to remove are snapshots of the table it loaded, older than the cutoff,
    and with a coordinator ones it allowed and did not block, so that nothing is
    removed when it failed; and a run that reports success has loaded the table
    and the catalog has confirmed the removal of every old snapshot of it but
    those the coordinator did not allow.  Pins are known to the coordinator only:
    without one, which is how the adapters of Unity, Glue and Nessie always work
    and the gateway's Polaris adapter is made, old snapshots go whether pinned or
    not. *)
Theorem expire_only_old_unpinned (fl : flavor) (o : env catR) (h : trace catR) (ref : TableRef)
    (olderThan : Z) (Ho : faithfulCatalog o) :
  let '(r, t) := run o h (ExpireSnapshots fl ref olderThan) in expirySpec fl ref olderThan r t.
Proof.
  destruct Ho as [Hg Hids]. unfold ExpireSnapshots. cbn [run].
  specialize (Hids h (toIdentifier ref) None). set (c := RestLoadTable _ _) in *.
  destruct (o h c) as [tbl|e] eqn:El; [|by apply expirySpec_quiet; [repeat constructor|..]].
  destruct tbl as [tbl|]; cbn [mbind option_bind]; [|by apply expirySpec_quiet; [repeat constructor|..]].
  destruct (rt_Metadata tbl) as [meta|] eqn:Em; [|by apply expirySpec_quiet; [repeat constructor|..]].
  set (e0 := ev (R := catR) c (Ok (Some tbl))).
  assert (omap loadedOf [e0] = [meta]) as Hl by (cbn; by rewrite Em).
  destruct (decide (doomedBefore olderThan (rm_Snapshots meta) = [])) as [E|E].
  { rewrite bool_decide_eq_true_2 by done. cbn [run].
    apply (expirySpec_intro _ _ _ _ _ meta [] []); try done; [by repeat constructor|rewrite E; set_solver..]. }
  rewrite bool_decide_eq_false_2 by done.
  destruct (fl_hasCoordinator fl) eqn:Ec.
  2:{ pose proof (expirySpec_remove fl o (h ++ [e0]) ref olderThan
        (doomedBefore olderThan (rm_Snapshots meta)) [e0] meta []) as H.
      destruct (run _ _ (removeSnapshots _ _ _)) as [r t]. apply H; [by repeat constructor|done..| |]; intros id Hid.
      - by rewrite Ec.
      - by left. }
  cbn [run]. specialize (Hg (h ++ [e0]) ref (map Sprintf_d (doomedBefore olderThan (rm_Snapshots meta)))).
  set (g := GuardExpireSnapshots ref _) in *.
  destruct (o (h ++ [e0]) g) as [[allowed blocked]|] eqn:Egd; [|by apply expirySpec_quiet; [repeat constructor|..]].
  assert (Forall int64 (doomedBefore olderThan (rm_Snapshots meta))) as Hd.
  { apply Forall_forall. intros id (s & Hs & <- & _)%elem_of_doomed. by eapply Hids. }
  set (e1 := ev (R := catR) g (Some (allowed, blocked))).
  assert (omap loadedOf [e0; e1] = [meta]) as Hl' by (cbn; by rewrite Em).
  destruct (decide (allowed = [])) as [->|Ha].
  { rewrite bool_decide_eq_true_2 by done. cbn [run].
    apply (expirySpec_intro _ _ _ _ _ meta [([], blocked)] []); try done; [by repeat constructor|set_solver|].
    intros _ id _. right. split; [done|]. exists [], blocked. set_solver. }
  rewrite bool_decide_eq_false_2 by done.
  pose proof (expirySpec_remove fl o ((h ++ [e0]) ++ [e1]) ref olderThan (omap Sscanf_d allowed) [e0; e1]
    meta [(allowed, blocked)] ltac:(by repeat constructor) Hl' eq_refl eq_refl eq_refl) as H.
  destruct (run _ _ (removeSnapshots _ _ _)) as [r t]. apply H; clear H.
  - intros id Hid. apply (elem_of_allowed id _ _ Hd) in Hid as [H1 H2]; [|by intros s Hs; apply Hg].
    split; [done|]. intros _. exists allowed, blocked. split; [by apply list_elem_of_singleton|].
    split; [done|]. by apply Hg.
  - intros id Hid. destruct (decide (Sprintf_d id ∈ allowed)) as [Hin|Hin].
    + left. apply (elem_of_allowed id _ _ Hd); [by intros s Hs; apply Hg|done].
    + right. split; [done|]. exists allowed, blocked. split; [by apply list_elem_of_singleton|done].
Qed.

(** ** Commits *)

Lemma commit_not_converted c ref req :
  fromPackage c -> Requirements req <> [] \/ Updates req <> [] ->
  cl_CommitTable c ref req = Ret (Fail NotConverted).
Proof.
  intros (fl & _ & _ & _ & _ & -> & _) H. unfold CommitTable, convertRequirements, convertUpdates.
  destruct (Requirements req), (Updates req); by destruct H.
Qed.

(** An adapter as the gateway holds it, and what its method is to the handler. *)
Record packaged := mkPackaged { pk_client : IcebergCatalogClient; pk_from : fromPackage pk_client }.

Definition commitAnswer (r : ret CommitResult) : result commit_err (option CommitResult) :=
  match r with
  | Val res => Ok (Some res)
  | Fail Catalogs.ErrCommitConflict => Err Gateway.ErrCommitConflict
  | _ => Err CommitOther
  end.

Section commits.
Context {Creds : Type}.
Context (specID : TableMetadata -> Z).
Context (unmarshalCommit : gostring -> option Catalogs.CommitRequest).
Context (parseUnverified : gostring -> option claims).
Context (sha256 : gostring -> gostring).

Abbreviation gwR := (@gwR Creds packaged TableMetadata Catalogs.CommitRequest).

(** The commits of the handler are the adapter's, over some catalog. *)
Definition throughAdapters (o : env gwR) : Prop :=
  forall h ad ref commit policy, exists rest u,
    o h (Gateway.CommitTable ad ref commit policy) =
      commitAnswer (run rest u (cl_CommitTable (pk_client ad) ref commit)).1.

Definition commitAnswerOf (e : event gwR) : option (result commit_err (option CommitResult)) :=
  match e with existT (Gateway.CommitTable _ _ _ _) ans => Some ans | _ => None end.

(** (C29) No commit of the gateway ever changes a table.  An adapter of any of the
    four packages makes no call to its catalog for a commit that has a
    requirement or an update, and fails; so the handler answers such a commit
    with 502 when everything before it went well, and never with 200. *)
Theorem gateway_commits_no_updates (deps : Deps) (r : Gateway.request) (o : env gwR)
    (Ho : throughAdapters o)
    (Hreq : forall body commit, Gateway.rq_body r = Some body -> unmarshalCommit body = Some commit ->
       Requirements commit <> [] \/ Updates commit <> []) :
  (forall c ref req, fromPackage c -> Requirements req <> [] \/ Updates req <> [] ->
     forall rest h, run rest h (cl_CommitTable c ref req) = (Fail NotConverted, [])) /\
  let '(out, t) := run o [] (CommitHandler specID unmarshalCommit parseUnverified sha256 deps r) in
  (forall resp, out = Responded resp -> code resp <> 200%N /\ results resp = []) /\
  (commitsOf t <> [] -> exists resp, out = Responded resp /\ code resp = 502%N).
Proof.
  split; [intros c ref req Hc Hr rest h; by rewrite commit_not_converted|].
  pose proof (always_run _ _ [] o (CommitHandler_ending specID unmarshalCommit parseUnverified sha256
    (fun _ => None) deps r)) as Hend.
  pose proof (run_answers o [] (CommitHandler specID unmarshalCommit parseUnverified sha256 deps r))
    as Hans.
  destruct (run o [] _) as [out t]. cbn [app snd] in *. destruct Hend as [[Hc He _]|[Hf]].
  { split; [by intros resp ->|by rewrite Hc]. }
  destruct Hf as (principal & commit & ad & policy & ans & t1 & t2 & Hadm & -> & _ & _ & _ & _ & Ha & _).
  specialize (Hans _ _ _ eq_refl). apply (f_equal commitAnswerOf) in Hans.
  cbn [commitAnswerOf projT1 ev] in Hans. injection Hans as ->.
  destruct (Ho t1 ad (pathRef r) commit policy) as (rest & u & E). rewrite E in Ha.
  destruct (adm_body _ _ _ _ _ Hadm) as (body & Hb & _ & Hu).
  rewrite commit_not_converted in Ha by eauto using pk_from. cbn in Ha.
  destruct out as [resp|]; [|done]. destruct Ha as [Hcode Hres].
  split; [intros ? [= <-]; by rewrite Hcode|eauto].
Qed.
End commits.

(** ** Conversion *)

(** What a loaded table becomes keeps every snapshot, in order, with its ids and
    its time, and the id of the current one; but all of them carry the metadata
    location of the table, which is the key that ingest merges snapshots by: a
    history ingested from it touches one node only. *)
Theorem converted_history_collapses (tenantID : gostring) (tbl : restTable) (meta : restMetadata)
    (g : metaGraph) (Hm : rt_Metadata tbl = Some meta) :
  exists m, convertTable (Some tbl) = Some m /\
    map (fun s => (SnapshotID s, TimestampMs s)) (tm_Snapshots m) =
      map (fun s => (rs_SnapshotID s, rs_TimestampMs s)) (rm_Snapshots meta) /\
    (forall cur, rm_Current meta = Some cur -> tm_CurrentSnapshotID m = rs_SnapshotID cur) /\
    Forall (fun s => MetadataLocation s = rt_Location tbl) (tm_Snapshots m) /\
    forall loc, loc <> rt_Location tbl ->
      snapshots (mergeSnapshots tenantID (tm_Snapshots m) g) !! loc = snapshots g !! loc.
Proof.
  cbn [convertTable]. rewrite Hm. eexists. split; [done|].
  cbn [tm_Snapshots tm_CurrentSnapshotID]. unfold convertSnapshots. split; [by rewrite map_map|].
  split; [by intros cur ->|]. split; [by apply Forall_fmap, Forall_true|].
  intros loc Hloc. unfold mergeSnapshots. generalize g.
  induction (rm_Snapshots meta) as [|s l IH]; intros g0; [done|].
  cbn [map fold_left]. rewrite IH. unfold IngestMeta.MergeSnapshot.
  case_match; [done|]. case_match; [done|].
  unfold mergeSnapshotStmt. cbn. by rewrite lookup_insert_ne.
Qed.

(** ** Secrets *)

Definition hideCredential (o : restOptions) : restOptions :=
  mkRest (ro_name o) (ro_uri o) None (ro_authURI o) (ro_scope o) (ro_warehouse o) (ro_prefix o)
    (ro_props o) (ro_transport o).

Definition polarisSecret (s : gostring) (c : Polaris.Config) : Polaris.Config :=
  Polaris.mkConfig (Polaris.Endpoint c) (Polaris.Warehouse c) (Polaris.ClientID c) s
    (Polaris.Scope c) (Polaris.CredentialMode c) (Polaris.hasCoordinator c).

Definition unitySecret (s : gostring) (c : Unity.Config) : Unity.Config :=
  Unity.mkConfig (Unity.WorkspaceHost c) (Unity.WorkspaceID c) (Unity.OAuthClientID c) s
    (Unity.CatalogName c) (Unity.CredentialMode c).

(** A text is cut at a colon in one way only. *)
Definition cutsAs (credential id secret : gostring) : Prop :=
  forall a b, credential = a ++ ":" ++ b -> a = id /\ b = secret.

Lemma contains_colon s : contains s ":" = false -> ":"%char ∉ s.
Proof.
  intros H Hin. apply list_elem_of_split in Hin as (a & z & ->).
  assert (contains (a ++ ":"%char :: z) ":" = true) as H'.
  { apply contains_spec. by exists a, z. }
  congruence.
Qed.

Lemma cut_unique id secret :
  contains id ":" = false -> contains secret ":" = false -> cutsAs (id ++ ":" ++ secret) id secret.
Proof.
  intros Hi%contains_colon Hs%contains_colon a b.
  revert a Hi. induction id as [|c id IH]; intros [|d a] Hi H; cbn in H.
  - by injection H as ->.
  - injection H as <- ->. exfalso. apply Hs, elem_of_app. right. by left.
  - injection H as -> _. exfalso. apply Hi. by left.
  - injection H as -> H. apply not_elem_of_cons in Hi as [_ Hi].
    by destruct (IH a Hi H) as [-> ->].
Qed.

(** Where secrets go.  The client secret of a valid Polaris or Unity
    configuration is read back from the credential, at its colon; it reaches
    nothing else: two configurations that differ in the secret only make the
    same connection but for the credential, and the same client.  Nessie's
    bearer token is one of the properties. *)
Theorem secrets_confined :
  (forall c, Polaris.Validate c = None ->
     exists credential, ro_credential (Polaris.options (Polaris.withDefaults c)) = Some credential /\
       cutsAs credential (Polaris.ClientID c) (Polaris.ClientSecret c)) /\
  (forall c, Unity.Validate c = None ->
     exists credential, ro_credential (Unity.options (Unity.withDefaults c)) = Some credential /\
       cutsAs credential (Unity.OAuthClientID c) (Unity.OAuthClientSecret c)) /\
  (forall timeParse c s,
     hideCredential (Polaris.options (polarisSecret s c)) = hideCredential (Polaris.options c) /\
     Polaris.client timeParse (polarisSecret s c) = Polaris.client timeParse c) /\
  (forall c s, hideCredential (Unity.options (unitySecret s c)) = hideCredential (Unity.options c)) /\
  (forall c, Nessie.AuthMode c = "bearer" -> ("token" : gostring, Nessie.BearerToken c) ∈ ro_props (Nessie.options c)).
Proof.
  split_and!.
  - intros c Hv. eexists. split; [done|]. apply firstFailure_none in Hv.
    rewrite !Forall_cons in Hv. destruct Hv as (_ & _ & _ & _ & Hi & Hs & _). by apply cut_unique.
  - intros c Hv. eexists. split; [done|]. apply firstFailure_none in Hv.
    rewrite !Forall_cons in Hv. destruct Hv as (_ & _ & _ & _ & _ & Hi & Hs & _). by apply cut_unique.
  - done.
  - done.
  - intros c Hc. cbn [ro_props Nessie.options]. apply elem_of_app. right.
    rewrite bool_decide_eq_true_2 by done. by apply list_elem_of_singleton.
Qed.

(** ** Transports *)

Section transports.
Context {Response Creds : Type}.
Context (StatusCode : Response -> Z).
Context (sha256 : gostring -> gostring).

Abbreviation httpR := (@httpR Response Creds).

(** The requests that reached the network, and what a 401 answered. *)
Definition sends (t : trace httpR) : list Transport.request :=
  omap (fun c : httpCall => match c with Send q => Some q | _ => None end) (calls t).

Definition refused (e : event httpR) : bool :=
  match e with existT (Send _) (Some resp) => (StatusCode resp =? 401)%Z | _ => false end.

(** What Unity is sent for a request: at most two requests, each for the
    workspace of the configuration whatever the caller's headers say and
    otherwise with the caller's headers, so that a second one, sent after a 401
    only, repeats the token that was refused, and has nothing left of a body. *)
Theorem unity_requests (workspaceID : gostring) (o : env httpR) (h : trace httpR)
    (r : Transport.request) :
  let '(resp, t) := run o h (unityTransport StatusCode workspaceID r) in
  length (sends t) <= 2 /\
  (forall q, q ∈ sends t -> rq_headers q !! workspaceHeader = Some workspaceID /\
     forall k, k <> workspaceHeader -> rq_headers q !! k = rq_headers r !! k) /\
  (forall q, sends t !! 1 = Some q -> existsb refused t = true /\
     forall data, Transport.rq_body r = Unread data -> Transport.rq_body q = Spent).
Proof.
  unfold unityTransport, refreshOn401RoundTrip, databricksContextRoundTrip, network.
  cbn [bind run]. set (c := Send _).
  assert (forall q, rq_headers q = <[workspaceHeader := workspaceID]> (rq_headers r) ->
    rq_headers q !! workspaceHeader = Some workspaceID /\
    forall k, k <> workspaceHeader -> rq_headers q !! k = rq_headers r !! k) as Hq.
  { intros q ->. split; [apply lookup_insert_eq|]. intros k Hk. by rewrite lookup_insert_ne. }
  assert (forall (t : trace httpR), sends t = [setHeader workspaceHeader workspaceID r] ->
    length (sends t) <= 2 /\
    (forall q, q ∈ sends t -> rq_headers q !! workspaceHeader = Some workspaceID /\
       forall k, k <> workspaceHeader -> rq_headers q !! k = rq_headers r !! k) /\
    (forall q, sends t !! 1 = Some q -> existsb refused t = true /\
       forall data, Transport.rq_body r = Unread data -> Transport.rq_body q = Spent)) as Hone.
  { intros t ->. split; [cbn; lia|]. split; [|done]. intros q ->%list_elem_of_singleton. by apply Hq. }
  destruct (o h c) as [resp|] eqn:E; [|by apply Hone].
  destruct (StatusCode resp =? 401)%Z eqn:Es; [|by apply Hone].
  cbn [run]. split; [cbn; lia|]. split.
  - intros q [->|[->|[]%not_elem_of_nil]%elem_of_cons]%elem_of_cons; by apply Hq.
  - intros q [= <-]. split; [cbn; by rewrite Es|]. intros data Hb. cbn. by rewrite Hb.
Qed.

(** What Glue is sent is signed for what it holds: the signature of every
    request that reaches the network was asked for it, for the service [glue]
    in the configured region, with the hash of its body - as long as the length
    of the body was given; with a length of 0, which is also that of a body of
    unknown length, the hash is that of no body whatever is sent. *)
Theorem sigv4_payload (region : gostring) (o : env httpR) (h : trace httpR) (r : Transport.request)
    (Hsha : hexEncode (sha256 []) = unsignedPayloadHash) (Hbody : Transport.rq_body r <> Spent) :
  let '(resp, t) := run o h (newSigV4Transport sha256 region r) in
  forall q, q ∈ sends t -> exists creds q0 hash headers,
    SignHTTP creds q0 hash "glue" region ∈ calls t /\ q = withHeaders headers q0 /\
    Transport.rq_body q = Transport.rq_body r /\
    hash = match Transport.rq_body r with
           | Unread data => if (rq_ContentLength r =? 0)%Z then unsignedPayloadHash
                            else hexEncode (sha256 data)
           | _ => unsignedPayloadHash
           end.
Proof.
  unfold newSigV4Transport, sigv4RoundTrip, network. cbn [run].
  destruct (o h Retrieve) as [creds|]; [|by intros q ?%not_elem_of_nil].
  assert (forall h0 q0 hash t0, sends t0 = [] -> Transport.rq_body q0 = Transport.rq_body r ->
    hash = match Transport.rq_body r with
           | Unread data => if (rq_ContentLength r =? 0)%Z then unsignedPayloadHash
                            else hexEncode (sha256 data)
           | _ => unsignedPayloadHash
           end ->
    let '(resp, t) := run o h0 (Do (R := httpR) (SignHTTP creds q0 hash "glue" region)
      (fun signed : option (gmap gostring gostring) =>
       match signed with None => Ret None | Some headers => network (withHeaders headers q0) end)) in
    forall q, q ∈ sends (t0 ++ t) -> exists creds q0 hash headers,
      SignHTTP creds q0 hash "glue" region ∈ calls (t0 ++ t) /\ q = withHeaders headers q0 /\
      Transport.rq_body q = Transport.rq_body r /\
      hash = match Transport.rq_body r with
             | Unread data => if (rq_ContentLength r =? 0)%Z then unsignedPayloadHash
                              else hexEncode (sha256 data)
             | _ => unsignedPayloadHash
             end) as Hsign.
  { intros h0 q0 hash t0 Ht0 Hb Hh. cbn [run network]. set (c := SignHTTP _ _ _ _ _).
    destruct (o h0 c) as [headers|]; cbn [run network];
      intros q; unfold sends in *; rewrite calls_app, omap_app, Ht0; cbn;
      [intros ->%list_elem_of_singleton|by intros ?%not_elem_of_nil].
    exists creds, q0, hash, headers. split; [apply elem_of_app; right; by left|]. by destruct q0. }
  set (e0 := ev (R := httpR) Retrieve (Some creds)) in *.
  unfold computeBodyHash. destruct (Transport.rq_body r) as [|data|] eqn:Eb; [| |done].
  - specialize (Hsign (h ++ [e0]) r unsignedPayloadHash [e0] eq_refl Eb eq_refl).
    cbn [bind]. destruct (run o (h ++ [e0]) _) as [resp t]. exact Hsign.
  - destruct (rq_ContentLength r =? 0)%Z.
    { specialize (Hsign (h ++ [e0]) r unsignedPayloadHash [e0] eq_refl Eb eq_refl).
      cbn [bind]. destruct (run o (h ++ [e0]) _) as [resp t]. exact Hsign. }
    cbn [bind run]. set (c := ReadAll data).
    destruct (o (h ++ [e0]) c : bool); [|by intros q ?%not_elem_of_nil].
    set (hash := if bool_decide (data = []) then unsignedPayloadHash else hexEncode (sha256 data)).
    assert (hash = hexEncode (sha256 data)) as Hh.
    { subst hash. case_bool_decide as Hd; [|done]. by rewrite Hd, Hsha. }
    specialize (Hsign ((h ++ [e0]) ++ [ev (R := httpR) c true]) (withBody data r) hash
      [e0; ev (R := httpR) c true] eq_refl eq_refl Hh).
    cbn [bind]. destruct (run o _ (Do _ _)) as [resp t]. exact Hsign.
Qed.
End transports.

(** ** Vending *)

(** What the REST client answers to a load under a session policy. *)
Definition loadVia (o : env catR) (h : trace catR) (policy : gostring) (ident : list gostring)
  : option (gmap gostring gostring) :=
  match o h (RestLoadTable ident (Some policy)) with
  | Ok (Some tbl) => Some (rt_Properties tbl)
  | _ => None
  end.

(** The outcomes of [Polaris.IssueScopedSTSCredentials], as [Credvend] tells
    them apart. *)
Definition vendResult (r : ret STSCredentials) : result polaris_err STSCredentials :=
  match r with
  | Val s => Ok s
  | Fail (VendFailed e) => Err e
  | _ => Err LoadFailed
  end.

Lemma Build_nonempty table region warehouse policy :
  Build table region warehouse = Some policy -> policy <> [].
Proof. unfold Build. destruct (extractBucketFromWarehouse _); [|done]. by intros [= <-]. Qed.

(** Vending, from the configuration to the wire: the adapter does what the model
    of vending takes it to do; credentials come from one load of that very
    table, under the session policy of the table and the region in the
    warehouse of the configuration; and what reaches the network for it is the
    one request of the REST client, with that policy in its header whatever
    was there. *)
Theorem vended_under_policy {Response Creds : Type} (timeParse : gostring -> gostring -> option Z)
    (c : Polaris.Config) (table : TableRef) (region : gostring) (o : env catR) (h : trace catR) :
  let '(r, t) := run o h (Polaris.IssueScopedSTSCredentials timeParse c table region) in
  vendResult r = Credvend.IssueScopedSTSCredentials timeParse (loadVia o h) (Polaris.Warehouse c)
                   table region /\
  (forall s, r = Val s -> sts_Region s = region /\ exists policy,
     Build table region (Polaris.Warehouse c) = Some policy /\
     calls t = [RestLoadTable (toIdentifier table) (Some policy)] /\
     forall (net : env (@httpR Response Creds)) u (q : Transport.request),
       sends (run net u (polarisTransport (contextWithSessionPolicy policy q))).2 =
         [setHeader sessionPolicyHeader policy (contextWithSessionPolicy policy q)]).
Proof.
  unfold Polaris.IssueScopedSTSCredentials, Credvend.IssueScopedSTSCredentials.
  destruct (Build table region (Polaris.Warehouse c)) as [policy|] eqn:Eb; [|by split].
  cbn [run]. unfold loadVia. set (q := RestLoadTable _ _).
  destruct (o h q) as [[tbl|]|e]; [|by split|].
  - destruct (parseVendedCreds timeParse (rt_Properties tbl)) as [s|e]; [|by split].
    split; [done|]. intros ? [= <-]. split; [done|]. exists policy. split_and!; [done..|].
    intros net u rq. unfold polarisTransport, sessionPolicyRoundTrip, network.
    cbn [contextWithSessionPolicy rq_policy].
    rewrite bool_decide_eq_false_2 by (by eapply Build_nonempty). by cbn.
  - split; [|done]. unfold Polaris.translateError, translateByWords. by repeat case_match.
Qed.

(** ** Samples *)

Module CatalogsDemo.
Definition orders : TableRef := mkTableRef ["sales"] "orders".

Definition snap (id ms : Z) : restSnapshot := mkRestSnapshot id None ms (Some ("append" : gostring)).

(** Two old snapshots, of which one is pinned, and a young one. *)
Definition metadata : restMetadata :=
  mkRestMetadata "u-1" None 0 [] (Some (snap 33 9000)) [snap 11 1000; snap 22 2000; snap 33 9000] [].

Definition table : restTable := mkRestTable "s3://b/m3.json" (Some metadata) ∅.

(** A catalog with that table, and a coordinator that holds on to snapshot 22. *)
Definition catalog : env catR := fun _ c =>
  match c return catR c with
  | RestListTables _ => [Ok (["sales"; "orders"] : list gostring)]
  | RestLoadTable _ _ => Ok (Some table)
  | RestCommitTable _ _ _ => Ok (Some metadata, "s3://b/m4.json" : gostring)
  | GuardExpireSnapshots _ candidates =>
      Some (List.filter (fun s => negb (bool_decide (s = "22"))) candidates, ["22" : gostring])
  | NewCatalog _ => true
  | LoadDefaultConfig _ => true
  end.

Definition guarded : flavor := mkFlavor Polaris.IsCommitConflict Polaris.translateError true.

Lemma catalog_faithful : faithfulCatalog catalog.
Proof.
  split.
  - intros h ref candidates. cbn. intros s Hs.
    apply list_elem_of_In, filter_In in Hs as [Hs%list_elem_of_In Hn].
    split; [done|]. rewrite list_elem_of_singleton.
    by rewrite negb_true_iff, bool_decide_eq_false in Hn.
  - intros h ident policy. cbn. intros meta s [= <-] Hs.
    repeat (apply elem_of_cons in Hs as [->|Hs]; [by vm_compute; split|]). by apply not_elem_of_nil in Hs.
Defined.

(** The handler's environment: everything before the commit succeeds. *)
Definition adapter : packaged :=
  mkPackaged Nessie.client (ex_intro _ Nessie.theFlavor
    (conj flavor_nessie (conj eq_refl (conj eq_refl (conj eq_refl (conj eq_refl eq_refl)))))).

Definition gateway : env (@gwR unit packaged TableMetadata Catalogs.CommitRequest) := fun _ c =>
  match c return gwR c with
  | GetCatalogCredentials _ => Ok tt
  | Gateway.BuildAdapter _ => Some adapter
  | Gateway.LoadTable _ _ => Ok (mkMetadata [] [] 0 [] 33 "s3://b/m3.json" [] [])
  | LoadActive _ => Some (Some 0%Z)
  | LoadForTable _ => Some ("retry" : gostring)
  | LoadPolicies _ => Some []
  | RunPolicy _ _ _ _ => BoolValue true
  | Gateway.CommitTable ad ref commit _ =>
      commitAnswer (run catalog [] (cl_CommitTable (pk_client ad) ref commit)).1
  | CommitRejected _ => tt
  | FreshIDs => ("c1" : gostring, "now" : gostring)
  | OpenAuditTx _ => true
  | AuditExec _ => true
  | AuditInsert _ => true
  | CloseAuditTx _ => true
  | Gateway.MergeSnapshot _ _ _ => true
  end.

(** The body stands for a commit with one update. *)
Definition decode (body : gostring) : option Catalogs.CommitRequest :=
  Some (mkCommitRequest [] [[("action" : gostring, VString body)]]).

Definition post : Gateway.request :=
  Gateway.mkRequest "POST" (Some ("t1" : gostring)) "prod" "db" "orders" None "Bearer alice" "Spark"
    (Some ("set-properties" : gostring)).

Definition handled :=
  run gateway [] (CommitHandler (Creds := unit) tm_SpecID decode Sample.parseUnverified (fun b => b)
    (mkDeps false false) post).

(** SHA-256 of the empty string, and of anything else something else. *)
Definition sha256 (s : gostring) : gostring :=
  if bool_decide (s = []) then
    map ascii_of_N [227; 176; 196; 66; 152; 252; 28; 20; 154; 251; 244; 200; 153; 111; 185; 36;
                    39; 174; 65; 228; 100; 155; 147; 76; 164; 149; 153; 27; 120; 82; 184; 85]%N
  else s.
End CatalogsDemo.

Lemma expire_only_old_unpinned_witness :
  let '(r, t) := run CatalogsDemo.catalog []
    (ExpireSnapshots CatalogsDemo.guarded CatalogsDemo.orders 5000000000) in
  expirySpec CatalogsDemo.guarded CatalogsDemo.orders 5000000000 r t /\ r = Val tt /\ removed t = [11%Z].
Proof.
  pose proof (expire_only_old_unpinned CatalogsDemo.guarded CatalogsDemo.catalog [] CatalogsDemo.orders
    5000000000 CatalogsDemo.catalog_faithful) as H.
  assert ((run CatalogsDemo.catalog []
    (ExpireSnapshots CatalogsDemo.guarded CatalogsDemo.orders 5000000000)).1 = Val tt /\
    removed (run CatalogsDemo.catalog []
    (ExpireSnapshots CatalogsDemo.guarded CatalogsDemo.orders 5000000000)).2 = [11%Z]) as H1
    by (by vm_compute).
  destruct (run _ _ _) as [r t]. split; [exact H|exact H1].
Defined.

Lemma gateway_commits_no_updates_witness :
  CatalogsDemo.handled.1 = Responded (mkResponse 502 "upstream commit failed" []) /\
  length (commitsOf CatalogsDemo.handled.2) = 1 /\
  forall resp, CatalogsDemo.handled.1 = Responded resp -> code resp <> 200%N /\ results resp = [].
Proof.
  split; [by vm_compute|]. split; [by vm_compute|].
  assert (let '(out, t) := CatalogsDemo.handled in
    (forall resp, out = Responded resp -> code resp <> 200%N /\ results resp = []) /\
    (commitsOf t <> [] -> exists resp, out = Responded resp /\ code resp = 502%N)) as H.
  { refine (proj2 (gateway_commits_no_updates (Creds := unit) tm_SpecID CatalogsDemo.decode
      Sample.parseUnverified (fun b => b) (mkDeps false false) CatalogsDemo.post CatalogsDemo.gateway
      _ _)).
    - intros h ad ref commit policy. by exists CatalogsDemo.catalog, [].
    - intros body commit _ [= <-]. by right. }
  rewrite (surjective_pairing CatalogsDemo.handled) in H. exact (proj1 H).
Defined.

(** A snapshot list of three, and one key. *)
Lemma converted_history_collapses_witness :
  exists m, convertTable (Some CatalogsDemo.table) = Some m /\ length (tm_Snapshots m) = 3 /\
    forall loc, loc <> "s3://b/m3.json" ->
      snapshots (mergeSnapshots "t" (tm_Snapshots m) (mkMeta ∅ ∅ ∅)) !! loc = None.
Proof.
  destruct (converted_history_collapses "t" CatalogsDemo.table CatalogsDemo.metadata (mkMeta ∅ ∅ ∅) eq_refl)
    as (m & Hm & _ & _ & _ & H).
  exists m. split; [exact Hm|]. split; [by injection Hm as <-|]. exact H.
Defined.

Lemma conflict_by_substring_witness :
  packageFlavor Unity.theFlavor /\
  commitError Unity.theFlavor (mkUp true "Table does not exist: sales.t4091") = ErrCommitConflict.
Proof.
  split; [constructor|].
  exact (proj2 (conflict_by_substring Unity.theFlavor flavor_unity)).
Defined.

(** The body of a request of unknown length is signed as if there were none. *)
Lemma sigv4_payload_witness :
  let o : env (@httpR Z unit) := fun _ c =>
    match c return httpR c with
    | Send _ => Some 200%Z
    | CloseBody _ => tt
    | Retrieve => Some tt
    | ReadAll _ => true
    | SignHTTP _ _ _ _ _ => Some ∅
    end in
  exists q0 hash, SignHTTP tt q0 hash "glue" "eu-west-1" ∈
    calls (run o [] (newSigV4Transport CatalogsDemo.sha256 "eu-west-1"
      (Transport.mkRequest ∅ None (Unread "body") 0))).2 /\ hash = unsignedPayloadHash.
Proof.
  intros o.
  pose proof (sigv4_payload CatalogsDemo.sha256 "eu-west-1" o []
    (Transport.mkRequest ∅ None (Unread "body") 0) eq_refl ltac:(done)) as H.
  destruct (run o [] _) as [resp t] eqn:E.
  destruct (H (withHeaders ∅ (Transport.mkRequest ∅ None (Unread "body") 0))) as
    ([] & q0 & hash & headers & Hin & _ & _ & Hh).
  { injection E as _ <-. by left. }
  exists q0, hash. split; [exact Hin|exact Hh].
Defined.
