(* ===== verification/Migrate.v ===== *)
(** * Migrations

    [internal/migrate]: the runs of the Atlas tool with their retries
    ([migrate.go]), the runner of the graph migrations ([graph.go]), and the
    rollout over all tenants ([cmd/migrate]).  Atlas is a call: it answers
    success, or what it wrote to its standard error.  The graph migrations of
    one tenant are one transaction on a working copy of its revisions and of the
    scripts that took effect. *)

From S2P Require Import Prelude Effects Order.
From stdpp Require Import sorting.
From Stdlib Require Import Lia.
#[local] Open Scope go_scope.

(** ** Running Atlas ([migrate.go]) *)

Definition maxDeadlockAttempts : nat := 3.
Definition PublicMaxVersion : gostring := "0044".
Definition TenantBaselineVersion : gostring := PublicMaxVersion.
Definition Phase0GraphBaselineVersion : gostring := "0025".
Definition RevisionsSchema : gostring := "public".
Definition stderrCaptureMax : N := 64 * 1024.

(** [stderrCapture.Write], the part it keeps. *)
Definition captureWrite (p buf : gostring) : gostring :=
  let max := N.to_nat stderrCaptureMax in
  if (stderrCaptureMax <? N.of_nat (length buf + length p))%N then
    let room := max - length buf in
    if (0 <? room)%nat then buf ++ take room p else buf
  else buf ++ p.

(** The [String] of the capture after the writes. *)
Definition captured (writes : list gostring) : gostring :=
  fold_left (fun buf p => captureWrite p buf) writes [].

(** A path is the list of its components. *)
Definition path : Type := list gostring.

Definition pathText (p : path) : gostring := "/" ++ Prelude.join "/" p.

(** [filepath.Dir]; the root is its own parent. *)
Definition parentDir (p : path) : path := take (length p - 1) p.

Section files.
(** What exists, and the working directory. *)
Context (stat : path -> bool) (getwd : option path).

Definition marker (p : path) : path :=
  p ++ ["migrations" : gostring; "postgres" : gostring; "V0001__enable_extensions.sql" : gostring].

Fixpoint climb (i : nat) (cur : path) : option path :=
  match i with
  | 0 => None
  | S i =>
      if stat (marker cur) then Some cur
      else if bool_decide (parentDir cur = cur) then None else climb i (parentDir cur)
  end.

Definition findRepoRoot : option path := cur ← getwd; climb 6 cur.

Definition ResolveDirURL : gostring :=
  match findRepoRoot with
  | None => "file://migrations/postgres" ++ "?format=flyway"
  | Some root =>
      "file://" ++ pathText (root ++ ["migrations" : gostring; "postgres" : gostring]) ++ "?format=flyway"
  end.

Definition ResolveConfigURL : gostring :=
  match findRepoRoot with
  | None => "file://migrations/atlas.hcl"
  | Some root => "file://" ++ pathText (root ++ ["migrations" : gostring; "atlas.hcl" : gostring])
  end.

(** The calls of the rollout.  [RunAtlas] answers [None] on success, or the
    writes to the standard error of the run that failed. *)
Inductive migCall :=
  | RunAtlas (args : list gostring)
  | Sleep (ms : nat)
  | Discover
  | OpenPool
  | GraphMigrations (schema : gostring).

Definition migR (c : migCall) : Type :=
  match c with
  | RunAtlas _ => option (list gostring)
  | Sleep _ => unit
  | Discover => option (list gostring)
  | OpenPool => bool
  | GraphMigrations _ => bool
  end.

Abbreviation migProg := (prog migR).

(** The errors: of Atlas, with the captured text; of the retries, around the
    last of those; of the DSN. *)
Inductive mig_err :=
  | AtlasError (stderr : gostring)
  | Exhausted (stderr : option gostring)
  | NoSchema.

(** The [stderr] that [errors.As] finds. *)
Definition stderrOf (e : mig_err) : option gostring :=
  match e with AtlasError s => Some s | Exhausted s => s | NoSchema => None end.

(** [fn] is one run of Atlas; its error always is an [atlasError]. *)
Definition runAtlas (args : list gostring) : migProg (option gostring) :=
  Do (R := migR) (RunAtlas args) (fun r : option (list gostring) => Ret (captured <$> r)).

Fixpoint retryLoop (fn : migProg (option gostring)) (n attempt more : nat)
    (lastErr : option gostring) : migProg (option mig_err) :=
  match more with
  | 0 => Ret (Some (Exhausted lastErr))
  | S more =>
      bind fn (fun r =>
      match r with
      | None => Ret None
      | Some stderr =>
          if negb (contains stderr "40P01") then Ret (Some (AtlasError stderr))
          else if (attempt <? n)%nat
          then Do (R := migR) (Sleep (attempt * 200)) (fun _ : unit =>
                 retryLoop fn n (S attempt) more (Some stderr))
          else retryLoop fn n (S attempt) more (Some stderr)
      end)
  end.

Definition retryOnDeadlock (fn : migProg (option gostring)) (n : nat) : migProg (option mig_err) :=
  retryLoop fn n 1 n None.

Definition publicArgs (dsn : gostring) : list gostring :=
  ["--config" : gostring; ResolveConfigURL; "--env" : gostring; "public" : gostring;
   "migrate" : gostring; "apply" : gostring; "--url" : gostring; dsn;
   "--dir" : gostring; ResolveDirURL; "--revisions-schema" : gostring; RevisionsSchema;
   "--to-version" : gostring; PublicMaxVersion].

(** The text of the run that finds nothing to do. *)
Definition upToDate : gostring :=
  "to-version " ++ [ascii_of_N 34] ++ PublicMaxVersion ++ [ascii_of_N 34]
  ++ " not found in pending migration files".

Definition ApplyPublic (dsn : gostring) : migProg (option mig_err) :=
  bind (retryOnDeadlock (runAtlas (publicArgs dsn)) maxDeadlockAttempts) (fun err =>
  Ret (match err with
       | Some e =>
           match stderrOf e with
           | Some stderr => if contains stderr upToDate then None else Some e
           | None => Some e
           end
       | None => None
       end)).

Definition composeTenantDSN (baseDSN schema : gostring) : option gostring :=
  if bool_decide (schema = []) then None
  else Some (baseDSN ++ (if contains baseDSN "?" then "&" else "?") ++ "search_path=" ++ schema).

Definition tenantArgs (dsn schema : gostring) : list gostring :=
  ["--config" : gostring; ResolveConfigURL; "--env" : gostring; "tenant" : gostring;
   "migrate" : gostring; "apply" : gostring; "--url" : gostring; dsn;
   "--dir" : gostring; ResolveDirURL; "--revisions-schema" : gostring; schema;
   "--baseline" : gostring; TenantBaselineVersion].

Definition ApplyTenant (baseDSN schema : gostring) : migProg (option mig_err) :=
  match composeTenantDSN baseDSN schema with
  | None => Ret (Some NoSchema)
  | Some dsn => retryOnDeadlock (runAtlas (tenantArgs dsn schema)) maxDeadlockAttempts
  end.

(** ** The rollout ([cmd/migrate/main.go]) *)

(** The loop over the tenants: those that failed. *)
Fixpoint applyTenants (dsn : gostring) (tenants : list gostring) : migProg (list gostring) :=
  match tenants with
  | [] => Ret []
  | t :: tenants =>
      bind (ApplyTenant dsn t) (fun err =>
      match err with
      | Some _ => bind (applyTenants dsn tenants) (fun fs => Ret (t :: fs))
      | None =>
          Do (R := migR) (GraphMigrations t) (fun ok : bool =>
          bind (applyTenants dsn tenants) (fun fs => Ret (if ok then fs else t :: fs)))
      end)
  end.

(** One tenant, with [--tenant]: the exit code. *)
Definition mainTenant (dsn tenantFlag : gostring) : migProg nat :=
  bind (ApplyTenant dsn tenantFlag) (fun err =>
  match err with
  | Some _ => Ret 1
  | None =>
      Do (R := migR) OpenPool (fun ok : bool =>
      if ok then
        Do (R := migR) (GraphMigrations tenantFlag) (fun ok : bool => Ret (if ok then 0 else 1))
      else Ret 1)
  end).

(** Steps 2 and 3. *)
Definition mainTenants (dsn : gostring) : migProg nat :=
  Do (R := migR) Discover (fun r : option (list gostring) =>
  match r with
  | None => Ret 2
  | Some tenants =>
      Do (R := migR) OpenPool (fun ok : bool =>
      if ok then
        bind (applyTenants dsn tenants) (fun failures =>
        Ret (if bool_decide (failures = []) then 0 else 1))
      else Ret 2)
  end).

Definition main (dsn tenantFlag : gostring) (skipPublic : bool) : migProg nat :=
  if bool_decide (dsn = []) then Ret 2
  else if negb (bool_decide (tenantFlag = [])) then mainTenant dsn tenantFlag
  else if skipPublic then mainTenants dsn
  else
    bind (ApplyPublic dsn) (fun err =>
    match err with Some _ => Ret 2 | None => mainTenants dsn end).
End files.

(** ** Graph migrations ([graph.go]) *)

Definition isDollarTagChar (b : ascii) : bool :=
  isLower b || isUpper b || isDigit b || bool_decide (b = "_"%char).

Definition dollar : ascii := "$"%char.

(** The tag that is open after a line: [depth] is 1 exactly when there is one. *)
Fixpoint scanLine (fuel : nat) (openTag : option gostring) (line : gostring) : option gostring :=
  match fuel, line with
  | S fuel, c :: rest =>
      if negb (bool_decide (c = dollar)) then scanLine fuel openTag rest
      else
        let n := countWhile isDollarTagChar rest in
        match drop n rest with
        | d :: rest' =>
            if bool_decide (d = dollar) then
              let tag := dollar :: take n rest ++ [dollar] in
              scanLine fuel
                (match openTag with
                 | None => Some tag
                 | Some t => if bool_decide (tag = t) then None else Some t
                 end) rest'
            else scanLine fuel openTag rest
        | [] => scanLine fuel openTag rest
        end
  | _, _ => openTag
  end.

Definition newline : ascii := "010"%char.

Definition txMarker (line : gostring) : bool :=
  bool_decide (trimSpace line = "BEGIN;") || bool_decide (trimSpace line = "COMMIT;").

Definition topLevel (openTag : option gostring) : bool :=
  match openTag with None => true | Some _ => false end.

Fixpoint stripLines (openTag : option gostring) (lines : list gostring) : gostring :=
  match lines with
  | [] => []
  | line :: lines =>
      (if topLevel openTag && txMarker line then [newline] else line ++ [newline])
      ++ stripLines (scanLine (length line) openTag line) lines
  end.

Definition stripWrappingTx (s : gostring) : gostring := stripLines None (splitByte newline s).

(** Group 1 of [^V0*(\d+)__.+\.sql$]: the digits without leading zeros, the
    last digit kept. *)
Fixpoint dropZeros (digits : gostring) : gostring :=
  match digits with
  | c :: rest =>
      if bool_decide (rest = []) || negb (bool_decide (c = "0"%char)) then digits
      else dropZeros rest
  | [] => []
  end.

Definition graphMigrationFilePattern (name : gostring) : option gostring :=
  match name with
  | v :: rest =>
      let n := countWhile isDigit rest in
      let slug := drop (n + 2) rest in
      if bool_decide (v = "V"%char) && negb (n =? 0)%nat && hasPrefix "__" (drop n rest)
         && (5 <=? length slug)%nat && hasSuffix slug ".sql" && bool_decide (newline ∉ slug)
      then Some (dropZeros (take n rest))
      else None
  | [] => None
  end.

(** [for len(v) < 4 { v = "0" + v }]. *)
Definition padVersion (v : gostring) : gostring := replicate (4 - length v) "0"%char ++ v.

Record entry := mkEntry { version : gostring; body : gostring }.

Definition versionLeq (a b : entry) : Prop := stringLeq (version a) (version b).

#[export] Instance versionLeq_dec : RelDecision versionLeq.
Proof. intros a b. unfold versionLeq. apply _. Defined.

(** The files of the embedded directory with their texts, and the entries in
    the order of the loop.  [sort.Slice] is an insertion sort up to twelve
    entries, so a stable one. *)
Definition entriesOf (files : list (gostring * gostring)) : list entry :=
  merge_sort versionLeq
    (omap (fun f => v ← graphMigrationFilePattern f.1; Some (mkEntry (padVersion v) f.2)) files).

(** ** What PostgreSQL makes of a script

    Its lexer, as its manual describes it: literals with doubled quotes, with
    backslashes after an [E], quoted names, dollar quotes, the two comments, of
    which the second nests.  A statement ends at a semicolon outside all of
    these. *)

Inductive lexMode :=
  | InCode
  | AfterDash | AfterSlash                              (* maybe a comment *)
  | AfterDollar (tag : gostring)                        (* maybe a dollar quote *)
  | InQuotes | InEscapes | AfterBackslash | InName
  | InLine
  | InBlock (n : nat) | BlockStar (n : nat) | BlockSlash (n : nat)
  | InDollar (tag : gostring) (part : option gostring). (* what follows the last [$] *)

(** The mode, and the code of the statement so far; a literal leaves its opening
    quote, a comment a blank. *)
Record lexState := mkLex { mode : lexMode; stmtText : gostring }.

Definition startLex : lexState := mkLex InCode [].

Definition isQuoteE (text : gostring) : bool :=
  match last text with Some c => bool_decide (c = "E"%char) || bool_decide (c = "e"%char) | None => false end.

Definition endsWord (text : gostring) : bool :=
  match last text with Some c => isDollarTagChar c | None => false end.

(** A character outside literals and comments. *)
Definition stepCode (text : gostring) (c : ascii) : list gostring * lexState :=
  if bool_decide (c = ";"%char) then ([text], startLex)
  else if bool_decide (c = "'"%char) then
    ([], mkLex (if isQuoteE text then InEscapes else InQuotes) (text ++ [c]))
  else if bool_decide (c = ascii_of_N 34) then ([], mkLex InName (text ++ [c]))
  else if bool_decide (c = "-"%char) then ([], mkLex AfterDash text)
  else if bool_decide (c = "/"%char) then ([], mkLex AfterSlash text)
  else if bool_decide (c = dollar) && negb (endsWord text) then ([], mkLex (AfterDollar []) text)
  else ([], mkLex InCode (text ++ [c])).

Definition stepLex (st : lexState) (c : ascii) : list gostring * lexState :=
  let text := stmtText st in
  let quote := bool_decide (c = "'"%char) in
  let star := bool_decide (c = "*"%char) in
  let slash := bool_decide (c = "/"%char) in
  match mode st with
  | InCode => stepCode text c
  | AfterDash => if bool_decide (c = "-"%char) then ([], mkLex InLine text) else stepCode (text ++ "-") c
  | AfterSlash => if star then ([], mkLex (InBlock 0) text) else stepCode (text ++ "/") c
  | AfterDollar tag =>
      if bool_decide (c = dollar) then ([], mkLex (InDollar tag None) (text ++ [dollar]))
      else if isDollarTagChar c && negb (bool_decide (tag = []) && isDigit c)
      then ([], mkLex (AfterDollar (tag ++ [c])) text)
      else stepCode (text ++ dollar :: tag) c
  | InQuotes => ([], mkLex (if quote then InCode else InQuotes) text)
  | InEscapes =>
      ([], mkLex (if quote then InCode else if bool_decide (c = ascii_of_N 92) then AfterBackslash else InEscapes) text)
  | AfterBackslash => ([], mkLex InEscapes text)
  | InName => ([], mkLex (if bool_decide (c = ascii_of_N 34) then InCode else InName) text)
  | InLine => ([], if bool_decide (c = newline) then mkLex InCode (text ++ [newline]) else st)
  | InBlock n => ([], mkLex (if star then BlockStar n else if slash then BlockSlash n else InBlock n) text)
  | BlockStar n =>
      ([], if slash then match n with 0 => mkLex InCode (text ++ " ") | S n => mkLex (InBlock n) text end
           else mkLex (if star then BlockStar n else InBlock n) text)
  | BlockSlash n => ([], mkLex (if star then InBlock (S n) else if slash then BlockSlash n else InBlock n) text)
  | InDollar tag part =>
      ([], mkLex (if bool_decide (c = dollar)
                  then if bool_decide (part = Some tag) then InCode else InDollar tag (Some [])
                  else InDollar tag (if isDollarTagChar c then (fun p => p ++ [c]) <$> part else None)) text)
  end.

Fixpoint lexText (st : lexState) (s : gostring) : list gostring * lexState :=
  match s with
  | [] => ([], st)
  | c :: s => let '(ss, st) := stepLex st c in let '(ss', st) := lexText st s in (ss ++ ss', st)
  end.

(** What of a statement matters here: whether it begins or ends a transaction. *)
Inductive statement := BeginStmt | CommitStmt | RollbackStmt | OtherStmt (text : gostring).

Definition isBlank (c : ascii) : bool :=
  let n := ord c in (((9 <=? n) && (n <=? 13)) || (n =? 32))%N.

(** The words of a statement. *)
Fixpoint wordsOf (s word : gostring) : list gostring :=
  let flush := if bool_decide (word = []) then [] else [word] in
  match s with
  | [] => flush
  | c :: s => if isBlank c then flush ++ wordsOf s [] else wordsOf s (word ++ [c])
  end.

(** Chained and prepared transactions are not told apart from the plain ones. *)
Definition classify (text : gostring) : list statement :=
  match map (map toLower) (wordsOf text []) with
  | [] => []
  | w :: ws =>
      if bool_decide (w = "begin") || bool_decide (w = "start") then [BeginStmt]
      else if bool_decide (w = "commit") || bool_decide (w = "end") || bool_decide (w = "prepare" /\ head ws = Some ("transaction" : gostring))
      then [CommitStmt]
      else if bool_decide (w = "abort") || bool_decide (w = "rollback") && negb (bool_decide (("to" : gostring) ∈ ws))
      then [RollbackStmt]
      else [OtherStmt text]
  end.

Definition pgStatements (s : gostring) : list statement :=
  let '(ss, st) := lexText startLex s in concat (map classify (ss ++ [stmtText st])).

(** ** Running the migrations *)

(** The database: the revisions of each tenant schema, once the table is there,
    and what was executed on the one graph, for which schema. *)
Record graphState := mkGraph {
  revisions : gmap gostring (gset gostring);
  executed : list (gostring * gostring)
}.

Definition recorded (schema : gostring) (d : graphState) : gset gostring := default ∅ (revisions d !! schema).

Definition withRevisions (schema : gostring) (vs : gset gostring) (d : graphState) : graphState :=
  mkGraph (<[schema := vs]> (revisions d)) (executed d).

(** The connection of the runner: what is committed, the working copy of the
    transaction, and whether a block is open: without one, every query commits
    by itself. *)
Record graphConn := mkConn { saved : graphState; work : graphState; inBlock : bool }.

Definition opened (d : graphState) : graphConn := mkConn d d true.
Definition queryEnd (c : graphConn) : graphConn := if inBlock c then c else mkConn (work c) (work c) false.

Definition execStatement (schema : gostring) (s : statement) (c : graphConn) : graphConn :=
  match s with
  | BeginStmt => mkConn (saved c) (work c) true
  | CommitStmt => mkConn (work c) (work c) false
  | RollbackStmt => mkConn (saved c) (saved c) false
  | OtherStmt text =>
      mkConn (saved c) (mkGraph (revisions (work c)) (executed (work c) ++ [(schema, text)])) (inBlock c)
  end.

(** [tx.Exec] of a whole script, in the simple protocol: its statements one after
    the other.  Statements are numbered, [ok] says which succeed; one that fails
    undoes what is not committed. *)
Fixpoint execScript (ok : nat -> bool) (n : nat) (schema : gostring) (ss : list statement) (c : graphConn)
  : option nat * graphConn :=
  match ss with
  | [] => (Some n, queryEnd c)
  | s :: ss => if ok n then execScript ok (S n) schema ss (execStatement schema s c) else (None, c)
  end.

Definition due (applied : gset gostring) (e : entry) : bool :=
  negb (stringLe (version e) Phase0GraphBaselineVersion) && bool_decide (version e ∉ applied).

(** The insertion of a version that is there violates the primary key. *)
Definition recordVersion (ok : nat -> bool) (n : nat) (schema v : gostring) (c : graphConn)
  : option nat * graphConn :=
  if ok n && bool_decide (v ∉ recorded schema (work c)) then
    (Some (S n), queryEnd (mkConn (saved c) (withRevisions schema ({[v]} ∪ recorded schema (work c)) (work c)) (inBlock c)))
  else (None, c).

(** The loop. *)
Fixpoint applyEntries (ok : nat -> bool) (n : nat) (schema : gostring) (applied : gset gostring)
    (entries : list entry) (c : graphConn) : option nat * graphConn :=
  match entries with
  | [] => (Some n, c)
  | e :: entries =>
      if due applied e then
        match execScript ok n schema (pgStatements (stripWrappingTx (body e))) c with
        | (None, c) => (None, c)
        | (Some n, c) =>
            match recordVersion ok n schema (version e) c with
            | (None, c) => (None, c)
            | (Some n, c) => applyEntries ok n schema applied entries c
            end
        end
      else applyEntries ok n schema applied entries c
  end.

(** Statements 0 to 3: [LOAD], the search path, the revisions table, the read. *)
Definition graphBody (ok : nat -> bool) (schema : gostring) (files : list (gostring * gostring))
    (d : graphState) : option nat * graphConn :=
  if ok 0 && ok 1 && ok 2 && ok 3 then
    let c := mkConn d (withRevisions schema (recorded schema d) d) true in
    applyEntries ok 4 schema (recorded schema d) (entriesOf files) c
  else (None, opened d).

(** The connection or the transaction does not open; the commit fails; it takes
    place and its answer is lost. *)
Inductive graphFault := GraphFine | GraphOpenFails | GraphCommitFails | GraphCommitLost.

(** [true] is a nil error; the deferred rollback leaves what is committed. *)
Definition ApplyTenantGraph (files : list (gostring * gostring)) (poolNil : bool)
    (schemaName : gostring) (f : graphFault) (ok : nat -> bool) (d : graphState)
  : bool * graphState :=
  if poolNil || bool_decide (schemaName = []) then (false, d)
  else
    match f with
    | GraphOpenFails => (false, d)
    | _ =>
        match graphBody ok schemaName files d with
        | (None, c) => (false, saved c)
        | (Some _, c) =>
            match f with
            | GraphFine => (true, work c)
            | GraphCommitLost => (false, work c)
            | _ => (false, saved c)
            end
        end
    end.
