(* ===== verification/MigrateSpec.v ===== *)
(** * Migrations: what they keep

    The captured error text; the retries; the rollout; the transaction markers
    that are removed from a script; each graph migration executed once. *)

From S2P Require Import Prelude Effects Order Migrate.
From stdpp Require Import sorting relations.
From Stdlib Require Import Lia.
#[local] Open Scope go_scope.

(** ** Atlas *)

(** The capture keeps the first 64 KiB of the standard error, not the last. *)
Lemma captured_first writes : captured writes = take (N.to_nat stderrCaptureMax) (concat writes).
Proof.
  unfold captured. set (max := N.to_nat stderrCaptureMax).
  assert (forall buf, length buf <= max ->
    fold_left (fun buf p => captureWrite p buf) writes buf = take max (buf ++ concat writes)) as H.
  2: { by rewrite H; [|cbn; lia]. }
  induction writes as [|p writes IH]; intros buf Hb; cbn [fold_left concat].
  - by rewrite app_nil_r, take_ge.
  - assert (captureWrite p buf = take max (buf ++ p)) as ->.
    { unfold captureWrite. fold max. destruct (N.ltb_spec stderrCaptureMax (N.of_nat (length buf + length p))).
      - rewrite take_app, (take_ge buf) by done. destruct (Nat.ltb_spec 0 (max - length buf)); [done|].
        replace (max - length buf) with 0 by lia. by rewrite take_0, app_nil_r.
      - rewrite take_ge; [done|]. rewrite length_app. unfold max. lia. }
    rewrite IH by (rewrite length_take; lia). rewrite app_assoc.
    destruct (decide (length (buf ++ p) <= max)) as [Hl|Hl]; [by rewrite (take_ge (buf ++ p))|].
    rewrite (take_app_le (buf ++ p)) by lia. rewrite take_app_le by (rewrite length_take; lia).
    rewrite take_take. by rewrite Nat.min_id.
Qed.

Section atlas.
Context (stat : path -> bool) (getwd : option path).

(** The trace of runs of Atlas with these answers, from the [n]-th on. *)
Definition atlasRun (args : list gostring) (r : option (list gostring)) : event migR :=
  ev (R := migR) (RunAtlas args) r.

Fixpoint attempts (args : list gostring) (n : nat) (rs : list (option (list gostring)))
  : trace migR :=
  match rs with
  | [] => []
  | [r] => [atlasRun args r]
  | r :: rs => atlasRun args r :: ev (R := migR) (Sleep (n * 200)) tt :: attempts args (S n) rs
  end.

(** The capture of the run shows a deadlock. *)
Definition deadlocked (r : option (list gostring)) : Prop :=
  exists writes, r = Some writes /\ contains (captured writes) "40P01" = true.

Lemma retryLoop_run args o k n last h :
  let '(r, t) := run o h (retryLoop (runAtlas args) (n + k) (S n) k last) in
  k <> 0 ->
  exists rs x, t = attempts args (S n) (rs ++ [x]) /\ length rs < k /\ Forall deadlocked rs /\
    (S (length rs) < k -> ~ deadlocked x) /\
    match x with
    | None => r = None
    | Some writes => exists e, r = Some e /\ stderrOf e = Some (captured writes)
    end.
Proof.
  revert n last h; induction k as [|k IH]; intros n lastErr h; [by destruct run|].
  cbn [retryLoop]. unfold runAtlas. cbn [bind run]. set (x := o h (RunAtlas args)).
  destruct x as [writes|] eqn:Ex; cbn [fmap option_fmap option_map].
  2: { cbn [run]. intros _. exists [], None. split_and!; [done|cbn; lia|done| |done]. by intros _ (w & ? & _). }
  destruct (contains (captured writes) "40P01") eqn:Ed; cbn [negb].
  2: { cbn [run]. intros _. exists [], (Some writes). split_and!; [done|cbn; lia|done| |].
       - intros _ (w & [= <-] & ?). congruence.
       - by eexists. }
  assert (n + S k = S n + k) as Hn by lia. rewrite Hn.
  destruct k as [|k].
  - destruct (Nat.ltb_spec (S n) (S n + 0)); [lia|]. cbn [retryLoop run]. intros _.
    exists [], (Some writes). split_and!; [done|cbn; lia|done|cbn; lia|by eexists].
  - destruct (Nat.ltb_spec (S n) (S n + S k)); [|lia]. cbn [run].
    match goal with |- context [run o ?h' (retryLoop ?f ?m (S (S n)) (S k) ?l)] =>
      specialize (IH (S n) l h') end. cbn zeta in IH. unfold runAtlas in IH.
    destruct (o _ (Sleep (S n * 200))). destruct (run o _ _) as [r t].
    destruct (IH ltac:(done)) as (rs & y & -> & Hl & Hd & Hlast & Hr). intros _.
    exists (Some writes :: rs), y. split_and!; [|cbn; lia| |cbn; intros; apply Hlast; lia|done].
    + cbn [app attempts]. by destruct (rs ++ [y]) eqn:E; [by destruct rs|].
    + constructor; [by exists writes|done].
Qed.

(** The retries: at most three runs, with pauses of 200 and 400 ms between them; a
    further run exactly after one whose capture shows a deadlock; the result
    is that of the last run. *)
Theorem retry_bounded args o h :
  let '(r, t) := run o h (retryOnDeadlock (runAtlas args) maxDeadlockAttempts) in
  exists rs x, t = attempts args 1 (rs ++ [x]) /\ length rs < 3 /\ Forall deadlocked rs /\
    (length rs < 2 -> ~ deadlocked x) /\
    match x with
    | None => r = None
    | Some writes => exists e, r = Some e /\ stderrOf e = Some (captured writes)
    end.
Proof.
  pose proof (retryLoop_run args o 3 0 None h) as H. unfold retryOnDeadlock, maxDeadlockAttempts.
  cbn [Nat.add] in H. destruct (run o h _) as [r t]. destruct (H ltac:(done)) as (rs & x & ? & ? & ? & Hl & ?).
  exists rs, x. split_and!; try done. intros. apply Hl. lia.
Qed.
End atlas.

(** ** Scripts *)

(** The tag that is open before line [i]. *)
Definition openBefore (lines : list gostring) (i : nat) : option gostring :=
  fold_left (fun tag line => scanLine (length line) tag line) (take i lines) None.

(** The lines of a script as they are executed. *)
Definition unmarked (openTag : option gostring) (line : gostring) : gostring :=
  if topLevel openTag && txMarker line then [] else line.

Fixpoint unmarkedLines (openTag : option gostring) (lines : list gostring) : list gostring :=
  match lines with
  | [] => []
  | line :: lines => unmarked openTag line :: unmarkedLines (scanLine (length line) openTag line) lines
  end.

Lemma stripLines_join tag lines :
  stripLines tag lines = concat (map (fun l => l ++ [newline]) (unmarkedLines tag lines)).
Proof.
  revert tag; induction lines as [|l lines IH]; intros tag; cbn [stripLines unmarkedLines map concat]; [done|].
  rewrite IH. unfold unmarked. by destruct (topLevel tag && txMarker l).
Qed.

Lemma concat_lines ls :
  concat (map (fun l => l ++ [newline]) ls) = Prelude.join [newline] (ls ++ [[]]).
Proof.
  induction ls as [|l ls IH]; [done|]. cbn [map concat]. rewrite IH.
  destruct ls; cbn [app Prelude.join]; by rewrite <- app_assoc.
Qed.

Lemma unmarkedLines_free tag lines :
  Forall (fun p => newline ∉ p) lines -> Forall (fun p => newline ∉ p) (unmarkedLines tag lines).
Proof.
  intros H. revert tag; induction H as [|l lines Hl _ IH]; intros tag; cbn [unmarkedLines]; constructor; auto.
  unfold unmarked. destruct (topLevel tag && txMarker l); [apply not_elem_of_nil|done].
Qed.

Lemma strip_lines s :
  splitByte newline (stripWrappingTx s) = unmarkedLines None (splitByte newline s) ++ [[]].
Proof.
  unfold stripWrappingTx. rewrite stripLines_join, concat_lines. apply splitByte_join; [by destruct unmarkedLines|].
  apply Forall_app. split; [apply unmarkedLines_free, splitByte_free|].
  constructor; [apply not_elem_of_nil|constructor].
Qed.

Lemma trimPrefixes_keeps ws fuel c s :
  (forall w, w ∈ ws -> c ∉ w) -> c ∈ s -> c ∈ trimPrefixes ws fuel s.
Proof.
  intros Hws. revert s; induction fuel as [|fuel IH]; intros s Hc; [done|]. cbn [trimPrefixes].
  destruct (findPrefix ws s) as [n|] eqn:E; [|done]. apply IH.
  assert (exists w t, w ∈ ws /\ s = w ++ t /\ n = length w) as (w & t & Hw & -> & ->).
  { clear IH Hws Hc. induction ws as [|w ws IH]; [done|]. cbn [findPrefix] in E.
    destruct (hasPrefix w s) eqn:Ep.
    - injection E as <-. apply hasPrefix_spec in Ep as [t ->]. exists w, t. split_and!; [constructor|done|done].
    - destruct (IH E) as (w' & t & ? & ? & ?). exists w', t. split_and!; [by constructor|done|done]. }
  rewrite drop_app_length. apply elem_of_app in Hc as [Hc|Hc]; [by destruct (Hws w Hw)|done].
Qed.

Lemma trimSpace_keeps c s : (forall w, w ∈ spaceRunes -> c ∉ w) -> c ∈ s -> c ∈ trimSpace s.
Proof.
  intros Hws Hc. unfold trimSpace, trimRight, trimLeft. apply elem_of_reverse, trimPrefixes_keeps.
  - intros w Hw. apply list_elem_of_fmap in Hw as (w' & -> & Hw). rewrite elem_of_reverse. by apply Hws.
  - apply elem_of_reverse. by apply trimPrefixes_keeps.
Qed.

(** A marker opens no dollar quote. *)
Lemma txMarker_scan tag line : txMarker line = true -> scanLine (length line) tag line = tag.
Proof.
  intros Hm. assert (dollar ∉ line) as Hd.
  { intros Hc. apply (trimSpace_keeps _ _) in Hc.
    - unfold txMarker in Hm. apply orb_true_iff in Hm as [Hm|Hm]; apply bool_decide_eq_true in Hm;
        rewrite Hm in Hc; by repeat (apply elem_of_cons in Hc as [Hc|Hc]; [discriminate Hc|]); apply elem_of_nil in Hc.
    - intros w Hw. revert w Hw. apply Forall_forall.
      apply (bool_decide_unpack (Forall (fun w => dollar ∉ w) spaceRunes)). vm_compute. exact I. }
  clear Hm. revert tag; induction line as [|c line IH]; intros tag; [done|].
  cbn [scanLine length]. rewrite not_elem_of_cons in Hd. destruct Hd as [Hc Hd].
  rewrite bool_decide_eq_false_2 by congruence. by apply IH.
Qed.

(** What is removed from a script: its lines are executed as they are, but for the
    lines [BEGIN;] and [COMMIT;] outside a dollar quote, which become empty;
    and in what is executed no such line is left, so that no marker of the
    script ends the transaction of the runner. *)
Theorem strip_top_level s :
  let lines := splitByte newline s in
  let lines' := splitByte newline (stripWrappingTx s) in
  length lines' = S (length lines) /\
  (forall i line, lines !! i = Some line ->
     lines' !! i = Some (unmarked (openBefore lines i) line)) /\
  (forall i line, lines' !! i = Some line ->
     topLevel (openBefore lines' i) = true -> txMarker line = false).
Proof.
  cbn zeta. rewrite strip_lines. set (lines := splitByte newline s).
  assert (forall ls tag, length (unmarkedLines tag ls) = length ls) as Hlen.
  { induction ls as [|l ls IH]; intros tag; cbn; [done|]. by rewrite IH. }
  assert (forall ls tag i l, ls !! i = Some l ->
    unmarkedLines tag ls !! i =
      Some (unmarked (fold_left (fun tag line => scanLine (length line) tag line) (take i ls) tag) l)) as Hat.
  { induction ls as [|l ls IH]; intros tag [|i] l'; cbn; try done; [by intros [= ->]|]. apply IH. }
  assert (forall ls tag i,
    fold_left (fun tag line => scanLine (length line) tag line) (take i (unmarkedLines tag ls)) tag =
    fold_left (fun tag line => scanLine (length line) tag line) (take i ls) tag) as Hscan.
  { induction ls as [|l ls IH]; intros tag [|i]; cbn; try done.
    assert (scanLine (length (unmarked tag l)) tag (unmarked tag l) = scanLine (length l) tag l) as ->; [|apply IH].
    unfold unmarked. destruct (topLevel tag && txMarker l) eqn:E; [|done]. apply andb_true_iff in E as [_ E].
    by rewrite (txMarker_scan tag l E). }
  split_and!.
  - rewrite length_app, Hlen. cbn. lia.
  - intros i line Hi. rewrite lookup_app_l by (rewrite Hlen; by eapply lookup_lt_Some). by apply Hat.
  - intros i line Hi Ht. unfold openBefore in Ht.
    destruct (decide (i < length (unmarkedLines None lines))) as [Hl|Hl].
    + rewrite lookup_app_l in Hi by done. rewrite take_app_le in Ht by lia. rewrite Hscan in Ht.
      rewrite Hlen in Hl. apply lookup_lt_is_Some in Hl as [l El]. rewrite (Hat _ _ _ _ El) in Hi.
      apply Some_inj in Hi as <-. unfold unmarked. rewrite Ht. cbn [andb].
      destruct (txMarker l) eqn:Em; [done|exact Em].
    + rewrite lookup_app_r in Hi by lia. apply list_lookup_singleton_Some in Hi as [_ <-]. done.
Qed.

(** The scan knows neither comments nor string literals: a dollar quote that
    opens in a comment hides the [COMMIT;] after it, which is executed. *)
Example commented_dollar :
  stripWrappingTx ("-- a $$ sign" ++ [newline] ++ "COMMIT;") =
    "-- a $$ sign" ++ [newline] ++ "COMMIT;" ++ [newline].
Proof. vm_compute. reflexivity. Qed.

(** ** Graph migrations *)

(** A line that is a transaction marker of its own. *)
Definition ownMarker (line : gostring) : bool :=
  bool_decide (trimSpace line = "BEGIN;" \/ trimSpace line = "COMMIT;").

(** PostgreSQL is between two statements. *)
Definition between (st : lexState) : bool :=
  match mode st with InCode => forallb isBlank (stmtText st) | _ => false end.

(** A line as it is meant to be read: a marker of its own, between two
    statements, is left out. *)
Definition readLine (st : lexState) (line : gostring) : list gostring * lexState :=
  lexText st (if ownMarker line && between st then [newline] else line ++ [newline]).

Fixpoint readLines (st : lexState) (lines : list gostring) : list gostring :=
  match lines with
  | [] => [stmtText st]
  | line :: lines => let '(ss, st) := readLine st line in ss ++ readLines st lines
  end.

(** The statements of a script without its markers. *)
Definition scriptOf (e : entry) : list statement :=
  concat (map classify (readLines startLex (splitByte newline (body e)))).

(** At each marker, the dollar quotes that [stripWrappingTx] sees and the ones
    PostgreSQL sees agree on whether it is between two statements. *)
Fixpoint agrees (st : lexState) (tag : option gostring) (lines : list gostring) : bool :=
  match lines with
  | [] => true
  | line :: lines =>
      (negb (ownMarker line) || Bool.eqb (between st) (topLevel tag)) &&
      agrees (readLine st line).2 (scanLine (length line) tag line) lines
  end.

Definition isOther (s : statement) : bool := match s with OtherStmt _ => true | _ => false end.

(** A script whose only transaction control are markers of their own, which
    the two readings agree on. *)
Definition wrapped (e : entry) : bool :=
  agrees startLex None (splitByte newline (body e)) && forallb isOther (scriptOf e).

Lemma txMarker_own line : txMarker line = ownMarker line.
Proof.
  apply eq_true_iff_eq. unfold txMarker, ownMarker. by rewrite orb_true_iff, !bool_decide_eq_true.
Qed.

Lemma lexText_app st s t :
  lexText st (s ++ t) =
    let '(ss, st) := lexText st s in let '(ss', st) := lexText st t in (ss ++ ss', st).
Proof.
  revert st; induction s as [|c s IH]; intros st; cbn [app lexText]; [by destruct (lexText st t)|].
  destruct (stepLex st c) as [ss1 st1]. rewrite IH. destruct (lexText st1 s) as [ss2 st2].
  destruct (lexText st2 t) as [ss3 st3]. by rewrite app_assoc.
Qed.

(** What [stripWrappingTx] leaves is read as the script without its markers. *)
Lemma strip_statements e :
  wrapped e = true -> pgStatements (stripWrappingTx (body e)) = scriptOf e.
Proof.
  intros [H _]%andb_true_iff. unfold pgStatements, stripWrappingTx, scriptOf.
  enough (forall lines st tag, agrees st tag lines = true ->
    let '(ss, st') := lexText st (stripLines tag lines) in ss ++ [stmtText st'] = readLines st lines) as Hl.
  { specialize (Hl _ _ _ H). destruct (lexText _ _) as [ss st']. by rewrite Hl. }
  clear. induction lines as [|l lines IH]; intros st tag; cbn [agrees stripLines readLines]; [done|].
  intros [Hm Ha]%andb_true_iff. rewrite lexText_app.
  assert ((if topLevel tag && txMarker l then [newline] else l ++ [newline]) =
    (if ownMarker l && between st then [newline] else l ++ [newline])) as ->.
  { rewrite txMarker_own. destruct (ownMarker l); cbn in *; [|by rewrite andb_false_r].
    apply eqb_prop in Hm as ->. by rewrite andb_true_r. }
  fold (readLine st l). specialize (IH _ _ Ha). destruct (readLine st l) as [ss1 st1]. cbn [snd] in IH.
  destruct (lexText st1 _) as [ss2 st2]. by rewrite <- app_assoc, IH.
Qed.

Definition textsOf (ss : list statement) : list gostring :=
  omap (fun s => match s with OtherStmt t => Some t | _ => None end) ss.

(** The entries a run for the schema executes. *)
Definition pending (schema : gostring) (files : list (gostring * gostring)) (d : graphState) : list entry :=
  filter (fun e => due (recorded schema d) e = true) (entriesOf files).

Definition executedBy (schema : gostring) (es : list entry) : list (gostring * gostring) :=
  concat (map (fun e => map (pair schema) (textsOf (scriptOf e))) es).

(** The state after the scripts of [es], for the schema. *)
Definition migrated (schema : gostring) (es : list entry) (d d' : graphState) : Prop :=
  executed d' = executed d ++ executedBy schema es /\
  recorded schema d' = list_to_set (map version es) ∪ recorded schema d /\
  forall s, s <> schema -> recorded s d' = recorded s d.

Lemma migrated_nil schema d : migrated schema [] d d.
Proof. split_and!; [by rewrite app_nil_r|set_solver|done]. Qed.

Lemma migrated_app schema es1 es2 d1 d2 d3 :
  migrated schema es1 d1 d2 -> migrated schema es2 d2 d3 -> migrated schema (es1 ++ es2) d1 d3.
Proof.
  intros (X1&R1&O1) (X2&R2&O2). split_and!.
  - unfold executedBy in *. by rewrite X2, X1, map_app, concat_app, app_assoc.
  - rewrite R2, R1, map_app, list_to_set_app_L. set_solver.
  - intros s Hs. by rewrite O2, O1.
Qed.

(** A script without transaction control, in a block. *)
Lemma execScript_other ok n schema ss c :
  inBlock c = true -> forallb isOther ss = true ->
  let '(r, c') := execScript ok n schema ss c in
  saved c' = saved c /\ inBlock c' = true /\
  (is_Some r -> executed (work c') = executed (work c) ++ map (pair schema) (textsOf ss) /\
     revisions (work c') = revisions (work c)) /\
  ((forall m, ok m = true) -> is_Some r).
Proof.
  revert n c; induction ss as [|s ss IH]; intros n c Hb; cbn [execScript forallb].
  { intros _. unfold queryEnd. rewrite Hb. split_and!; [done|done| |by eexists].
    intros _. by rewrite app_nil_r. }
  intros [Hs Hss]%andb_true_iff. destruct s as [| | |t]; try done.
  destruct (ok n) eqn:Eo; [|split_and!; [done|done|by intros []|by intros Hok; rewrite Hok in Eo]].
  specialize (IH (S n) (execStatement schema (OtherStmt t) c) Hb Hss).
  destruct (execScript ok (S n) schema ss _) as [r c']. destruct IH as (H1 & H2 & H3 & H4).
  split_and!; [done|done| |done]. intros [Hx Hr]%H3. split; [|done]. rewrite Hx. cbn. by rewrite <- app_assoc.
Qed.

Lemma recordVersion_block ok n schema v c :
  inBlock c = true ->
  let '(r, c') := recordVersion ok n schema v c in
  saved c' = saved c /\ inBlock c' = true /\
  (is_Some r -> v ∉ recorded schema (work c) /\
     work c' = withRevisions schema ({[v]} ∪ recorded schema (work c)) (work c)) /\
  ((forall m, ok m = true) -> v ∉ recorded schema (work c) -> is_Some r).
Proof.
  intros Hb. unfold recordVersion. destruct (ok n && _) eqn:E.
  - apply andb_true_iff in E as [_ E]. apply bool_decide_eq_true in E. unfold queryEnd. cbn [inBlock].
    rewrite Hb. cbn. split_and!; [done|done|done|by eexists].
  - split_and!; [done|done|by intros []|]. intros Hok Hv. by rewrite Hok, bool_decide_eq_true_2 in E.
Qed.

(** The loop, for scripts that are wrapped: nothing is committed on the way. *)
Lemma applyEntries_spec ok n schema applied entries c :
  inBlock c = true -> Forall (fun e => wrapped e = true) entries ->
  let es := filter (fun e => due applied e = true) entries in
  let '(r, c') := applyEntries ok n schema applied entries c in
  saved c' = saved c /\
  (is_Some r -> migrated schema es (work c) (work c') /\ NoDup (map version es) /\
     Forall (fun v => v ∉ recorded schema (work c)) (map version es)) /\
  ((forall m, ok m = true) -> NoDup (map version es) ->
   Forall (fun v => v ∉ recorded schema (work c)) (map version es) -> is_Some r).
Proof.
  revert n c; induction entries as [|e entries IH]; intros n c Hb; cbn [applyEntries].
  { intros _. split_and!; [done| |by eexists]. intros _. cbn. split_and!; [apply migrated_nil|constructor..]. }
  intros [He Hes]%Forall_cons. rewrite filter_cons.
  destruct (due applied e) eqn:Ed; [rewrite decide_True by done|rewrite decide_False by done; by apply IH].
  rewrite (strip_statements e He). apply andb_true_iff in He as [_ He].
  pose proof (execScript_other ok n schema (scriptOf e) c Hb He) as H1.
  destruct (execScript ok n schema (scriptOf e) c) as [[n1|] c1]; destruct H1 as (S1 & B1 & W1 & T1).
  2: { split_and!; [done|by intros []|]. intros Hok _ _. by destruct (T1 Hok). }
  destruct (W1 ltac:(by eexists)) as [X1 R1].
  assert (recorded schema (work c1) = recorded schema (work c)) as Hrec by (unfold recorded; by rewrite R1).
  pose proof (recordVersion_block ok n1 schema (version e) c1 B1) as H2.
  destruct (recordVersion ok n1 schema (version e) c1) as [[n2|] c2]; destruct H2 as (S2 & B2 & W2 & T2).
  2: { split_and!; [congruence|by intros []|]. intros Hok _ [Hv _]%Forall_cons. rewrite <- Hrec in Hv. by destruct (T2 Hok Hv). }
  destruct (W2 ltac:(by eexists)) as [Hv Hw]. rewrite Hrec in Hv, Hw.
  assert (recorded schema (work c2) = {[version e]} ∪ recorded schema (work c)) as Hrec2.
  { rewrite Hw. unfold recorded at 1. cbn. by rewrite lookup_insert_eq. }
  specialize (IH n2 c2 B2 Hes).
  destruct (applyEntries ok n2 schema applied entries c2) as [r c3]. destruct IH as (S3 & W3 & T3).
  split_and!; [congruence| |].
  - intros (Hm & Hn & Hf)%W3. rewrite Forall_forall in Hf. setoid_rewrite Hrec2 in Hf. cbn [map]. split_and!.
    + change (e :: ?l) with ([e] ++ l). eapply migrated_app; [|exact Hm]. rewrite Hw. split_and!; cbn.
      * rewrite X1. unfold executedBy. cbn. by rewrite app_nil_r.
      * unfold recorded at 1. cbn. rewrite lookup_insert_eq. cbn. set_solver.
      * intros s Hs. unfold recorded. cbn. by rewrite lookup_insert_ne, R1 by done.
    + constructor; [|done]. intros Hin. apply (Hf _ Hin). set_solver.
    + constructor; [done|]. apply Forall_forall. intros v Hin. specialize (Hf v Hin). set_solver.
  - cbn [map]. intros Hok [Hn Hd]%NoDup_cons [_ Hf]%Forall_cons. apply T3; [done|done|].
    apply Forall_forall. intros v Hin. rewrite Forall_forall in Hf. specialize (Hf v Hin).
    rewrite Hrec2, elem_of_union, elem_of_singleton. intros [->|?]; done.
Qed.

#[local] Instance versionLeq_total : Total versionLeq.
Proof. intros a b. apply (total stringLeq). Qed.

#[local] Instance versionLeq_trans : Transitive versionLeq.
Proof. intros a b c. apply (transitivity (R := stringLeq)). Qed.

Lemma sorted_filter {A} (R : relation A) (P : A -> Prop) `{!forall x, Decision (P x)} l :
  StronglySorted R l -> StronglySorted R (filter P l).
Proof.
  induction 1 as [|x l Hl IH Hx]; [constructor|]. rewrite filter_cons.
  destruct (decide (P x)); [|done]. constructor; [done|]. apply Forall_forall.
  intros y [_ Hy]%list_elem_of_filter. rewrite Forall_forall in Hx. by apply Hx.
Qed.

(** A run of the graph migrations, of scripts that are wrapped: with a nil error
    exactly the scripts of the files above the baseline that the schema has not
    recorded are executed, in the order of their versions, and recorded for the
    schema; with an error nothing happened, unless only the answer of the commit
    was lost.  Without faults, and with one file per version, there is no error,
    and a further run executes nothing. *)
Theorem ApplyTenantGraph_outcome files poolNil schema f ok d :
  Forall (fun e => wrapped e = true) (entriesOf files) ->
  let '(r, d') := ApplyTenantGraph files poolNil schema f ok d in
  (StronglySorted versionLeq (pending schema files d)) /\
  (r = true -> migrated schema (pending schema files d) d d' /\ NoDup (map version (pending schema files d))) /\
  (r = false -> d' = d \/ f = GraphCommitLost /\ migrated schema (pending schema files d) d d' /\
                          NoDup (map version (pending schema files d))) /\
  (poolNil = false -> schema <> [] -> f = GraphFine -> (forall n, ok n = true) ->
   NoDup (map version (pending schema files d)) -> r = true) /\
  (r = true -> pending schema files d' = []).
Proof.
  intros Hw. assert (StronglySorted versionLeq (pending schema files d)) as Hs.
  { unfold pending, entriesOf. by apply sorted_filter, (StronglySorted_merge_sort versionLeq). }
  unfold ApplyTenantGraph. destruct (poolNil || bool_decide (schema = [])) eqn:Eg.
  { split_and!; auto; try done. intros -> Hne. apply orb_true_iff in Eg as [?|Eg]; [done|].
    by apply bool_decide_eq_true in Eg. }
  set (c0 := mkConn d (withRevisions schema (recorded schema d) d) true).
  assert (recorded schema (work c0) = recorded schema d) as Hr0 by (unfold recorded; cbn; by rewrite lookup_insert_eq).
  pose proof (applyEntries_spec ok 4 schema (recorded schema d) (entriesOf files) c0 eq_refl Hw) as H.
  fold (pending schema files d) in H. rewrite Hr0 in H.
  assert (forall es d', migrated schema es (work c0) d' -> migrated schema es d d') as Hm0.
  { intros es d' (X & R & O). rewrite Hr0 in R. split_and!; [done|done|]. intros s Hne. rewrite O by done.
    unfold recorded. cbn. by rewrite lookup_insert_ne. }
  assert (forall d', migrated schema (pending schema files d) d d' -> pending schema files d' = []) as Hdone.
  { intros d' (_ & Hr & _). destruct (pending schema files d') as [|e es] eqn:Ep; [done|exfalso].
    assert (e ∈ pending schema files d') as [Hd He]%list_elem_of_filter by (rewrite Ep; constructor).
    unfold due in Hd. apply andb_true_iff in Hd as [Hb Hv]. apply bool_decide_eq_true in Hv. apply Hv.
    rewrite Hr. destruct (decide (version e ∈ recorded schema d)) as [Hin|Hin]; [set_solver|].
    apply elem_of_union_l, elem_of_list_to_set, list_elem_of_fmap. exists e. split; [done|].
    apply list_elem_of_filter. split; [|done]. unfold due. rewrite Hb. by apply bool_decide_eq_true_2. }
  assert (Forall (fun v => v ∉ recorded schema d) (map version (pending schema files d))) as Hnew.
  { apply Forall_forall. intros v (e & -> & He)%list_elem_of_fmap. apply list_elem_of_filter in He as [He _].
    unfold due in He. apply andb_true_iff in He as [_ He]. by apply bool_decide_eq_true in He. }
  unfold graphBody. fold c0. destruct (ok 0 && ok 1 && ok 2 && ok 3) eqn:E.
  2: { destruct f; split_and!; auto; try done; intros _ _ _ Hok _; by rewrite !Hok in E. }
  destruct (applyEntries ok 4 schema (recorded schema d) (entriesOf files) c0) as [[n|] c'];
    destruct H as (Hsv & Hx & Hok).
  - destruct (Hx ltac:(by eexists)) as (Hm%Hm0 & Hn & _). destruct f; split_and!; auto 6; try done.
  - destruct f; split_and!; auto; try done; intros _ _ _ Ha Hn; by destruct (Hok Ha Hn Hnew).
Qed.

(** Runs of any releases of the files, for any tenants, with any faults. *)
Inductive graphStep : graphState -> graphState -> Prop :=
  | graph_step files poolNil schema f ok d :
      Forall (fun e => wrapped e = true) (entriesOf files) ->
      graphStep d (ApplyTenantGraph files poolNil schema f ok d).2.

(** What was executed for a schema. *)
Definition executedFor (schema : gostring) (d : graphState) : list gostring :=
  (filter (fun x => x.1 = schema) (executed d)).*2.

(** For every schema, the statements that took effect are those of entries with
    distinct versions, and these versions, all of them above the baseline, are the
    recorded ones. *)
Definition eachOnce (d : graphState) : Prop :=
  forall schema, exists log, executedFor schema d = concat (map (fun e => textsOf (scriptOf e)) log) /\
    NoDup (map version log) /\ recorded schema d = list_to_set (map version log) /\
    Forall (fun e => stringLe (version e) Phase0GraphBaselineVersion = false) log.

Lemma executedBy_for schema schema' es :
  (filter (fun x => x.1 = schema') (executedBy schema es)).*2 =
    if decide (schema = schema') then concat (map (fun e => textsOf (scriptOf e)) es) else [].
Proof.
  assert (forall l : list gostring, (filter (fun x => x.1 = schema') (map (pair schema) l)).*2 =
    if decide (schema = schema') then l else []) as Hl.
  { induction l as [|t l IH]; [by destruct (decide _)|]. cbn [map]. rewrite filter_cons. cbn [fst].
    destruct (decide (schema = schema')); [|done]. cbn. by rewrite IH. }
  induction es as [|e es IH]; [by destruct (decide _)|]. unfold executedBy in *. cbn [map concat].
  rewrite filter_app, fmap_app, Hl, IH. by destruct (decide (schema = schema')).
Qed.

Lemma graphStep_once d d' : graphStep d d' -> eachOnce d -> eachOnce d'.
Proof.
  intros [files poolNil schema f ok d0 Hw] IH.
  pose proof (ApplyTenantGraph_outcome files poolNil schema f ok d0 Hw) as H.
  destruct (ApplyTenantGraph files poolNil schema f ok d0) as [r d1]. cbn [snd] in *.
  assert (d1 = d0 \/ migrated schema (pending schema files d0) d0 d1 /\
    NoDup (map version (pending schema files d0))) as Hc.
  { destruct H as (_ & Ht & Hf & _). destruct r; [right; auto|].
    destruct (Hf eq_refl) as [?|(_ & ? & ?)]; [by left|by right]. }
  destruct Hc as [->|[(Hx & Hr & Ho) Hnd]]; [done|]. intros s.
  destruct (IH s) as (log & Hlx & Hn & Hlr & Hb).
  assert (executedFor s d1 = executedFor s d0 ++
    if decide (schema = s) then concat (map (fun e => textsOf (scriptOf e)) (pending schema files d0)) else []) as Hes.
  { unfold executedFor. by rewrite Hx, filter_app, fmap_app, executedBy_for. }
  destruct (decide (schema = s)) as [->|Hne].
  2: { exists log. rewrite app_nil_r in Hes. split_and!; [congruence|done| |done]. rewrite Ho by done. exact Hlr. }
  exists (log ++ pending s files d0). rewrite !map_app, Forall_app, concat_app. split_and!.
  - by rewrite Hes, Hlx.
  - apply NoDup_app. split_and!; [done| |done]. intros v Hv (e & -> & He)%list_elem_of_fmap.
    apply list_elem_of_filter in He as [He _]. unfold due in He.
    apply andb_true_iff in He as [_ He]. apply bool_decide_eq_true in He. apply He.
    rewrite Hlr. by apply elem_of_list_to_set.
  - rewrite Hr, Hlr, list_to_set_app_L. set_solver.
  - done.
  - apply Forall_forall. intros e [He _]%list_elem_of_filter. unfold due in He.
    apply andb_true_iff in He as [He _]. by apply negb_true_iff in He.
Qed.

(** (C28) Each graph migration takes effect once for each tenant: after any runs, for
    any schemas, of any releases of the files whose scripts are wrapped, with any
    faults, what was executed for a schema are the statements of scripts of
    distinct versions, and exactly these versions are recorded in the schema's
    own revisions.  A script is wrapped when its only transaction control, as
    PostgreSQL reads it, are lines BEGIN; and COMMIT; of their own, on which the
    dollar quotes the runner tracks agree with PostgreSQL's: these lines are not
    executed, everything else is, and nothing of a script is committed before
    its version is recorded. *)
Theorem graph_migrations_once d : rtc graphStep (mkGraph ∅ []) d -> eachOnce d.
Proof.
  assert (forall x y, rtc graphStep x y -> eachOnce x -> eachOnce y) as H.
  { induction 1; [done|]. eauto using graphStep_once. }
  intros Hd. apply (H _ _ Hd). intros s. exists []. by split_and!; [|constructor| |constructor].
Qed.

(** ** The rollout *)

Section rollout.
Context (stat : path -> bool) (getwd : option path).

(** The relational and the graph migrations of a tenant were done. *)
Definition tenantDone (dsn x : gostring) (t : trace migR) : Prop :=
  exists dsn', composeTenantDSN dsn x = Some dsn' /\
    atlasRun (tenantArgs stat getwd dsn' x) None ∈ t /\
    ev (R := migR) (GraphMigrations x) true ∈ t.

(** Atlas was run for the tenant. *)
Definition tenantTried (dsn x : gostring) (t : trace migR) : Prop :=
  exists dsn' r, composeTenantDSN dsn x = Some dsn' /\
    atlasRun (tenantArgs stat getwd dsn' x) r ∈ t.

Lemma attempts_last args n rs x : atlasRun args x ∈ attempts args n (rs ++ [x]).
Proof.
  revert n; induction rs as [|r rs IH]; intros n; cbn [app attempts]; [by constructor|].
  destruct (rs ++ [x]) eqn:E; [by destruct rs|]. rewrite <- E in *. do 2 apply list_elem_of_further. apply IH.
Qed.

Lemma ApplyTenant_run dsn x o h :
  let '(r, t) := run o h (ApplyTenant stat getwd dsn x) in
  (x <> [] -> tenantTried dsn x t) /\
  (r = None -> exists dsn', composeTenantDSN dsn x = Some dsn' /\
     atlasRun (tenantArgs stat getwd dsn' x) None ∈ t).
Proof.
  unfold ApplyTenant, tenantTried, composeTenantDSN. destruct (bool_decide (x = [])) eqn:E.
  { cbn. apply bool_decide_eq_true in E. by split. }
  set (dsn' := dsn ++ _). pose proof (retry_bounded (tenantArgs stat getwd dsn' x) o h) as H.
  destruct (run o h _) as [r t]. destruct H as (rs & y & -> & _ & _ & _ & Hr). split.
  - intros _. exists dsn', y. split; [done|apply attempts_last].
  - intros ->. exists dsn'. split; [done|]. destruct y; [by destruct Hr as (e & ? & _)|apply attempts_last].
Qed.

Lemma applyTenants_run dsn tenants o h :
  let '(fs, t) := run o h (applyTenants stat getwd dsn tenants) in
  (forall x, x ∈ tenants -> x <> [] -> tenantTried dsn x t) /\
  (forall x, x ∈ tenants -> x ∈ fs \/ tenantDone dsn x t) /\
  (forall x, x ∈ fs -> x ∈ tenants).
Proof.
  revert h; induction tenants as [|x tenants IH]; intros h; cbn [applyTenants].
  { cbn. split_and!; by intros ? ?%elem_of_nil. }
  rewrite run_bind. pose proof (ApplyTenant_run dsn x o h) as Ha.
  destruct (run o h (ApplyTenant stat getwd dsn x)) as [[e|] t1]; destruct Ha as [Htry Hok].
  - rewrite run_bind. specialize (IH (h ++ t1)). destruct (run o (h ++ t1) _) as [fs t2].
    destruct IH as (H1 & H2 & H3). cbn [run]. rewrite app_nil_r. split_and!.
    + intros y [->|Hy]%elem_of_cons Hne.
      * destruct (Htry Hne) as (d' & r & ? & ?). exists d', r. rewrite elem_of_app. auto.
      * destruct (H1 y Hy Hne) as (d' & r & ? & ?). exists d', r. rewrite elem_of_app. auto.
    + intros y [->|Hy]%elem_of_cons; [left; constructor|].
      destruct (H2 y Hy) as [?|(d' & ? & ? & ?)]; [left; by constructor|right].
      exists d'. rewrite !elem_of_app. auto.
    + intros y [->|Hy]%elem_of_cons; [constructor|]. apply list_elem_of_further. auto.
  - cbn [run]. set (h' := (h ++ t1) ++ _). rewrite run_bind. specialize (IH h').
    set (ok := o (h ++ t1) (GraphMigrations x)) in *.
    destruct (run o h' _) as [fs t2]. destruct IH as (H1 & H2 & H3). cbn [run]. rewrite app_nil_r.
    destruct (Hok eq_refl) as (dx & Hdx & Hrx). split_and!.
    + intros y [->|Hy]%elem_of_cons Hne.
      * destruct (Htry Hne) as (d' & r & ? & ?). exists d', r. rewrite elem_of_app. auto.
      * destruct (H1 y Hy Hne) as (d' & r & ? & ?). exists d', r. rewrite elem_of_app, elem_of_cons. auto.
    + intros y Hy. assert (y = x -> y ∈ (if ok then fs else x :: fs) \/ tenantDone dsn y (t1 ++ ev (R := migR) (GraphMigrations x) ok :: t2)) as Hx.
      { intros ->. destruct ok; [|left; constructor]. right. exists dx.
        rewrite !elem_of_app, !elem_of_cons. auto. }
      destruct (decide (y = x)) as [E|E]; [by apply Hx|]. apply elem_of_cons in Hy as [?|Hy]; [done|].
      destruct (H2 y Hy) as [?|(d' & ? & ? & ?)].
      * left. destruct ok; [done|by constructor].
      * right. exists d'. rewrite !elem_of_app, !elem_of_cons. auto.
    + intros y Hy. destruct ok; [|apply elem_of_cons in Hy as [->|Hy]; [constructor|]];
        apply list_elem_of_further; auto.
Qed.

(** Calls that touch no tenant. *)
Definition publicOnly (dsn : gostring) (c : migCall) : bool :=
  match c with
  | RunAtlas args => bool_decide (args = publicArgs stat getwd dsn)
  | GraphMigrations _ => false
  | _ => true
  end.

Lemma retryLoop_public dsn n a m l :
  only (publicOnly dsn) (retryLoop (runAtlas (publicArgs stat getwd dsn)) n a m l).
Proof.
  revert a l; induction m as [|m IH]; intros a l; cbn [retryLoop only]; [done|].
  unfold runAtlas at 1. cbn [bind only]. split; [by apply bool_decide_eq_true_2|].
  intros [w|]; [|done]. cbn [fmap option_fmap option_map]. destruct (negb _); [done|].
  destruct (a <? n)%nat; [|apply IH]. cbn [only]. split; [done|]. intros _. apply IH.
Qed.

(** The trace of a rollout, by its exit code. *)
Definition rolledOut (dsn : gostring) (code : nat) (t : trace migR) : Prop :=
  match code with
  | 0 => exists tenants, ev (R := migR) Discover (Some tenants) ∈ t /\
           forall x, x ∈ tenants -> tenantDone dsn x t
  | 1 => exists tenants, ev (R := migR) Discover (Some tenants) ∈ t /\ tenants <> [] /\
           forall x, x ∈ tenants -> x <> [] -> tenantTried dsn x t
  | _ => forallb (publicOnly dsn) (calls t) = true
  end.

Lemma tenantDone_mono dsn x t u v : tenantDone dsn x t -> tenantDone dsn x (u ++ t ++ v).
Proof. intros (d & ? & ? & ?). exists d. rewrite !elem_of_app. auto. Qed.

Lemma tenantTried_mono dsn x t u v : tenantTried dsn x t -> tenantTried dsn x (u ++ t ++ v).
Proof. intros (d & r & ? & ?). exists d, r. rewrite !elem_of_app. auto. Qed.

Lemma mainTenants_run dsn o h :
  let '(code, t) := run o h (mainTenants stat getwd dsn) in rolledOut dsn code t.
Proof.
  unfold mainTenants. cbn [run]. destruct (o h Discover) as [tenants|] eqn:Ed; [|done].
  cbn [run]. set (h' := h ++ _). destruct (o h' OpenPool); [|done]. cbn [run].
  rewrite run_bind. set (h'' := h' ++ _). pose proof (applyTenants_run dsn tenants o h'') as H.
  destruct (run o h'' _) as [fs t]. destruct H as (H1 & H2 & H3). cbn [run].
  destruct (bool_decide (fs = [])) eqn:Ef; [apply bool_decide_eq_true in Ef as ->|apply bool_decide_eq_false in Ef];
    cbn [rolledOut]; exists tenants; split_and!; try by constructor.
  - intros x Hx. destruct (H2 x Hx) as [?%elem_of_nil|Hd]; [done|].
    apply (tenantDone_mono _ _ _ [ev (R := migR) Discover (Some tenants); ev (R := migR) OpenPool true] []) in Hd. exact Hd.
  - destruct fs as [|y fs]; [done|]. intros ->. specialize (H3 y ltac:(constructor)). by apply elem_of_nil in H3.
  - intros x Hx Hne. apply (tenantTried_mono _ _ _ [ev (R := migR) Discover (Some tenants); ev (R := migR) OpenPool true] []), H1; done.
Qed.

(** The rollout, whatever Atlas, the catalog and the tenants do: exit code 0
    means that both migrations of every discovered tenant were done; with 1
    some tenant failed, and still Atlas was run for each of them; with 2 no
    tenant was touched. *)
Theorem rollout_complete dsn skipPublic o :
  let '(code, t) := run o [] (main stat getwd dsn [] skipPublic) in
  code <= 2 /\ rolledOut dsn code t.
Proof.
  unfold main. destruct (bool_decide (dsn = [])); [cbn; by split; [lia|]|]. cbn [negb bool_decide].
  rewrite (bool_decide_eq_true_2 ([] = [])) by done. cbn [negb].
  assert (forall h, (run o h (mainTenants stat getwd dsn)).1 <= 2) as Hcode.
  { intros h. unfold mainTenants. cbn [run]. destruct (o h Discover); [|cbn; lia]. cbn [run].
    destruct (o _ OpenPool); [|cbn; lia]. rewrite run_bind. destruct (run o _ _). cbn. case_bool_decide; lia. }
  destruct skipPublic.
  { pose proof (mainTenants_run dsn o []) as H. specialize (Hcode []). by destruct (run o [] _). }
  rewrite run_bind. unfold ApplyPublic. rewrite run_bind.
  pose proof (only_run (publicOnly dsn) (retryOnDeadlock (runAtlas (publicArgs stat getwd dsn)) maxDeadlockAttempts)
    o [] ltac:(apply retryLoop_public)) as Hp.
  destruct (run o [] (retryOnDeadlock _ _)) as [err t1]. cbn [run snd] in *. rewrite app_nil_r.
  destruct (match err with Some e => _ | None => None end) as [e|].
  { cbn [run]. rewrite app_nil_r. by split; [lia|]. }
  cbn [app]. pose proof (mainTenants_run dsn o t1) as H. specialize (Hcode t1).
  destruct (run o t1 (mainTenants stat getwd dsn)) as [code t2]. cbn [fst] in Hcode. split; [done|].
  destruct code as [|[|code]]; cbn [rolledOut] in *.
  - destruct H as (tenants & Hd & Hx). exists tenants. rewrite elem_of_app. split; [by right|].
    intros x ?. rewrite <- (app_nil_r (t1 ++ t2)), <- app_assoc. by apply tenantDone_mono, Hx.
  - destruct H as (tenants & Hd & Hne & Hx). exists tenants. rewrite elem_of_app. split_and!; [by right|done|].
    intros x ? ?. rewrite <- (app_nil_r (t1 ++ t2)), <- app_assoc. by apply tenantTried_mono, Hx.
  - by rewrite calls_app, forallb_app, Hp.
Qed.
End rollout.

(** ** A concrete run: a commit whose answer is lost, then a repetition *)

Module MigrateDemo.
Definition files : list (gostring * gostring) :=
  [("V0010__baseline.sql" : gostring, "SELECT 0;" : gostring);
   ("V0030__labels.sql" : gostring,
      Prelude.join [newline] ["BEGIN;"; "DO $$"; "BEGIN"; "COMMIT;"; "END $$;"; "SELECT 1; -- COMMIT;"; "COMMIT;"]);
   ("embed.go" : gostring, [] : gostring)].
Definition apply (schema : gostring) (f : graphFault) (d : graphState) : bool * graphState :=
  ApplyTenantGraph files false schema f (fun _ => true) d.
Definition d1 : graphState := (apply "tenant_a" GraphCommitLost (mkGraph ∅ [])).2.
Definition d2 : graphState := (apply "tenant_a" GraphFine d1).2.
Definition d3 : graphState := (apply "tenant_b" GraphFine d2).2.

Lemma files_wrapped : Forall (fun e => wrapped e = true) (entriesOf files).
Proof.
  assert (forallb wrapped (entriesOf files) = true) as H by by vm_compute.
  apply Forall_forall. intros e He%list_elem_of_In. by apply (proj1 (forallb_forall wrapped _) H).
Qed.

(** A script with a dollar quote in a comment. *)
Definition odd : list (gostring * gostring) :=
  [("V0030__odd.sql" : gostring, Prelude.join [newline] ["-- a $$ sign"; "SELECT 1;"; "COMMIT;"])].
(** The recording of the version fails. *)
Definition o1 : bool * graphState := ApplyTenantGraph odd false "tenant_a" GraphFine (fun n => (n <? 6)%nat) (mkGraph ∅ []).
Definition o2 : bool * graphState := ApplyTenantGraph odd false "tenant_a" GraphFine (fun _ => true) o1.2.
End MigrateDemo.

Lemma graph_migrations_once_witness :
  (MigrateDemo.apply "tenant_a" GraphCommitLost (mkGraph ∅ [])).1 = false /\
  length (executedFor "tenant_a" MigrateDemo.d3) = 2 /\ length (executedFor "tenant_b" MigrateDemo.d3) = 2 /\
  eachOnce MigrateDemo.d3.
Proof.
  split; [vm_compute; reflexivity|]. split; [vm_compute; reflexivity|]. split; [vm_compute; reflexivity|].
  apply (graph_migrations_once MigrateDemo.d3).
  apply rtc_l with MigrateDemo.d1; [|apply rtc_l with MigrateDemo.d2; [|apply rtc_once]].
  - exact (graph_step MigrateDemo.files false "tenant_a" GraphCommitLost (fun _ => true) (mkGraph ∅ []) MigrateDemo.files_wrapped).
  - exact (graph_step MigrateDemo.files false "tenant_a" GraphFine (fun _ => true) MigrateDemo.d1 MigrateDemo.files_wrapped).
  - exact (graph_step MigrateDemo.files false "tenant_b" GraphFine (fun _ => true) MigrateDemo.d2 MigrateDemo.files_wrapped).
Defined.

(** A marker that is left in a script ends the transaction of the runner: here
    one after a comment with a dollar quote.  The script is committed, its version
    is not recorded, and the next run executes it again. *)
Lemma marker_left_over :
  MigrateDemo.o1.1 = false /\ recorded "tenant_a" MigrateDemo.o1.2 = ∅ /\
  length (executedFor "tenant_a" MigrateDemo.o1.2) = 1 /\
  MigrateDemo.o2.1 = true /\ length (executedFor "tenant_a" MigrateDemo.o2.2) = 2.
Proof. by vm_compute. Qed.
