(* ===== verification/Tenant.v ===== *)
(** * Tenants: names, lifecycle and migration

    [internal/tenant]: the schema and role names and the input validators, the
    lifecycle transitions, [Delete], and the migration of a tenant to a database
    of its own, as programs of database statements.  The statements act on the
    rows of [public.tenants], the audit log and the tenant graphs ([perform]); a
    run may lose any statement or its answer ([fault]), and other processes may
    change the database before any transaction or single statement
    ([others]). *)

From S2P Require Import Prelude Effects.
From Stdlib Require Import Lia.

(** ** Names ([id.go]); an identifier is given as its [String()] *)

(** [strings.ReplaceAll] of one byte by another. *)
Definition replaceByte (old new : ascii) (s : gostring) : gostring :=
  map (fun c => if bool_decide (c = old) then new else c) s.

Definition SchemaName (id : gostring) : gostring :=
  "tenant_" ++ replaceByte "-"%char "_"%char id.

Definition RoleName (id : gostring) : gostring := SchemaName id ++ "_role".

(** A regular expression that is a sequence of byte classes, anchored. *)
Fixpoint matchClasses (classes : list (ascii -> bool)) (s : gostring) : bool :=
  match classes, s with
  | [], [] => true
  | f :: classes, c :: s => f c && matchClasses classes s
  | _, _ => false
  end.

Definition hexDigit (c : ascii) : bool :=
  isDigit c || (isLower c && (ord c <=? 102)%N).

Definition byteIs (b : ascii) : ascii -> bool := fun c => bool_decide (c = b).

Definition classOf (s : gostring) : ascii -> bool := fun c => bool_decide (c ∈ s).

Definition uuidV4Regex : list (ascii -> bool) :=
  replicate 8 hexDigit ++ [byteIs "-"%char] ++ replicate 4 hexDigit ++ [byteIs "-"%char] ++
  [byteIs "4"%char] ++ replicate 3 hexDigit ++ [byteIs "-"%char] ++
  [classOf "89ab"] ++ replicate 3 hexDigit ++ [byteIs "-"%char] ++ replicate 12 hexDigit.

Definition ValidateUUIDv4 (s : gostring) : bool := matchClasses uuidV4Regex s.

(** [^org_[A-Z0-9]+$]. *)
Definition ValidateWorkOSOrgID (s : gostring) : bool :=
  hasPrefix "org_" s && negb (bool_decide (drop 4 s = []))
  && forallb (fun c => isUpper c || isDigit c) (drop 4 s).

(** [^vpc-[0-9a-f]{17}$]. *)
Definition ValidateCustomerVPCID (s : gostring) : bool :=
  matchClasses (map byteIs "vpc-" ++ replicate 17 hexDigit) s.

(** [^[a-z]{2}-[a-z]+-[0-9]$]: the letters up to the second dash. *)
Definition ValidateAWSRegion (s : gostring) : bool :=
  match s with
  | a :: b :: d :: s =>
      let n := countWhile isLower s in
      isLower a && isLower b && byteIs "-"%char d && negb (n =? 0)%nat
      && matchClasses [byteIs "-"%char; isDigit] (drop n s)
  | _ => false
  end.

(** ** The database *)

(** [lifecycle_state], a text column with a CHECK on these values. *)
Inductive lifecycle := active | suspended | wind_down | deleted.

#[export] Instance lifecycle_eq_dec : EqDecision lifecycle.
Proof. solve_decision. Defined.

(** The columns of [public.tenants] the code writes after the insertion. *)
Record row := mkRow { state : lifecycle; pool : gostring; connection_dsn : option gostring }.

(** A row of [system_audit_log]; the payload of a transition holds both states,
    that of a migration the redacted target. *)
Inductive payload :=
  | Transition (new_state : lifecycle) (from_states : list lifecycle)
  | Migration (target_dsn_redacted schema : gostring).

Record audit := mkAudit {
  actor_user_id : gostring; target_tenant_id : gostring; event_type : gostring; details : payload
}.

(** The tenants, the audit log, the graphs by schema name. *)
Record db := mkDb {
  tenants : gmap gostring row; audit_log : list audit; graphs : gset gostring
}.

Inductive dbCall :=
  | Begin
  | UpdateTenants (id : gostring) (new : lifecycle) (from : list lifecycle)
  | InsertAudit (a : audit)
  | LoadAge
  | SetSearchPath
  | DropGraph (schema : gostring)
  | Commit
  | Rollback
  | ExecSetState (id : gostring) (st : lifecycle)
  | ExecSetPool (id pool dsn : gostring)
  | ExecAudit (a : audit)
  | PgDump (schema dsn path : gostring)
  | PgRestore (dsn path : gostring)
  | OpenPools (source target : gostring)
  | ListTables (schema : gostring)
  | CountRows (target : bool) (table : gostring).

(** [drop_graph] fails with an error that names an undefined graph, or another. *)
Inductive dropped := Dropped | UndefinedGraph | DropFailed.

Definition dbR (c : dbCall) : Type :=
  match c with
  | UpdateTenants _ _ _ | ExecSetState _ _ | ExecSetPool _ _ _ => option nat
  | DropGraph _ => dropped
  | ListTables _ => option (list gostring)
  | CountRows _ _ => option Z
  | _ => bool
  end.

Inductive tenant_err :=
  | ErrTenantNotFound
  | ErrNotConfirmed
  | ErrInvalidOpts
  | ErrRowCountMismatch (table : gostring) (source target : Z)
  | ErrDatabase.

Definition outcome := option tenant_err.
Abbreviation tenantProg := (prog dbR).

(** The deferred rollback of a failing transaction; after a commit it is a no-op
    by the contract of pgx. *)
Definition rollback (e : tenant_err) : tenantProg outcome :=
  Do (R := dbR) Rollback (fun _ : bool => Ret (Some e)).

Definition commit : tenantProg outcome :=
  Do (R := dbR) Commit (fun ok : bool => if ok then Ret None else rollback ErrDatabase).

(** ** The lifecycle ([lifecycle.go]) *)

Definition transitionLifecycle (id : gostring) (newState : lifecycle)
    (fromStates : list lifecycle) (eventType actor : gostring) : tenantProg outcome :=
  Do (R := dbR) Begin (fun ok : bool =>
  if ok then
    Do (R := dbR) (UpdateTenants id newState fromStates) (fun r : option nat =>
    match r with
    | None => rollback ErrDatabase
    | Some 0 => rollback ErrTenantNotFound
    | Some _ =>
        Do (R := dbR) (InsertAudit (mkAudit actor id eventType (Transition newState fromStates)))
          (fun ok : bool => if ok then commit else rollback ErrDatabase)
    end)
  else Ret (Some ErrDatabase)).

Definition Suspend (id actor : gostring) : tenantProg outcome :=
  transitionLifecycle id suspended [active] "tenant.suspended" actor.

Definition WindDown (id actor : gostring) : tenantProg outcome :=
  transitionLifecycle id wind_down [active; suspended] "tenant.wind_down" actor.

(** Step 2 of [Delete]. *)
Definition dropSchema (id : gostring) : tenantProg outcome :=
  Do (R := dbR) Begin (fun ok : bool =>
  if ok then
    Do (R := dbR) LoadAge (fun ok : bool =>
    if ok then
      Do (R := dbR) SetSearchPath (fun ok : bool =>
      if ok then
        Do (R := dbR) (DropGraph (SchemaName id)) (fun r : dropped =>
        match r with
        | DropFailed => rollback ErrDatabase
        | _ => commit
        end)
      else rollback ErrDatabase)
    else rollback ErrDatabase)
  else Ret (Some ErrDatabase)).

Definition Delete (id actor : gostring) (confirm : bool) : tenantProg outcome :=
  if negb confirm then Ret (Some ErrNotConfirmed)
  else
    bind (transitionLifecycle id deleted [active; suspended; wind_down] "tenant.deleted" actor)
      (fun err =>
       match err with
       | Some e => Ret (Some e)
       | None => dropSchema id
       end).

(** ** Updates outside a transaction ([repo.go], [pool_b_migrate.go]) *)

(** [RowsAffected] of a single update. *)
Definition affected (r : option nat) : outcome :=
  match r with
  | None => Some ErrDatabase
  | Some 0 => Some ErrTenantNotFound
  | Some _ => None
  end.

Definition SetLifecycleState (id : gostring) (st : lifecycle) : tenantProg outcome :=
  Do (R := dbR) (ExecSetState id st) (fun r : option nat => Ret (affected r)).

Definition UpdatePoolAndDSN (id pool dsn : gostring) : tenantProg outcome :=
  if bool_decide (pool <> "A" /\ pool <> "B") then Ret (Some ErrInvalidOpts)
  else Do (R := dbR) (ExecSetPool id pool dsn) (fun r : option nat => Ret (affected r)).

(** ** Migration to a database of its own ([pool_b_migrate.go]) *)

Record MigrationOpts := mkOpts {
  TenantID : gostring; PoolAStreamDSN : gostring; PoolBDSN : gostring;
  DumpPath : gostring; Actor : gostring
}.

Definition zeroUUID : gostring := "00000000-0000-0000-0000-000000000000".

Definition postgresDSN (s : gostring) : bool :=
  hasPrefix "postgres://" s || hasPrefix "postgresql://" s.

Definition validateOpts (opts : MigrationOpts) : option MigrationOpts :=
  if bool_decide (TenantID opts = zeroUUID) then None
  else if negb (postgresDSN (PoolAStreamDSN opts)) then None
  else if negb (postgresDSN (PoolBDSN opts)) then None
  else Some (mkOpts (TenantID opts) (PoolAStreamDSN opts) (PoolBDSN opts)
    (if bool_decide (DumpPath opts = [])
     then "/tmp/tenant_" ++ replaceByte "-"%char "_"%char (TenantID opts) ++ ".dump"
     else DumpPath opts)
    (if bool_decide (Actor opts = []) then "migration@neksur.com" else Actor opts)).

(** [strings.Index]. *)
Fixpoint index (s sub : gostring) : option nat :=
  if hasPrefix sub s then Some 0
  else match s with [] => None | _ :: s => S <$> index s sub end.

Definition redactDSN (dsn : gostring) : gostring :=
  match index dsn "://" with
  | None => dsn
  | Some prefixEnd =>
      match index (drop prefixEnd dsn) "@" with
      | None => dsn
      | Some atIdx =>
          let authStart := prefixEnd + 3 in
          let authEnd := prefixEnd + atIdx in
          let auth := take (authEnd - authStart) (drop authStart dsn) in
          match index auth ":" with
          | None => dsn
          | Some colon =>
              take authStart dsn ++ take colon auth ++ ":***" ++ drop authEnd dsn
          end
      end
  end.

(** The counts of one table, on both sides. *)
Fixpoint compareTables (tables : list gostring) : tenantProg outcome :=
  match tables with
  | [] => Ret None
  | t :: tables =>
      Do (R := dbR) (CountRows false t) (fun src : option Z =>
      match src with
      | None => Ret (Some ErrDatabase)
      | Some srcCount =>
          Do (R := dbR) (CountRows true t) (fun tgt : option Z =>
          match tgt with
          | None => Ret (Some ErrDatabase)
          | Some tgtCount =>
              if bool_decide (srcCount = tgtCount) then compareTables tables
              else Ret (Some (ErrRowCountMismatch t srcCount tgtCount))
          end)
      end)
  end.

Definition validateRowCounts (opts : MigrationOpts) (schemaName : gostring)
  : tenantProg outcome :=
  Do (R := dbR) (OpenPools (PoolAStreamDSN opts) (PoolBDSN opts)) (fun ok : bool =>
  if ok then
    Do (R := dbR) (ListTables schemaName) (fun r : option (list gostring) =>
    match r with
    | None | Some [] => Ret (Some ErrDatabase)
    | Some tables => compareTables tables
    end)
  else Ret (Some ErrDatabase)).

(** A step that must succeed. *)
Definition must (m k : tenantProg outcome) : tenantProg outcome :=
  bind m (fun err => match err with Some e => Ret (Some e) | None => k end).

Definition exec (c : dbCall) (ok : dbR c -> bool) : tenantProg outcome :=
  Do (R := dbR) c (fun r => Ret (if ok r then None else Some ErrDatabase)).

Definition writeMigrationAudit (opts : MigrationOpts) (schemaName : gostring)
  : tenantProg outcome :=
  exec (ExecAudit (mkAudit (Actor opts) (TenantID opts) "tenant.migrated_pool_a_to_b"
          (Migration (redactDSN (PoolBDSN opts)) schemaName))) (fun ok : bool => ok).

(** Steps 2 to 8 on the validated options; the result record is left out. *)
Definition MigratePoolAToB (opts : MigrationOpts) : tenantProg outcome :=
  match validateOpts opts with
  | None => Ret (Some ErrInvalidOpts)
  | Some opts =>
      let schemaName := SchemaName (TenantID opts) in
      must (Suspend (TenantID opts) (Actor opts)) (
      must (exec (PgDump schemaName (PoolAStreamDSN opts) (DumpPath opts)) (fun ok : bool => ok)) (
      must (exec (PgRestore (PoolBDSN opts) (DumpPath opts)) (fun ok : bool => ok)) (
      must (validateRowCounts opts schemaName) (
      must (UpdatePoolAndDSN (TenantID opts) "B" (PoolBDSN opts)) (
      must (SetLifecycleState (TenantID opts) active)
        (writeMigrationAudit opts schemaName))))))
  end.

(** ** What the statements do *)

(** [UPDATE ... WHERE id = $1 AND lifecycle_state = ANY($3)]. *)
Definition updateTenants (id : gostring) (new : lifecycle) (from : list lifecycle) (d : db)
  : option nat * db :=
  match tenants d !! id with
  | Some r =>
      if bool_decide (state r ∈ from) then
        (Some 1, mkDb (<[id := mkRow new (pool r) (connection_dsn r)]> (tenants d))
                   (audit_log d) (graphs d))
      else (Some 0, d)
  | None => (Some 0, d)
  end.

Definition updatePool (id p dsn : gostring) (d : db) : option nat * db :=
  match tenants d !! id with
  | Some r =>
      (Some 1, mkDb (<[id := mkRow (state r) p (Some dsn)]> (tenants d)) (audit_log d) (graphs d))
  | None => (Some 0, d)
  end.

Definition insertAudit (a : audit) (d : db) : db :=
  mkDb (tenants d) (audit_log d ++ [a]) (graphs d).

Definition dropGraph (schema : gostring) (d : db) : option db :=
  if bool_decide (schema ∈ graphs d)
  then Some (mkDb (tenants d) (audit_log d) (graphs d ∖ {[schema]}))
  else None.

(** The committed database, and the working copy of the open transaction.  The
    row a transaction updated stays locked until it ends, so that nobody else
    changes it in between.  An error aborts the transaction: PostgreSQL refuses
    what follows and turns a commit into a rollback, which pgx reports. *)
Record world := mkWorld { committed : db; working : option db }.

(** A statement on the working copy. *)
Definition inTx {A} (f : db -> A * db) (none : A) (w : world) : A * world :=
  match working w with
  | Some d => let '(a, d') := f d in (a, mkWorld (committed w) (Some d'))
  | None => (none, w)
  end.

Section semantics.
(** The tables of a tenant schema and their numbers of rows, source and target. *)
Context (tablesOf : gostring -> list gostring) (countOf : bool -> gostring -> Z).

(** The answer and effect of a statement that nothing disturbs. *)
Definition perform (c : dbCall) (w : world) : dbR c * world :=
  match c return dbR c * world with
  | Begin => (true, mkWorld (committed w) (Some (committed w)))
  | UpdateTenants id new from => inTx (updateTenants id new from) None w
  | InsertAudit a => inTx (fun d => (true, insertAudit a d)) false w
  | LoadAge => inTx (fun d => (true, d)) false w
  | SetSearchPath => inTx (fun d => (true, d)) false w
  | DropGraph schema =>
      match working w with
      | Some d =>
          match dropGraph schema d with
          | Some d' => (Dropped, mkWorld (committed w) (Some d'))
          | None => (UndefinedGraph, mkWorld (committed w) None)
          end
      | None => (DropFailed, w)
      end
  | Commit =>
      match working w with Some d => (true, mkWorld d None) | None => (false, w) end
  | Rollback => (true, mkWorld (committed w) None)
  | ExecSetState id st =>
      let '(n, d) := updateTenants id st [active; suspended; wind_down; deleted] (committed w) in
      (n, mkWorld d (working w))
  | ExecSetPool id pool dsn =>
      let '(n, d) := updatePool id pool dsn (committed w) in (n, mkWorld d (working w))
  | ExecAudit a => (true, mkWorld (insertAudit a (committed w)) (working w))
  | PgDump _ _ _ => (true, w)
  | PgRestore _ _ => (true, w)
  | OpenPools _ _ => (true, w)
  | ListTables schema => (Some (tablesOf schema), w)
  | CountRows target t => (Some (countOf target t), w)
  end.

Definition failing (c : dbCall) : dbR c :=
  match c return dbR c with
  | UpdateTenants _ _ _ => None
  | ExecSetState _ _ => None
  | ExecSetPool _ _ _ => None
  | DropGraph _ => DropFailed
  | ListTables _ => None
  | CountRows _ _ => None
  | _ => false
  end.

(** A statement succeeds, fails, or takes effect while its answer is lost. *)
Inductive fault := Fine | Fails | Lost.

(** The points where a transaction or a single statement takes its view: other
    processes come before. *)
Definition fresh (c : dbCall) : bool :=
  match c with Begin | ExecSetState _ _ | ExecSetPool _ _ _ | ExecAudit _ => true | _ => false end.

Definition serve (f : fault) (others : db -> db) (c : dbCall) (w : world) : dbR c * world :=
  let w := if fresh c then mkWorld (others (committed w)) (working w) else w in
  match f with
  | Fine => perform c w
  | Fails => (failing c, match c with Rollback => (perform c w).2 | _ => w end)
  | Lost => (failing c, (perform c w).2)
  end.

(** A run: the fault of the [n]-th statement, and what others did before it; the
    result, the number of the next statement and the world. *)
Context (faults : nat -> fault) (others : nat -> db -> db).

Fixpoint runDb {A} (p : prog dbR A) (n : nat) (w : world) : A * (nat * world) :=
  match p with
  | Ret a => (a, (n, w))
  | Do c k => let '(r, w) := serve (faults n) (others n) c w in runDb (k r) (S n) w
  end.
End semantics.
