(* ===== verification/Provision.v ===== *)
(** * Provisioning of tenants

    [internal/tenant]: the transaction of a request with its three layers
    ([dbsession.go]), the steps of the provisioning ([provision.go]), the smoke
    checks ([smoke.go]), the insertion of the row ([repo.go]), and the commands
    of [cmd/neksur-cli] that run them.  The statements act on a cluster: the
    tenants, the schemas with their tables and sequences, the roles with what
    they were granted. *)

From S2P Require Import Prelude Effects Tenant.
From Stdlib Require Import Lia.
#[local] Open Scope go_scope.

(** ** The cluster *)

Inductive privilege := pSelect | pInsert | pUpdate | pDelete | pTruncate | pUsage.
Inductive kind := KTable | KSequence.

#[export] Instance privilege_eq_dec : EqDecision privilege.
Proof. solve_decision. Defined.
#[export] Instance privilege_countable : Countable privilege.
Proof.
  refine (inj_countable' (fun p => match p with pSelect => 0 | pInsert => 1 | pUpdate => 2 | pDelete => 3
                                   | pTruncate => 4 | pUsage => 5 end)
    (fun n => match n with 0 => pSelect | 1 => pInsert | 2 => pUpdate | 3 => pDelete
              | 4 => pTruncate | _ => pUsage end) _). by intros [].
Defined.
#[export] Instance kind_eq_dec : EqDecision kind.
Proof. solve_decision. Defined.
#[export] Instance kind_countable : Countable kind.
Proof.
  refine (inj_countable' (fun k => match k with KTable => true | KSequence => false end)
    (fun b : bool => if b then KTable else KSequence) _). by intros [].
Defined.

(** What the insertion sets of a row of [public.tenants]. *)
Record tenantRow := mkTenantRow { t_org : gostring; t_state : lifecycle; t_pool : gostring }.

(** A relation is named by its schema and its name. *)
Abbreviation relName := (gostring * gostring)%type.

(** A row of [catalog_credentials] (V0060): the kind, the endpoint, the
    configuration. *)
Record credentialRow := mkCredentialRow {
  cr_kind : gostring; cr_nickname : gostring; cr_endpoint : gostring; cr_config : gostring
}.

Record cluster := mkCluster {
  registry : gmap gostring tenantRow;                    (* public.tenants, by id *)
  ag_graph : gset gostring;                              (* ag_catalog.ag_graph *)
  schemas : gset gostring;
  relations : gmap relName kind;
  roles : gset gostring;
  usages : gset (gostring * gostring);                   (* role, schema *)
  grants : gset (gostring * relName * privilege);
  defaults : gset (gostring * gostring * kind * privilege);  (* role, schema *)
  members : gset gostring;                               (* roles granted to neksur_app *)
  auditRows : gmap gostring nat;                         (* of audit_log, by schema *)
  onboarded : list gostring;                             (* public.system_audit_log *)
  credentials : gmap (gostring * gostring) credentialRow (* by schema, nickname *)
}.

Definition ag_catalog : gostring := "ag_catalog".
Definition auditTable : gostring := "audit_log".
Definition auditSequence : gostring := "audit_log_id_seq".

(** ** Statements *)

Inductive sql :=
  | InsertTenant (id org : gostring) (st : lifecycle) (pool : gostring)
  | LoadAgeStmt
  | SetPathStmt
  | GraphExists (name : gostring)
  | CreateGraphStmt (name : gostring)
  | CreateRoleIfMissing (role : gostring)
  | GrantUsage (schema role : gostring)
  | GrantAll (k : kind) (privs : list privilege) (schema role : gostring)
  | AlterDefault (k : kind) (privs : list privilege) (schema role : gostring)
  | GrantRole (role : gostring)
  | RegclassAudit (schema : gostring)
  | RevokeFrom (privs : list privilege) (r : relName) (role : gostring)
  | SetLocalPath (schema : gostring)
  | SetLocalRole (role : gostring)
  | SetTenant (id : gostring)
  | InsertAuditRow
  | SelectAuditRow (n : Z)
  | CountPolicies
  | ReadAuditOf (schema : gostring)
  | InsertOnboarded (id : gostring)
  | SelectCredentials (nickname : gostring).

(** The answer: an error with its SQLSTATE (none for a lost connection), or what
    the statement returns. *)
Inductive answer :=
  | SqlError (code : option gostring)
  | SqlOk
  | SqlBool (b : bool)
  | SqlInt (n : Z)
  | SqlRow (r : option credentialRow).

(** The settings of a session or, with [SET LOCAL], of a transaction; without a
    role it is the administrator who executes. *)
Record session := mkSession { s_role : option gostring; s_path : option gostring;
                              s_tenant : option gostring }.

Definition adminSession : session := mkSession None None None.

Definition withGrants (g : gset (gostring * relName * privilege)) (d : cluster) : cluster :=
  mkCluster (registry d) (ag_graph d) (schemas d) (relations d) (roles d) (usages d) g (defaults d)
    (members d) (auditRows d) (onboarded d) (credentials d).

(** [GRANT ... ON ALL TABLES (SEQUENCES) IN SCHEMA]: on those that are there. *)
Definition relationsIn (k : kind) (schema : gostring) (d : cluster) : list relName :=
  map fst (filter (fun rk => rk.1.1 = schema /\ rk.2 = k) (map_to_list (relations d))).

Definition grantOn (rels : list relName) (privs : list privilege) (role : gostring) (d : cluster)
  : cluster :=
  withGrants (list_to_set (flat_map (fun r => map (fun p => (role, r, p)) privs) rels) ∪ grants d) d.

(** A relation of a schema that is created gets what the defaults say. *)
Definition createRelation (schema : gostring) (name : gostring) (k : kind) (d : cluster) : cluster :=
  let given := filter (fun x => x.1.1.2 = schema /\ x.1.2 = k) (elements (defaults d)) in
  mkCluster (registry d) (ag_graph d) (schemas d) (<[(schema, name) := k]> (relations d)) (roles d)
    (usages d)
    (list_to_set (map (fun x => (x.1.1.1, (schema, name), x.2)) given) ∪ grants d)
    (defaults d) (members d) (auditRows d) (onboarded d) (credentials d).

Definition createGraph (name : gostring) (d : cluster) : cluster :=
  createRelation name "_ag_label_edge" KTable (createRelation name "_ag_label_vertex" KTable
    (mkCluster (registry d) ({[name]} ∪ ag_graph d) ({[name]} ∪ schemas d) (relations d) (roles d)
       (usages d) (grants d) (defaults d) (members d) (auditRows d) (onboarded d) (credentials d))).

(** The administrator may do everything. *)
Definition may (d : cluster) (role : option gostring) (r : relName) (p : privilege) : bool :=
  match role with
  | None => true
  | Some role => bool_decide ((role, r, p) ∈ grants d)
  end.

Definition enters (d : cluster) (role : option gostring) (schema : gostring) : bool :=
  match role with
  | None => true
  | Some role => bool_decide ((role, schema) ∈ usages d)
  end.

(** The access to a relation of a named schema, as PostgreSQL checks it. *)
Definition access (d : cluster) (role : option gostring) (schema name : gostring)
    (privs : list privilege) : answer :=
  if bool_decide (schema ∉ schemas d) then SqlError (Some "42P01")
  else if negb (enters d role schema) then SqlError (Some "42501")
  else
    match relations d !! (schema, name) with
    | None => SqlError (Some "42P01")
    | Some _ =>
        if forallb (may d role (schema, name)) privs then SqlOk else SqlError (Some "42501")
    end.

(** An unqualified name; a schema the role may not use is skipped. *)
Definition accessByPath (d : cluster) (s : session) (name : gostring) (privs : list privilege)
  : answer :=
  match s_path s with
  | Some schema =>
      if enters d (s_role s) schema then access d (s_role s) schema name privs
      else SqlError (Some "42P01")
  | None => SqlError (Some "42P01")
  end.

Definition andOk (a : answer) (k : answer * session * cluster) (s : session) (d : cluster)
  : answer * session * cluster :=
  match a with SqlOk => k | a => (a, s, d) end.

Definition credentialsTable : gostring := "catalog_credentials".

(** The role of the application: [V0041]. *)
Definition appRole : gostring := "neksur_app".

(** What the policies of V0066 let a session see: nothing without a tenant. *)
Definition visibleRow (d : cluster) (ss : session) (nickname : gostring) : option credentialRow :=
  match s_role ss, s_tenant ss with
  | Some _, None => None
  | _, _ => credentials d !! (default [] (s_path ss), nickname)
  end.

(** A guard of the server. *)
Definition unless (refused : bool) (code : gostring) (k : answer * session * cluster) (s : session)
    (d : cluster) : answer * session * cluster :=
  if refused then (SqlError (Some code), s, d) else k.

(** The answer and the effect of a statement that nothing disturbs. *)
Definition execSql (s : sql) (ss : session) (d : cluster) : answer * session * cluster :=
  match s with
  | InsertTenant id org st pool =>
      (* ON CONFLICT (workos_org_id) DO NOTHING; the primary key is no arbiter *)
      if bool_decide (map_Exists (fun _ r => t_org r = org) (registry d)) then (SqlOk, ss, d)
      else
        unless (bool_decide (is_Some (registry d !! id))) "23505"
          (SqlOk, ss, mkCluster (<[id := mkTenantRow org st pool]> (registry d)) (ag_graph d) (schemas d)
             (relations d) (roles d) (usages d) (grants d) (defaults d) (members d) (auditRows d)
             (onboarded d) (credentials d)) ss d
  | LoadAgeStmt | SetPathStmt => (SqlOk, ss, d)
  | GraphExists name => (SqlBool (bool_decide (name ∈ ag_graph d)), ss, d)
  | CreateGraphStmt name =>
      unless (bool_decide (name ∈ ag_graph d) || bool_decide (name ∈ schemas d)) "3F000"
        (SqlOk, ss, createGraph name d) ss d
  | CreateRoleIfMissing role =>
      (SqlOk, ss, mkCluster (registry d) (ag_graph d) (schemas d) (relations d) ({[role]} ∪ roles d)
         (usages d) (grants d) (defaults d) (members d) (auditRows d) (onboarded d) (credentials d))
  | GrantUsage schema role =>
      unless (bool_decide (schema ∉ schemas d)) "3F000" (unless (bool_decide (role ∉ roles d)) "42704"
        (SqlOk, ss, mkCluster (registry d) (ag_graph d) (schemas d) (relations d) (roles d)
           ({[(role, schema)]} ∪ usages d) (grants d) (defaults d) (members d) (auditRows d)
           (onboarded d) (credentials d)) ss d) ss d
  | GrantAll k privs schema role =>
      unless (bool_decide (schema ∉ schemas d)) "3F000" (unless (bool_decide (role ∉ roles d)) "42704"
        (SqlOk, ss, grantOn (relationsIn k schema d) privs role d) ss d) ss d
  | AlterDefault k privs schema role =>
      unless (bool_decide (schema ∉ schemas d)) "3F000" (unless (bool_decide (role ∉ roles d)) "42704"
        (SqlOk, ss, mkCluster (registry d) (ag_graph d) (schemas d) (relations d) (roles d) (usages d)
           (grants d) (list_to_set (map (fun p => (role, schema, k, p)) privs) ∪ defaults d)
           (members d) (auditRows d) (onboarded d) (credentials d)) ss d) ss d
  | GrantRole role =>
      unless (bool_decide (role ∉ roles d)) "42704" (unless (bool_decide (appRole ∉ roles d)) "42704"
        (SqlOk, ss, mkCluster (registry d) (ag_graph d) (schemas d) (relations d) (roles d) (usages d)
           (grants d) (defaults d) ({[role]} ∪ members d) (auditRows d) (onboarded d) (credentials d)) ss d) ss d
  | RegclassAudit schema => (SqlBool (bool_decide (is_Some (relations d !! (schema, auditTable)))), ss, d)
  | RevokeFrom privs r role =>
      unless (bool_decide (relations d !! r = None)) "42P01" (unless (bool_decide (role ∉ roles d)) "42704"
        (SqlOk, ss, withGrants (grants d ∖ list_to_set (map (fun p => (role, r, p)) privs)) d) ss d) ss d
  | SetLocalPath schema => (SqlOk, mkSession (s_role ss) (Some schema) (s_tenant ss), d)
  | SetLocalRole role =>
      unless (bool_decide (role ∉ roles d)) "22023"
        (SqlOk, mkSession (Some role) (s_path ss) (s_tenant ss), d) ss d
  | SetTenant id => (SqlOk, mkSession (s_role ss) (s_path ss) (Some id), d)
  | InsertAuditRow =>
      andOk (accessByPath d ss auditTable [pInsert; pSelect])
        (andOk (accessByPath d ss auditSequence [pUsage])
           (let schema := default [] (s_path ss) in
            let n := S (default 0 (auditRows d !! schema)) in
            (SqlInt (Z.of_nat n), ss,
             mkCluster (registry d) (ag_graph d) (schemas d) (relations d) (roles d) (usages d)
               (grants d) (defaults d) (members d) (<[schema := n]> (auditRows d)) (onboarded d) (credentials d)))
           ss d) ss d
  | SelectAuditRow n =>
      andOk (accessByPath d ss auditTable [pSelect])
        (let rows := default 0 (auditRows d !! default [] (s_path ss)) in
         (if (0 <? n)%Z && (n <=? Z.of_nat rows)%Z
          then SqlInt n else SqlError None), ss, d) ss d
  | CountPolicies => andOk (accessByPath d ss "policies" [pSelect]) (SqlInt 0, ss, d) ss d
  | ReadAuditOf schema => (access d (s_role ss) schema auditTable [pSelect], ss, d)
  | SelectCredentials nickname =>
      andOk (accessByPath d ss credentialsTable [pSelect])
        (SqlRow (visibleRow d ss nickname), ss, d) ss d
  | InsertOnboarded id =>
      (* target_tenant_id REFERENCES public.tenants(id), V0043 *)
      unless (bool_decide (registry d !! id = None)) "23503"
        (SqlOk, ss, mkCluster (registry d) (ag_graph d) (schemas d) (relations d) (roles d) (usages d)
           (grants d) (defaults d) (members d) (auditRows d) (onboarded d ++ [id]) (credentials d)) ss d
  end.

(** ** Calls *)

(** [Exec true] is in the open transaction, [Exec false] on the pool. *)
Inductive provCall :=
  | OpenDb
  | OpenGraphClient
  | AcquireConn
  | TxBegin
  | TxCommit
  | TxRollback
  | Exec (tx : bool) (s : sql)
  | Atlas (schema : gostring)
  | Dial (dsn : gostring)
  | Canceled
  | WaitSeconds (n : Z)
  | Terraform (args : list gostring).

(** [Canceled] and [WaitSeconds] answer whether the context is done. *)
Definition provR (c : provCall) : Type :=
  match c with
  | Exec _ _ => answer
  | Terraform _ => option gostring
  | _ => bool
  end.

Abbreviation provProg := (prog provR).

Inductive prov_err :=
  | ErrTenantNotInContext
  | ErrCrossTenantAccess
  | ErrVPCPeeringNotActive
  | ErrCanceled
  | ErrInput (field : gostring)
  | ErrSql (code : option gostring)
  | ErrUnexpected
  | ErrNoRows.

(** [None] is a nil error. *)
Definition provOut := option prov_err.

Definition thenOk (p : provProg provOut) (k : provProg provOut) : provProg provOut :=
  bind p (fun e => match e with None => k | Some e => Ret (Some e) end).

(** A statement whose rows are not read. *)
Definition execOk (tx : bool) (s : sql) : provProg provOut :=
  Do (R := provR) (Exec tx s) (fun a : answer =>
  Ret (match a with SqlError c => Some (ErrSql c) | _ => None end)).

Fixpoint execEach (tx : bool) (l : list sql) : provProg provOut :=
  match l with
  | [] => Ret None
  | s :: l => thenOk (execOk tx s) (execEach tx l)
  end.

(** [defer tx.Rollback]: after a commit it is a no-op. *)
Definition rolledBack (p : provProg provOut) : provProg provOut :=
  bind p (fun e => Do (R := provR) TxRollback (fun _ : bool => Ret e)).

Definition commitTx : provProg provOut :=
  Do (R := provR) TxCommit (fun ok : bool => Ret (if ok then None else Some (ErrSql None))).

(** ** The transaction of a request ([dbsession.go]) *)

(** What [fn] answers: it may panic. *)
Inductive fnOut := FnNil | FnErr (e : prov_err) | FnPanic.

(** An error rolls back; a panic leaves the function with [retErr] nil, and the
    transaction open. *)
Definition failedTx (e : prov_err) : provProg fnOut :=
  Do (R := provR) TxRollback (fun _ : bool => Ret (FnErr e)).

Definition layers (id : gostring) : list sql :=
  [SetLocalPath (SchemaName id); SetLocalRole (RoleName id); SetTenant id].

Definition WithTenantTx (ctx : option gostring) (fn : provProg fnOut) : provProg fnOut :=
  match ctx with
  | None => Ret (FnErr ErrTenantNotInContext)
  | Some tenantID =>
      Do (R := provR) TxBegin (fun ok : bool =>
      if ok then
        bind (execEach true (layers tenantID)) (fun e =>
        match e with
        | Some e => failedTx e
        | None =>
            bind fn (fun r =>
            match r with
            | FnErr e => failedTx e
            | FnPanic => Ret FnPanic
            | FnNil => bind commitTx (fun e => match e with None => Ret FnNil | Some e => failedTx e end)
            end)
        end)
      else Ret (FnErr (ErrSql None)))
  end.

(** ** The smoke checks ([smoke.go]) *)

Definition pgwireBackoff : list Z := [1; 2; 5; 15; 30; 60; 120]%Z.

Fixpoint dialLoop (dsn : gostring) (schedule : list Z) : provProg provOut :=
  match schedule with
  | [] => Ret (Some ErrVPCPeeringNotActive)
  | sleep :: schedule =>
      Do (R := provR) Canceled (fun gone : bool =>
      if gone then Ret (Some ErrCanceled)
      else
        Do (R := provR) (Dial dsn) (fun ok : bool =>
        if ok then Ret None
        else
          Do (R := provR) (WaitSeconds sleep) (fun gone : bool =>
          if gone then Ret (Some ErrCanceled) else dialLoop dsn schedule)))
  end.

Definition PgwireReachable (dsn : gostring) : provProg provOut := dialLoop dsn pgwireBackoff.

(** The error of a check inside [WithTenantTx]. *)
Definition fnErr (r : fnOut) : provOut :=
  match r with FnNil => None | FnErr e => Some e | FnPanic => Some ErrUnexpected end.

Definition GatewayCommitAuditEdge (id : gostring) : provProg provOut :=
  bind (WithTenantTx (Some id)
    (Do (R := provR) (Exec true InsertAuditRow) (fun a : answer =>
     match a with
     | SqlInt insertedID =>
         Do (R := provR) (Exec true (SelectAuditRow insertedID)) (fun a : answer =>
         Ret (match a with
              | SqlInt got => if (got =? insertedID)%Z then FnNil else FnErr ErrUnexpected
              | SqlError c => FnErr (ErrSql c)
              | _ => FnErr ErrUnexpected
              end))
     | SqlError c => Ret (FnErr (ErrSql c))
     | _ => Ret (FnErr ErrUnexpected)
     end))) (fun r => Ret (fnErr r)).

Definition PolicyFetch (id : gostring) : provProg provOut :=
  bind (WithTenantTx (Some id)
    (Do (R := provR) (Exec true CountPolicies) (fun a : answer =>
     Ret (match a with
          | SqlInt _ => FnNil
          | SqlError c => FnErr (ErrSql c)
          | _ => FnErr ErrUnexpected
          end)))) (fun r => Ret (fnErr r)).

(** The two SQLSTATEs that count as a denial. *)
Definition denial (a : answer) : provOut :=
  match a with
  | SqlError (Some code) =>
      if bool_decide (code = "42501") || bool_decide (code = "42P01") then None
      else Some (ErrSql (Some code))
  | SqlError None => Some (ErrSql None)
  | _ => Some ErrCrossTenantAccess
  end.

Definition CrossTenantProbe (id probe : gostring) : provProg provOut :=
  if bool_decide (id = probe) then Ret (Some ErrUnexpected)
  else
    Do (R := provR) AcquireConn (fun ok : bool =>
    if ok then
      Do (R := provR) TxBegin (fun ok : bool =>
      if ok then
        rolledBack (thenOk (execOk true (SetLocalRole (RoleName id)))
          (Do (R := provR) (Exec true (ReadAuditOf (SchemaName probe))) (fun a : answer =>
           Ret (denial a))))
      else Ret (Some (ErrSql None)))
    else Ret (Some (ErrSql None))).

(** ** The steps ([provision.go], [repo.go]) *)

(** [Create] of [repo.go], with the defaults of its fields. *)
Definition Create (id org : gostring) (st : option lifecycle) (pool : gostring) : provProg provOut :=
  execOk false (InsertTenant id org (default active st)
    (if bool_decide (pool = []) then "A" else pool)).

Definition CreateGraph (id : gostring) : provProg provOut :=
  let schemaName := SchemaName id in
  Do (R := provR) AcquireConn (fun ok : bool =>
  if ok then
    thenOk (execOk false LoadAgeStmt) (thenOk (execOk false SetPathStmt)
      (Do (R := provR) (Exec false (GraphExists schemaName)) (fun a : answer =>
       match a with
       | SqlBool true => Ret None
       | SqlBool false => execOk false (CreateGraphStmt schemaName)
       | SqlError c => Ret (Some (ErrSql c))
       | _ => Ret (Some ErrUnexpected)
       end)))
  else Ret (Some (ErrSql None))).

Definition roleGrants (schemaName roleName : gostring) : list sql :=
  [GrantUsage schemaName roleName;
   GrantAll KTable [pSelect; pInsert; pUpdate] schemaName roleName;
   GrantAll KSequence [pUsage] schemaName roleName;
   AlterDefault KTable [pSelect; pInsert; pUpdate] schemaName roleName;
   AlterDefault KSequence [pUsage] schemaName roleName;
   GrantUsage ag_catalog roleName;
   GrantAll KTable [pSelect] ag_catalog roleName;
   GrantRole roleName].

Definition CreateRole (id : gostring) : provProg provOut :=
  Do (R := provR) TxBegin (fun ok : bool =>
  if ok then
    rolledBack (thenOk (execOk true (CreateRoleIfMissing (RoleName id)))
      (thenOk (execEach true (roleGrants (SchemaName id) (RoleName id))) commitTx))
  else Ret (Some (ErrSql None))).

Definition auditOf (id : gostring) : relName := (SchemaName id, auditTable).

Definition RevokeAuditLogWrites (id : gostring) : provProg provOut :=
  Do (R := provR) (Exec false (RegclassAudit (SchemaName id))) (fun a : answer =>
  match a with
  | SqlBool true =>
      execEach false [RevokeFrom [pUpdate; pDelete] (auditOf id) (RoleName id);
                      RevokeFrom [pTruncate] (auditOf id) (RoleName id)]
  | SqlError c => Ret (Some (ErrSql c))
  | _ => Ret None
  end).

(** [baseDSN] is not empty in the commands; Atlas with its retries is one call,
    [Migrate.ApplyTenant] behind it. *)
Definition ApplyTenantMigrations (id : gostring) : provProg provOut :=
  Do (R := provR) (Atlas (SchemaName id)) (fun ok : bool =>
  Ret (if ok then None else Some ErrUnexpected)).

Definition RunSmoke (id probeOtherTenant : gostring) : provProg provOut :=
  thenOk (GatewayCommitAuditEdge id) (thenOk (PolicyFetch id)
    (thenOk (if bool_decide (probeOtherTenant = zeroUUID) then Ret None
             else CrossTenantProbe id probeOtherTenant)
       (execOk false (InsertOnboarded id)))).

Record PeeringOpts := mkPeering {
  pe_TenantID : gostring; pe_CustomerVPCID : gostring; pe_CustomerRegion : gostring;
  pe_CustomerAccount : gostring
}.

Definition peeringApply (tfDir : gostring) (o : PeeringOpts) : list gostring :=
  let dquote := [ascii_of_N 34] in
  ["-chdir=" ++ tfDir; "apply" : gostring; "-auto-approve" : gostring;
   "-target=module.customer_peering[" ++ dquote ++ pe_TenantID o ++ dquote ++ "]";
   "-var=tenant_uuid=" ++ pe_TenantID o;
   "-var=customer_vpc_id=" ++ pe_CustomerVPCID o;
   "-var=customer_region=" ++ pe_CustomerRegion o]
  ++ (if bool_decide (pe_CustomerAccount o = []) then []
      else ["-var=customer_aws_account=" ++ pe_CustomerAccount o]).

Section peering.
(** The decoder of the outputs: the value of each tenant. *)
Context {PeeringResult : Type} (decodeOutputs : gostring -> option (gmap gostring PeeringResult)).

Definition InitiatePeering (tfDir : gostring) (o : PeeringOpts)
  : provProg (result prov_err PeeringResult) :=
  if negb (ValidateCustomerVPCID (pe_CustomerVPCID o)) then Ret (Err (ErrInput "customer vpc"))
  else if negb (ValidateAWSRegion (pe_CustomerRegion o)) then Ret (Err (ErrInput "customer region"))
  else if bool_decide (tfDir = []) then Ret (Err (ErrInput "tfDir"))
  else
    Do (R := provR) (Terraform (peeringApply tfDir o)) (fun out : option gostring =>
    match out with
    | None => Ret (Err ErrUnexpected)
    | Some _ =>
        Do (R := provR) (Terraform ["-chdir=" ++ tfDir; "output" : gostring; "-json" : gostring;
                                     "customer_peering_outputs" : gostring])
          (fun out : option gostring =>
        Ret (match out ≫= decodeOutputs with
             | None => Err ErrUnexpected
             | Some outputs =>
                 match outputs !! pe_TenantID o with
                 | None => Err ErrUnexpected
                 | Some v => Ok v
                 end
             end))
    end).
End peering.

(** ** The commands ([cmd/neksur-cli]): exit codes *)

(** [DATABASE_URL], the pool and the graph client. *)
Definition withClients (dsn : gostring) (k : provProg nat) : provProg nat :=
  if bool_decide (dsn = []) then Ret 2
  else
    Do (R := provR) OpenDb (fun ok : bool =>
    if ok then Do (R := provR) OpenGraphClient (fun ok : bool => if ok then k else Ret 1)
    else Ret 1).

Definition exitCode (p : provProg provOut) : provProg nat :=
  bind p (fun e => Ret (match e with None => 0 | Some _ => 1 end)).

Definition runTenantCreate (dsn tenantUUID workosOrg : gostring) : provProg nat :=
  if bool_decide (tenantUUID = []) || bool_decide (workosOrg = []) then Ret 2
  else if negb (ValidateUUIDv4 tenantUUID) then Ret 2
  else if negb (ValidateWorkOSOrgID workosOrg) then Ret 2
  else
    withClients dsn (exitCode
      (thenOk (Create tenantUUID workosOrg (Some active) "A")
        (thenOk (CreateGraph tenantUUID) (CreateRole tenantUUID)))).

Definition bootstrapSchema : gostring := "bootstrap-schema".
Definition applyVersioned : gostring := "apply-versioned".

Definition runTenantMigrate (dsn tenantUUID step : gostring) : provProg nat :=
  if bool_decide (tenantUUID = []) || bool_decide (step = []) then Ret 2
  else if negb (ValidateUUIDv4 tenantUUID) then Ret 2
  else if bool_decide (step <> bootstrapSchema /\ step <> applyVersioned) then Ret 2
  else
    withClients dsn (exitCode
      (if bool_decide (step = bootstrapSchema)
       then thenOk (CreateGraph tenantUUID) (CreateRole tenantUUID)
       else thenOk (ApplyTenantMigrations tenantUUID) (RevokeAuditLogWrites tenantUUID))).

(** The probe: the flag, or else the environment. *)
Definition runTenantSmoke (dsn envProbe tenantUUID probeUUID : gostring) : provProg nat :=
  if bool_decide (tenantUUID = []) then Ret 2
  else if negb (ValidateUUIDv4 tenantUUID) then Ret 2
  else if bool_decide (dsn = []) then Ret 2
  else
    let probeStr := if bool_decide (probeUUID = []) then envProbe else probeUUID in
    if negb (bool_decide (probeStr = [])) && negb (ValidateUUIDv4 probeStr) then Ret 2
    else
      withClients dsn (exitCode
        (RunSmoke tenantUUID (if bool_decide (probeStr = []) then zeroUUID else probeStr))).

(** ** Execution *)

(** An open transaction works on a copy; an error aborts it, and its commit is
    then a rollback, which pgx reports. *)
Inductive txState := NoTx | OpenTx (d : cluster) (ss : session) | AbortedTx.

Record pworld := mkPWorld { committedDb : cluster; tx : txState }.

(** A call takes effect, fails, takes effect without its answer, or - Atlas - is
    cut after some migrations. *)
Inductive pfault := PFine | PFails | PLost | PPartly (k : nat).

Section execution.
(** The relations each tenant migration creates, in order. *)
Context (migrations : list (list (gostring * kind))).

(** The migrations that find their relations are recorded and not repeated. *)
Definition applyMigrations (k : nat) (schema : gostring) (d : cluster) : cluster :=
  fold_left (fun d rk =>
    if bool_decide (relations d !! (schema, rk.1) = None) then createRelation schema rk.1 rk.2 d else d)
    (concat (take k migrations)) d.

Definition runAtlasOn (k : nat) (schema : gostring) (w : pworld) : pworld :=
  if bool_decide (schema ∈ schemas (committedDb w))
  then mkPWorld (applyMigrations k schema (committedDb w)) (tx w) else w.

Definition performProv (c : provCall) (w : pworld) : provR c * pworld :=
  match c return provR c * pworld with
  | TxBegin => (true, mkPWorld (committedDb w) (OpenTx (committedDb w) adminSession))
  | TxCommit =>
      match tx w with
      | OpenTx d _ => (true, mkPWorld d NoTx)
      | _ => (false, mkPWorld (committedDb w) NoTx)
      end
  | TxRollback => (true, mkPWorld (committedDb w) NoTx)
  | Exec true s =>
      match tx w with
      | OpenTx d ss =>
          let '(a, ss, d) := execSql s ss d in
          (a, mkPWorld (committedDb w) (match a with SqlError _ => AbortedTx | _ => OpenTx d ss end))
      | _ => (SqlError (Some "25P02"), w)
      end
  | Exec false s =>
      let '(a, _, d) := execSql s adminSession (committedDb w) in (a, mkPWorld d (tx w))
  | Atlas schema =>
      (bool_decide (schema ∈ schemas (committedDb w)), runAtlasOn (length migrations) schema w)
  | Canceled => (false, w)
  | WaitSeconds _ => (false, w)
  | Terraform _ => (None, w)
  | _ => (true, w)
  end.

Definition failedCall (c : provCall) : provR c :=
  match c return provR c with
  | Exec _ _ => SqlError None
  | Terraform _ => None
  | Canceled | WaitSeconds _ => true
  | _ => false
  end.

(** A statement that fails in a transaction aborts it; a failed begin opens
    none, a failed commit or rollback ends it. *)
Definition brokenTx (c : provCall) (w : pworld) : pworld :=
  match c with
  | Exec true _ => mkPWorld (committedDb w) AbortedTx
  | TxCommit | TxRollback | TxBegin => mkPWorld (committedDb w) NoTx
  | _ => w
  end.

Definition serveProv (f : pfault) (c : provCall) (w : pworld) : provR c * pworld :=
  match f, c with
  | PFine, _ => performProv c w
  | PLost, _ => (failedCall c, (performProv c w).2)
  | PPartly k, Atlas schema => (failedCall c, runAtlasOn k schema w)
  | _, _ => (failedCall c, brokenTx c w)
  end.

Fixpoint runProv {A} (faults : nat -> pfault) (p : provProg A) (n : nat) (w : pworld)
  : A * (nat * pworld) :=
  match p with
  | Ret a => (a, (n, w))
  | Do c k => let '(r, w) := serveProv (faults n) c w in runProv faults (k r) (S n) w
  end.
End execution.
