(* ===== verification/ProvisionSpec.v ===== *)
(** * Provisioning: what tenants can reach

    The protocol of a request's transaction; the roles of different tenants have
    nothing in common whatever was run and failed; a provisioned tenant passes
    the smoke checks; its audit log is append-only until a provisioning command
    is run again. *)

From S2P Require Import Prelude Effects Tenant TenantSpec Provision.
From stdpp Require Import relations.
From Stdlib Require Import Lia.
#[local] Open Scope go_scope.
#[local] Set Warnings "-clear-no-such-hyp".

(** ** The transaction of a request *)

(** The calls before [fn]: the transaction, and the layers of the tenant. *)
Definition opened (id : gostring) : list provCall := TxBegin :: map (Exec true) (layers id).

(** What follows [fn], by its answer and the result. *)
Definition closing (answered result : fnOut) (rest : list provCall) : Prop :=
  match answered with
  | FnNil => result = FnNil /\ rest = [TxCommit] \/
             result = FnErr (ErrSql None) /\ rest = [TxCommit; TxRollback]
  | FnErr e => result = FnErr e /\ rest = [TxRollback]
  | FnPanic => result = FnPanic /\ rest = []
  end.

Lemma WithTenantTx_run id fn (o : env provR) h :
  let '(r, t) := run o h (WithTenantTx (Some id) fn) in
  (r = FnErr (ErrSql None) /\ calls t = [TxBegin]) \/
  (exists n c, n < 3 /\ r = FnErr (ErrSql c) /\ calls t = take (2 + n) (opened id) ++ [TxRollback]) \/
  (exists h' rest, calls t = opened id ++ calls (run o h' fn).2 ++ rest /\
     closing (run o h' fn).1 r rest).
Proof.
  unfold WithTenantTx. cbn [run]. destruct (o h TxBegin) eqn:Eb; [|by left].
  cbn [layers execEach thenOk execOk bind run].
  set (h1 := h ++ _). destruct (o h1 (Exec true (SetLocalPath _))) as [c| | | |] eqn:E1; cbn [run bind failedTx];
    [right; left; exists 0, c; by split_and!; [lia| |]|..].
  all: set (h2 := h1 ++ _); destruct (o h2 (Exec true (SetLocalRole _))) as [c| | | |] eqn:E2; cbn [run bind failedTx];
    [right; left; exists 1, c; by split_and!; [lia| |]|..].
  all: set (h3 := h2 ++ _); destruct (o h3 (Exec true (SetTenant _))) as [c| | | |] eqn:E3; cbn [run bind failedTx];
    [right; left; exists 2, c; by split_and!; [lia| |]|..].
  all: set (h4 := h3 ++ _); rewrite run_bind; destruct (run o h4 fn) as [[|e|] t] eqn:Ef; cbn [run bind failedTx].
  all: try (right; right; exists h4, [TxRollback]; rewrite Ef; split; [cbn; unfold calls; by rewrite map_app|by split]).
  all: try (right; right; exists h4, []; rewrite Ef; split; [cbn; unfold calls; by rewrite map_app|by split]).
  all: unfold commitTx; cbn [run bind]; set (h5 := h4 ++ t); destruct (o h5 TxCommit); cbn [run bind failedTx].
  all: try (right; right; exists h4, [TxCommit]; rewrite Ef; split; [cbn; unfold calls; by rewrite map_app|by left]).
  all: right; right; exists h4, [TxCommit; TxRollback]; rewrite Ef; split; [cbn; unfold calls; by rewrite map_app|by right].
Qed.

(** The transaction of a request: what runs inside it runs after the three layers
    of the tenant of the request, schema, role and setting, in this order, and
    without a tenant nothing runs at all; it is committed exactly when [fn]
    answers nil, and rolled back on every error.  When [fn] panics it is neither
    committed nor rolled back: the connection stays out of the pool. *)
Theorem WithTenantTx_protocol ctx fn (o : env provR) h :
  let '(r, t) := run o h (WithTenantTx ctx fn) in
  match ctx with
  | None => r = FnErr ErrTenantNotInContext /\ t = []
  | Some id =>
      (r = FnErr (ErrSql None) /\ calls t = [TxBegin]) \/
      (exists n c, n < 3 /\ r = FnErr (ErrSql c) /\ calls t = take (2 + n) (opened id) ++ [TxRollback]) \/
      (exists h' rest, calls t = opened id ++ calls (run o h' fn).2 ++ rest /\
         closing (run o h' fn).1 r rest)
  end.
Proof. destruct ctx as [id|]; [apply WithTenantTx_run|by split]. Qed.

(** ** Isolation *)

(** The role of a tenant, and a schema it may see. *)
Definition entitled (role schema : gostring) : Prop :=
  exists id, ValidateUUIDv4 id = true /\ role = RoleName id /\
    (schema = SchemaName id \/ schema = ag_catalog).

Definition harmless (p : privilege) : Prop := p <> pDelete /\ p <> pTruncate.

Record isolated (d : cluster) : Prop := {
  iso_usages : forall role schema, (role, schema) ∈ usages d -> entitled role schema;
  iso_grants : forall role r p, (role, r, p) ∈ grants d ->
    entitled role r.1 /\ harmless p /\ (r.1 = ag_catalog -> p = pSelect);
  iso_defaults : forall role schema k p, (role, schema, k, p) ∈ defaults d ->
    entitled role schema /\ harmless p /\ schema <> ag_catalog
}.

(** The statements the provisioning of [id] consists of. *)
Definition ofTenant (id : gostring) (s : sql) : bool :=
  match s with
  | GrantUsage schema role =>
      bool_decide (role = RoleName id) && (bool_decide (schema = SchemaName id) || bool_decide (schema = ag_catalog))
  | GrantAll k privs schema role =>
      bool_decide (role = RoleName id) &&
      (bool_decide (schema = SchemaName id) && forallb (fun p => bool_decide (p <> pDelete /\ p <> pTruncate)) privs
       || bool_decide (schema = ag_catalog) && bool_decide (privs = [pSelect]))
  | AlterDefault k privs schema role =>
      bool_decide (role = RoleName id) && bool_decide (schema = SchemaName id)
      && forallb (fun p => bool_decide (p <> pDelete /\ p <> pTruncate)) privs
  | CreateGraphStmt name => bool_decide (name = SchemaName id)
  | _ => true
  end.

Lemma SchemaName_catalog id : SchemaName id <> ag_catalog.
Proof. done. Qed.

Lemma isolated_create schema name k d :
  isolated d -> isolated (createRelation schema name k d).
Proof.
  intros [Hu Hg Hd]. constructor; cbn; [done| |done].
  intros role r p [H|H]%elem_of_union; [|by apply Hg].
  apply elem_of_list_to_set, list_elem_of_fmap in H as ([[[ro sc] k'] p'] & [= -> -> ->] & H).
  apply list_elem_of_filter in H as [[Hs _] H]. cbn in Hs. subst sc. apply elem_of_elements in H.
  destruct (Hd _ _ _ _ H) as (He & Hh & Hne). by split_and!.
Qed.

Lemma relationsIn_schema k schema d r : r ∈ relationsIn k schema d -> r.1 = schema.
Proof.
  unfold relationsIn. intros (rk & -> & [[Hs _] _]%list_elem_of_filter)%list_elem_of_fmap. done.
Qed.

Lemma isolated_grantOn id rels privs schema d :
  ValidateUUIDv4 id = true ->
  (forall r, r ∈ rels -> r.1 = schema) -> (forall p, p ∈ privs -> harmless p) ->
  schema = SchemaName id \/ schema = ag_catalog /\ privs = [pSelect] ->
  isolated d -> isolated (grantOn rels privs (RoleName id) d).
Proof.
  intros Hv Hr Hp Hs [Hu Hg Hd]. constructor; cbn; [done| |done].
  intros role r p [H|H]%elem_of_union; [|by apply Hg].
  apply elem_of_list_to_set, list_elem_of_In, in_flat_map in H as (r' & Hr' & H).
  apply list_elem_of_In in Hr'. apply in_map_iff in H as (p' & [= <- <- <-] & Hp').
  apply list_elem_of_In in Hp'. specialize (Hr _ Hr'). split_and!; [|by apply Hp|].
  - exists id. split_and!; [done|done|]. rewrite Hr. destruct Hs as [->|[-> _]]; auto.
  - rewrite Hr. intros ->. destruct Hs as [Hs|[_ ->]]; [by destruct (SchemaName_catalog id)|].
    by apply list_elem_of_singleton in Hp'.
Qed.

Lemma harmless_all privs :
  forallb (fun p => bool_decide (p <> pDelete /\ p <> pTruncate)) privs = true ->
  forall p, p ∈ privs -> harmless p.
Proof.
  intros H p Hp. apply list_elem_of_In in Hp. rewrite forallb_forall in H.
  specialize (H p Hp). by apply bool_decide_eq_true in H.
Qed.

Lemma isolated_unless b c k ss d :
  isolated d -> isolated k.2 -> isolated (unless b c k ss d).2.
Proof. by destruct b. Qed.

Lemma isolated_andOk a k ss d : isolated d -> isolated k.2 -> isolated (andOk a k ss d).2.
Proof. by destruct a. Qed.

Lemma isolated_exec id s ss d :
  ValidateUUIDv4 id = true -> ofTenant id s = true -> isolated d -> isolated (execSql s ss d).2.
Proof.
  intros Hv Hs Hi. destruct s; cbn [execSql]; try done.
  - case_bool_decide; [done|]. apply isolated_unless; [done|]. by destruct Hi.
  - apply isolated_unless; [done|]. cbn [snd]. unfold createGraph. do 2 apply isolated_create. by destruct Hi.
  - by destruct Hi.
  - do 2 (apply isolated_unless; [done|]). cbn [ofTenant] in Hs. apply andb_true_iff in Hs as [Hr Hs].
    apply bool_decide_eq_true in Hr as ->. rewrite orb_true_iff, !bool_decide_eq_true in Hs.
    destruct Hi as [Hu Hg Hd]. constructor; cbn; [|done|done].
    intros role sc [[= -> ->]%elem_of_singleton|?]%elem_of_union; [|by apply Hu]. by exists id.
  - do 2 (apply isolated_unless; [done|]). cbn [snd ofTenant] in *. apply andb_true_iff in Hs as [Hr Hs].
    apply bool_decide_eq_true in Hr as ->. rewrite orb_true_iff, !andb_true_iff, !bool_decide_eq_true in Hs.
    apply (isolated_grantOn _ _ _ schema); try done; [apply relationsIn_schema| |tauto].
    destruct Hs as [[_ H]|[_ ->]]; [by apply harmless_all|]. by intros p ->%list_elem_of_singleton.
  - do 2 (apply isolated_unless; [done|]). cbn [ofTenant] in Hs. rewrite !andb_true_iff, !bool_decide_eq_true in Hs.
    destruct Hs as [[-> ->] Hp]. destruct Hi as [Hu Hg Hd]. constructor; cbn; [done|done|].
    intros ro sc k' p [H|H]%elem_of_union; [|by apply (Hd _ _ k')].
    apply elem_of_list_to_set, list_elem_of_fmap in H as (p' & [= -> -> -> ->] & H). split_and!; [|by eapply harmless_all|done].
    exists id. auto.
  - do 2 (apply isolated_unless; [done|]). by destruct Hi.
  - do 2 (apply isolated_unless; [done|]). destruct Hi as [Hu Hg Hd]. constructor; cbn; [done| |done].
    intros ro r' p [H _]%elem_of_difference. by apply Hg.
  - by apply isolated_unless.
  - do 2 (apply isolated_andOk; [done|]). by destruct Hi.
  - by apply isolated_andOk.
  - by apply isolated_andOk.
  - apply isolated_unless; [done|]. by destruct Hi.
  - by apply isolated_andOk.
Qed.

Definition isolatedTx (t : txState) : Prop :=
  match t with OpenTx d _ => isolated d | _ => True end.

Definition isolatedWorld (w : pworld) : Prop := isolated (committedDb w) /\ isolatedTx (tx w).

(** The calls of the provisioning of [id]. *)
Definition callOf (id : gostring) (c : provCall) : bool :=
  match c with Exec _ s => ofTenant id s | _ => true end.

Section runs.
Context (migrations : list (list (gostring * kind))).
Abbreviation runP := (runProv migrations).

Lemma isolated_migrations k schema d : isolated d -> isolated (applyMigrations migrations k schema d).
Proof.
  unfold applyMigrations. generalize (concat (take k migrations)). intros l Hi.
  revert d Hi; induction l as [|rk l IH]; intros d Hi; cbn [fold_left]; [done|]. apply IH.
  case_bool_decide; [by apply isolated_create|done].
Qed.

Lemma isolated_atlas k schema w : isolatedWorld w -> isolatedWorld (runAtlasOn migrations k schema w).
Proof.
  intros [Hc Ht]. unfold runAtlasOn. case_bool_decide; [|done]. split; [by apply isolated_migrations|done].
Qed.

Lemma isolated_perform id c w :
  ValidateUUIDv4 id = true -> callOf id c = true -> isolatedWorld w ->
  isolatedWorld (performProv migrations c w).2.
Proof.
  intros Hv Hc [Hi Ht]. destruct c as [| | | | | |[] s|schema| | | |]; cbn [performProv snd]; try by split.
  - destruct (tx w); by split.
  - destruct (tx w) as [|d ss|] eqn:E; cbn [snd];
      [split; [done|by rewrite E]| |split; [done|by rewrite E]].
    pose proof (isolated_exec id s ss d Hv Hc Ht) as H.
    destruct (execSql s ss d) as [[a ss'] d']. split; [done|]. by destruct a.
  - pose proof (isolated_exec id s adminSession (committedDb w) Hv Hc Hi) as H.
    destruct (execSql s adminSession (committedDb w)) as [[a ss'] d']. by split.
  - by apply isolated_atlas.
Qed.

Lemma isolated_serve id f c w :
  ValidateUUIDv4 id = true -> callOf id c = true -> isolatedWorld w ->
  isolatedWorld (serveProv migrations f c w).2.
Proof.
  intros Hv Hc Hw. destruct f; cbn [serveProv]; [by eapply isolated_perform| |by eapply isolated_perform|].
  - destruct Hw as [Hi Ht]. destruct c as [| | | | | |[] s| | | | |]; by split.
  - destruct c; try (by apply isolated_atlas); destruct Hw as [Hi Ht];
      try (by split). by destruct tx.
Qed.

Lemma isolated_run {A} id faults (p : provProg A) n w :
  ValidateUUIDv4 id = true -> only (callOf id) p -> isolatedWorld w ->
  isolatedWorld (runP faults p n w).2.2.
Proof.
  intros Hv. revert n w; induction p as [a|c k IH]; intros n w Hp Hw; cbn [runProv only] in *; [done|].
  destruct Hp as [Hc Hk]. pose proof (isolated_serve id (faults n) c w Hv Hc Hw) as H.
  destruct (serveProv migrations (faults n) c w) as [r w']. by apply IH.
Qed.
End runs.

(** ** What no statement takes away *)

(** The tenant has its row in [public.tenants], and there is the role of the
    application. *)
Definition holds (id : gostring) (d : cluster) : Prop :=
  is_Some (registry d !! id) /\ appRole ∈ roles d.

Definition registered (id : gostring) (w : pworld) : Prop :=
  holds id (committedDb w) /\ match tx w with OpenTx d _ => holds id d | _ => True end.

Lemma holds_unless id b c k ss d : holds id d -> holds id k.2 -> holds id (unless b c k ss d).2.
Proof. by destruct b. Qed.

Lemma holds_andOk id a k ss d : holds id d -> holds id k.2 -> holds id (andOk a k ss d).2.
Proof. by destruct a. Qed.

Lemma holds_exec id s ss d : holds id d -> holds id (execSql s ss d).2.
Proof.
  intros Hd. pose proof Hd as [Hr Ha].
  destruct s; cbn [execSql]; try done;
    try (repeat ((apply holds_unless; [done|]) || (apply holds_andOk; [done|])); exact Hd).
  - case_bool_decide; [done|]. apply holds_unless; [done|]. split; [|done]. cbn.
    by apply lookup_insert_is_Some; destruct (decide (id0 = id)); auto.
  - split; [done|]. cbn. by apply elem_of_union_r.
Qed.

Lemma holds_migrations id migrations k schema d :
  holds id d -> holds id (applyMigrations migrations k schema d).
Proof.
  unfold applyMigrations. generalize (concat (take k migrations)). intros l.
  revert d; induction l as [|rk l IH]; intros d Hd; cbn [fold_left]; [done|]. apply IH. by case_bool_decide.
Qed.

Lemma registered_run {A} id migrations faults (p : provProg A) n w :
  registered id w -> registered id (runProv migrations faults p n w).2.2.
Proof.
  assert (forall k schema w, registered id w -> registered id (runAtlasOn migrations k schema w)) as Hatlas.
  { intros k schema w1 [Hc Ht]. unfold runAtlasOn. case_bool_decide; [|done]. split; [by apply holds_migrations|done]. }
  assert (forall c w, registered id w -> registered id (performProv migrations c w).2) as Hperform.
  { intros c w1 [Hc Ht]. destruct c as [| | | | | |[] s|schema| | | |]; cbn [performProv snd]; try by split.
    - destruct (tx w1); by split.
    - destruct (tx w1) as [|d ss|] eqn:E; cbn [snd]; [split; [done|by rewrite E]| |split; [done|by rewrite E]].
      pose proof (holds_exec id s ss d Ht) as H. destruct (execSql s ss d) as [[a ss'] d']. split; [done|]. by destruct a.
    - pose proof (holds_exec id s adminSession (committedDb w1) Hc) as H.
      destruct (execSql s adminSession (committedDb w1)) as [[a ss'] d']. by split.
    - by apply Hatlas. }
  revert n w; induction p as [a|c k IH]; intros n w Hw; cbn [runProv]; [done|].
  destruct (serveProv migrations (faults n) c w) as [r w1] eqn:E. apply IH.
  replace w1 with (serveProv migrations (faults n) c w).2 by by rewrite E. clear E.
  destruct (faults n); cbn [serveProv]; [by apply Hperform| |by apply Hperform|].
  - destruct Hw as [Hc Ht]. destruct c as [| | | | | |[] s| | | | |]; by split.
  - destruct c; try (by apply Hatlas); destruct Hw as [Hc Ht]; try (by split). by destruct tx.
Qed.

(** ** The commands make only calls of their tenant *)

Lemma only_thenOk P p k : only P p -> only P k -> only (R := provR) P (thenOk p k).
Proof. intros Hp Hk. apply only_bind; [done|]. by intros [e|]. Qed.

Lemma only_execOk P t s : P (Exec t s) = true -> only (R := provR) P (execOk t s).
Proof. by intros H. Qed.

Lemma only_execEach P t l : forallb (fun s => P (Exec t s)) l = true -> only (R := provR) P (execEach t l).
Proof.
  induction l as [|s l IH]; cbn [execEach forallb]; [done|]. intros [Hs Hl]%andb_true_iff.
  apply only_thenOk; [by apply only_execOk|by apply IH].
Qed.

Lemma only_rolledBack id p : only (callOf id) p -> only (callOf id) (rolledBack p).
Proof. intros H. by apply only_bind. Qed.

Lemma only_WithTenantTx id ctx fn : only (callOf id) fn -> only (callOf id) (WithTenantTx ctx fn).
Proof.
  intros Hf. destruct ctx as [t|]; [|done]. cbn [WithTenantTx only]. split; [done|]. intros []; [|done].
  apply only_bind; [by apply only_execEach|]. intros [e|]; [done|].
  apply only_bind; [done|]. intros [|e|]; try done. apply only_bind; [done|]. by intros [e|].
Qed.

Lemma only_exitCode id p : only (callOf id) p -> only (callOf id) (exitCode p).
Proof. intros H. by apply only_bind. Qed.

Lemma only_withClients id dsn p : only (callOf id) p -> only (callOf id) (withClients dsn p).
Proof.
  intros H. unfold withClients. destruct (bool_decide _); [done|]. split; [done|].
  intros []; [|done]. split; [done|]. by intros [].
Qed.

Lemma only_CreateGraph id : only (callOf id) (CreateGraph id).
Proof.
  split; [done|]. intros []; [|done]. do 2 (apply only_thenOk; [done|]). split; [done|].
  intros [c| |[]|n|x]; try done. apply only_execOk. by apply bool_decide_eq_true_2.
Qed.

Lemma only_CreateRole id : only (callOf id) (CreateRole id).
Proof.
  split; [done|]. intros []; [|done]. apply only_rolledBack, only_thenOk; [done|].
  apply only_thenOk; [|done]. apply only_execEach. cbn -[SchemaName RoleName].
  by rewrite !(bool_decide_eq_true_2 (RoleName id = RoleName id)),
    !(bool_decide_eq_true_2 (SchemaName id = SchemaName id)) by done.
Qed.

Lemma only_apply id :
  only (callOf id) (thenOk (ApplyTenantMigrations id) (RevokeAuditLogWrites id)).
Proof.
  apply only_thenOk; [done|]. split; [done|]. intros [c| |[]|n|x]; try done. by apply only_execEach.
Qed.

Lemma only_probe id x probe : only (callOf id) (CrossTenantProbe x probe).
Proof.
  unfold CrossTenantProbe. case_bool_decide; [done|]. split; [done|]. intros []; [|done]. split; [done|].
  intros []; [|done]. apply only_rolledBack, only_thenOk; [by apply only_execOk|]. by split.
Qed.

Lemma only_smoke id x probe : only (callOf id) (RunSmoke x probe).
Proof.
  apply only_thenOk; [|apply only_thenOk; [|apply only_thenOk]].
  - apply only_bind; [|done]. apply only_WithTenantTx. split; [done|]. by intros [].
  - apply only_bind; [|done]. by apply only_WithTenantTx.
  - case_bool_decide; [done|]. apply only_probe.
  - by apply only_execOk.
Qed.

(** A command that reaches the cluster runs for a valid tenant. *)
Inductive command : provProg nat -> Prop :=
  | create_command dsn uuid org : command (runTenantCreate dsn uuid org)
  | migrate_command dsn uuid step : command (runTenantMigrate dsn uuid step)
  | smoke_command dsn envProbe uuid probe : command (runTenantSmoke dsn envProbe uuid probe).

Lemma command_only p : command p -> (exists code, p = Ret code) \/
  exists id, ValidateUUIDv4 id = true /\ only (callOf id) p.
Proof.
  destruct 1 as [dsn id org|dsn id step|dsn ep id probe].
  - unfold runTenantCreate. destruct (_ || _); [eauto|]. destruct (ValidateUUIDv4 id) eqn:Hv; [|eauto].
    destruct (ValidateWorkOSOrgID org); [|eauto]. cbn [negb]. right. exists id. split; [done|].
    apply only_withClients, only_exitCode, only_thenOk; [done|].
    apply only_thenOk; [apply only_CreateGraph|apply only_CreateRole].
  - unfold runTenantMigrate. destruct (_ || _); [eauto|]. destruct (ValidateUUIDv4 id) eqn:Hv; [|eauto].
    cbn [negb]. destruct (bool_decide _); [eauto|]. right. exists id. split; [done|].
    apply only_withClients, only_exitCode. destruct (bool_decide _); [|apply only_apply].
    apply only_thenOk; [apply only_CreateGraph|apply only_CreateRole].
  - unfold runTenantSmoke. destruct (bool_decide _); [eauto|]. destruct (ValidateUUIDv4 id) eqn:Hv; [|eauto].
    cbn [negb]. destruct (bool_decide _); [eauto|]. destruct (_ && _); [eauto|]. right. exists id. split; [done|].
    apply only_withClients, only_exitCode, only_smoke.
Qed.

Section isolation.
Context (migrations : list (list (gostring * kind))).

(** The world after a command, with any faults. *)
Inductive ranCommand : pworld -> pworld -> Prop :=
  | ran_command p faults n w : command p -> ranCommand w (runProv migrations faults p n w).2.2.

Lemma ranCommand_isolated w w' : ranCommand w w' -> isolatedWorld w -> isolatedWorld w'.
Proof.
  destruct 1 as [p faults n w Hp]. intros Hw. destruct (command_only p Hp) as [[code ->]|(id & Hv & Ho)]; [done|].
  by eapply isolated_run.
Qed.

(** (C18) Tenants are isolated: after any commands, for any tenants, with any
    statements failing or losing their answer, the role of a tenant may use no
    schema of another one, no relation of it is accessible to that role, and on
    its own relations nobody's role may delete or truncate. *)
Theorem tenant_isolation w w' id id' :
  isolatedWorld w -> rtc ranCommand w w' ->
  ValidateUUIDv4 id = true -> ValidateUUIDv4 id' = true -> id <> id' ->
  enters (committedDb w') (Some (RoleName id)) (SchemaName id') = false /\
  (forall name p, may (committedDb w') (Some (RoleName id)) (SchemaName id', name) p = false) /\
  (forall name privs, access (committedDb w') (Some (RoleName id)) (SchemaName id') name privs <> SqlOk) /\
  (forall role r p, p = pDelete \/ p = pTruncate -> may (committedDb w') (Some role) r p = false).
Proof.
  intros Hw Hr Hv Hv' Hne.
  assert (isolatedWorld w') as [[Hu Hg _] _].
  { clear -Hw Hr. induction Hr; eauto using ranCommand_isolated. }
  assert (~ entitled (RoleName id) (SchemaName id')) as Hno.
  { intros (x & Hx & Hrole & [Hs|Hs]); [|by destruct (SchemaName_catalog id')].
    apply (RoleName_inj _ _ Hv Hx) in Hrole. apply (SchemaName_inj _ _ Hv' Hx) in Hs. congruence. }
  assert (enters (committedDb w') (Some (RoleName id)) (SchemaName id') = false) as He.
  { cbn [enters]. apply bool_decide_eq_false. intros H. by apply Hno, Hu. }
  split_and!; [done| | |].
  - intros name p. cbn [may]. apply bool_decide_eq_false. intros H. apply Hg in H as [H _]. done.
  - intros name privs. unfold access. case_bool_decide; [done|]. by rewrite He.
  - intros role r p Hp. cbn [may]. apply bool_decide_eq_false. intros H. apply Hg in H as (_ & [H1 H2] & _).
    by destruct Hp.
Qed.
End isolation.

(** ** What successful steps did *)

Section effects.
Context (migrations : list (list (gostring * kind))).
Abbreviation runP := (runProv migrations).

Lemma runProv_bind {A B} faults (p : provProg A) (f : A -> provProg B) n w :
  runP faults (bind p f) n w =
    let '(a, (m, w1)) := runP faults p n w in runP faults (f a) m w1.
Proof.
  revert n w; induction p as [a|c k IH]; intros n w; cbn [bind runProv]; [done|].
  destruct (serveProv migrations (faults n) c w) as [r w1]. apply IH.
Qed.

Lemma thenOk_ok faults p k n w m w' :
  runP faults (thenOk p k) n w = (None, (m, w')) ->
  exists n1 w1, runP faults p n w = (None, (n1, w1)) /\ runP faults k n1 w1 = (None, (m, w')).
Proof.
  unfold thenOk. rewrite runProv_bind. destruct (runP faults p n w) as [[e|] [n1 w1]]; [done|].
  intros H. by exists n1, w1.
Qed.

(** A call that answers [true] took effect. *)
Lemma serve_true f c (w w' : pworld) (r : provR c) :
  serveProv migrations f c w = (r, w') -> r <> failedCall c ->
  performProv migrations c w = (r, w').
Proof.
  destruct f; cbn [serveProv]; [done| | |].
  - intros [= <- <-]. done.
  - intros [= <- <-]. done.
  - destruct c; cbn; intros [= <- <-]; done.
Qed.

Lemma serve_cases f c (w w' : pworld) (r : provR c) :
  serveProv migrations f c w = (r, w') -> performProv migrations c w = (r, w') \/ r = failedCall c.
Proof.
  destruct f; cbn [serveProv]; [by left| | |]; try (intros [= <- <-]; by right).
  destruct c; cbn; intros [= <- <-]; by right.
Qed.

(** Statements that succeed one after the other. *)
Fixpoint execAll (l : list sql) (ss : session) (d : cluster) : option (session * cluster) :=
  match l with
  | [] => Some (ss, d)
  | s :: l =>
      let '(a, ss, d) := execSql s ss d in
      match a with SqlError _ => None | _ => execAll l ss d end
  end.

Lemma execOk_pool faults s n w m w' :
  runP faults (execOk false s) n w = (None, (m, w')) ->
  exists a ss d, execSql s adminSession (committedDb w) = (a, ss, d) /\
    (forall c, a <> SqlError c) /\ w' = mkPWorld d (tx w).
Proof.
  unfold execOk. cbn [runProv]. destruct (serveProv _ _ _ _) as [r w1] eqn:E. cbn [runProv].
  intros [= Hr _ <-]. assert ((r : answer) <> SqlError None) as Hne by (intros Hx; cbn in r; by subst r).
  apply serve_true in E; [|done]. cbn [performProv] in E.
  destruct (execSql s adminSession (committedDb w)) as [[a ss] d]. injection E as <- <-.
  exists a, ss, d. split_and!; [done| |done]. intros c ->. done.
Qed.

Lemma execOk_tx faults s n c ss d m w' :
  runP faults (execOk true s) n (mkPWorld c (OpenTx d ss)) = (None, (m, w')) ->
  exists ss' d', execAll [s] ss d = Some (ss', d') /\ w' = mkPWorld c (OpenTx d' ss').
Proof.
  unfold execOk. cbn [runProv]. destruct (serveProv _ _ _ _) as [r w1] eqn:E. cbn [runProv].
  intros [= Hr _ <-]. assert ((r : answer) <> SqlError None) as Hne by (intros Hx; cbn in r; by subst r).
  apply serve_true in E; [|done]. cbn [performProv tx committedDb execAll] in *.
  destruct (execSql s ss d) as [[a ss1] d1]. injection E as <- <-. exists ss1, d1. by destruct a.
Qed.

Lemma execAll_app l1 l2 ss d :
  execAll (l1 ++ l2) ss d = '(ss, d) ← execAll l1 ss d; execAll l2 ss d.
Proof.
  revert ss d; induction l1 as [|s l IH]; intros ss d; cbn [app execAll]; [done|].
  destruct (execSql s ss d) as [[a ss1] d1]. destruct a; [done|apply IH..].
Qed.

Lemma execEach_tx faults l n c ss d m w' :
  runP faults (execEach true l) n (mkPWorld c (OpenTx d ss)) = (None, (m, w')) ->
  exists ss' d', execAll l ss d = Some (ss', d') /\ w' = mkPWorld c (OpenTx d' ss').
Proof.
  revert n ss d; induction l as [|s l IH]; intros n ss d; cbn [execEach].
  { cbn. intros [= _ <-]. by exists ss, d. }
  intros (n1 & w1 & H1 & H2)%thenOk_ok. apply execOk_tx in H1 as (ss1 & d1 & H1 & ->).
  apply IH in H2 as (ss' & d' & H2 & ->). exists ss', d'. split; [|done].
  change (s :: l) with ([s] ++ l). rewrite execAll_app, H1. exact H2.
Qed.

(** [CreateRole] with a nil error committed its statements. *)
Lemma CreateRole_ok faults id n w m w' :
  runP faults (CreateRole id) n w = (None, (m, w')) ->
  exists ss, execAll (CreateRoleIfMissing (RoleName id) :: roleGrants (SchemaName id) (RoleName id))
    adminSession (committedDb w) = Some (ss, committedDb w').
Proof.
  unfold CreateRole. cbn [runProv]. destruct (serveProv _ _ TxBegin _) as [r w1] eqn:E.
  destruct r; [|done]. apply serve_true in E; [|done]. cbn [performProv] in E. injection E as <-.
  unfold rolledBack. rewrite runProv_bind.
  destruct (runP faults (thenOk _ _) _ _) as [[e|] [n2 w2]] eqn:E2; cbn [runProv].
  { by destruct (serveProv _ _ TxRollback _). }
  apply thenOk_ok in E2 as (n3 & w3 & H3 & (n4 & w4 & H4 & H5)%thenOk_ok).
  apply execOk_tx in H3 as (ss3 & d3 & H3 & ->). apply execEach_tx in H4 as (ss4 & d4 & H4 & ->).
  intros H. exists ss4.
  change (?a :: ?l) with ([a] ++ l). rewrite execAll_app, H3.
  cbn [mbind option_bind]. rewrite H4. do 2 f_equal.
  revert H5. unfold commitTx. cbn [runProv]. destruct (serveProv _ _ TxCommit _) as [r w5] eqn:E5.
  cbn [runProv]. intros [= Hr _ <-]. destruct r; [|done]. apply serve_true in E5; [|done].
  cbn in E5. injection E5 as <-. revert H.
  destruct (faults n2); cbn; by intros [= _ <-].
Qed.

Lemma exitCode_ok faults p n w m w' :
  runP faults (exitCode p) n w = (0, (m, w')) -> runP faults p n w = (None, (m, w')).
Proof. unfold exitCode. rewrite runProv_bind. by destruct (runP faults p n w) as [[e|] [n1 w1]]; intros [= <- <-]. Qed.

Lemma withClients_ok faults dsn p n w m w' :
  runP faults (withClients dsn p) n w = (0, (m, w')) ->
  exists n1, runP faults p n1 w = (0, (m, w')).
Proof.
  unfold withClients. destruct (bool_decide _); [done|]. cbn [runProv].
  destruct (serveProv _ _ OpenDb _) as [r w1] eqn:E1. destruct r; [|done].
  apply serve_true in E1; [|done]. injection E1 as <-. cbn [runProv].
  destruct (serveProv _ _ OpenGraphClient _) as [r w1] eqn:E2. destruct r; [|done].
  apply serve_true in E2; [|done]. injection E2 as <-. by exists (S (S n)).
Qed.
End effects.

(** What granting statements keep and add. *)
Record grown (d d' : cluster) : Prop := {
  grown_relations : relations d' = relations d;
  grown_schemas : schemas d' = schemas d;
  grown_roles : roles d ⊆ roles d';
  grown_usages : usages d ⊆ usages d';
  grown_grants : grants d ⊆ grants d';
  grown_defaults : defaults d ⊆ defaults d';
  grown_registry : registry d' = registry d
}.

Lemma grown_refl d : grown d d.
Proof. by constructor. Qed.

Lemma grown_trans d1 d2 d3 : grown d1 d2 -> grown d2 d3 -> grown d1 d3.
Proof. intros [] []. constructor; congruence || by etransitivity. Qed.

Definition granting (s : sql) : bool :=
  match s with
  | CreateRoleIfMissing _ | GrantUsage _ _ | GrantAll _ _ _ _ | AlterDefault _ _ _ _ | GrantRole _ => true
  | _ => false
  end.

Lemma unless_ok refused code k ss d a ss' d' :
  unless refused code k ss d = (a, ss', d') -> (forall c, a <> SqlError c) ->
  refused = false /\ k = (a, ss', d').
Proof. destruct refused; cbn; [|done]. intros [= <- _ _] H. by destruct (H (Some code)). Qed.

Lemma granting_grown s ss d a ss' d' :
  granting s = true -> execSql s ss d = (a, ss', d') -> (forall c, a <> SqlError c) -> grown d d'.
Proof.
  destruct s; try done; intros _; cbn [execSql]; intros H Ha;
    repeat (apply unless_ok in H as [_ H]; [|done]); injection H as _ _ <-; constructor; cbn;
    done || apply union_subseteq_r.
Qed.

Lemma execAll_in s l ss d ss' d' :
  execAll l ss d = Some (ss', d') -> forallb granting l = true ->
  grown d d' /\
  (s ∈ l -> exists ss1 d1 a ss2 d2, execSql s ss1 d1 = (a, ss2, d2) /\ (forall c, a <> SqlError c) /\
     grown d d1 /\ grown d2 d').
Proof.
  revert ss d; induction l as [|s' l IH]; intros ss d; cbn [execAll forallb].
  { intros [= -> ->] _. split; [apply grown_refl|by intros ?%elem_of_nil]. }
  destruct (execSql s' ss d) as [[a ss1] d1] eqn:E. intros H [Hg Hl]%andb_true_iff.
  assert (execAll l ss1 d1 = Some (ss', d') /\ forall c, a <> SqlError c) as [H1 Ha] by (by destruct a).
  destruct (IH _ _ H1 Hl) as [Hgr Hin]. pose proof (granting_grown _ _ _ _ _ _ Hg E Ha) as Hg1.
  split; [by eapply grown_trans|]. intros [->|Hs]%elem_of_cons.
  - exists ss, d, a, ss1, d1. split_and!; [done|done|apply grown_refl|done].
  - destruct (Hin Hs) as (ss2 & d2 & a2 & ss3 & d3 & H2 & Ha2 & Hg2 & Hg3).
    exists ss2, d2, a2, ss3, d3. split_and!; [done|done|by eapply grown_trans|done].
Qed.

Lemma relationsIn_spec k schema d name :
  relations d !! (schema, name) = Some k -> (schema, name) ∈ relationsIn k schema d.
Proof.
  intros H. unfold relationsIn. apply list_elem_of_fmap. exists ((schema, name), k). split; [done|].
  apply list_elem_of_filter. split; [done|]. by apply elem_of_map_to_list.
Qed.

Definition tablePrivs : list privilege := [pSelect; pInsert; pUpdate].
Definition privsOf (k : kind) : list privilege := match k with KTable => tablePrivs | KSequence => [pUsage] end.

(** What [CreateRole] leaves. *)
Record bootstrapped (id : gostring) (d : cluster) : Prop := {
  boot_schema : SchemaName id ∈ schemas d;
  boot_role : RoleName id ∈ roles d;
  boot_usage : (RoleName id, SchemaName id) ∈ usages d;
  boot_defaults : forall k p, p ∈ privsOf k -> (RoleName id, SchemaName id, k, p) ∈ defaults d
}.

(** The relations of the schema may be used, but for these rights. *)
Definition usable (id : gostring) (except : relName -> privilege -> Prop) (d : cluster) : Prop :=
  forall name k p, relations d !! (SchemaName id, name) = Some k -> p ∈ privsOf k ->
    ~ except (SchemaName id, name) p -> (RoleName id, (SchemaName id, name), p) ∈ grants d.

Lemma roleGrants_effect id ss d ss' d' :
  execAll (CreateRoleIfMissing (RoleName id) :: roleGrants (SchemaName id) (RoleName id)) ss d = Some (ss', d') ->
  bootstrapped id d' /\ usable id (fun _ _ => False) d' /\ grown d d'.
Proof.
  intros H. set (l := CreateRoleIfMissing _ :: _) in H.
  assert (forallb granting l = true) as Hl by done.
  assert (forall s, s ∈ l -> exists ss1 d1 a ss2 d2, execSql s ss1 d1 = (a, ss2, d2) /\
    (forall c, a <> SqlError c) /\ grown d d1 /\ grown d2 d') as Hin.
  { intros s. by destruct (execAll_in s _ _ _ _ _ H Hl). }
  destruct (execAll_in LoadAgeStmt _ _ _ _ _ H Hl) as [Hgr _].
  assert (forall k privs, GrantAll k privs (SchemaName id) (RoleName id) ∈ l -> forall name p,
    relations d' !! (SchemaName id, name) = Some k -> p ∈ privs ->
    (RoleName id, (SchemaName id, name), p) ∈ grants d') as Hall.
  { intros k privs Hk name p Hr Hp. destruct (Hin _ Hk) as (s1 & d1 & a & s2 & d2 & He & Ha & Hg1 & Hg2).
    cbn [execSql] in He. do 2 (apply unless_ok in He as [_ He]; [|done]). injection He as _ _ <-.
    apply (grown_grants _ _ Hg2). cbn. apply elem_of_union_l, elem_of_list_to_set, list_elem_of_In, in_flat_map.
    exists (SchemaName id, name). rewrite (grown_relations _ _ Hgr), <- (grown_relations _ _ Hg1) in Hr.
    split; [by apply list_elem_of_In, relationsIn_spec|]. apply in_map_iff. exists p. by rewrite <- list_elem_of_In. }
  assert (forall k privs, AlterDefault k privs (SchemaName id) (RoleName id) ∈ l -> forall p, p ∈ privs ->
    (RoleName id, SchemaName id, k, p) ∈ defaults d') as Hdef.
  { intros k privs Hk p Hp. destruct (Hin _ Hk) as (s1 & d1 & a & s2 & d2 & He & Ha & _ & Hg2).
    cbn [execSql] in He. do 2 (apply unless_ok in He as [_ He]; [|done]). injection He as _ _ <-.
    apply (grown_defaults _ _ Hg2). cbn. apply elem_of_union_l, elem_of_list_to_set, list_elem_of_fmap. by exists p. }
  split_and!; [constructor| |done].
  - destruct (Hin (GrantUsage (SchemaName id) (RoleName id))) as (s1 & d1 & a & s2 & d2 & He & Ha & Hg1 & Hg2).
    { exact (list_elem_of_lookup_2 l 1 _ eq_refl). }
    cbn [execSql] in He. apply unless_ok in He as [He _]; [|done].
    rewrite (grown_schemas _ _ Hgr), <- (grown_schemas _ _ Hg1).
    apply bool_decide_eq_false in He. destruct (decide (SchemaName id ∈ schemas d1)); tauto.
  - destruct (Hin (CreateRoleIfMissing (RoleName id))) as (s1 & d1 & a & s2 & d2 & He & Ha & Hg1 & Hg2).
    { exact (list_elem_of_lookup_2 l 0 _ eq_refl). }
    injection He as _ _ <-. apply (grown_roles _ _ Hg2). cbn. by apply elem_of_union_l, elem_of_singleton.
  - destruct (Hin (GrantUsage (SchemaName id) (RoleName id))) as (s1 & d1 & a & s2 & d2 & He & Ha & Hg1 & Hg2).
    { exact (list_elem_of_lookup_2 l 1 _ eq_refl). }
    cbn [execSql] in He. do 2 (apply unless_ok in He as [_ He]; [|done]). injection He as _ _ <-.
    apply (grown_usages _ _ Hg2). cbn. by apply elem_of_union_l, elem_of_singleton.
  - intros [] p Hp.
    + apply (Hdef _ tablePrivs); [exact (list_elem_of_lookup_2 l 4 _ eq_refl)|done].
    + apply (Hdef _ [pUsage]); [exact (list_elem_of_lookup_2 l 5 _ eq_refl)|done].
  - intros name [] p Hr Hp _.
    + apply (Hall KTable tablePrivs); [exact (list_elem_of_lookup_2 l 2 _ eq_refl)|done|done].
    + apply (Hall KSequence [pUsage]); [exact (list_elem_of_lookup_2 l 3 _ eq_refl)|done|done].
Qed.

(** ** The tenant migrations, and the revocation *)

Lemma createRelation_usable id except schema name k d :
  relations d !! (schema, name) = None ->
  bootstrapped id d -> usable id except d ->
  bootstrapped id (createRelation schema name k d) /\ usable id except (createRelation schema name k d).
Proof.
  intros Hn [Hs Hr Hu Hd] Hus. split; [by constructor|].
  intros name' k' p Hk Hp He. cbn in Hk |- *.
  destruct (decide ((schema, name) = (SchemaName id, name'))) as [[= -> ->]|Hne].
  - rewrite lookup_insert_eq in Hk. injection Hk as <-. apply elem_of_union_l, elem_of_list_to_set.
    apply list_elem_of_fmap. exists (RoleName id, SchemaName id, k, p). split; [done|].
    apply list_elem_of_filter. split; [done|]. apply elem_of_elements, Hd, Hp.
  - rewrite lookup_insert_ne in Hk by done. apply elem_of_union_r. by apply (Hus _ _ _ Hk Hp).
Qed.

Section migrated.
Context (migrations : list (list (gostring * kind))).
Abbreviation runP := (runProv migrations).
Abbreviation afterAtlas := (fun id d => applyMigrations migrations (length migrations) (SchemaName id) d).

Lemma applyMigrations_usable id except k d :
  bootstrapped id d -> usable id except d ->
  bootstrapped id (applyMigrations migrations k (SchemaName id) d) /\
  usable id except (applyMigrations migrations k (SchemaName id) d).
Proof.
  unfold applyMigrations. generalize (concat (take k migrations)). intros l.
  revert d; induction l as [|rk l IH]; intros d Hb Hu; cbn [fold_left]; [done|].
  case_bool_decide as Hn; [|by apply IH].
  destruct (createRelation_usable id except _ _ rk.2 d Hn Hb Hu). by apply IH.
Qed.

Lemma applyMigrations_relations schema d :
  let d' := applyMigrations migrations (length migrations) schema d in
  forall name, (exists k, (name, k) ∈ concat migrations /\ relations d' !! (schema, name) = Some k) \/
    relations d' !! (schema, name) = relations d !! (schema, name) /\
    (forall k, (name, k) ∈ concat migrations -> is_Some (relations d !! (schema, name))).
Proof.
  cbn zeta. unfold applyMigrations. rewrite firstn_all. intros name.
  generalize (concat migrations). intros l. revert d; induction l as [|rk l IH]; intros d; cbn [fold_left].
  { right. split; [done|]. by intros k ?%elem_of_nil. }
  set (d1 := if bool_decide (relations d !! (schema, rk.1) = None) then _ else d).
  destruct (IH d1) as [(k & Hk & Hr)|[Hr Hall]]; [left; exists k; by split; [apply list_elem_of_further|]|].
  assert (relations d1 !! (schema, name) = relations d !! (schema, name) /\
          (name = rk.1 -> is_Some (relations d !! (schema, name))) \/
          name = rk.1 /\ relations d1 !! (schema, name) = Some rk.2) as Hd1.
  { unfold d1. case_bool_decide as Hn.
    - cbn. destruct (decide (name = rk.1)) as [->|Hne]; [right; by rewrite lookup_insert_eq|left].
      by rewrite lookup_insert_ne by congruence.
    - left. split; [done|]. intros ->. by destruct (relations d !! _). }
  destruct Hd1 as [[Hd1 Hsome]|[-> Hd1]].
  - right. rewrite Hr, Hd1. split; [done|]. intros k [Heq|Hk]%elem_of_cons; [apply Hsome; by rewrite <- Heq|].
    rewrite <- Hd1. by eapply Hall.
  - left. exists rk.2. rewrite Hr, Hd1. split; [by destruct rk; constructor|done].
Qed.

(** [tenant migrate --step apply-versioned] with a nil error. *)
Definition auditRights (id : gostring) (privs : list privilege)
  : gset (gostring * relName * privilege) :=
  list_to_set (map (fun p => (RoleName id, auditOf id, p)) privs).

Definition withoutAuditWrites (id : gostring) (d : cluster) : cluster :=
  withGrants (grants d ∖ auditRights id [pUpdate; pDelete] ∖ auditRights id [pTruncate]) d.

Lemma apply_ok faults id n w m w' :
  (auditTable, KTable) ∈ concat migrations ->
  runP faults (thenOk (ApplyTenantMigrations id) (RevokeAuditLogWrites id)) n w = (None, (m, w')) ->
  w' = mkPWorld (withoutAuditWrites id (afterAtlas id (committedDb w))) (tx w).
Proof.
  intros Ha (n1 & w1 & H1 & H2)%thenOk_ok. revert H1. unfold ApplyTenantMigrations. cbn [runProv].
  destruct (serveProv _ _ (Atlas _) _) as [r w2] eqn:E. cbn [runProv]. intros [= Hr _ <-]. destruct r; [|done].
  apply serve_true in E; [|done]. cbn [performProv] in E. injection E as Hs <-.
  unfold runAtlasOn in H2. apply bool_decide_eq_true in Hs. rewrite bool_decide_eq_true_2 in H2 by done.
  set (d1 := applyMigrations _ _ _ _) in *.
  assert (is_Some (relations d1 !! (SchemaName id, auditTable))) as Hsome.
  { destruct (applyMigrations_relations (SchemaName id) (committedDb w) auditTable) as [(k & _ & Hk)|[Hk Hall]].
    - fold d1 in Hk. by rewrite Hk.
    - fold d1 in Hk. rewrite Hk. by eapply Hall. }
  revert H2. unfold RevokeAuditLogWrites. cbn [runProv].
  destruct (serveProv _ _ (Exec false _) _) as [r w3] eqn:E.
  apply serve_cases in E as [E| ->]; [|done]. cbn [performProv execSql committedDb tx] in E.
  rewrite bool_decide_eq_true_2 in E by done. injection E as <- <-.
  intros (n2 & w2 & H2 & (n3 & w3 & H3 & H4)%thenOk_ok)%thenOk_ok.
  apply execOk_pool in H2 as (a2 & s2 & d2 & H2 & Ha2 & ->).
  apply execOk_pool in H3 as (a3 & s3 & d3 & H3 & Ha3 & ->).
  cbn [execSql committedDb tx] in *. do 2 (apply unless_ok in H2 as [_ H2]; [|done]). injection H2 as _ _ <-.
  do 2 (apply unless_ok in H3 as [_ H3]; [|done]). injection H3 as _ _ <-.
  cbn [execEach runProv] in H4. by injection H4 as _ <-.
Qed.

Definition auditWrite (id : gostring) (r : relName) (p : privilege) : Prop :=
  r = auditOf id /\ (p = pUpdate \/ p = pDelete \/ p = pTruncate).

Lemma withoutAuditWrites_usable id d :
  bootstrapped id d -> usable id (fun _ _ => False) d ->
  bootstrapped id (withoutAuditWrites id d) /\ usable id (auditWrite id) (withoutAuditWrites id d).
Proof.
  intros [] Hu. split; [by constructor|]. intros name k p Hk Hp Hn. cbn.
  specialize (Hu name k p Hk Hp (fun x => x)). 
  assert (forall privs, (forall q, q ∈ privs -> q = pUpdate \/ q = pDelete \/ q = pTruncate) ->
    (RoleName id, (SchemaName id, name), p) ∉ auditRights id privs) as Hnot.
  { intros privs Hq. unfold auditRights. rewrite elem_of_list_to_set.
    intros (q & [= -> ->] & Hin)%list_elem_of_fmap. apply Hn. split; [done|]. by apply Hq. }
  change ((RoleName id, (SchemaName id, name), p) ∈
    grants d ∖ auditRights id [pUpdate; pDelete] ∖ auditRights id [pTruncate]).
  apply elem_of_difference. split; [apply elem_of_difference; split; [exact Hu|]|]; apply Hnot; intros q Hq;
    repeat (apply elem_of_cons in Hq as [->|Hq]; [tauto|]); by apply elem_of_nil in Hq.
Qed.

Lemma withoutAuditWrites_spec id d p :
  p = pUpdate \/ p = pDelete \/ p = pTruncate ->
  may (withoutAuditWrites id d) (Some (RoleName id)) (auditOf id) p = false.
Proof.
  intros Hp. apply bool_decide_eq_false.
  change ((RoleName id, auditOf id, p) ∉
    grants d ∖ auditRights id [pUpdate; pDelete] ∖ auditRights id [pTruncate]).
  assert (forall privs, p ∈ privs -> (RoleName id, auditOf id, p) ∈ auditRights id privs) as Hin.
  { intros privs H. apply elem_of_list_to_set, list_elem_of_fmap. by exists p. }
  rewrite !elem_of_difference. intros [[_ H1] H2].
  destruct Hp as [->|[->| ->]]; [apply H1|apply H1|apply H2]; apply Hin; apply list_elem_of_In; cbn; tauto.
Qed.
End migrated.

(** ** The commands *)

Lemma CreateGraph_ok migrations faults id n w m w' :
  runProv migrations faults (CreateGraph id) n w = (None, (m, w')) ->
  tx w' = tx w /\ forall r k, relations (committedDb w) !! r = Some k ->
    r.2 <> "_ag_label_vertex" -> r.2 <> "_ag_label_edge" -> relations (committedDb w') !! r = Some k.
Proof.
  unfold CreateGraph. cbn [runProv]. destruct (serveProv _ _ AcquireConn _) as [r w1] eqn:E.
  destruct r; [|done]. apply serve_true in E; [|done]. injection E as <-.
  intros (n2 & w2 & H2 & (n3 & w3 & H3 & H4)%thenOk_ok)%thenOk_ok.
  apply execOk_pool in H2 as (a2 & s2 & d2 & [= _ _ <-] & _ & ->).
  apply execOk_pool in H3 as (a3 & s3 & d3 & [= _ _ <-] & _ & ->). cbn [committedDb tx] in H4.
  revert H4. cbn [runProv]. destruct (serveProv _ _ (Exec false _) _) as [r w4] eqn:E.
  apply serve_cases in E as [E| ->]; [|done]. cbn [performProv execSql committedDb tx] in E.
  injection E as <- <-. case_bool_decide; [cbn; by intros [= _ <-]|].
  intros H4. apply execOk_pool in H4 as (a4 & s4 & d4 & H4 & Ha4 & ->). cbn [execSql committedDb] in H4.
  apply unless_ok in H4 as [_ H4]; [|done]. injection H4 as _ _ <-. split; [done|].
  intros [sc nm] k Hr H1 H5. cbn in *. by rewrite !lookup_insert_ne by congruence.
Qed.

Section commands.
Context (migrations : list (list (gostring * kind))).
Abbreviation runP := (runProv migrations).

Lemma bootstrap_ok faults dsn id n w m w' :
  runP faults (runTenantMigrate dsn id bootstrapSchema) n w = (0, (m, w')) ->
  ValidateUUIDv4 id = true /\ dsn <> [] /\ bootstrapped id (committedDb w') /\
  usable id (fun _ _ => False) (committedDb w') /\
  forall name k, relations (committedDb w) !! (SchemaName id, name) = Some k ->
    name <> "_ag_label_vertex" -> name <> "_ag_label_edge" ->
    relations (committedDb w') !! (SchemaName id, name) = Some k.
Proof.
  unfold runTenantMigrate. destruct (_ || _); [done|]. destruct (ValidateUUIDv4 id) eqn:Hv; [|done].
  cbn [negb]. destruct (bool_decide (bootstrapSchema <> _ /\ _)); [done|].
  rewrite bool_decide_eq_true_2 by done. intros H.
  assert (dsn <> []) as Hdsn by (by intros ->).
  apply withClients_ok in H as [n1 H]. apply exitCode_ok in H.
  apply thenOk_ok in H as (n2 & w2 & H2 & H3). apply CreateGraph_ok in H2 as [_ H2].
  apply CreateRole_ok in H3 as (ss & H3). destruct (roleGrants_effect _ _ _ _ _ H3) as (Hb & Hu & Hg).
  split_and!; [done|done|done|done|]. intros name k Hr H4 H5. rewrite (grown_relations _ _ Hg). by apply H2.
Qed.

Lemma applyVersioned_ok faults dsn id n w m w' :
  (auditTable, KTable) ∈ concat migrations ->
  runP faults (runTenantMigrate dsn id applyVersioned) n w = (0, (m, w')) ->
  ValidateUUIDv4 id = true /\ dsn <> [] /\
  w' = mkPWorld (withoutAuditWrites id
         (applyMigrations migrations (length migrations) (SchemaName id) (committedDb w))) (tx w).
Proof.
  intros Ha. unfold runTenantMigrate. destruct (_ || _); [done|]. destruct (ValidateUUIDv4 id) eqn:Hv; [|done].
  cbn [negb]. destruct (bool_decide (applyVersioned <> _ /\ _)); [done|].
  rewrite (bool_decide_eq_false_2 (applyVersioned = bootstrapSchema)) by done. intros H.
  assert (dsn <> []) as Hdsn by (by intros ->).
  apply withClients_ok in H as [n1 H]. apply exitCode_ok in H. split_and!; [done|done|]. by eapply apply_ok.
Qed.

(** A migration creates a name with one kind. *)
Definition functional : Prop :=
  forall name k k', (name, k) ∈ concat migrations -> (name, k') ∈ concat migrations -> k = k'.

(** What is there of them has the kind of the migrations. *)
Definition wellKinded (schema : gostring) (d : cluster) : Prop :=
  forall name k k', (name, k) ∈ concat migrations -> relations d !! (schema, name) = Some k' -> k' = k.

Lemma migrated_kind schema d name k :
  functional -> wellKinded schema d -> (name, k) ∈ concat migrations ->
  relations (applyMigrations migrations (length migrations) schema d) !! (schema, name) = Some k.
Proof.
  intros Hf Hw Hin. destruct (applyMigrations_relations migrations schema d name) as [(k' & Hk' & Hr)|[Hr Hall]].
  - rewrite Hr. f_equal. by eapply Hf.
  - rewrite Hr. destruct (Hall k Hin) as [k' Hk']. rewrite Hk'. f_equal. by eapply Hw.
Qed.

(** (C20) The audit log of a tenant is append-only after the versioned migrations: its
    role may not update, delete or truncate it.  But the commands are not as
    idempotent as they say: the bootstrap step run once more grants the update
    again, until the migrations are run again, too. *)
Theorem audit_append_only dsn id faults n w m w1 :
  functional -> (auditTable, KTable) ∈ concat migrations ->
  wellKinded (SchemaName id) (committedDb w) ->
  runP faults (runTenantMigrate dsn id applyVersioned) n w = (0, (m, w1)) ->
  (forall p, p = pUpdate \/ p = pDelete \/ p = pTruncate ->
     may (committedDb w1) (Some (RoleName id)) (auditOf id) p = false) /\
  forall faults' n' m' w2,
    runP faults' (runTenantMigrate dsn id bootstrapSchema) n' w1 = (0, (m', w2)) ->
    may (committedDb w2) (Some (RoleName id)) (auditOf id) pUpdate = true.
Proof.
  intros Hf Ha Hw H. apply applyVersioned_ok in H as (Hv & _ & ->); [|done]. split.
  - intros p Hp. by apply withoutAuditWrites_spec.
  - intros faults' n' m' w2 H2. apply bootstrap_ok in H2 as (_ & _ & _ & Hu & Hr).
    apply bool_decide_eq_true_2. apply (Hu auditTable KTable); [|right; right; left|by intros []].
    apply Hr; [|done|done]. by apply migrated_kind.
Qed.
End commands.

(** ** The smoke checks *)

Section smoke.
Context (migrations : list (list (gostring * kind))).
Abbreviation quietP := (runProv migrations (fun _ => PFine)).

(** The relations the checks use. *)
Definition smokeTables : list (gostring * kind) :=
  [(auditTable, KTable); (auditSequence, KSequence); ("policies" : gostring, KTable)].

Definition tenantSession (id : gostring) : session :=
  mkSession (Some (RoleName id)) (Some (SchemaName id)) (Some id).

Lemma role_access id except d name k privs :
  bootstrapped id d -> usable id except d -> relations d !! (SchemaName id, name) = Some k ->
  (forall p, p ∈ privs -> p ∈ privsOf k /\ ~ except (SchemaName id, name) p) ->
  accessByPath d (tenantSession id) name privs = SqlOk.
Proof.
  intros [Hs Hr Hus Hd] Hu Hk Hp. unfold accessByPath. cbn [s_path s_role tenantSession].
  assert (enters d (Some (RoleName id)) (SchemaName id) = true) as He by by apply bool_decide_eq_true_2.
  rewrite He. unfold access. rewrite bool_decide_eq_false_2 by tauto. rewrite He, Hk. cbn [negb].
  assert (forallb (may d (Some (RoleName id)) (SchemaName id, name)) privs = true) as ->; [|done].
  apply forallb_forall. intros p Hin. apply list_elem_of_In in Hin. destruct (Hp p Hin).
  apply bool_decide_eq_true_2. by apply (Hu name k).
Qed.

(** The layers of a tenant whose role exists succeed. *)
Lemma layers_quiet id n c d ss :
  RoleName id ∈ roles d -> exists m,
  quietP (execEach true (layers id)) n (mkPWorld c (OpenTx d ss)) =
    (None, (m, mkPWorld c (OpenTx d (tenantSession id)))).
Proof.
  intros Hr. exists (S (S (S n))).
  cbn [layers execEach thenOk execOk bind runProv serveProv performProv tx committedDb execSql].
  unfold unless. rewrite bool_decide_eq_false_2 by tauto. cbn. by destruct ss.
Qed.

Lemma WithTenantTx_quiet id fn n w :
  RoleName id ∈ roles (committedDb w) ->
  exists m,
  quietP (WithTenantTx (Some id) fn) n w =
    (let '(r, (m, w1)) := quietP fn m (mkPWorld (committedDb w) (OpenTx (committedDb w) (tenantSession id))) in
     quietP (match r with
             | FnErr e => failedTx e
             | FnPanic => Ret FnPanic
             | FnNil => bind commitTx (fun e => match e with None => Ret FnNil | Some e => failedTx e end)
             end) m w1).
Proof.
  intros Hr. cbn [WithTenantTx runProv serveProv performProv].
  destruct (layers_quiet id (S n) (committedDb w) (committedDb w) adminSession Hr) as [m Hm].
  exists m. rewrite runProv_bind, Hm, runProv_bind. by destruct (quietP fn m _) as [r [m1 w1]].
Qed.

(** A provisioned cluster, for a tenant. *)
Definition ready (id : gostring) (d : cluster) : Prop :=
  bootstrapped id d /\ usable id (auditWrite id) d /\
  Forall (fun rk => relations d !! (SchemaName id, rk.1) = Some rk.2) smokeTables.

(** The cluster with one more row of the audit log. *)
Definition audited (id : gostring) (d : cluster) : cluster :=
  mkCluster (registry d) (ag_graph d) (schemas d) (relations d) (roles d) (usages d) (grants d)
    (defaults d) (members d)
    (<[SchemaName id := S (default 0 (auditRows d !! SchemaName id))]> (auditRows d)) (onboarded d) (credentials d).

Lemma GatewayCommitAuditEdge_quiet id n w :
  ready id (committedDb w) -> exists m,
  quietP (GatewayCommitAuditEdge id) n w = (None, (m, mkPWorld (audited id (committedDb w)) NoTx)).
Proof.
  intros (Hb & Hu & Hk). unfold smokeTables in Hk. rewrite !Forall_cons in Hk. destruct Hk as (H1 & H2 & H3 & _).
  cbn [fst snd] in *. unfold GatewayCommitAuditEdge. rewrite runProv_bind.
  match goal with |- context [WithTenantTx (Some id) ?f] =>
    destruct (WithTenantTx_quiet id f n w) as [m Hm]; [apply Hb|] end.
  set (d := committedDb w) in *.
  assert (accessByPath d (tenantSession id) auditTable [pInsert; pSelect] = SqlOk) as A1.
  { eapply role_access; [done|done|done|]. intros p Hp.
    repeat (apply elem_of_cons in Hp as [->|Hp]; [split; [apply list_elem_of_In; cbn; tauto|intros [_ ?]; by intuition]|]).
    by apply elem_of_nil in Hp. }
  assert (accessByPath d (tenantSession id) auditSequence [pUsage] = SqlOk) as A2.
  { eapply role_access; [done|done|done|]. intros p ->%list_elem_of_singleton. split; [apply list_elem_of_In; cbn; tauto|].
    by intros [? _]. }
  assert (accessByPath (audited id d) (tenantSession id) auditTable [pSelect] = SqlOk) as A3.
  { eapply (role_access _ (auditWrite id)); [by destruct Hb|exact Hu|done|].
    intros p ->%list_elem_of_singleton. split; [apply list_elem_of_In; cbn; tauto|intros [_ ?]; by intuition]. }
  rewrite Hm. cbn [runProv serveProv performProv tx committedDb execSql]. rewrite A1, A2. cbn [andOk].
  cbn [runProv serveProv performProv tx committedDb execSql]. cbn [default from_option Datatypes.id s_path tenantSession].
  fold (audited id d). rewrite A3. cbn [andOk]. cbn [auditRows audited]. rewrite lookup_insert_eq.
  cbn [default from_option Datatypes.id].
  assert (forall k, (0 <? Z.of_nat (S k))%Z = true) as Hpos by (intros k; apply Z.ltb_lt; lia).
  rewrite Hpos, Z.leb_refl. cbn [andb runProv]. rewrite Z.eqb_refl.
  unfold commitTx. cbn [bind runProv serveProv performProv tx committedDb fnErr]. by eexists.
Qed.

Lemma PolicyFetch_quiet id n w :
  ready id (committedDb w) -> exists m,
  quietP (PolicyFetch id) n w = (None, (m, mkPWorld (committedDb w) NoTx)).
Proof.
  intros (Hb & Hu & Hk). unfold smokeTables in Hk. rewrite !Forall_cons in Hk. destruct Hk as (_ & _ & H3 & _).
  cbn [fst snd] in *. unfold PolicyFetch. rewrite runProv_bind.
  match goal with |- context [WithTenantTx (Some id) ?f] =>
    destruct (WithTenantTx_quiet id f n w) as [m Hm]; [apply Hb|] end.
  assert (accessByPath (committedDb w) (tenantSession id) "policies" [pSelect] = SqlOk) as A.
  { eapply role_access; [done|done|done|]. intros p ->%list_elem_of_singleton.
    split; [apply list_elem_of_In; cbn; tauto|by intros [? _]]. }
  rewrite Hm. cbn [runProv serveProv performProv tx committedDb execSql]. rewrite A. cbn [andOk].
  unfold commitTx. cbn [bind runProv serveProv performProv tx committedDb fnErr]. by eexists.
Qed.

(** The probe of another tenant of an isolated cluster. *)
Lemma CrossTenantProbe_quiet id probe n w :
  ValidateUUIDv4 id = true -> ValidateUUIDv4 probe = true -> id <> probe ->
  RoleName id ∈ roles (committedDb w) -> isolated (committedDb w) -> exists m,
  quietP (CrossTenantProbe id probe) n w = (None, (m, mkPWorld (committedDb w) NoTx)).
Proof.
  intros Hv Hv' Hne Hr [Hu _ _]. unfold CrossTenantProbe. rewrite bool_decide_eq_false_2 by done.
  cbn [runProv serveProv performProv]. unfold rolledBack, thenOk, execOk.
  cbn [bind runProv serveProv performProv tx committedDb execSql].
  unfold unless. rewrite bool_decide_eq_false_2 by tauto. cbn [bind runProv serveProv performProv tx committedDb execSql s_role].
  assert (enters (committedDb w) (Some (RoleName id)) (SchemaName probe) = false) as He.
  { apply bool_decide_eq_false. intros (x & Hx & Hrole & [Hs|Hs])%Hu; [|by destruct (SchemaName_catalog probe)].
    apply (RoleName_inj _ _ Hv Hx) in Hrole. apply (SchemaName_inj _ _ Hv' Hx) in Hs. congruence. }
  unfold access. case_bool_decide; [|rewrite He; cbn [negb]];
    cbn [denial runProv serveProv performProv tx committedDb]; by eexists.
Qed.

Lemma RunSmoke_quiet id probe n w :
  ready id (committedDb w) -> isolated (committedDb w) -> is_Some (registry (committedDb w) !! id) ->
  (probe = zeroUUID \/ ValidateUUIDv4 id = true /\ ValidateUUIDv4 probe = true /\ id <> probe) -> exists m w',
  quietP (RunSmoke id probe) n w = (None, (m, w')) /\
  onboarded (committedDb w') = onboarded (committedDb w) ++ [id].
Proof.
  intros Hr Hi Hreg Hp. unfold RunSmoke, thenOk. rewrite runProv_bind.
  destruct (GatewayCommitAuditEdge_quiet id n w Hr) as [n1 ->]. set (d1 := audited id (committedDb w)).
  assert (ready id d1) as Hr1 by (destruct Hr as ([] & ? & ?); by split_and!).
  assert (isolated d1) as Hi1 by (by destruct Hi).
  rewrite runProv_bind. destruct (PolicyFetch_quiet id n1 (mkPWorld d1 NoTx) Hr1) as [n2 ->].
  cbn [committedDb]. rewrite runProv_bind.
  match goal with |- context [@runProv ?l ?A ?f (if ?b then ?p else ?q) ?k ?x] =>
    assert (exists n3, @runProv l A f (if b then p else q) k x = (None, (n3, x))) as [n3 E] end.
  { case_bool_decide; [by exists n2|]. destruct Hp as [?|(Hv & Hv' & Hne)]; [done|].
    apply (CrossTenantProbe_quiet id probe n2 (mkPWorld d1 NoTx)); try done. apply Hr1. }
  rewrite E.
  unfold execOk. cbn [runProv serveProv performProv execSql committedDb].
  rewrite bool_decide_eq_false_2 by (cbn; destruct Hreg; congruence). by do 2 eexists.
Qed.

(** A probe: none, or a valid one of another tenant. *)
Definition probed (id probe : gostring) : Prop := probe = [] \/ ValidateUUIDv4 probe = true /\ id <> probe.

Lemma smoke_after_migrate dsn id envProbe probe faults1 n1 m1 w w1 faults2 n2 m2 w2 n3 :
  functional migrations -> (forall rk, rk ∈ smokeTables -> rk ∈ concat migrations) ->
  isolatedWorld w -> registered id w -> wellKinded migrations (SchemaName id) (committedDb w1) ->
  probed id (if bool_decide (probe = []) then envProbe else probe) ->
  runProv migrations faults1 (runTenantMigrate dsn id bootstrapSchema) n1 w = (0, (m1, w1)) ->
  runProv migrations faults2 (runTenantMigrate dsn id applyVersioned) n2 w1 = (0, (m2, w2)) ->
  let '(code, (_, w3)) := quietP (runTenantSmoke dsn envProbe id probe) n3 w2 in
  code = 0 /\ onboarded (committedDb w3) = onboarded (committedDb w2) ++ [id].
Proof.
  intros Hf Hin Hw Hreg Hk Hp H1 H2.
  assert (is_Some (registry (committedDb w2) !! id)) as Hreg2.
  { pose proof (registered_run id migrations faults1 (runTenantMigrate dsn id bootstrapSchema) n1 w Hreg) as R1.
    rewrite H1 in R1. pose proof (registered_run id migrations faults2 (runTenantMigrate dsn id applyVersioned) n2 w1 R1) as R2.
    rewrite H2 in R2. apply R2. }
  assert (isolatedWorld w2) as [Hi2 _].
  { eapply (ranCommand_isolated migrations w1); [|eapply (ranCommand_isolated migrations w); [|exact Hw]].
    - replace w2 with (runProv migrations faults2 (runTenantMigrate dsn id applyVersioned) n2 w1).2.2 by by rewrite H2.
      repeat constructor.
    - replace w1 with (runProv migrations faults1 (runTenantMigrate dsn id bootstrapSchema) n1 w).2.2 by by rewrite H1.
      repeat constructor. }
  apply bootstrap_ok in H1 as (Hv & Hdsn & Hb & Hu & _).
  apply applyVersioned_ok in H2 as (_ & _ & ->); [|apply Hin; left].
  destruct (applyMigrations_usable migrations id _ (length migrations) _ Hb Hu) as [Hb1 Hu1].
  destruct (withoutAuditWrites_usable id _ Hb1 Hu1) as [Hb2 Hu2].
  assert (ready id (withoutAuditWrites id (applyMigrations migrations (length migrations) (SchemaName id) (committedDb w1))))
    as Hready.
  { split_and!; [done|done|]. apply Forall_forall. intros [name k] Hrk. cbn. apply migrated_kind; auto. }
  unfold runTenantSmoke. assert (id <> []) as Hid by (by intros ->).
  rewrite (bool_decide_eq_false_2 (id = [])), Hv, (bool_decide_eq_false_2 (dsn = [])) by done. cbn [negb].
  unfold probed in Hp. set (pr := if bool_decide (probe = []) then envProbe else probe) in *.
  assert (negb (bool_decide (pr = [])) && negb (ValidateUUIDv4 pr) = false) as ->.
  { destruct Hp as [->|[-> _]]; [done|]. by rewrite andb_false_r. }
  unfold withClients. rewrite bool_decide_eq_false_2 by done. cbn [runProv serveProv performProv].
  unfold exitCode. rewrite runProv_bind.
  match goal with |- context [quietP (RunSmoke id ?q) ?k ?x] =>
    destruct (RunSmoke_quiet id q k x Hready Hi2 Hreg2) as (m & w3 & -> & Ho) end; [|by cbn].
  destruct Hp as [->|[Hv' Hne]]; [by left|]. case_bool_decide; [by left|by right].
Qed.

(** Provisioning works: once the bootstrap step and then the versioned migrations
    of a tenant exited with 0 - whatever failed before, on a cluster in whatever
    state -, the smoke command without further failures exits with 0 and
    records the tenant as onboarded, with or without a probe of another tenant. *)
Theorem provisioned_passes_smoke dsn id envProbe probe faults1 n1 m1 w w1 faults2 n2 m2 w2 n3 :
  functional migrations -> (forall rk, rk ∈ smokeTables -> rk ∈ concat migrations) ->
  isolatedWorld w -> registered id w -> wellKinded migrations (SchemaName id) (committedDb w1) ->
  probed id (if bool_decide (probe = []) then envProbe else probe) ->
  runProv migrations faults1 (runTenantMigrate dsn id bootstrapSchema) n1 w = (0, (m1, w1)) ->
  runProv migrations faults2 (runTenantMigrate dsn id applyVersioned) n2 w1 = (0, (m2, w2)) ->
  let '(code, (_, w3)) := quietP (runTenantSmoke dsn envProbe id probe) n3 w2 in
  code = 0 /\ onboarded (committedDb w3) = onboarded (committedDb w2) ++ [id].
Proof. apply smoke_after_migrate. Qed.

(** ** Without failures *)

Lemma thenOk_quiet p k n w n1 w1 :
  quietP p n w = (None, (n1, w1)) -> quietP (thenOk p k) n w = quietP k n1 w1.
Proof. intros H. unfold thenOk. rewrite runProv_bind. unfold provOut in *. by rewrite H. Qed.

(** What a granting statement needs. *)
Definition feasible (d : cluster) (s : sql) : Prop :=
  match s with
  | CreateRoleIfMissing _ => True
  | GrantUsage schema role | GrantAll _ _ schema role | AlterDefault _ _ schema role =>
      schema ∈ schemas d /\ role ∈ roles d
  | GrantRole role => role ∈ roles d /\ appRole ∈ roles d
  | _ => False
  end.

Lemma feasible_grown d d' s : grown d d' -> feasible d s -> feasible d' s.
Proof. intros [_ Hs Hr _ _ _ _]. destruct s; cbn; rewrite ?Hs; intuition. Qed.

Lemma feasible_exec d s ss :
  feasible d s -> exists d', execSql s ss d = (SqlOk, ss, d') /\ grown d d'.
Proof.
  intros Hf. assert (granting s = true) as Hg by by destruct s.
  assert (exists d', execSql s ss d = (SqlOk, ss, d')) as [d' E]; [|exists d'; split; [done|by eapply granting_grown]].
  destruct s; try done; cbn [execSql feasible] in *; unfold unless; destruct_and?;
    rewrite ?bool_decide_eq_false_2 by tauto; by eexists.
Qed.

Lemma granted_quiet l n c d ss :
  Forall (feasible d) l -> exists m d',
  quietP (execEach true l) n (mkPWorld c (OpenTx d ss)) = (None, (m, mkPWorld c (OpenTx d' ss))) /\ grown d d'.
Proof.
  revert n d; induction l as [|s l IH]; intros n d; cbn [execEach]; [by exists n, d; split; [|apply grown_refl]|].
  intros [Hs Hl]%Forall_cons. destruct (feasible_exec d s ss Hs) as (d1 & E & Hg).
  destruct (IH (S n) d1) as (m & d' & H & Hg'); [by eapply Forall_impl; [exact Hl|intros; eapply feasible_grown]|].
  exists m, d'. split; [|by eapply grown_trans]. erewrite thenOk_quiet; [exact H|].
  unfold execOk. cbn [runProv serveProv performProv tx committedDb]. by rewrite E.
Qed.

Lemma CreateRole_quiet id n w :
  SchemaName id ∈ schemas (committedDb w) -> ag_catalog ∈ schemas (committedDb w) ->
  appRole ∈ roles (committedDb w) -> exists m d',
  quietP (CreateRole id) n w = (None, (m, mkPWorld d' NoTx)) /\ grown (committedDb w) d'.
Proof.
  intros Hs Ha Happ. unfold CreateRole. cbn [runProv serveProv performProv]. unfold rolledBack. rewrite runProv_bind.
  set (d := committedDb w) in *.
  destruct (feasible_exec d (CreateRoleIfMissing (RoleName id)) adminSession I) as (d2 & E & Hg).
  assert (RoleName id ∈ roles d2) as Hr.
  { cbn in E. injection E as <-. cbn. by apply elem_of_union_l, elem_of_singleton. }
  rewrite <- (grown_schemas _ _ Hg) in Hs, Ha. apply (grown_roles _ _ Hg) in Happ.
  destruct (granted_quiet (roleGrants (SchemaName id) (RoleName id)) (S (S n)) d d2 adminSession)
    as (m & d' & H & Hg'); [by repeat constructor|].
  erewrite thenOk_quiet; [|unfold execOk; cbn [runProv serveProv performProv tx committedDb]; by rewrite E].
  erewrite thenOk_quiet; [|exact H]. unfold commitTx. cbn [runProv serveProv performProv tx committedDb].
  do 2 eexists. split; [done|by eapply grown_trans].
Qed.

(** A graph has its schema, and the schema of a tenant is a graph. *)
Definition graphed (id : gostring) (d : cluster) : Prop :=
  SchemaName id ∈ ag_graph d <-> SchemaName id ∈ schemas d.

Lemma CreateGraph_quiet id n w :
  graphed id (committedDb w) -> exists m d',
  quietP (CreateGraph id) n w = (None, (m, mkPWorld d' (tx w))) /\
  SchemaName id ∈ schemas d' /\ schemas (committedDb w) ⊆ schemas d' /\ roles d' = roles (committedDb w) /\
  forall name, name <> "_ag_label_vertex" -> name <> "_ag_label_edge" ->
    relations d' !! (SchemaName id, name) = relations (committedDb w) !! (SchemaName id, name).
Proof.
  intros Hg. unfold CreateGraph.
  cbn [runProv serveProv performProv thenOk execOk bind execSql committedDb tx].
  case_bool_decide as Hin; cbn [runProv serveProv performProv committedDb tx].
  - do 2 eexists. split_and!; [done|by apply Hg|done|done|done].
  - assert (SchemaName id ∉ schemas (committedDb w)) as Hs by (intros ?; by apply Hin, Hg).
    unfold execOk. cbn [runProv serveProv performProv committedDb tx execSql].
    rewrite !bool_decide_eq_false_2 by done. cbn [orb unless runProv].
    do 2 eexists. split_and!; [done|by apply elem_of_union_l, elem_of_singleton|by apply union_subseteq_r|done|].
    intros name H1 H2. cbn. by rewrite !lookup_insert_ne by congruence.
Qed.

Lemma bootstrap_quiet dsn id n w :
  dsn <> [] -> ValidateUUIDv4 id = true -> ag_catalog ∈ schemas (committedDb w) -> graphed id (committedDb w) ->
  appRole ∈ roles (committedDb w) ->
  exists m d',
  quietP (runTenantMigrate dsn id bootstrapSchema) n w = (0, (m, mkPWorld d' NoTx)) /\
  forall name, name <> "_ag_label_vertex" -> name <> "_ag_label_edge" ->
    relations d' !! (SchemaName id, name) = relations (committedDb w) !! (SchemaName id, name).
Proof.
  intros Hd Hv Ha Hg Happ. unfold runTenantMigrate. assert (id <> []) by (by intros ->).
  rewrite (bool_decide_eq_false_2 (id = [])), Hv by done. cbn [orb negb].
  rewrite (bool_decide_eq_false_2 (bootstrapSchema = [])), (bool_decide_eq_false_2 (bootstrapSchema <> _ /\ _)) by (done || tauto).
  rewrite bool_decide_eq_true_2 by done. unfold withClients. rewrite bool_decide_eq_false_2 by done.
  cbn [runProv serveProv performProv]. unfold exitCode. rewrite runProv_bind.
  destruct (CreateGraph_quiet id (S (S n)) w Hg) as (m1 & d1 & H1 & Hs & Hss & Hro & Hr).
  destruct (CreateRole_quiet id m1 (mkPWorld d1 (tx w)) Hs) as (m2 & d2 & H2 & Hgr);
    [by apply Hss|cbn [committedDb]; by rewrite Hro|].
  erewrite thenOk_quiet by exact H1. rewrite H2. cbn [runProv]. do 2 eexists. split; [done|].
  intros name Hn1 Hn2. rewrite (grown_relations _ _ Hgr). by apply Hr.
Qed.

Lemma apply_quiet dsn id n w :
  dsn <> [] -> ValidateUUIDv4 id = true -> bootstrapped id (committedDb w) ->
  (auditTable, KTable) ∈ concat migrations ->
  exists m w', quietP (runTenantMigrate dsn id applyVersioned) n w = (0, (m, w')).
Proof.
  intros Hd Hv [Hs Hro _ _] Ha. unfold runTenantMigrate. assert (id <> []) by (by intros ->).
  rewrite (bool_decide_eq_false_2 (id = [])), Hv by done. cbn [orb negb].
  rewrite (bool_decide_eq_false_2 (applyVersioned = [])), (bool_decide_eq_false_2 (applyVersioned <> _ /\ _)) by (done || tauto).
  rewrite (bool_decide_eq_false_2 (applyVersioned = bootstrapSchema)) by done.
  unfold withClients. rewrite bool_decide_eq_false_2 by done.
  cbn [runProv serveProv performProv]. unfold exitCode. rewrite runProv_bind.
  unfold ApplyTenantMigrations, thenOk. cbn [bind runProv serveProv performProv].
  unfold runAtlasOn. rewrite bool_decide_eq_true_2 by done. cbn [bind].
  set (d1 := applyMigrations _ _ _ _).
  assert (relations d1 !! (SchemaName id, auditTable) <> None /\ roles d1 = roles (committedDb w)) as [Hr Hro1].
  { split; [|subst d1; unfold applyMigrations; generalize (concat (take (length migrations) migrations)); intros l;
      generalize (committedDb w); induction l as [|rk l IH]; intros d; cbn [fold_left]; [done|]; rewrite IH;
      by case_bool_decide].
    destruct (applyMigrations_relations migrations (SchemaName id) (committedDb w) auditTable)
      as [(k & _ & Hk)|[Hk Hall]]; fold d1 in Hk; rewrite Hk; [done|].
    destruct (Hall _ Ha) as [k Hk']. by rewrite Hk'. }
  unfold RevokeAuditLogWrites. cbn [runProv serveProv performProv execSql committedDb tx].
  rewrite bool_decide_eq_true_2 by (by apply not_eq_None_Some).
  unfold execEach, thenOk, execOk. cbn [bind runProv serveProv performProv execSql committedDb tx].
  unfold unless, auditOf. rewrite !(bool_decide_eq_false_2 (relations d1 !! _ = None)) by done.
  rewrite !(bool_decide_eq_false_2 (RoleName id ∉ _)) by (rewrite Hro1; tauto). cbn [bind runProv serveProv performProv execSql committedDb tx withGrants relations roles].
  unfold unless. rewrite !(bool_decide_eq_false_2 (relations d1 !! _ = None)) by done.
  rewrite !(bool_decide_eq_false_2 (RoleName id ∉ _)) by (rewrite Hro1; tauto).
  cbn. by do 2 eexists.
Qed.

(** (C19) Without failures the provisioning of a registered tenant completes: on a
    cluster where the migrations of the public schema have run (the tenant has its
    row in public.tenants, which the audit log of the operators refers to, and the
    role neksur_app exists) and where nothing else was done by hand, the three
    commands bootstrap, migrate and smoke exit with 0, one after the other, and
    the tenant is recorded as onboarded. *)
Theorem provisioning_completes dsn id envProbe probe n w :
  functional migrations -> (forall rk, rk ∈ smokeTables -> rk ∈ concat migrations) ->
  (forall name k, (name, k) ∈ concat migrations -> name <> "_ag_label_vertex" /\ name <> "_ag_label_edge") ->
  isolatedWorld w -> registered id w -> wellKinded migrations (SchemaName id) (committedDb w) ->
  ag_catalog ∈ schemas (committedDb w) -> graphed id (committedDb w) ->
  dsn <> [] -> ValidateUUIDv4 id = true ->
  probed id (if bool_decide (probe = []) then envProbe else probe) ->
  let '(code1, (n1, w1)) := quietP (runTenantMigrate dsn id bootstrapSchema) n w in
  let '(code2, (n2, w2)) := quietP (runTenantMigrate dsn id applyVersioned) n1 w1 in
  let '(code3, (_, w3)) := quietP (runTenantSmoke dsn envProbe id probe) n2 w2 in
  code1 = 0 /\ code2 = 0 /\ code3 = 0 /\ onboarded (committedDb w3) = onboarded (committedDb w2) ++ [id].
Proof.
  intros Hf Hin Hl Hw Hreg Hk Ha Hg Hd Hv Hp.
  destruct (bootstrap_quiet dsn id n w Hd Hv Ha Hg (proj2 (proj1 Hreg))) as (n1 & d1 & H1 & Hr). rewrite H1.
  pose proof (bootstrap_ok _ _ _ _ _ _ _ _ H1) as (_ & _ & Hb & _).
  destruct (apply_quiet dsn id n1 (mkPWorld d1 NoTx) Hd Hv Hb) as (n2 & w2 & H2); [apply Hin; left|]. rewrite H2.
  assert (wellKinded migrations (SchemaName id) (committedDb (mkPWorld d1 NoTx))) as Hk1.
  { intros name k k' Hn H. destruct (Hl _ _ Hn). cbn [committedDb] in H. rewrite Hr in H by done. by eapply Hk. }
  pose proof (smoke_after_migrate dsn id envProbe probe _ _ _ _ _ _ _ _ _ n2 Hf Hin Hw Hreg Hk1 Hp H1 H2) as H3.
  revert H3. match goal with |- context [quietP (runTenantSmoke _ _ _ _) ?k ?x] =>
    destruct (quietP (runTenantSmoke dsn envProbe id probe) k x) as [code [m w3]] end. by intros [].
Qed.

(** ** What the commands leave open *)

(** An organisation registered under another id: the insertion reports nothing
    and changes nothing, and the tenant that was asked for has no row. *)
Lemma Create_taken id org st pool n w :
  map_Exists (fun _ r => t_org r = org) (registry (committedDb w)) ->
  quietP (Create id org st pool) n w = (None, (S n, w)).
Proof.
  intros H. unfold Create, execOk. cbn [runProv serveProv performProv execSql].
  rewrite bool_decide_eq_true_2 by done. by destruct w.
Qed.
End smoke.

(** A role that was given another tenant's schema passes the probe as long as that
    schema has no audit log: the missing table is taken for a denial. *)
Lemma probe_accepts_usage d role schema :
  relations d !! (schema, auditTable) = None -> denial (access d role schema auditTable [pSelect]) = None.
Proof.
  intros H. unfold access. case_bool_decide; [done|]. destruct (enters d role schema); cbn [negb]; [|done].
  by rewrite H.
Qed.

(** ** Examples *)

Module ProvisionDemo.
Definition alice : gostring := "aaaaaaaa-aaaa-4aaa-8aaa-aaaaaaaaaaaa".
Definition bob : gostring := "bbbbbbbb-bbbb-4bbb-8bbb-bbbbbbbbbbbb".
Definition url : gostring := "postgres://db".
Definition migrations : list (list (gostring * kind)) :=
  [[(auditTable, KTable); (auditSequence, KSequence)]; [("policies" : gostring, KTable)]].
Definition empty : cluster :=
  mkCluster {[alice := mkTenantRow "org_a" active "pool-a"; bob := mkTenantRow "org_b" active "pool-a"]}
    ∅ {[ag_catalog]} ∅ {[appRole]} ∅ ∅ ∅ ∅ ∅ [] ∅.
Definition world0 : pworld := mkPWorld empty NoTx.
Definition fine (n : nat) : pfault := PFine.

Definition after {A} (p : provProg A) (w : pworld) : pworld := (runProv migrations fine p 0 w).2.2.
Definition world1 : pworld := after (runTenantMigrate url alice bootstrapSchema) world0.
Definition world2 : pworld := after (runTenantMigrate url alice applyVersioned) world1.

Lemma isolated_empty : isolatedWorld world0.
Proof. split; [|done]. by split; intros * []%not_elem_of_empty. Qed.

Lemma migrations_functional : functional migrations.
Proof.
  intros name k k' H H'. rewrite list_elem_of_In in H, H'.
  assert (forallb (fun r => forallb (fun r' => bool_decide (r.1 = r'.1 -> r.2 = r'.2)) (concat migrations))
    (concat migrations) = true) as E by by vm_compute.
  rewrite forallb_forall in E. specialize (E _ H). rewrite forallb_forall in E.
  by apply (bool_decide_eq_true_1 _ (E _ H')).
Qed.

Lemma smoke_in rk : rk ∈ smokeTables -> rk ∈ concat migrations.
Proof. done. Qed.

Lemma nothing_wellKinded d schema :
  (forall name, relations d !! (schema, name) = None) -> wellKinded migrations schema d.
Proof. intros H name k k' _ Hk. by rewrite H in Hk. Qed.

Lemma no_labels name k :
  (name, k) ∈ concat migrations -> name <> "_ag_label_vertex" /\ name <> "_ag_label_edge".
Proof.
  intros H. rewrite list_elem_of_In in H.
  assert (forallb (fun r => bool_decide (r.1 <> ("_ag_label_vertex" : gostring) /\ r.1 <> ("_ag_label_edge" : gostring)))
    (concat migrations) = true) as E by by vm_compute.
  rewrite forallb_forall in E. exact (bool_decide_eq_true_1 _ (E _ H)).
Qed.

Lemma graphed_empty id : graphed id empty.
Proof.
  unfold graphed. cbn. rewrite elem_of_singleton. split; [by intros []%not_elem_of_empty|].
  by intros []%SchemaName_catalog.
Qed.

Lemma catalog_there : ag_catalog ∈ schemas empty.
Proof. cbn [schemas empty]. by apply elem_of_singleton. Qed.

Lemma url_given : url <> [].
Proof. discriminate. Qed.

Lemma app_role : appRole ∈ roles empty.
Proof. cbn [roles empty]. by apply elem_of_singleton. Qed.

Lemma alice_registered : registered alice world0.
Proof. split; [split; [by eexists|apply app_role]|done]. Qed.

Lemma bob_registered : registered bob world0.
Proof. split; [split; [by eexists|apply app_role]|done]. Qed.

Lemma migrated1 : runProv migrations fine (runTenantMigrate url alice bootstrapSchema) 0 world0 =
    (0, ((runProv migrations fine (runTenantMigrate url alice bootstrapSchema) 0 world0).2.1, world1)) /\
  wellKinded migrations (SchemaName alice) (committedDb world1).
Proof.
  destruct (bootstrap_quiet migrations url alice 0 world0 url_given eq_refl catalog_there
    (graphed_empty alice) app_role) as (m & d & H & Hr).
  unfold world1, after. change (fun _ => PFine) with fine in H. rewrite H. split; [done|].
  intros name k k' Hn Hk. destruct (no_labels _ _ Hn). cbn [committedDb snd] in Hk. by rewrite Hr in Hk.
Qed.

Lemma migrated2 : runProv migrations fine (runTenantMigrate url alice applyVersioned) 0 world1 =
    (0, ((runProv migrations fine (runTenantMigrate url alice applyVersioned) 0 world1).2.1, world2)).
Proof.
  destruct migrated1 as [H1 _]. apply bootstrap_ok in H1 as (Hv & Hd & Hb & _).
  destruct (apply_quiet migrations url alice 0 world1 Hd Hv Hb) as (m & w & H); [by left|].
  unfold world2, after. change (fun _ => PFine) with fine in H. by rewrite H.
Qed.

Lemma alice_bob : probed alice bob.
Proof. by right. Qed.

Lemma tenant_isolation_witness :
  may (committedDb (after (runTenantMigrate url bob bootstrapSchema) world1)) (Some (RoleName alice))
    (SchemaName bob, auditTable) pSelect = false.
Proof.
  refine (proj1 (proj2 (tenant_isolation migrations world0 _ alice bob isolated_empty _ eq_refl eq_refl _)) _ _);
    [|by intros].
  apply (rtc_l _ _ world1).
  - apply (ran_command migrations (runTenantMigrate url alice bootstrapSchema) fine 0), migrate_command.
  - apply rtc_once, (ran_command migrations (runTenantMigrate url bob bootstrapSchema) fine 0), migrate_command.
Defined.

Lemma audit_append_only_witness :
  may (committedDb world2) (Some (RoleName alice)) (auditOf alice) pUpdate = false.
Proof.
  refine (proj1 (audit_append_only migrations url alice fine 0 world1 _ world2 migrations_functional _
    (proj2 migrated1) migrated2) _ _); by left.
Defined.

Lemma provisioned_passes_smoke_witness :
  (runProv migrations fine (runTenantSmoke url [] alice bob) 0 world2).1 = 0.
Proof.
  pose proof (provisioned_passes_smoke migrations url alice [] bob fine 0 _ world0 world1 fine 0 _ world2 0
    migrations_functional smoke_in isolated_empty alice_registered (proj2 migrated1) alice_bob (proj1 migrated1) migrated2) as H.
  change (fun _ => PFine) with fine in H.
  destruct (runProv _ _ (runTenantSmoke _ _ _ _) _ _) as [code [m w]]. apply H.
Defined.

Lemma provisioning_completes_witness :
  let '(_, (n1, w1)) := runProv migrations fine (runTenantMigrate url bob bootstrapSchema) 0 world0 in
  (runProv migrations fine (runTenantMigrate url bob applyVersioned) n1 w1).1 = 0.
Proof.
  pose proof (provisioning_completes migrations url bob [] [] 0 world0 migrations_functional smoke_in no_labels
    isolated_empty bob_registered (nothing_wellKinded _ _ (fun _ => lookup_empty _)) catalog_there (graphed_empty bob)
    url_given eq_refl (or_introl eq_refl)) as H.
  change (fun _ => PFine) with fine in H.
  destruct (runProv _ _ (runTenantMigrate _ _ bootstrapSchema) _ _) as [c1 [n1 w1]].
  destruct (runProv _ _ (runTenantMigrate _ _ applyVersioned) _ _) as [c2 [n2 w2]].
  destruct (runProv _ _ (runTenantSmoke _ _ _ _) _ _) as [c3 [n3 w3]]. apply H.
Defined.

(** The schedule is used up: the last attempt is followed by the longest wait. *)
Example PgwireReachable_exhausted :
  let refuses : env provR := fun _ c =>
    match c return provR c with Exec _ _ => SqlOk | Terraform _ => None | _ => false end in
  let '(e, t) := run refuses [] (PgwireReachable url) in
  e = Some ErrVPCPeeringNotActive /\
  omap (fun c => match c with WaitSeconds n => Some n | _ => None end) (calls t) = pgwireBackoff /\
  last (calls t) = Some (WaitSeconds 120).
Proof. split_and!; reflexivity. Qed.
End ProvisionDemo.
