(* ===== verification/Credentials.v ===== *)
(** * The credentials of the catalogs

    [internal/catalog/creds.go], the row of a catalog read in the transaction of
    the tenant, and [cmd/neksur-cli/polaris_webhook_register.go], which writes the
    secret of a webhook into it. *)

From stdpp Require Import relations.
From S2P Require Import Prelude Effects Tenant TenantSpec Provision ProvisionSpec.
From Stdlib Require Import Lia.
#[local] Open Scope go_scope.

(** ** Reading ([creds.go]) *)

Inductive cred_err :=
  | ErrCredentialsNotFound
  | ErrWrapped (e : prov_err).

(** A variable outside a function: what the last [Scan] that succeeded put into
    it. *)
Definition captured (c : provCall) : provR c -> option credentialRow -> option credentialRow :=
  match c with
  | Exec true (SelectCredentials _) => fun a last => match a with SqlRow (Some r) => Some r | _ => last end
  | _ => fun _ last => last
  end.

Fixpoint capturing {A} (p : provProg A) (last : option credentialRow)
  : provProg (A * option credentialRow) :=
  match p with
  | Ret a => Ret (a, last)
  | Do c k => Do (R := provR) c (fun r => capturing (k r) (captured c r last))
  end.

(** [tx.QueryRow(...).Scan(...)]. *)
Definition selectCredentials (nickname : gostring) : provProg fnOut :=
  Do (R := provR) (Exec true (SelectCredentials nickname)) (fun a : answer =>
  Ret (match a with
       | SqlRow (Some _) => FnNil
       | SqlRow None => FnErr ErrNoRows
       | SqlError c => FnErr (ErrSql c)
       | _ => FnErr ErrUnexpected
       end)).

Definition zeroCredentials : credentialRow := mkCredentialRow [] [] [] [].

Definition GetCatalogCredentials (ctx : option gostring) (nickname : gostring)
  : provProg (result cred_err credentialRow) :=
  bind (capturing (WithTenantTx ctx (selectCredentials nickname)) None) (fun '(r, creds) =>
  Ret (match r with
       | FnErr ErrNoRows => Err ErrCredentialsNotFound
       | FnErr e => Err (ErrWrapped e)
       | FnPanic => Err (ErrWrapped ErrUnexpected)
       | FnNil => Ok (default zeroCredentials creds)
       end)).

(** ** Writing the secret ([polaris_webhook_register.go]) *)

(** The commands a policy of row-level security is for; V0066 creates these two
    on the table and forces them on its owner. *)
Inductive policyCommand := ForSelect | ForInsert | ForUpdate | ForDelete | ForAll.
#[export] Instance policyCommand_eq_dec : EqDecision policyCommand.
Proof. solve_decision. Defined.

Definition credentialPolicies : list policyCommand := [ForSelect; ForInsert].

(** Whom the policies do not bind: a superuser, or a role with BYPASSRLS. *)
Definition updatable (bypass : bool) (policies : list policyCommand) : bool :=
  bypass || bool_decide (ForUpdate ∈ policies) || bool_decide (ForAll ∈ policies).

Definition polarisKind : gostring := "polaris".

(** [UPDATE ... SET config_json = config_json || ... WHERE catalog_kind =
    'polaris']: the rows of the schema, each with its nickname, and how many it
    changed.  [withSecret] is the concatenation of the documents. *)
Definition updateSecret (withSecret : gostring -> gostring -> gostring) (bypass : bool)
    (policies : list policyCommand) (secret : gostring) (rows : gmap gostring credentialRow)
  : nat * gmap gostring credentialRow :=
  if updatable bypass policies then
    (size (filter (fun nr => cr_kind nr.2 = polarisKind) rows),
     (fun r => if bool_decide (cr_kind r = polarisKind)
               then mkCredentialRow (cr_kind r) (cr_nickname r) (cr_endpoint r) (withSecret (cr_config r) secret)
               else r) <$> rows)
  else (0, rows).

Inductive webhookCall :=
  | RandRead                                          (* 32 bytes *)
  | NewPool (dsn : gostring)
  | PoolAcquire
  | SetConfigLocal (tenantID : gostring)
  | UpdateSecret (schema secret : gostring)
  | PostSubscription (url webhook secret : gostring)
  | PrintSecret (secret : gostring).

Definition webhookR (c : webhookCall) : Type :=
  match c with
  | RandRead => option gostring
  | UpdateSecret _ _ => option nat                    (* RowsAffected *)
  | PostSubscription _ _ _ => option Z                (* the status *)
  | PrintSecret _ => unit
  | _ => bool
  end.

Abbreviation webhookProg := (prog webhookR).

Definition generateWebhookSecret : webhookProg (option gostring) :=
  Do (R := webhookR) RandRead (fun r : option gostring => Ret (hexEncode <$> r)).

Section register.
(** [uuid.Parse], with its canonical form. *)
Context (parseUUID : gostring -> option gostring).

Definition storeWebhookSecret (tenantID secret : gostring) : webhookProg bool :=
  match parseUUID tenantID with
  | None => Ret false
  | Some id =>
      Do (R := webhookR) PoolAcquire (fun ok : bool =>
      if ok then
        Do (R := webhookR) (SetConfigLocal tenantID) (fun ok : bool =>
        if ok then
          Do (R := webhookR) (UpdateSecret (SchemaName id) secret) (fun n : option nat =>
          Ret (match n with None | Some 0 => false | Some _ => true end))
        else Ret false)
      else Ret false)
  end.

Definition registerWithPolaris (validURL : gostring -> bool)
    (polarisEndpoint neksurWebhookURL secret : gostring) : webhookProg bool :=
  let registerURL := trimRightSlash polarisEndpoint ++ "/v1/webhook-subscriptions" in
  if negb (validURL registerURL) then Ret false
  else
    Do (R := webhookR) (PostSubscription registerURL neksurWebhookURL secret) (fun r : option Z =>
    Ret (match r with Some code => (200 <=? code)%Z && (code <? 300)%Z | None => false end)).

Record webhookFlags := mkWebhookFlags {
  wf_tenant : gostring; wf_polarisEndpoint : gostring; wf_neksurWebhook : gostring;
  wf_skipUpstream : bool
}.

(** On parsed flags; the exit code. *)
Definition runPolarisWebhookRegister (validURL : gostring -> bool) (dsn : gostring) (f : webhookFlags)
  : webhookProg nat :=
  if bool_decide (wf_tenant f = []) || bool_decide (wf_neksurWebhook f = []) then Ret 2
  else if negb (wf_skipUpstream f) && bool_decide (wf_polarisEndpoint f = []) then Ret 2
  else if bool_decide (dsn = []) then Ret 2
  else
    bind generateWebhookSecret (fun secret =>
    match secret with
    | None => Ret 1
    | Some secret =>
        Do (R := webhookR) (NewPool dsn) (fun ok : bool =>
        if ok then
          bind (storeWebhookSecret (wf_tenant f) secret) (fun stored =>
          if negb stored then Ret 1
          else
            bind (if wf_skipUpstream f then Ret true
                  else registerWithPolaris validURL (wf_polarisEndpoint f) (wf_neksurWebhook f) secret)
              (fun _ => Do (R := webhookR) (PrintSecret secret) (fun _ : unit => Ret 0)))
        else Ret 1)
    end).

(** The rows of the tenants' schemas, and what each call answers.  A call that
    works is answered by PostgreSQL, on the update, and by Polaris, with some
    status; a call fails before it has an effect, or its answer is lost after it.
    The command makes each call at most once. *)
Inductive fault := Works | Fails | AnswerLost.

Section answers.
Context (withSecret : gostring -> gostring -> gostring) (bypass : bool) (random : gostring).
Context (status : Z) (faults : webhookCall -> fault).

Abbreviation tablesWorld := (gmap gostring (gmap gostring credentialRow)).

Definition performWebhook (c : webhookCall) (w : tablesWorld) : webhookR c * tablesWorld :=
  match c return webhookR c * tablesWorld with
  | RandRead => (Some random, w)
  | UpdateSecret schema secret =>
      match w !! schema with
      | None => (None, w)
      | Some rows =>
          let '(n, rows) := updateSecret withSecret bypass credentialPolicies secret rows in
          (Some n, <[schema := rows]> w)
      end
  | PostSubscription _ _ _ => (Some status, w)
  | PrintSecret _ => (tt, w)
  | _ => (true, w)
  end.

Definition failedWebhook (c : webhookCall) : webhookR c :=
  match c return webhookR c with
  | RandRead | UpdateSecret _ _ | PostSubscription _ _ _ => None
  | PrintSecret _ => tt
  | _ => false
  end.

Definition answerWebhook (c : webhookCall) (w : tablesWorld) : webhookR c * tablesWorld :=
  match faults c with
  | Works => performWebhook c w
  | Fails => (failedWebhook c, w)
  | AnswerLost => (failedWebhook c, (performWebhook c w).2)
  end.

Fixpoint runWebhook {A} (p : webhookProg A) (w : tablesWorld) : A * tablesWorld :=
  match p with
  | Ret a => (a, w)
  | Do c k => let '(r, w) := answerWebhook c w in runWebhook (k r) w
  end.
End answers.
End register.
