(* ===== verification/CredentialsSpec.v ===== *)
(** * The credentials of the catalogs: whose they are

    A row that is returned is the tenant's own, whatever fails, and it is found
    when it is there ([credentials_of_tenant]); the secret of a webhook is stored
    only by an administrator whom row-level security does not bind
    ([webhook_secret_stored]). *)

From S2P Require Import Prelude Effects Tenant TenantSpec Provision ProvisionSpec Credentials.
From Stdlib Require Import Lia.
#[local] Open Scope go_scope.

(** ** Reading *)

Lemma accessByPath_cases d ss name privs :
  accessByPath d ss name privs = SqlOk \/ exists c, accessByPath d ss name privs = SqlError c.
Proof.
  unfold accessByPath, access. destruct (s_path ss); [|by right; eexists].
  repeat (case_match; try (by right; eexists)); by left.
Qed.

(** What a tenant's role needs to read its credentials. *)
Record readable (id : gostring) (d : cluster) : Prop := {
  rd_role : RoleName id ∈ roles d;
  rd_schema : SchemaName id ∈ schemas d;
  rd_usage : (RoleName id, SchemaName id) ∈ usages d;
  rd_table : is_Some (relations d !! (SchemaName id, credentialsTable));
  rd_grant : (RoleName id, (SchemaName id, credentialsTable), pSelect) ∈ grants d
}.

(** What the read of [id] answers in a cluster. *)
Definition rowOf (id nickname : gostring) (d : cluster) : result cred_err credentialRow :=
  match credentials d !! (SchemaName id, nickname) with
  | Some row => Ok row
  | None => Err ErrCredentialsNotFound
  end.

Lemma access_readable id d :
  readable id d -> access d (Some (RoleName id)) (SchemaName id) credentialsTable [pSelect] = SqlOk.
Proof.
  intros [Hr Hs Hu [k Ht] Hg]. unfold access. rewrite Ht, bool_decide_eq_false_2 by tauto.
  cbn [enters may forallb]. by rewrite !bool_decide_eq_true_2 by done.
Qed.

Section reads.
Context (migrations : list (list (gostring * kind))).

(** A statement of the read, under a fault: it took effect, or the read fails. *)
Lemma GetCatalogCredentials_own faults id nickname n w row m w' :
  runProv migrations faults (GetCatalogCredentials (Some id) nickname) n w = (Ok row, (m, w')) ->
  credentials (committedDb w) !! (SchemaName id, nickname) = Some row /\ committedDb w' = committedDb w.
Proof.
  unfold GetCatalogCredentials, WithTenantTx, selectCredentials, layers, commitTx, failedTx.
  intros H.
  repeat (cbn -[SchemaName RoleName accessByPath serveProv] in H;
          match type of H with
          | context [serveProv _ (faults ?k)] => destruct (faults k)
          | context [unless (bool_decide ?P)] => destruct (bool_decide P)
          | context [accessByPath ?d ?ss ?t ?p] =>
              destruct (accessByPath_cases d ss t p) as [Ea|[? Ea]]; rewrite Ea in H
          | context [credentials (committedDb w) !! ?k] => destruct (credentials (committedDb w) !! k) eqn:?
          end; try (cbn -[SchemaName RoleName accessByPath] in H; discriminate H);
          cbn -[SchemaName RoleName accessByPath] in H).
  by injection H as <- <- <-.
Qed.

Lemma GetCatalogCredentials_found id nickname n w :
  readable id (committedDb w) ->
  (runProv migrations (fun _ => PFine) (GetCatalogCredentials (Some id) nickname) n w).1 =
    rowOf id nickname (committedDb w).
Proof.
  intros Hr.
  assert (forall t, accessByPath (committedDb w) (mkSession (Some (RoleName id)) (Some (SchemaName id)) (Some t))
    credentialsTable [pSelect] = SqlOk) as Ha.
  { intros t. unfold accessByPath. cbn [s_path s_role enters].
    rewrite (bool_decide_eq_true_2 _ (rd_usage _ _ Hr)). by apply access_readable. }
  unfold GetCatalogCredentials, WithTenantTx, selectCredentials, layers, commitTx, failedTx.
  cbn -[SchemaName RoleName accessByPath unless].
  rewrite (bool_decide_eq_false_2 (RoleName id ∉ roles (committedDb w))) by (pose proof (rd_role _ _ Hr); tauto).
  cbn -[SchemaName RoleName accessByPath]. rewrite Ha. unfold rowOf.
  cbn -[SchemaName RoleName accessByPath]. by destruct (credentials (committedDb w) !! _).
Qed.

(** (C12) A catalog's credentials are the tenant's own: whatever statement fails or
    loses its answer, a row that is returned is the one of that nickname in the
    schema of the tenant of the context, and reading changes nothing; and when
    the tenant's role may read the table and nothing fails, the answer is that
    row, or that there is none. *)
Theorem credentials_of_tenant faults id nickname n w :
  (forall row m w',
     runProv migrations faults (GetCatalogCredentials (Some id) nickname) n w = (Ok row, (m, w')) ->
     credentials (committedDb w) !! (SchemaName id, nickname) = Some row /\ committedDb w' = committedDb w) /\
  (readable id (committedDb w) ->
     (runProv migrations (fun _ => PFine) (GetCatalogCredentials (Some id) nickname) n w).1 =
       rowOf id nickname (committedDb w)).
Proof.
  split; [|apply GetCatalogCredentials_found]. intros row m w'. apply GetCatalogCredentials_own.
Qed.
End reads.

(** ** Writing the secret *)

Section webhook.
Context (parseUUID : gostring -> option gostring) (validURL : gostring -> bool).
Context (withSecret : gostring -> gostring -> gostring) (random : gostring).

Definition hasPolaris (rows : gmap gostring credentialRow) : Prop :=
  exists n r, rows !! n = Some r /\ cr_kind r = polarisKind.

Lemma no_polaris bypass secret rows :
  (updateSecret withSecret bypass credentialPolicies secret rows).1 = 0 ->
  (updateSecret withSecret bypass credentialPolicies secret rows).2 = rows /\ (bypass = false \/ ~ hasPolaris rows).
Proof.
  unfold updateSecret, updatable. destruct bypass; cbn [orb fst snd]; [|intros _; split; [done|by left]].
  intros H%map_size_empty_iff. rewrite map_empty in H.
  assert (forall n r, rows !! n = Some r -> cr_kind r <> polarisKind) as Hn.
  { intros n r Hr Hk. specialize (H n). rewrite map_lookup_filter_None in H.
    destruct H as [H|H]; [congruence|]. by apply (H r Hr). }
  split; [|right; by intros (n&r&Hr&Hk%(Hn n)); [|]].
  apply map_eq. intros n. rewrite lookup_fmap. destruct (rows !! n) as [r|] eqn:Hr; [|done].
  cbn. by rewrite bool_decide_eq_false_2 by (by eapply Hn).
Qed.

Lemma has_polaris bypass secret rows n :
  (updateSecret withSecret bypass credentialPolicies secret rows).1 = S n -> bypass = true /\ hasPolaris rows.
Proof.
  unfold updateSecret, updatable. destruct bypass; cbn [orb fst snd]; [|done].
  intros H. split; [done|].
  destruct (decide (filter (fun nr : gostring * credentialRow => cr_kind nr.2 = polarisKind) rows = ∅)) as [He|He].
  - rewrite He, map_size_empty in H. done.
  - apply map_choose in He as (k&r&Hk). apply map_lookup_filter_Some in Hk as [Hr Hk]. by exists k, r.
Qed.

(** What an update of the administrator leaves. *)
Definition secretStored (w : gmap gostring (gmap gostring credentialRow)) (id : gostring)
    (rows : gmap gostring credentialRow) : gmap gostring (gmap gostring credentialRow) :=
  <[SchemaName id := (updateSecret withSecret true credentialPolicies (hexEncode random) rows).2]> w.

(** Once the update was answered by a count, the command ends with 0. *)
Lemma registered_ends status bypass faults f secret w :
  runWebhook withSecret bypass random status faults
    (bind (if wf_skipUpstream f then Ret true
           else registerWithPolaris validURL (wf_polarisEndpoint f) (wf_neksurWebhook f) secret)
      (fun _ => Do (R := webhookR) (PrintSecret secret) (fun _ : unit => Ret 0))) w = (0, w).
Proof.
  assert (forall w, runWebhook withSecret bypass random status faults
    (Do (R := webhookR) (PrintSecret secret) (fun _ : unit => Ret 0)) w = (0, w)) as Hp.
  { intros w1. cbn [runWebhook]. unfold answerWebhook. by destruct (faults _). }
  destruct (wf_skipUpstream f); [apply Hp|]. unfold registerWithPolaris.
  destruct (validURL _); [|apply Hp]. cbn [negb bind runWebhook]. unfold answerWebhook at 1.
  destruct (faults _); cbn [performWebhook failedWebhook snd]; apply Hp.
Qed.

(** (C13) The secret of a webhook is stored exactly when the administrator is exempt
    from row-level security.  For valid flags and a tenant whose schema exists:
    whatever call of the command fails, before or after its effect, the command
    ends with 0 or 1, with 0 only when the secret is in every polaris row of the
    tenant's schema, of which there is one, and nothing else has changed, and
    anything it ever changes is that, for a superuser.  When no call but that to
    Polaris fails, a superuser gets 0 and the secret stored, or 1 when there is no
    polaris row; any other administrator gets 1 and changes nothing, whatever
    rows there are, because no policy of the table allows updates. *)
Theorem webhook_secret_stored status faults bypass dsn f w id rows :
  wf_tenant f <> [] -> wf_neksurWebhook f <> [] -> (wf_skipUpstream f = true \/ wf_polarisEndpoint f <> []) ->
  dsn <> [] -> parseUUID (wf_tenant f) = Some id -> w !! SchemaName id = Some rows ->
  let '(code, w') := runWebhook withSecret bypass random status faults
                       (runPolarisWebhookRegister parseUUID validURL dsn f) w in
  (code = 0 \/ code = 1) /\
  (code = 0 -> bypass = true /\ hasPolaris rows /\ w' = secretStored w id rows) /\
  (w' = w \/ bypass = true /\ hasPolaris rows /\ w' = secretStored w id rows) /\
  ((forall c, match c with PostSubscription _ _ _ => True | _ => faults c = Works end) ->
   (bypass = true /\ hasPolaris rows /\ code = 0 /\ w' = secretStored w id rows) \/
   ((bypass = false \/ ~ hasPolaris rows) /\ code = 1 /\ w' = w)).
Proof.
  intros H1 H2 H3 H4 Hid Hrows. unfold runPolarisWebhookRegister, generateWebhookSecret, storeWebhookSecret.
  rewrite (bool_decide_eq_false_2 _ H1), (bool_decide_eq_false_2 _ H2), (bool_decide_eq_false_2 _ H4). cbn [orb].
  replace (negb (wf_skipUpstream f) && bool_decide (wf_polarisEndpoint f = [])) with false
    by (destruct H3 as [->|H3]; [done|rewrite (bool_decide_eq_false_2 _ H3); by destruct (wf_skipUpstream f)]).
  rewrite Hid. unfold secretStored.
  (* a call that fails before the update ends the command *)
  assert (forall c, faults c <> Works -> match c with PostSubscription _ _ _ => False | _ => True end ->
    ~ (forall c, match c with PostSubscription _ _ _ => True | _ => faults c = Works end)) as Hf.
  { intros c Hc Hp H. specialize (H c). by destruct c. }
  do 4 (cbn [bind runWebhook]; unfold answerWebhook at 1;
    lazymatch goal with |- context [match faults ?c with _ => _ end] =>
      destruct (faults c) eqn:?;
        [|cbn; split_and!; [by right|done|by left|intros H; by destruct (Hf c ltac:(congruence) I H)]..]
    end;
    cbn [performWebhook fst snd fmap option_fmap option_map]).
  cbn [bind runWebhook]. unfold answerWebhook at 1. cbn [performWebhook]. rewrite Hrows.
  pose proof (no_polaris bypass (hexEncode random) rows) as Hno.
  pose proof (has_polaris bypass (hexEncode random) rows) as Hhas.
  destruct (updateSecret withSecret bypass credentialPolicies (hexEncode random) rows) as [n rows'] eqn:Hu.
  assert (n = 0 /\ <[SchemaName id := rows']> w = w /\ (bypass = false \/ ~ hasPolaris rows) \/
    n <> 0 /\ bypass = true /\ hasPolaris rows /\ <[SchemaName id := rows']> w = secretStored w id rows) as Hn.
  { destruct n as [|n]; cbn [fst snd] in *; [left|right].
    - destruct (Hno eq_refl) as [-> Hb]. split_and!; [done|by apply insert_id|done].
    - destruct (Hhas n eq_refl) as [-> Hp]. unfold secretStored. by rewrite Hu. }
  unfold secretStored in Hn. destruct (faults (UpdateSecret _ _)) eqn:Hfu; cbn [failedWebhook fst snd].
  - destruct Hn as [(->&->&Hb)|(Hz&->&Hp&->)].
    + cbn -[SchemaName updateSecret hexEncode]. split_and!; auto; done.
    + destruct n as [|n]; [done|]. cbn [bind runWebhook negb]. rewrite registered_ends. split_and!; auto 6.
  - cbn -[SchemaName updateSecret hexEncode]. split_and!; [by right|done|by left|]. intros H; by destruct (Hf _ ltac:(by rewrite Hfu) I H).
  - cbn -[SchemaName updateSecret hexEncode]. split_and!; [by right|done| |intros H; by destruct (Hf _ ltac:(by rewrite Hfu) I H)].
    destruct Hn as [(_&->&_)|(_&->&Hp&->)]; auto.
Qed.
End webhook.

Lemma webhook_secret_stored_witness :
  let id : gostring := "11111111-1111-4111-8111-111111111111" in
  let rows := {[("prod" : gostring) := mkCredentialRow "polaris" "prod" "https://polaris" "{}"]} in
  let f := mkWebhookFlags id "https://polaris/" "https://hook" false in
  let faults c := match c with PostSubscription _ _ _ => AnswerLost | _ => Works end in
  let run bypass := (runWebhook (fun c s => c ++ s) bypass "r" 201 faults
    (runPolarisWebhookRegister Some (fun _ => true) "dsn" f) {[SchemaName id := rows]}).1 in
  run false = 1 /\ run true = 0.
Proof.
  intros id rows f faults run.
  assert (forall c, match c with PostSubscription _ _ _ => True | _ => faults c = Works end) as Hf by (by intros []).
  split.
  - pose proof (webhook_secret_stored Some (fun _ => true) (fun c s => c ++ s) "r" 201 faults false "dsn" f
      {[SchemaName id := rows]} id rows ltac:(done) ltac:(done) ltac:(by right) ltac:(done) eq_refl
      (lookup_singleton_eq _ _)) as H. unfold run.
    destruct (runWebhook _ _ _ _ _ _ _) as [code w']. by destruct H as (_&_&_&[[? _]|(_&->&_)]%(fun H => H Hf)).
  - pose proof (webhook_secret_stored Some (fun _ => true) (fun c s => c ++ s) "r" 201 faults true "dsn" f
      {[SchemaName id := rows]} id rows ltac:(done) ltac:(done) ltac:(by right) ltac:(done) eq_refl
      (lookup_singleton_eq _ _)) as H. unfold run.
    destruct (runWebhook _ _ _ _ _ _ _) as [code w'].
    destruct H as (_&_&_&[(_&_&->&_)|([?|Hn]&_)]%(fun H => H Hf)); [done|done|].
    destruct Hn. by exists "prod", (mkCredentialRow "polaris" "prod" "https://polaris" "{}").
Defined.
