(* ===== verification/Auth.v ===== *)
(** * Sessions, tenants and administrators

    internal/auth/workos: the client with its cache of signing keys
    ([makeKeyfunc], [refreshJWKS], [ValidateSession], [LoadSession]), the
    middleware that gives a request its tenant, and the webhook; the lookup of
    internal/tenant/repo.go behind the middleware, and the gate of
    internal/admin.  Requests share the key cache and interleave between its
    critical sections: the world of [performs] has the cache, what WorkOS
    publishes, the tenants and a clock.  Decoding a token, verifying its
    signature and checking its claims are golang-jwt's, the signature of a
    webhook the SDK's. *)

From S2P Require Import Prelude Effects Decimal PolicyStore Tenant.
From Stdlib Require Import Lia.

(** ** Keys *)

(** [base64.RawURLEncoding]: the alphabet of URLs, no padding. *)
Module RawURL.

Definition alphabet : gostring :=
  "ABCDEFGHIJKLMNOPQRSTUVWXYZabcdefghijklmnopqrstuvwxyz0123456789-_".

Definition charOf (n : N) : ascii := nth (N.to_nat n) alphabet "="%char.
Definition valueOf (c : ascii) : option N := Base64.indexOf c alphabet 0.

Fixpoint EncodeToString (s : gostring) : gostring :=
  match s with
  | [] => []
  | [a] => [charOf (ord a / 4); charOf ((ord a mod 4) * 16)]%N
  | [a; b] =>
      [charOf (ord a / 4); charOf ((ord a mod 4) * 16 + ord b / 16);
       charOf ((ord b mod 16) * 4)]%N
  | a :: b :: c :: s =>
      [charOf (ord a / 4); charOf ((ord a mod 4) * 16 + ord b / 16);
       charOf ((ord b mod 16) * 4 + ord c / 64); charOf (ord c mod 64)]%N
      ++ EncodeToString s
  end.

Fixpoint decodeQuanta (s : gostring) : option gostring :=
  match s with
  | [] => Some []
  | [_] => None
  | [c0; c1] =>
      v0 ← valueOf c0; v1 ← valueOf c1; Some [ascii_of_N (v0 * 4 + v1 / 16)]
  | [c0; c1; c2] =>
      v0 ← valueOf c0; v1 ← valueOf c1; v2 ← valueOf c2;
      Some [ascii_of_N (v0 * 4 + v1 / 16); ascii_of_N ((v1 mod 16) * 16 + v2 / 4)]
  | c0 :: c1 :: c2 :: c3 :: s =>
      v0 ← valueOf c0; v1 ← valueOf c1; v2 ← valueOf c2; v3 ← valueOf c3;
      rest ← decodeQuanta s;
      Some (ascii_of_N (v0 * 4 + v1 / 16) :: ascii_of_N ((v1 mod 16) * 16 + v2 / 4)
            :: ascii_of_N ((v2 mod 4) * 64 + v3) :: rest)
  end%N.

Definition DecodeString (s : gostring) : option gostring :=
  decodeQuanta (filter (fun c => Base64.isLineBreak c = false) s).
End RawURL.

(** [*rsa.PublicKey]: an unbounded modulus, a 64-bit exponent. *)
Record RSAKey := mkRSAKey { RSA_N : N; RSA_E : Z }.

#[export] Instance RSAKey_eq_dec : EqDecision RSAKey.
Proof. solve_decision. Defined.

Definition signed64 (z : Z) : Z := ((z + 2 ^ 63) mod 2 ^ 64 - 2 ^ 63)%Z.

(** [big.Int.SetBytes] and the loop over the bytes of [e]. *)
Definition setBytes (s : gostring) : N := fold_left (fun n b => (n * 256 + ord b)%N) s 0%N.
Definition shiftInBytes (s : gostring) : Z :=
  fold_left (fun e b => signed64 (Z.lor (Z.shiftl e 8) (Z.of_N (ord b)))) s 0%Z.

Definition jwkToRSA (nB64 eB64 : gostring) : option RSAKey :=
  nBytes ← RawURL.DecodeString nB64;
  eBytes ← RawURL.DecodeString eB64;
  Some (mkRSAKey (setBytes nBytes) (shiftInBytes eBytes)).

Record JWK := mkJWK {
  Kty : gostring; Kid : gostring; JWK_N : gostring; JWK_E : gostring;
  Alg : gostring; Use : gostring
}.

Abbreviation keyMap := (gmap gostring RSAKey).

(** The loop of [refreshJWKS] over the decoded set. *)
Definition installKey (newKeys : keyMap) (k : JWK) : keyMap :=
  if bool_decide (Kty k = "RSA") then
    match jwkToRSA (JWK_N k) (JWK_E k) with
    | Some pub => <[Kid k := pub]> newKeys
    | None => newKeys
    end
  else newKeys.

Definition installKeys (jwks : list JWK) : keyMap := fold_left installKey jwks ∅.

(** ** The client *)

Definition jwksTTL : Z := 3600 * 10 ^ 9.
Definition defaultEndpoint : gostring := "https://api.workos.com".
Definition CookieName : gostring := "neksur_session".

Record Client := mkClient {
  apiKey : gostring; clientID : gostring; cookieDomain : gostring; endpoint : gostring
}.

Definition NewClientWithEndpoint (apiKey clientID cookieDomain endpoint : gostring)
    : result gostring Client :=
  if bool_decide (apiKey = []) then Err "workos: NewClient: empty apiKey"
  else if bool_decide (clientID = []) then Err "workos: NewClient: empty clientID"
  else
    let endpoint := if bool_decide (endpoint = []) then defaultEndpoint else endpoint in
    Ok (mkClient apiKey clientID cookieDomain (trimRightSlash endpoint)).

Definition NewClient (apiKey clientID cookieDomain : gostring) : result gostring Client :=
  NewClientWithEndpoint apiKey clientID cookieDomain defaultEndpoint.

(** ** Tokens, requests, responses *)

(** A claim as [jwt.MapClaims] holds it; a number is its [int64]. *)
Inductive claimValue := VString (s : gostring) | VNumber (z : Z) | VOther.

Record Token := mkToken {
  tok_rsa : bool;                            (* Method is *jwt.SigningMethodRSA *)
  tok_alg : gostring;
  tok_kid : gostring;                        (* empty when absent or not a string *)
  tok_claims : list (gostring * claimValue);
  tok_signed : gostring;
  tok_signature : gostring
}.

Record Claims := mkClaims { Sub : gostring; Sid : gostring; Exp : Z; OrgID : gostring }.

Fixpoint field (name : gostring) (mc : list (gostring * claimValue)) : option claimValue :=
  match mc with
  | [] => None
  | (n, v) :: mc => if bool_decide (n = name) then Some v else field name mc
  end.

Definition claimString (name : gostring) (mc : list (gostring * claimValue)) : gostring :=
  match field name mc with Some (VString s) => s | _ => [] end.

(** [jwt.Parse] and [ParseUnverified] put a [MapClaims] in the token: the type
    assertion succeeds. *)
Definition extractClaims (tok : Token) : Claims :=
  let mc := tok_claims tok in
  mkClaims (claimString "sub" mc) (claimString "sid" mc)
    (match field "exp" mc with Some (VNumber z) => z | _ => 0%Z end)
    (claimString "org_id" mc).

Record Session := mkSession {
  AccessToken : gostring; RefreshToken : gostring; OrganizationID : gostring;
  UserID : gostring; ExpiresAt : Z
}.

(** What the handlers read of a request; the path is clean and cut at its
    slashes, [r_slash] tells that it ends in one. *)
Record Request := mkRequest {
  r_method : gostring;
  r_path : list gostring;
  r_slash : bool;
  r_query : list (gostring * gostring);
  r_cookies : list (gostring * gostring);
  r_headers : list (gostring * gostring);
  r_body : gostring
}.

Inductive sameSite := SameSiteDefault | SameSiteLax.
Record Cookie := mkCookie {
  Name : gostring; Value : gostring; HttpOnly : bool; Secure : bool; SameSite : sameSite;
  Domain : gostring; Path : gostring; MaxAge : Z
}.

Record Response := mkResponse {
  status : Z; body : gostring; location : gostring; setCookie : option Cookie
}.

(** [w.WriteHeader] alone. *)
Definition writeHeader (code : Z) : Response := mkResponse code [] [] None.

Definition eol : gostring := ["010"%char].
(** [http.Error] prints the message with [Fprintln]. *)
Definition httpError (msg : gostring) (code : Z) : Response :=
  mkResponse code (msg ++ eol) [] None.

(** [r.Cookie] and [Header.Get] (the names here are in canonical form). *)
Fixpoint lookupFirst (name : gostring) (l : list (gostring * gostring)) : option gostring :=
  match l with
  | [] => None
  | (n, v) :: l => if bool_decide (n = name) then Some v else lookupFirst name l
  end.

Definition queryGet (name : gostring) (r : Request) : gostring :=
  default [] (lookupFirst name (r_query r)).

Definition headerGet (name : gostring) (r : Request) : gostring :=
  default [] (lookupFirst name (r_headers r)).

(** ** Calls *)

Inductive fetchAnswer :=
  | FetchFailed (text : gostring)
  | Answered (code : Z) (text : gostring).

Inductive rowAnswer := NoRow | QueryErr | Scanned (id : gostring).

(** What [um.AuthenticateWithCode] returns, as far as it is read. *)
Record authenticated := mkAuthenticated {
  a_AccessToken : gostring; a_RefreshToken : gostring; a_OrganizationID : gostring;
  a_UserID : gostring
}.

Inductive authCall :=
  | ReadKey (kid : gostring)        (* the first critical section: key and age *)
  | FetchJWKS (url : gostring)
  | WriteKeys (m : keyMap)          (* replace the map, stamp the time *)
  | RereadKey (kid : gostring)
  | Now
  | TenantByOrg (org : gostring)    (* SELECT public.tenant_by_workos_org($1) *)
  | ExchangeCode (code : gostring)
  | Getenv (name : gostring)
  | Serve (tenant : gostring) (r : Request)   (* next.ServeHTTP, tenant in the context *)
  | ServeAdmin (r : Request)
  | ServeOpen (r : Request).        (* a handler mounted without a session *)

Definition authR (c : authCall) : Type :=
  match c with
  | ReadKey _ => option RSAKey * Z
  | FetchJWKS _ => fetchAnswer
  | WriteKeys _ => unit
  | RereadKey _ => option RSAKey
  | Now => Z
  | TenantByOrg _ => rowAnswer
  | ExchangeCode _ => option authenticated
  | Getenv _ => gostring
  | Serve _ _ | ServeAdmin _ | ServeOpen _ => Response
  end.

Abbreviation authProg := (prog authR).

Inductive authErr := ErrWorkOSSessionInvalid.

(** An error of [jwt.Parse]: whether [errors.Is] finds a signature error in it,
    and its text. *)
Record jwtErr := mkJwtErr { e_signature : bool; e_text : gostring }.

(** ** Validation *)

Section workos.
Context (parseToken : gostring -> result gostring Token).
Context (verifies : RSAKey -> gostring -> gostring -> bool).
Context (validateClaims : Z -> list (gostring * claimValue) -> option gostring).
Context (unverifiable : gostring -> gostring).
Context (decodeJWKS : gostring -> result gostring (list JWK)).

(** [jwt.Parse], in its documented order: decode, ask for the key, verify the
    signature, check the claims against the time. *)
Definition jwtParse (keyfunc : Token -> authProg (result gostring RSAKey)) (s : gostring)
    : authProg (result jwtErr Token) :=
  match parseToken s with
  | Err t => Ret (Err (mkJwtErr false t))
  | Ok tok =>
      let! r := keyfunc tok in
      match r with
      | Err t => Ret (Err (mkJwtErr false (unverifiable t)))
      | Ok key =>
          if verifies key (tok_signed tok) (tok_signature tok) then
            let! now := call Now in
            match validateClaims now (tok_claims tok) with
            | None => Ret (Ok tok)
            | Some t => Ret (Err (mkJwtErr false t))
            end
          else Ret (Err (mkJwtErr true "crypto/rsa: verification error"))
      end
  end.

Context (c : Client).

Definition jwksURL : gostring := endpoint c ++ "/sso/jwks/" ++ clientID c.

Definition refreshJWKS : authProg (option gostring) :=
  let! a := call (FetchJWKS jwksURL) in
  match a with
  | FetchFailed t => Ret (Some t)
  | Answered code text =>
      if bool_decide (code <> 200%Z) then
        Ret (Some ("jwks HTTP " ++ Sprintf_d code ++ ": " ++ take 1024 text))
      else
        match decodeJWKS text with
        | Err t => Ret (Some ("decode jwks: " ++ t))
        | Ok jwks => let! _ := call (WriteKeys (installKeys jwks)) in Ret None
        end
  end.

Definition makeKeyfunc (forceRefresh : bool) (tok : Token) : authProg (result gostring RSAKey) :=
  if negb (tok_rsa tok) then Ret (Err ("workos: unexpected signing method: " ++ tok_alg tok))
  else if bool_decide (tok_kid tok = []) then Ret (Err "workos: jwt header missing kid")
  else
    let! (key, age) := call (ReadKey (tok_kid tok)) in
    let fresh := (age <? jwksTTL)%Z in
    match key, fresh && negb forceRefresh with
    | Some key, true => Ret (Ok key)
    | _, _ =>
        let! e := refreshJWKS in
        match e with
        | Some t => Ret (Err ("workos: refresh jwks: " ++ t))
        | None =>
            let! key := call (RereadKey (tok_kid tok)) in
            match key with
            | None => Ret (Err ("workos: no key for kid=" ++ tok_kid tok ++ " after refresh"))
            | Some key => Ret (Ok key)
            end
        end
    end.

Definition isSignatureError (e : jwtErr) : bool := e_signature e.
Definition isKeyNotFoundError (e : jwtErr) : bool :=
  contains (e_text e) "no key for kid" || contains (e_text e) "missing kid".

Definition ValidateSession (accessToken : gostring) : authProg (result authErr Claims) :=
  let! r := jwtParse (makeKeyfunc false) accessToken in
  match r with
  | Ok tok => Ret (Ok (extractClaims tok))
  | Err e =>
      if isSignatureError e || isKeyNotFoundError e then
        let! r := jwtParse (makeKeyfunc true) accessToken in
        match r with
        | Ok tok => Ret (Ok (extractClaims tok))
        | Err _ => Ret (Err ErrWorkOSSessionInvalid)
        end
      else Ret (Err ErrWorkOSSessionInvalid)
  end.

(** [time.Unix(sec, 0)], in nanoseconds. *)
Definition timeUnix (sec : Z) : Z := sec * 10 ^ 9.

Definition LoadSession (r : Request) : authProg (result authErr Session) :=
  match lookupFirst CookieName (r_cookies r) with
  | None => Ret (Err ErrWorkOSSessionInvalid)
  | Some value =>
      if bool_decide (value = []) then Ret (Err ErrWorkOSSessionInvalid)
      else
        let! claims := ValidateSession value in
        match claims with
        | Err e => Ret (Err e)
        | Ok claims =>
            Ret (Ok (mkSession value [] (OrgID claims) (Sub claims) (timeUnix (Exp claims))))
        end
  end.

(** [AuthenticateWithCode]: the expiry is read from the token without verifying
    it, an hour from now when that fails. *)
Definition AuthenticateWithCode (code : gostring) : authProg (option Session) :=
  let! resp := call (ExchangeCode code) in
  match resp with
  | None => Ret None
  | Some resp =>
      let! now := call Now in
      let expires :=
        match parseToken (a_AccessToken resp) with
        | Ok tok => let claims := extractClaims tok in
                    if (0 <? Exp claims)%Z then timeUnix (Exp claims)
                    else (now + 3600 * 10 ^ 9)%Z
        | Err _ => (now + 3600 * 10 ^ 9)%Z
        end in
      Ret (Some (mkSession (a_AccessToken resp) (a_RefreshToken resp)
                   (a_OrganizationID resp) (a_UserID resp) expires))
  end.

(** ** The middleware *)

Inductive repoErr := ErrTenantNotFound | OtherErr.

Definition ByWorkOSOrgID (orgID : gostring) : authProg (result repoErr gostring) :=
  let! row := call (TenantByOrg orgID) in
  match row with
  | NoRow => Ret (Err ErrTenantNotFound)
  | QueryErr => Ret (Err OtherErr)
  | Scanned id => if bool_decide (id = zeroUUID) then Ret (Err ErrTenantNotFound) else Ret (Ok id)
  end.

Definition TenantMiddleware (r : Request) : authProg Response :=
  let! session := LoadSession r in
  match session with
  | Err _ => Ret (httpError "unauthorized" 401)
  | Ok session =>
      if bool_decide (OrganizationID session = []) then Ret (httpError "unauthorized" 401)
      else
        let! tenantID := ByWorkOSOrgID (OrganizationID session) in
        match tenantID with
        | Err ErrTenantNotFound => Ret (httpError "tenant not found" 404)
        | Err OtherErr => Ret (httpError "internal error" 500)
        | Ok tenantID => call (Serve tenantID r)
        end
  end.

(** [AdminOrgGate] (internal/admin/handlers.go) over [workosAdminGate]
    (cmd/neksur-server/main.go). *)
Definition LoadSessionOrgID (r : Request) : authProg (result authErr gostring) :=
  let! s := LoadSession r in
  match s with
  | Err e => Ret (Err e)
  | Ok s => Ret (Ok (OrganizationID s))
  end.

Definition AdminOrgGate (internalAdminOrgID : gostring) (r : Request) : authProg Response :=
  if bool_decide (internalAdminOrgID = []) then
    Ret (httpError "admin gate misconfigured (WORKOS_INTERNAL_ADMIN_ORG_ID unset)" 500)
  else
    let! orgID := LoadSessionOrgID r in
    match orgID with
    | Err _ => Ret (httpError "unauthorized" 401)
    | Ok orgID =>
        if bool_decide (orgID <> internalAdminOrgID) then Ret (httpError "forbidden" 403)
        else call (ServeAdmin r)
    end.
End workos.

(** ** The webhook *)

Definition bodyCap : N := 256 * 1024.

(** [io.ReadAll] over [http.MaxBytesReader]. *)
Definition readBody (r : Request) : option gostring :=
  if (bodyCap <? N.of_nat (length (r_body r)))%N then None else Some (r_body r).

Section webhook.
(** [webhooks.Client.ValidatePayload] of the SDK, and the event of the body. *)
Context (ValidatePayload : gostring -> gostring -> gostring -> Z -> bool).
Context (decodeEvent : gostring -> option gostring).

Definition HandleWebhook (secret : gostring) (r : Request) : authProg Response :=
  match readBody r with
  | None => Ret (httpError "" 400)
  | Some b =>
      let! now := call Now in
      if negb (ValidatePayload secret (headerGet "Workos-Signature" r) b now) then
        Ret (httpError "" 400)
      else
        let! scim := call (Getenv "SCIM_ENABLED") in
        if bool_decide (scim <> "true") then Ret (writeHeader 200)
        else
          match decodeEvent b with
          | None => Ret (httpError "" 400)
          | Some _ => Ret (writeHeader 200)
          end
  end.
End webhook.

(** ** The shared world *)

(** A row of [public.tenants] as the lookup reads it. *)
Record tenantRecord := mkTenantRecord {
  t_org : gostring; t_id : gostring; t_state : lifecycle
}.

(** Besides the state, what WorkOS has answered, what was written to the cache
    and the rows the lookups found are recorded with their times. *)
Record world := mkWorld {
  w_clock : Z;
  w_keys : keyMap;
  w_fetched : Z;
  w_published : gostring;
  w_tenants : list tenantRecord;
  w_fetches : list (Z * gostring);
  w_writes : list (Z * keyMap);
  w_lookups : list (Z * tenantRecord)
}.

(** [tenant_by_workos_org] (V0044): the row of an active or suspended tenant. *)
Definition reachableState (s : lifecycle) : bool :=
  match s with active | suspended => true | _ => false end.

Fixpoint tenantByOrg (org : gostring) (ts : list tenantRecord) : option tenantRecord :=
  match ts with
  | [] => None
  | t :: ts =>
      if bool_decide (t_org t = org) && reachableState (t_state t) then Some t
      else tenantByOrg org ts
  end.

Definition performs (i : nat) (call : authCall) (w : world) : authR call -> world -> Prop :=
  match call with
  | ReadKey kid => fun r w' =>
      r = (w_keys w !! kid, timeSub (w_clock w) (w_fetched w)) /\ w' = w
  | FetchJWKS _ => fun r w' =>
      match r with
      | Answered code text =>
          if bool_decide (code = 200%Z) then
            text = w_published w /\
            w' = mkWorld (w_clock w) (w_keys w) (w_fetched w) (w_published w) (w_tenants w)
                   (w_fetches w ++ [(w_clock w, text)]) (w_writes w) (w_lookups w)
          else w' = w
      | FetchFailed _ => w' = w
      end
  | WriteKeys m => fun _ w' =>
      w' = mkWorld (w_clock w) m (w_clock w) (w_published w) (w_tenants w)
             (w_fetches w) (w_writes w ++ [(w_clock w, m)]) (w_lookups w)
  | RereadKey kid => fun r w' => r = w_keys w !! kid /\ w' = w
  | Now => fun r w' => r = w_clock w /\ w' = w
  | TenantByOrg org => fun r w' =>
      match r with
      | Scanned id =>
          match tenantByOrg org (w_tenants w) with
          | Some t =>
              id = t_id t /\
              w' = mkWorld (w_clock w) (w_keys w) (w_fetched w) (w_published w) (w_tenants w)
                     (w_fetches w) (w_writes w) (w_lookups w ++ [(w_clock w, t)])
          | None => id = zeroUUID /\ w' = w
          end
      | _ => w' = w
      end
  | ExchangeCode _ => fun _ w' => w' = w
  | Getenv _ => fun _ w' => w' = w
  | Serve _ _ => fun _ w' => w' = w
  | ServeAdmin _ => fun _ w' => w' = w
  | ServeOpen _ => fun _ w' => w' = w
  end.

(** Time passes, WorkOS rotates its keys, tenants change. *)
Definition drifts (w w' : world) : Prop :=
  (w_clock w <= w_clock w')%Z /\
  w' = mkWorld (w_clock w') (w_keys w) (w_fetched w) (w_published w') (w_tenants w')
         (w_fetches w) (w_writes w) (w_lookups w).

(** The zero [time.Time] against any clock of today. *)
Definition zeroTime : Z := - 62135596800 * 10 ^ 9.

Definition initial (now : Z) (published : gostring) (ts : list tenantRecord) : world :=
  mkWorld now ∅ zeroTime published ts [] [] [].

(** ** A request alone, when nothing fails *)

Definition answer (w : world) (call : authCall) : authR call * world :=
  match call with
  | ReadKey kid => ((w_keys w !! kid, timeSub (w_clock w) (w_fetched w)), w)
  | FetchJWKS _ =>
      (Answered 200 (w_published w),
       mkWorld (w_clock w) (w_keys w) (w_fetched w) (w_published w) (w_tenants w)
         (w_fetches w ++ [(w_clock w, w_published w)]) (w_writes w) (w_lookups w))
  | WriteKeys m =>
      (tt, mkWorld (w_clock w) m (w_clock w) (w_published w) (w_tenants w)
             (w_fetches w) (w_writes w ++ [(w_clock w, m)]) (w_lookups w))
  | RereadKey kid => (w_keys w !! kid, w)
  | Now => (w_clock w, w)
  | TenantByOrg org =>
      match tenantByOrg org (w_tenants w) with
      | Some t =>
          (Scanned (t_id t),
           mkWorld (w_clock w) (w_keys w) (w_fetched w) (w_published w) (w_tenants w)
             (w_fetches w) (w_writes w) (w_lookups w ++ [(w_clock w, t)]))
      | None => (Scanned zeroUUID, w)
      end
  | ExchangeCode _ => (None, w)
  | Getenv _ => ([], w)
  | Serve _ _ => (writeHeader 200, w)
  | ServeAdmin _ => (writeHeader 200, w)
  | ServeOpen _ => (writeHeader 200, w)
  end.

Fixpoint alone {A} (p : authProg A) (w : world) : A * world :=
  match p with
  | Ret a => (a, w)
  | Do call k => let '(r, w) := answer w call in alone (k r) w
  end.
