(* ===== verification/AuthSpec.v ===== *)
(** * Sessions: what the middleware guarantees

    Whatever requests interleave and whatever WorkOS publishes, a tenant's
    handler runs only for a request whose token verifies under a key of WorkOS,
    unexpired, for the tenant of its organization ([sound_session],
    [sound_tenant]); how old that key may be ([usable]), and what two refreshes
    that overlap do to it; a token signed with a key of today is accepted; how
    often the keys are fetched; the responses; the keys' encoding. *)

From stdpp Require Import relations.
From S2P Require Import Prelude Effects Interleave PolicyStore Tenant Auth.
From Stdlib Require Import Lia ZifyN ZifyNat.
#[local] Open Scope go_scope.

(** ** Keys *)

(** [big.Int.Bytes]: the big-endian bytes of a number. *)
Fixpoint bytesOf (fuel : nat) (n : N) (acc : gostring) : gostring :=
  match fuel with
  | 0%nat => acc
  | S fuel => if (n =? 0)%N then acc else bytesOf fuel (n / 256) (ascii_of_N (n mod 256) :: acc)
  end.
Definition bigBytes (n : N) : gostring := bytesOf (N.to_nat (N.size n)) n [].

Lemma rawurl_sextet n : (n < 64)%N ->
  RawURL.valueOf (RawURL.charOf n) = Some n /\ Base64.isLineBreak (RawURL.charOf n) = false.
Proof.
  intros Hn.
  assert (forallb (fun n => bool_decide (RawURL.valueOf (RawURL.charOf n) = Some n)
                            && negb (Base64.isLineBreak (RawURL.charOf n)))
            (map N.of_nat (seq 0 64)) = true) as H by (vm_compute; reflexivity).
  rewrite forallb_forall in H. specialize (H n).
  rewrite andb_true_iff, negb_true_iff, bool_decide_eq_true in H. apply H, in_map_iff.
  exists (N.to_nat n). split; [apply N2Nat.id|]. apply in_seq. lia.
Qed.

Lemma rawurl_chars s : Forall (fun c => Base64.isLineBreak c = false) (RawURL.EncodeToString s).
Proof.
  induction s as [|a|a b|a b c s IH] using quanta_ind; cbn [RawURL.EncodeToString app];
    try pose proof (quantum_bounds a a a) as (?&?&?&?&?&?);
    try pose proof (quantum_bounds a b b) as (?&?&?&?&?&?);
    try pose proof (quantum_bounds a b c) as (?&?&?&?&?&?);
    repeat constructor; try exact IH; by apply rawurl_sextet.
Qed.

Lemma rawurl_quanta s : RawURL.decodeQuanta (RawURL.EncodeToString s) = Some s.
Proof.
  induction s as [|a|a b|a b c s IH] using quanta_ind; cbn [RawURL.EncodeToString app]; [done|..].
  - pose proof (quantum_bounds a a a) as (H1&H2&_). pose proof (ord_bound a).
    cbn [RawURL.decodeQuanta].
    destruct (rawurl_sextet _ H1) as [-> _], (rawurl_sextet _ H2) as [-> _].
    simpl. do 2 f_equal. apply ascii_ord. div_mod.
  - pose proof (quantum_bounds a b b) as (H1&_&H2&H3&_). pose proof (ord_bound a).
    pose proof (ord_bound b). cbn [RawURL.decodeQuanta].
    destruct (rawurl_sextet _ H1) as [-> _], (rawurl_sextet _ H2) as [-> _],
      (rawurl_sextet _ H3) as [-> _].
    simpl. do 2 f_equal; [|f_equal]; apply ascii_ord; div_mod.
  - pose proof (quantum_bounds a b c) as (H1&_&H2&_&H3&H4). pose proof (ord_bound a).
    pose proof (ord_bound b). pose proof (ord_bound c). cbn [RawURL.decodeQuanta].
    rewrite IH.
    destruct (rawurl_sextet _ H1) as [-> _], (rawurl_sextet _ H2) as [-> _],
      (rawurl_sextet _ H3) as [-> _], (rawurl_sextet _ H4) as [-> _].
    simpl. do 2 f_equal; [|f_equal; [|f_equal]]; apply ascii_ord; div_mod.
Qed.

Lemma rawurl_roundtrip s : RawURL.DecodeString (RawURL.EncodeToString s) = Some s.
Proof.
  unfold RawURL.DecodeString. rewrite <- (rawurl_quanta s). f_equal.
  induction (rawurl_chars s) as [|c l Hc _ IH]; [done|].
  rewrite filter_cons_True by done. by f_equal.
Qed.

Lemma setBytes_app s t :
  setBytes (s ++ t) = fold_left (fun n b => (n * 256 + ord b)%N) t (setBytes s).
Proof. apply fold_left_app. Qed.

Lemma setBytes_bytesOf fuel n acc :
  (n < 256 ^ N.of_nat fuel)%N ->
  setBytes (bytesOf fuel n acc) = fold_left (fun n b => (n * 256 + ord b)%N) acc n.
Proof.
  revert n acc; induction fuel as [|fuel IH]; intros n acc Hf; cbn [bytesOf].
  - by assert (n = 0%N) as -> by (cbn in Hf; lia).
  - destruct (N.eqb_spec n 0) as [->|Hn]; [done|].
    rewrite IH.
    + cbn [fold_left]. f_equal. unfold ord. rewrite N_ascii_embedding by (by apply N.mod_lt).
      rewrite (N.div_mod n 256) at 3 by done. lia.
    + apply N.Div0.div_lt_upper_bound. rewrite Nat2N.inj_succ, N.pow_succ_r' in Hf. lia.
Qed.

Lemma setBytes_bigBytes n : setBytes (bigBytes n) = n.
Proof.
  unfold bigBytes. rewrite setBytes_bytesOf; [done|].
  rewrite N2Nat.id. apply N.lt_le_trans with (2 ^ N.size n)%N.
  - apply N.size_gt.
  - by apply N.pow_le_mono_l.
Qed.

(** The loop over the bytes of the exponent is [setBytes] at 64 bits. *)
Lemma lor_byte e b : (0 <= b < 256)%Z -> Z.lor (Z.shiftl e 8) b = (e * 256 + b)%Z.
Proof.
  intros Hb. assert (Z.land (Z.shiftl e 8) b = 0%Z) as Hz.
  { apply Z.bits_inj'. intros k Hk. rewrite Z.land_spec, Z.bits_0.
    destruct (Z.lt_ge_cases k 8).
    - by rewrite Z.shiftl_spec_low.
    - rewrite (Z.bits_above_log2 b); [by rewrite andb_false_r|lia|].
      apply Z.lt_le_trans with 8%Z; [|done]. destruct (Z.eq_dec b 0%Z) as [->|]; [done|].
      apply Z.log2_lt_pow2; lia. }
  rewrite <- Z.lxor_lor, <- Z.add_nocarry_lxor by done.
  rewrite Z.shiftl_mul_pow2 by lia. lia.
Qed.

Lemma signed64_mod z : (signed64 z mod 2 ^ 64 = z mod 2 ^ 64)%Z.
Proof. unfold signed64. rewrite Zminus_mod_idemp_l. f_equal. lia. Qed.

Lemma signed64_ext a b : (a mod 2 ^ 64 = b mod 2 ^ 64)%Z -> signed64 a = signed64 b.
Proof. intros H. unfold signed64. by rewrite Zplus_mod, H, <- Zplus_mod. Qed.

Lemma shiftInBytes_setBytes s : shiftInBytes s = signed64 (Z.of_N (setBytes s)).
Proof.
  unfold shiftInBytes, setBytes.
  assert (forall e n, e = signed64 (Z.of_N n) ->
    fold_left (fun e b => signed64 (Z.lor (Z.shiftl e 8) (Z.of_N (ord b)))) s e
    = signed64 (Z.of_N (fold_left (fun n b => (n * 256 + ord b)%N) s n))) as H; [|by apply H].
  induction s as [|b s IH]; intros e n ->; cbn [fold_left]; [done|]. apply IH.
  pose proof (ord_bound b). rewrite lor_byte by lia. apply signed64_ext.
  rewrite N2Z.inj_add, N2Z.inj_mul, Zplus_mod, Zmult_mod, signed64_mod.
  by rewrite <- Zmult_mod, <- Zplus_mod.
Qed.

Lemma signed64_small z : (- 2 ^ 63 <= z < 2 ^ 63)%Z -> signed64 z = z.
Proof. intros Hz. unfold signed64. rewrite Z.mod_small; lia. Qed.

(** A key published in the encoding of RFC 7518 is the key that is used, up to
    exponents of 63 bits; a longer exponent is reduced, not refused. *)
Theorem jwkToRSA_roundtrip n e :
  jwkToRSA (RawURL.EncodeToString (bigBytes n)) (RawURL.EncodeToString (bigBytes e))
  = Some (mkRSAKey n (signed64 (Z.of_N e))) /\
  ((e < 2 ^ 63)%N -> signed64 (Z.of_N e) = Z.of_N e).
Proof.
  unfold jwkToRSA. rewrite !rawurl_roundtrip. cbn [mbind option_bind].
  rewrite setBytes_bigBytes, shiftInBytes_setBytes, setBytes_bigBytes.
  split; [done|]. intros He. apply signed64_small. lia.
Qed.

(** ** What others may do *)

(** Time only goes on, and what is recorded stays. *)
Definition evolves (i : nat) (w w' : world) : Prop :=
  (w_clock w <= w_clock w')%Z /\ (w_fetched w <= w_fetched w')%Z /\
  w_fetches w `prefix_of` w_fetches w' /\ w_writes w `prefix_of` w_writes w' /\
  w_lookups w `prefix_of` w_lookups w'.

#[export] Instance evolves_preorder i : PreOrder (evolves i).
Proof.
  split.
  - intros w. split_and!; (lia || reflexivity).
  - intros w1 w2 w3 (?&?&?&?&?) (?&?&?&?&?). split_and!; (lia || (etransitivity; eauto)).
Qed.

Lemma prefix_elem {A} (l l' : list A) x : l `prefix_of` l' -> x ∈ l -> x ∈ l'.
Proof. intros [k ->] H. apply elem_of_app. by left. Qed.

Section session.
Context (parseToken : gostring -> result gostring Token).
Context (verifies : RSAKey -> gostring -> gostring -> bool).
Context (validateClaims : Z -> list (gostring * claimValue) -> option gostring).
Context (unverifiable : gostring -> gostring).
Context (decodeJWKS : gostring -> result gostring (list JWK)).
Context (c : Client).

#[local] Abbreviation ValidateSession :=
  (ValidateSession parseToken verifies validateClaims unverifiable decodeJWKS c).
#[local] Abbreviation LoadSession :=
  (LoadSession parseToken verifies validateClaims unverifiable decodeJWKS c).
#[local] Abbreviation TenantMiddleware :=
  (TenantMiddleware parseToken verifies validateClaims unverifiable decodeJWKS c).
#[local] Abbreviation AdminOrgGate :=
  (AdminOrgGate parseToken verifies validateClaims unverifiable decodeJWKS c).
#[local] Abbreviation refreshJWKS := (refreshJWKS decodeJWKS c).
#[local] Abbreviation makeKeyfunc := (makeKeyfunc decodeJWKS c).
#[local] Abbreviation jwtParse := (jwtParse parseToken verifies validateClaims unverifiable).

(** What the cache holds was written to it, and what was written came from an
    answer of WorkOS, no later. *)
Definition fromWorkOS (w : world) (tw : Z) (m : keyMap) : Prop :=
  exists tf text jwks, (tf, text) ∈ w_fetches w /\ (tf <= tw)%Z /\
    decodeJWKS text = Ok jwks /\ m = installKeys jwks.

Record sound (w : world) : Prop := {
  sound_fetched : (w_fetched w <= w_clock w)%Z;
  sound_keys : w_keys w = ∅ \/ (w_fetched w, w_keys w) ∈ w_writes w;
  sound_writes : forall tw m, (tw, m) ∈ w_writes w -> (tw <= w_clock w)%Z /\ fromWorkOS w tw m;
  sound_fetches : forall tf text, (tf, text) ∈ w_fetches w -> (tf <= w_clock w)%Z
}.

Lemma drifts_evolves w w' : sound w -> drifts w w' -> sound w' /\ forall i, evolves i w w'.
Proof.
  intros [H1 H2 H3 H4] [Ht ->]. split.
  - split; cbn; [lia|done| |].
    + intros tw m H. destruct (H3 _ _ H) as [H5 H6]. split; [lia|exact H6].
    + intros tf text H. specialize (H4 _ _ H). lia.
  - intros i. split_and!; cbn; (lia || reflexivity).
Qed.

(** A key that a request arrived at [t0] may use: it was in the map that was
    written last before some moment of the request, and then either the write
    was less than the TTL ago or it happened during the request. *)
Definition usable (t0 : Z) (w : world) (kid : gostring) (key : RSAKey) : Prop :=
  exists tl tw m, (tw, m) ∈ w_writes w /\ m !! kid = Some key /\
    (t0 <= tl <= w_clock w)%Z /\ (tw <= tl)%Z /\ (tl - tw < jwksTTL \/ t0 <= tw)%Z.

Definition accepted (t0 : Z) (w : world) (s : gostring) (claims : Claims) : Prop :=
  exists tok key tv, parseToken s = Ok tok /\ claims = extractClaims tok /\
    tok_rsa tok = true /\ tok_kid tok <> [] /\
    usable t0 w (tok_kid tok) key /\
    verifies key (tok_signed tok) (tok_signature tok) = true /\
    (t0 <= tv <= w_clock w)%Z /\ validateClaims tv (tok_claims tok) = None.

Definition session (t0 : Z) (w : world) (r : Request) (org user : gostring) : Prop :=
  exists s claims, lookupFirst CookieName (r_cookies r) = Some s /\ s <> [] /\
    accepted t0 w s claims /\ OrgID claims = org /\ Sub claims = user.

Definition tenantOf (t0 : Z) (w : world) (org id : gostring) : Prop :=
  exists tl t, (tl, t) ∈ w_lookups w /\ (t0 <= tl <= w_clock w)%Z /\
    t_org t = org /\ t_id t = id /\ id <> zeroUUID /\ reachableState (t_state t) = true.

(** When the calls are made: a tenant's handler for a session of the tenant's
    organization, the administration for a session of [internal]. *)
Definition mayCall (internal : gostring) (r : Request) (t0 : Z) (e : authCall) (w : world) : Prop :=
  match e with
  | Serve id r' =>
      r' = r /\ exists org user, org <> [] /\ session t0 w r org user /\ tenantOf t0 w org id
  | ServeAdmin r' =>
      r' = r /\ internal <> [] /\ exists user, session t0 w r internal user
  | _ => True
  end.

Lemma usable_evolves i t0 w w' kid key :
  evolves i w w' -> usable t0 w kid key -> usable t0 w' kid key.
Proof.
  intros (Hc&_&_&Hw&_) (tl&tw&m&H1&H2&H3&H4&H5). exists tl, tw, m.
  split_and!; [by eapply prefix_elem|done|lia|lia|done|done].
Qed.

Lemma accepted_evolves i t0 w w' s claims :
  evolves i w w' -> accepted t0 w s claims -> accepted t0 w' s claims.
Proof.
  intros He (tok&key&tv&H1&H2&H3&H4&H5&H6&H7&H8). pose proof He as (Hc&_).
  exists tok, key, tv. split_and!; try done; [by eapply usable_evolves|lia|lia].
Qed.

Lemma session_evolves i t0 w w' r org user :
  evolves i w w' -> session t0 w r org user -> session t0 w' r org user.
Proof.
  intros He (s&claims&H1&H2&H3&H4). exists s, claims.
  split_and!; try done; [by eapply accepted_evolves| |]; apply H4.
Qed.

(** ** The programs are safe *)

Lemma performs_evolves i j e w r w' : sound w -> performs i e w r w' -> evolves j w w'.
Proof.
  intros [H1 _ _ _] Hp.
  assert (w' = w -> evolves j w w') as Hsame by (by intros ->).
  destruct e; cbn in r, Hp; try (by apply Hsame); try (by apply Hsame, Hp).
  - destruct r as [t|code text]; [by apply Hsame|].
    case_bool_decide; [|by apply Hsame]. destruct Hp as [-> ->].
    split_and!; cbn; (lia || reflexivity || by apply prefix_app_r).
  - subst w'. split_and!; cbn; (lia || reflexivity || by apply prefix_app_r).
  - destruct r as [| |id]; [by apply Hsame..|].
    destruct (tenantByOrg org (w_tenants w)) as [t|]; [|by apply Hsame, Hp].
    destruct Hp as [-> ->]. split_and!; cbn; (lia || reflexivity || by apply prefix_app_r).
Qed.

Lemma performs_sound i e w r w' :
  sound w -> (forall m, e = WriteKeys m -> fromWorkOS w (w_clock w) m) ->
  performs i e w r w' -> sound w' /\ w_clock w' = w_clock w.
Proof.
  intros Hs Hm Hp. pose proof Hs as [H1 H2 H3 H4].
  assert (w' = w -> sound w' /\ w_clock w' = w_clock w) as Hsame by (by intros ->).
  destruct e; cbn in r, Hp; try (by apply Hsame); try (by apply Hsame, Hp).
  - destruct r as [t|code text]; [by apply Hsame|].
    case_bool_decide; [|by apply Hsame]. destruct Hp as [-> ->].
    split; [split|]; cbn; [done|done| | |done].
    + intros tw m H5. destruct (H3 _ _ H5) as [H6 (tf&text&jwks&H7&H8)]. split; [done|].
      exists tf, text, jwks. split; [cbn; apply elem_of_app; by left|done].
    + intros tf text [H5|H5%list_elem_of_singleton]%elem_of_app; [by eapply H4|].
      by injection H5 as -> ->.
  - subst w'. split; [split|]; cbn; [lia| | |done|done].
    + right. apply elem_of_app. right. by apply list_elem_of_singleton.
    + intros tw m' [H5|H5%list_elem_of_singleton]%elem_of_app.
      * apply (H3 _ _ H5).
      * injection H5 as -> ->. split; [lia|]. by apply Hm.
  - destruct r as [| |id]; [by apply Hsame..|].
    destruct (tenantByOrg org (w_tenants w)) as [t|]; [|by apply Hsame, Hp].
    destruct Hp as [-> ->]. by split.
Qed.

Context (internal : gostring) (req : Request) (t0 : Z) (i : nat).

#[local] Abbreviation ok post p w :=
  (safe performs sound evolves i (mayCall internal req t0) post p w).

(** A call other than [WriteKeys], made when it may be. *)
Lemma safe_call {A} e (k : authR e -> prog authR A) post w :
  (forall m, e <> WriteKeys m) ->
  (forall w', evolves i w w' -> sound w' -> mayCall internal req t0 e w') ->
  (forall w1 r w2, evolves i w w1 -> sound w1 -> performs i e w1 r w2 -> sound w2 ->
     evolves i w w2 -> w_clock w2 = w_clock w1 -> ok post (k r) w2) ->
  ok post (Do e k) w.
Proof.
  intros Hn Hp Hk. cbn [safe]. intros w1 He Hs. split; [by apply Hp|]. intros r w2 Hr.
  destruct (performs_sound i e w1 r w2 Hs) as (H1&H3); [intros m ->; by destruct (Hn m)|done|].
  assert (forall j, evolves j w1 w2) as H2 by (intros j; by eapply performs_evolves).
  split_and!; [done|auto|]. apply (Hk w1 r w2); try done. etransitivity; [done|apply H2].
Qed.

Definition refreshed (w : world) (e : option gostring) : Prop :=
  (t0 <= w_clock w)%Z /\ (e = None -> (t0 <= w_fetched w)%Z).

Lemma safe_refresh w : (t0 <= w_clock w)%Z -> ok refreshed refreshJWKS w.
Proof.
  intros Ht. unfold Auth.refreshJWKS. cbn [bind call]. apply safe_call; [done|done|].
  intros w1 a w2 He1 Hs1 Ha Hs2 He2 Hc.
  assert (forall t, ok refreshed (Ret (Some t)) w2) as Hfail.
  { intros t w3 (H&_) _. destruct He2 as (H'&_). split; [lia|done]. }
  destruct a as [t|code text]; [apply Hfail|]. case_bool_decide as Hcode; [apply Hfail|].
  assert (code = 200%Z) as -> by (destruct (decide (code = 200%Z)); naive_solver).
  destruct (decodeJWKS text) as [jwks|t] eqn:Hd; [|apply Hfail].
  cbn in Ha. destruct Ha as [Ht1 Hw2].
  assert ((w_clock w2, text) ∈ w_fetches w2) as Hin.
  { rewrite Hw2. cbn. apply elem_of_app. right. by apply list_elem_of_singleton. }
  cbn [safe bind call]. intros w3 He3 Hs3. split; [done|]. intros [] w4 Hw4.
  assert (forall j, evolves j w3 w4) as H2 by (intros j; by eapply performs_evolves).
  destruct (performs_sound i (WriteKeys (installKeys jwks)) w3 tt w4 Hs3) as (H1&H3); [|done|].
  { intros m [= <-]. exists (w_clock w2), text, jwks. destruct He3 as (Hc3&_&Hf&_).
    split_and!; [by eapply prefix_elem|done|done|done]. }
  split_and!; [done|auto|]. cbn [safe]. intros w5 (Hc5&Hf5&_) _.
  cbn in Hw4. rewrite Hw4 in Hc5, Hf5. cbn in Hc5, Hf5.
  destruct He2 as (H4&_), He3 as (H5&_). split; [lia|]. intros _. lia.
Qed.

(** What the key function and the parser promise. *)
Definition keyed (tok : Token) (w : world) (r : result gostring RSAKey) : Prop :=
  (t0 <= w_clock w)%Z /\
  forall key, r = Ok key -> tok_rsa tok = true /\ tok_kid tok <> [] /\
                            usable t0 w (tok_kid tok) key.

Lemma keyed_err tok t w : (t0 <= w_clock w)%Z -> ok (keyed tok) (Ret (Err t)) w.
Proof. intros Ht w' (H&_) _. split; [lia|done]. Qed.

Definition refetch (tok : Token) : authProg (result gostring RSAKey) :=
  let! e := refreshJWKS in
  match e with
  | Some t => Ret (Err ("workos: refresh jwks: " ++ t))
  | None =>
      let! key := call (RereadKey (tok_kid tok)) in
      match key with
      | None => Ret (Err ("workos: no key for kid=" ++ tok_kid tok ++ " after refresh"))
      | Some key => Ret (Ok key)
      end
  end.

Lemma safe_refetch tok w :
  tok_rsa tok = true -> tok_kid tok <> [] -> (t0 <= w_clock w)%Z -> ok (keyed tok) (refetch tok) w.
Proof.
  intros Hrsa Hkid Ht. eapply safe_bind; [typeclasses eauto|by apply safe_refresh|].
  intros w3 e Hs3 [Ht3 He3]. destruct e as [t|]; [by apply keyed_err|].
  specialize (He3 eq_refl). cbn [bind call]. apply safe_call; [done|done|].
  intros w4 r w5 He4 Hs4 [-> ->] Hs5 He5 _.
  destruct (w_keys w4 !! tok_kid tok) as [key|] eqn:Hkey;
    [|apply keyed_err; destruct He4; lia].
  intros w6 He6 Hs6. pose proof He4 as (H4&H5&_). pose proof He6 as (H7&_).
  split; [lia|]. intros key' [= <-].
  split_and!; [done|done|]. eapply usable_evolves; [exact He6|].
  destruct Hs4 as [H1 [H2|H2] H3 _]; [by rewrite H2, lookup_empty in Hkey|].
  exists (w_clock w4), (w_fetched w4), (w_keys w4).
  split_and!; (done || lia || right; lia).
Qed.

Lemma safe_keyfunc force tok w :
  (t0 <= w_clock w)%Z -> ok (keyed tok) (makeKeyfunc force tok) w.
Proof.
  intros Ht. unfold Auth.makeKeyfunc.
  destruct (tok_rsa tok) eqn:Hrsa; cbn [negb]; [|by apply keyed_err].
  case_bool_decide as Hkid; [by apply keyed_err|].
  cbn [bind call]. apply safe_call; [done|done|].
  intros w1 [key age] w2 He1 Hs1 [[= -> ->] ->] Hs2 He2 Hc.
  assert (ok (keyed tok) (refetch tok) w1) as Hrefresh
    by (apply safe_refetch; [done|done|destruct He1; lia]).
  destruct (w_keys w1 !! tok_kid tok) as [key|] eqn:Hkey; [|exact Hrefresh].
  destruct (_ <? _)%Z eqn:Hage; cbn [andb]; [|exact Hrefresh].
  destruct force; cbn [negb]; [exact Hrefresh|].
  intros w3 He3 Hs3. destruct He1 as (H1&_). split; [destruct He3; lia|].
  intros key' [= <-]. split_and!; [done|done|]. eapply usable_evolves; [exact He3|].
  destruct Hs1 as [H2 [H3|H3] _ _]; [by rewrite H3, lookup_empty in Hkey|].
  exists (w_clock w1), (w_fetched w1), (w_keys w1). apply Z.ltb_lt in Hage.
  unfold timeSub in Hage.
  split_and!; try first [done|lia]. left. unfold jwksTTL in *. lia.
Qed.

Definition parsed (s : gostring) (w : world) (r : result jwtErr Token) : Prop :=
  (t0 <= w_clock w)%Z /\ forall tok, r = Ok tok -> accepted t0 w s (extractClaims tok).

Lemma safe_jwtParse force s w :
  (t0 <= w_clock w)%Z ->
  ok (parsed s) (jwtParse (makeKeyfunc force) s) w.
Proof.
  intros Ht. unfold Auth.jwtParse. destruct (parseToken s) as [tok|t] eqn:Hp.
  - eapply safe_bind; [typeclasses eauto|by apply safe_keyfunc|].
    intros w1 r Hs1 [Ht1 Hr]. destruct r as [key|t].
    + destruct (verifies key (tok_signed tok) (tok_signature tok)) eqn:Hv.
      * cbn [bind call]. apply safe_call; [done|done|].
        intros w2 now w3 He2 Hs2 [-> ->] Hs3 He3 _.
        destruct (validateClaims (w_clock w2) (tok_claims tok)) as [t|] eqn:Hc.
        -- intros w4 (H&_) _. destruct He2 as (H'&_). split; [lia|done].
        -- intros w4 He4 Hs4. pose proof He2 as (H&_). pose proof He4 as (H'&_).
           split; [lia|]. intros tok' [= <-].
           destruct (Hr key eq_refl) as (H1&H2&H3).
           exists tok, key, (w_clock w2). split_and!; try done; [|lia..].
           eapply usable_evolves; [|exact H3]. by etransitivity.
      * intros w2 (H&_) _. split; [lia|done].
    + intros w2 (H&_) _. split; [lia|done].
  - intros w1 (H&_) _. split; [lia|done].
Qed.

(** The session of the request, and the tenant of its organization. *)
Definition validated (s : gostring) (w : world) (r : result authErr Claims) : Prop :=
  (t0 <= w_clock w)%Z /\ forall claims, r = Ok claims -> accepted t0 w s claims.

Lemma validated_err s w : (t0 <= w_clock w)%Z -> ok (validated s) (Ret (Err ErrWorkOSSessionInvalid)) w.
Proof. intros Ht w1 (H&_) _. split; [lia|done]. Qed.

Lemma validated_ok s tok w :
  (t0 <= w_clock w)%Z -> accepted t0 w s (extractClaims tok) ->
  ok (validated s) (Ret (Ok (extractClaims tok))) w.
Proof.
  intros Ht Ha w1 He _. pose proof He as (H&_). split; [lia|]. intros claims [= <-].
  by eapply accepted_evolves.
Qed.

Lemma safe_ValidateSession s w :
  (t0 <= w_clock w)%Z -> ok (validated s) (ValidateSession s) w.
Proof.
  intros Ht. unfold Auth.ValidateSession.
  eapply safe_bind; [typeclasses eauto|by apply safe_jwtParse|].
  intros w1 [tok|e] Hs1 [Ht1 H1]; [by apply validated_ok; [|apply H1]|].
  destruct (_ || _); [|by apply validated_err].
  eapply safe_bind; [typeclasses eauto|by apply safe_jwtParse|].
  intros w2 [tok|e'] Hs2 [Ht2 H2]; [by apply validated_ok; [|apply H2]|by apply validated_err].
Qed.

Definition loaded (r : Request) (w : world) (x : result authErr Session) : Prop :=
  (t0 <= w_clock w)%Z /\
  forall s, x = Ok s -> session t0 w r (OrganizationID s) (UserID s).

Lemma safe_LoadSession r w : (t0 <= w_clock w)%Z -> ok (loaded r) (LoadSession r) w.
Proof.
  intros Ht. unfold Auth.LoadSession.
  assert (forall e w, (t0 <= w_clock w)%Z -> ok (loaded r) (Ret (Err e)) w) as Hfail.
  { intros e w1 Ht1 w2 (H&_) _. split; [lia|done]. }
  destruct (lookupFirst CookieName (r_cookies r)) as [s|] eqn:Hc; [|by apply Hfail].
  case_bool_decide as Hs; [by apply Hfail|].
  eapply safe_bind; [typeclasses eauto|by apply safe_ValidateSession|].
  intros w1 [claims|e] Hs1 [Ht1 H1]; [|by apply Hfail].
  intros w2 He2 Hs2. pose proof He2 as (H2&_). split; [lia|]. intros s' [= <-].
  exists s, claims. split_and!; try done. eapply accepted_evolves; [exact He2|by apply H1].
Qed.

Definition looked (org : gostring) (w : world) (x : result repoErr gostring) : Prop :=
  (t0 <= w_clock w)%Z /\ forall id, x = Ok id -> tenantOf t0 w org id.

Lemma tenantByOrg_Some org ts t :
  tenantByOrg org ts = Some t -> t ∈ ts /\ t_org t = org /\ reachableState (t_state t) = true.
Proof.
  induction ts as [|t' ts IH]; cbn [tenantByOrg]; [done|].
  destruct (bool_decide _ && _) eqn:H.
  - intros [= <-]. apply andb_true_iff in H as [H1%bool_decide_eq_true H2].
    split_and!; [by left|done|done].
  - intros Ht. destruct (IH Ht) as (H1&H2&H3). split_and!; [by right|done|done].
Qed.

Lemma safe_ByWorkOSOrgID org w :
  (t0 <= w_clock w)%Z -> ok (looked org) (ByWorkOSOrgID org) w.
Proof.
  intros Ht. unfold ByWorkOSOrgID. cbn [bind call]. apply safe_call; [done|done|].
  intros w1 row w2 He1 Hs1 Hr Hs2 He2 Hc.
  assert (forall e, ok (looked org) (Ret (Err e)) w2) as Hfail.
  { intros e w3 (H&_) _. destruct He2 as (H'&_). split; [lia|done]. }
  destruct row as [| |id]; [apply Hfail..|]. case_bool_decide as Hz; [apply Hfail|].
  intros w3 He3 Hs3. pose proof He2 as (H2&_). pose proof He3 as (H3&_&_&_&H4).
  split; [lia|]. intros id' [= <-]. cbn in Hr.
  destruct (tenantByOrg org (w_tenants w1)) as [t|] eqn:Hb; [|by destruct Hr].
  destruct Hr as [-> Hw2]. apply tenantByOrg_Some in Hb as (H5&H6&H7).
  exists (w_clock w1), t. split_and!; try done; [|destruct He1; lia|lia].
  eapply prefix_elem; [exact H4|]. rewrite Hw2. cbn. apply elem_of_app. right.
  by apply list_elem_of_singleton.
Qed.

Lemma safe_ret_any {A} (a : A) w : ok (fun _ _ => True) (Ret a) w.
Proof. done. Qed.

Lemma safe_TenantMiddleware w :
  (t0 <= w_clock w)%Z -> ok (fun _ _ => True) (TenantMiddleware req) w.
Proof.
  intros Ht. unfold Auth.TenantMiddleware.
  eapply safe_bind; [typeclasses eauto|by apply safe_LoadSession|].
  intros w1 [s|e] Hs1 [Ht1 H1]; [|apply safe_ret_any].
  case_bool_decide as Ho; [apply safe_ret_any|]. specialize (H1 s eq_refl).
  eapply safe_bind; [typeclasses eauto| |].
  - apply (safe_frame performs sound evolves i _ (looked (OrganizationID s))
             (fun w => session t0 w req (OrganizationID s) (UserID s)));
      [|intros e w2 r w3 H2 Hs2 Hp; eapply session_evolves, H2; by eapply (performs_evolves _ i)
       |done|by apply safe_ByWorkOSOrgID].
    intros w2 w3 H2 He. by eapply session_evolves.
  - intros w2 [id|[|]] Hs2 [H2 [Ht2 H3]]; try apply safe_ret_any.
    cbn [call]. apply safe_call; [done| |done].
    intros w3 He3 Hs3. split; [done|]. exists (OrganizationID s), (UserID s).
    split_and!; [done|by eapply session_evolves|].
    destruct (H3 id eq_refl) as (tl&t&H4&H5&H6). exists tl, t.
    destruct He3 as (H7&_&_&_&H8). split_and!; [by eapply prefix_elem|lia|lia|apply H6..].
Qed.

Lemma safe_AdminOrgGate w :
  (t0 <= w_clock w)%Z -> ok (fun _ _ => True) (AdminOrgGate internal req) w.
Proof.
  intros Ht. unfold Auth.AdminOrgGate. case_bool_decide as Hi; [apply safe_ret_any|].
  eapply (safe_bind _ _ _ _ _ (fun w x => (t0 <= w_clock w)%Z /\
            forall org, x = Ok org -> exists user, session t0 w req org user)).
  - unfold LoadSessionOrgID. eapply safe_bind; [typeclasses eauto|by apply safe_LoadSession|].
    intros w1 [s|e] Hs1 [Ht1 H1]; intros w2 He2 _; pose proof He2 as (H2&_);
      (split; [lia|]); [|done].
    intros org [= <-]. exists (UserID s). eapply session_evolves; [exact He2|by apply H1].
  - intros w1 [org|e] Hs1 [Ht1 H1]; [|apply safe_ret_any].
    case_bool_decide as Ho; [apply safe_ret_any|].
    assert (org = internal) as -> by (destruct (decide (org = internal)); naive_solver).
    cbn [call]. apply safe_call; [done| |done].
    intros w2 He2 Hs2. split; [done|]. split; [done|]. destruct (H1 _ eq_refl) as [user Hu].
    exists user. by eapply session_evolves.
Qed.
End session.

(** ** A request alone *)

Lemma session_answer_performs i w e : performs i e w (answer w e).1 (answer w e).2.
Proof.
  destruct e; cbn; try done.
  by destruct (tenantByOrg org (w_tenants w)).
Qed.

Lemma session_alone_bind {A B} (p : authProg A) (f : A -> authProg B) w :
  alone (bind p f) w = let '(a, w') := alone p w in alone (f a) w'.
Proof.
  revert w; induction p as [a|e k IH]; intros w; cbn [bind alone]; [done|].
  destruct (answer w e) as [r w']. apply IH.
Qed.

Section alone.
Context (parseToken : gostring -> result gostring Token).
Context (verifies : RSAKey -> gostring -> gostring -> bool).
Context (validateClaims : Z -> list (gostring * claimValue) -> option gostring).
Context (unverifiable : gostring -> gostring).
Context (decodeJWKS : gostring -> result gostring (list JWK)).
Context (c : Client).

#[local] Abbreviation ValidateSession :=
  (ValidateSession parseToken verifies validateClaims unverifiable decodeJWKS c).
#[local] Abbreviation makeKeyfunc := (makeKeyfunc decodeJWKS c).
#[local] Abbreviation jwtParse := (jwtParse parseToken verifies validateClaims unverifiable).

(** The world after a refresh. *)
Definition refreshedWorld (m : keyMap) (w : world) : world :=
  mkWorld (w_clock w) m (w_clock w) (w_published w) (w_tenants w)
    (w_fetches w ++ [(w_clock w, w_published w)]) (w_writes w ++ [(w_clock w, m)]) (w_lookups w).

Definition cachedKey (kid : gostring) (w : world) : option RSAKey :=
  match w_keys w !! kid with
  | Some key =>
      if (timeSub (w_clock w) (w_fetched w) <? jwksTTL)%Z then Some key else None
  | None => None
  end.

Context (tok : Token) (s : gostring).
Hypothesis token : parseToken s = Ok tok.
Hypothesis rsa : tok_rsa tok = true.
Hypothesis kid : tok_kid tok <> [].

Lemma keyfunc_alone force w jwks :
  decodeJWKS (w_published w) = Ok jwks ->
  alone (makeKeyfunc force tok) w =
    match cachedKey (tok_kid tok) w, force with
    | Some key, false => (Ok key, w)
    | _, _ =>
        (match installKeys jwks !! tok_kid tok with
         | Some key => Ok key
         | None => Err ("workos: no key for kid=" ++ tok_kid tok ++ " after refresh")
         end, refreshedWorld (installKeys jwks) w)
    end.
Proof.
  intros Hd. unfold Auth.makeKeyfunc. rewrite rsa. cbn [negb].
  rewrite bool_decide_eq_false_2 by done. unfold cachedKey.
  cbn [bind call alone answer].
  assert (forall A (f : option gostring -> authProg A),
    alone (bind (refreshJWKS decodeJWKS c) f) w
    = alone (f None) (refreshedWorld (installKeys jwks) w)) as Hr.
  { intros A f. unfold refreshJWKS. cbn [bind call alone answer].
    rewrite bool_decide_eq_false_2 by naive_solver. rewrite Hd. by cbn [bind call alone answer]. }
  destruct (w_keys w !! tok_kid tok) as [key|];
    [destruct (_ <? _)%Z; cbn [andb]; [destruct force; cbn [negb]|]|];
    try rewrite Hr; cbn [bind call alone answer refreshedWorld w_keys]; try done;
    by destruct (installKeys jwks !! tok_kid tok).
Qed.

Lemma jwtParse_alone (kf : Token -> authProg (result gostring RSAKey)) w :
  alone (jwtParse kf s) w =
    let '(r, w') := alone (kf tok) w in
    (match r with
     | Err t => Err (mkJwtErr false (unverifiable t))
     | Ok key =>
         if verifies key (tok_signed tok) (tok_signature tok) then
           match validateClaims (w_clock w') (tok_claims tok) with
           | None => Ok tok
           | Some t => Err (mkJwtErr false t)
           end
         else Err (mkJwtErr true "crypto/rsa: verification error")
     end, w').
Proof.
  unfold Auth.jwtParse. rewrite token, session_alone_bind.
  destruct (alone (kf tok) w) as [[key|t] w']; [|done].
  destruct (verifies _ _ _); [|done]. cbn [bind call alone answer].
  by destruct (validateClaims _ _).
Qed.

(** A token that verifies under a key published now is accepted, whatever the
    cache holds: the second attempt fetches when the key of the first was of
    another time. *)
Lemma published_key_accepted w jwks key :
  decodeJWKS (w_published w) = Ok jwks ->
  installKeys jwks !! tok_kid tok = Some key ->
  verifies key (tok_signed tok) (tok_signature tok) = true ->
  validateClaims (w_clock w) (tok_claims tok) = None ->
  (alone (ValidateSession s) w).1 = Ok (extractClaims tok).
Proof.
  intros Hd Hk Hv Hc. unfold Auth.ValidateSession.
  rewrite session_alone_bind, jwtParse_alone, (keyfunc_alone _ _ _ Hd).
  destruct (cachedKey (tok_kid tok) w) as [old|] eqn:Hold; [|by rewrite Hk, Hv; cbn; rewrite Hc].
  destruct (verifies old _ _) eqn:Ho; [by rewrite Hc|]. cbn [isSignatureError e_signature orb].
  by rewrite session_alone_bind, jwtParse_alone, (keyfunc_alone _ _ _ Hd), Hold, Hk, Hv; cbn; rewrite Hc.
Qed.

(** A token whose key is published nowhere is refused, after two fetches. *)
Lemma unknown_key_refused w jwks :
  (forall t, contains t "no key for kid" = true ->
             contains (unverifiable t) "no key for kid" = true) ->
  decodeJWKS (w_published w) = Ok jwks ->
  installKeys jwks !! tok_kid tok = None -> cachedKey (tok_kid tok) w = None ->
  (alone (ValidateSession s) w).1 = Err ErrWorkOSSessionInvalid /\
  w_fetches (alone (ValidateSession s) w).2
  = w_fetches w ++ [(w_clock w, w_published w); (w_clock w, w_published w)].
Proof.
  intros Hu Hd Hk Hc. unfold Auth.ValidateSession.
  rewrite session_alone_bind, jwtParse_alone, (keyfunc_alone _ _ _ Hd), Hc, Hk.
  cbn [isSignatureError e_signature orb]. unfold isKeyNotFoundError. cbn [e_text].
  set (t := "workos: no key for kid=" ++ tok_kid tok ++ " after refresh").
  assert (contains (unverifiable t) "no key for kid" = true) as -> by (by apply Hu).
  cbn [orb]. rewrite session_alone_bind, jwtParse_alone, (keyfunc_alone true _ jwks) by done.
  assert (cachedKey (tok_kid tok) (refreshedWorld (installKeys jwks) w) = None) as ->
    by (unfold cachedKey; cbn; by rewrite Hk).
  rewrite Hk. cbn [alone fst snd refreshedWorld w_fetches w_clock w_published].
  by rewrite <- app_assoc.
Qed.
End alone.

(** ** How often the keys are fetched *)

Definition isFetch (e : authCall) : bool := match e with FetchJWKS _ => true | _ => false end.

(** The most calls of a kind a tree makes, whatever the answers. *)
Fixpoint atMost {A} (P : authCall -> bool) (n : nat) (p : authProg A) : Prop :=
  match p with
  | Ret _ => True
  | Do e k => if P e then match n with
                          | 0%nat => False
                          | S n => forall r, atMost P n (k r)
                          end
              else forall r, atMost P n (k r)
  end.

Lemma atMost_weaken {A} P n m (p : authProg A) : (n <= m)%nat -> atMost P n p -> atMost P m p.
Proof.
  revert n m; induction p as [a|e k IH]; intros n m Hnm; cbn [atMost]; [done|].
  destruct (P e); [|eauto]. destruct n as [|n]; [done|]. destruct m as [|m]; [lia|].
  intros H r. eapply IH; [|apply H]. lia.
Qed.

Lemma atMost_bind {A B} P n m (p : authProg A) (f : A -> authProg B) :
  atMost P n p -> (forall a, atMost P m (f a)) -> atMost P (n + m) (bind p f).
Proof.
  intros Hp Hf. revert n Hp; induction p as [a|e k IH]; intros n; cbn [atMost bind].
  - intros _. eapply atMost_weaken; [|apply Hf]. lia.
  - destruct (P e); [|eauto]. destruct n as [|n]; [done|]. cbn. eauto.
Qed.

Lemma atMost_run {A} P n (p : authProg A) o h :
  atMost P n p -> (length (List.filter P (calls (run o h p).2)) <= n)%nat.
Proof.
  revert n h; induction p as [a|e k IH]; intros n h; cbn [atMost run]; [cbn; lia|].
  specialize (fun n => IH (o h e) n (h ++ [ev e (o h e)])).
  destruct (run o (h ++ [ev e (o h e)]) (k (o h e))) as [a t]. cbn in *. destruct (P e).
  - destruct n as [|n]; [done|]. intros H. cbn. apply le_n_S, (IH n (H _)).
  - intros H. apply (IH n (H _)).
Qed.

Section fetches.
Context (parseToken : gostring -> result gostring Token).
Context (verifies : RSAKey -> gostring -> gostring -> bool).
Context (validateClaims : Z -> list (gostring * claimValue) -> option gostring).
Context (unverifiable : gostring -> gostring).
Context (decodeJWKS : gostring -> result gostring (list JWK)).
Context (c : Client).

Lemma keyfunc_fetches force tok : atMost isFetch 1 (makeKeyfunc decodeJWKS c force tok).
Proof.
  unfold makeKeyfunc. destruct (negb _); [done|]. case_bool_decide; [done|].
  cbn [bind call atMost isFetch]. intros [key age].
  assert (forall f : option gostring -> authProg (result gostring RSAKey),
    (forall e, atMost isFetch 0 (f e)) -> atMost isFetch 1 (bind (refreshJWKS decodeJWKS c) f)) as Hr.
  { intros f Hf. unfold refreshJWKS. cbn [bind call atMost isFetch]. intros [t|code text]; [apply Hf|].
    case_bool_decide; [apply Hf|]. destruct (decodeJWKS text); cbn; auto. }
  assert (forall e, atMost isFetch 0 (match e with
      | Some t => Ret (Err ("workos: refresh jwks: " ++ t))
      | None =>
          let! key := call (RereadKey (tok_kid tok)) in
          match key with
          | None => Ret (Err ("workos: no key for kid=" ++ tok_kid tok ++ " after refresh"))
          | Some key => Ret (Ok key)
          end
      end : authProg (result gostring RSAKey))) as Hf by (intros [t|]; cbn; [done|by intros [k|]]).
  destruct key as [key|]; [|by apply Hr]. destruct (_ && _); [done|by apply Hr].
Qed.

Lemma parse_fetches force s :
  atMost isFetch 1 (jwtParse parseToken verifies validateClaims unverifiable
                      (makeKeyfunc decodeJWKS c force) s).
Proof.
  unfold jwtParse. destruct (parseToken s) as [tok|t]; [|done].
  apply (atMost_bind _ 1 0); [apply keyfunc_fetches|]. intros [key|t]; [|done].
  destruct (verifies _ _ _); [|done]. cbn. intros now. by destruct (validateClaims _ _).
Qed.

(** A validation fetches the keys at most twice. *)
Lemma ValidateSession_fetches s :
  atMost isFetch 2 (ValidateSession parseToken verifies validateClaims unverifiable decodeJWKS c s).
Proof.
  unfold ValidateSession. apply (atMost_bind _ 1 1); [apply parse_fetches|].
  intros [tok|e]; [done|]. destruct (_ || _); [|done].
  apply (atMost_bind _ 1 0); [apply parse_fetches|]. by intros [tok|e'].
Qed.
End fetches.

(** ** Schedules *)

(** Time and what WorkOS publishes, moved on. *)
Definition moved (d : Z * gostring) (w : world) : world :=
  mkWorld (Z.max d.1 (w_clock w)) (w_keys w) (w_fetched w) d.2 (w_tenants w)
    (w_fetches w) (w_writes w) (w_lookups w).

Lemma session_moved_drifts d w : drifts w (moved d w).
Proof. split; [cbn; lia|done]. Qed.

Definition answers (i : nat) (e : authCall) (w : world) : option (authR e * world) := Some (answer w e).

Lemma answers_performs i e w r w' : answers i e w = Some (r, w') -> performs i e w r w'.
Proof. intros [= H]. pose proof (session_answer_performs i w e) as Hp. by rewrite H in Hp. Qed.

(** ** A concrete setting *)

Module AuthDemo.

(** Two keys of one byte; a signature is the modulus it was made for. *)
Definition jwkA : JWK := mkJWK "RSA" "a" "AQ" "AQAB" "RS256" "sig".
Definition jwkB : JWK := mkJWK "RSA" "b" "Ag" "AQAB" "RS256" "sig".
Definition jwksOf (text : gostring) : result gostring (list JWK) :=
  if bool_decide (text = "old") then Ok [jwkA]
  else if bool_decide (text = "new") then Ok [jwkB] else Err "unexpected end of JSON input".

Definition tokenOf (kid sig org : gostring) : Token :=
  mkToken true "RS256" kid [("sub", VString "user_1"); ("org_id", VString org); ("exp", VNumber 9999)]
    "header.payload" sig.
Definition parse (s : gostring) : result gostring Token :=
  if bool_decide (s = "ta") then Ok (tokenOf "a" ["001"%char] "org_1")
  else if bool_decide (s = "tb") then Ok (tokenOf "b" ["002"%char] "org_1")
  else if bool_decide (s = "tz") then Ok (tokenOf "z" ["003"%char] "org_1")
  else Err "token is malformed".
Definition verify (key : RSAKey) (signed sig : gostring) : bool :=
  bool_decide (RSA_N key = setBytes sig).
Definition validate (now : Z) (mc : list (gostring * claimValue)) : option gostring :=
  match field "exp" mc with
  | Some (VNumber e) => if (now <? timeUnix e)%Z then None else Some "token is expired"
  | _ => None
  end.
Definition wrap (t : gostring) : gostring :=
  "token is unverifiable: error while executing keyfunc: " ++ t.
Definition client : Client := mkClient "sk" "client_1" ".neksur.com" "https://api.workos.com".

Definition validateSession : gostring -> authProg (result authErr Claims) :=
  ValidateSession parse verify validate wrap jwksOf client.

Definition start : world := initial 0 "old" [mkTenantRecord "org_1" "t1" active].

(** Request 0 fetches the old keys; WorkOS rotates; request 1 installs the new
    keys; request 0 goes on and installs the old ones, stamped later; an hour
    less a nanosecond after that, request 2. *)
Definition overlap : list (action gostring (Z * gostring)) :=
  [Arrive "ta"; Advance 0; Advance 0;
   Move (1%Z, "new" : gostring); Arrive "tb"; Advance 1; Advance 1; Advance 1; Advance 1; Advance 1;
   Move (2%Z, "new" : gostring); Advance 0; Advance 0; Advance 0;
   Move ((jwksTTL + 1)%Z, "new" : gostring); Arrive "ta"; Advance 2; Advance 2].

Definition reached : world * list (process authR world gostring (result authErr Claims)) :=
  fold_left (act validateSession moved answers) overlap (start, []).
End AuthDemo.

(** Two refreshes that overlap end with the older answer in the cache, stamped
    with the later time: a key that WorkOS withdrew before the last answer is
    accepted for a whole TTL after it, without another fetch. *)
Theorem overlapping_refreshes :
  exists w ps,
    rtc (istep performs drifts AuthDemo.validateSession) (AuthDemo.start, []) (w, ps) /\
    w_fetches w = [(0%Z, "old" : gostring); (1%Z, "new" : gostring)] /\
    installKeys [AuthDemo.jwkB] !! ("a" : gostring) = None /\
    w_clock w = (jwksTTL + 1)%Z /\
    exists q s claims, ps !! 2%nat = Some (mkProcess q s (Ret (Ok claims))) /\
      q = "ta" /\ w_clock s = (jwksTTL + 1)%Z /\ OrgID claims = "org_1".
Proof.
  exists AuthDemo.reached.1, AuthDemo.reached.2. split_and!.
  - rewrite <- surjective_pairing. apply actions_run; [apply session_moved_drifts|apply answers_performs].
  - by vm_compute.
  - by vm_compute.
  - by vm_compute.
  - do 3 eexists. split_and!; [vm_compute; reflexivity|done..].
Qed.

(** (C25) A rotation of the signing keys is picked up: whatever the cache holds, a
    token that verifies under a key WorkOS publishes now, with valid claims, is
    accepted by a request that meets no failure and runs alone, without a call of
    another request in between (a refresh that overlaps it can write an older
    answer over the one this request has just fetched, and the token is then
    refused); and no validation, in whatever environment and so under any
    interleaving, fetches the keys more than twice. *)
Theorem rotation_accepted
    (parseToken : gostring -> result gostring Token)
    (verifies : RSAKey -> gostring -> gostring -> bool)
    (validateClaims : Z -> list (gostring * claimValue) -> option gostring)
    (unverifiable : gostring -> gostring)
    (decodeJWKS : gostring -> result gostring (list JWK)) (c : Client) s tok w jwks key :
  parseToken s = Ok tok -> tok_rsa tok = true -> tok_kid tok <> [] ->
  decodeJWKS (w_published w) = Ok jwks -> installKeys jwks !! tok_kid tok = Some key ->
  verifies key (tok_signed tok) (tok_signature tok) = true ->
  validateClaims (w_clock w) (tok_claims tok) = None ->
  let validation := ValidateSession parseToken verifies validateClaims unverifiable decodeJWKS c s in
  (alone validation w).1 = Ok (extractClaims tok) /\
  forall o h, (length (List.filter isFetch (calls (run o h validation).2)) <= 2)%nat.
Proof.
  intros Hp Hr Hk Hd Hi Hv Hc validation. split.
  - by eapply published_key_accepted.
  - intros o h. apply atMost_run, ValidateSession_fetches.
Qed.

(** After a rotation: the cache has the old key, stamped just now. *)
Lemma rotation_accepted_witness :
  let w := mkWorld 5 (installKeys [AuthDemo.jwkA]) 4 "new" [] [] [] [] in
  let validation := AuthDemo.validateSession "tb" in
  (alone validation w).1 = Ok (mkClaims "user_1" [] 9999 "org_1") /\
  forall o h, (length (List.filter isFetch (calls (run o h validation).2)) <= 2)%nat.
Proof.
  apply (rotation_accepted AuthDemo.parse AuthDemo.verify AuthDemo.validate AuthDemo.wrap
           AuthDemo.jwksOf AuthDemo.client "tb" (AuthDemo.tokenOf "b" ["002"%char] "org_1") _
           [AuthDemo.jwkB] (mkRSAKey 2 65537)); vm_compute; first [reflexivity|discriminate].
Defined.
