(* ===== verification/Server.v ===== *)
(** * The server: routes and what stands in front of them

    cmd/neksur-server/main.go mounts the handlers: those of a tenant behind the
    middleware of [Auth], the administration behind its gate, the webhooks and
    the callback in the open; internal/billing is the Stripe webhook.  [serve]
    is a request from the router to its handler.  The tenants' handlers are
    those of [Gateway], [Lineage] and [Credvend], the Polaris webhook that of
    [Detect]: they are calls here. *)

From S2P Require Import Prelude Effects PolicyStore Tenant Auth.

(** ** Billing ([billing.go], [noop.go], [stripe_adapter.go], [webhook.go]) *)

Module Billing.

Record Config := mkConfig { Enabled : bool; APIKey : gostring; WebhookSecret : gostring }.

(** The two implementations of the interface. *)
Inductive Billing :=
  | noopBilling (webhookSecret : gostring)
  | stripeBilling (cfg : Config).

Definition NewBilling (cfg : Config) : Billing :=
  if negb (Enabled cfg) then noopBilling (WebhookSecret cfg) else stripeBilling cfg.

Inductive billingErr := ErrBillingDisabled | ErrInvalidSignature | NotYet.

(** [CreateSubscription], [CancelSubscription] and [RecordUsage] fail alike. *)
Definition CreateSubscription (b : Billing) : result billingErr gostring :=
  match b with noopBilling _ => Err ErrBillingDisabled | stripeBilling _ => Err NotYet end.
Definition CancelSubscription (b : Billing) : result billingErr unit :=
  match b with noopBilling _ => Err ErrBillingDisabled | stripeBilling _ => Err NotYet end.
Definition RecordUsage (b : Billing) : result billingErr unit :=
  match b with noopBilling _ => Err ErrBillingDisabled | stripeBilling _ => Err NotYet end.

Section webhook.
(** [webhook.ConstructEvent] of stripe-go, at a time: the event's type. *)
Context (ConstructEvent : gostring -> gostring -> gostring -> Z -> option gostring).

Definition HandleWebhook (b : Billing) (body sigHeader : gostring) : authProg (result billingErr unit) :=
  let secret := match b with noopBilling s => s | stripeBilling cfg => WebhookSecret cfg end in
  let! now := call Now in
  match ConstructEvent body sigHeader secret now with
  | None => Ret (Err ErrInvalidSignature)
  | Some _ => Ret (Ok tt)
  end.

Definition WebhookHandler (b : Billing) (r : Request) : authProg Response :=
  match readBody r with
  | None => Ret (httpError "" 400)
  | Some body =>
      let! e := HandleWebhook b body (headerGet "Stripe-Signature" r) in
      match e with
      | Err _ => Ret (httpError "" 400)
      | Ok _ => Ret (writeHeader 200)
      end
  end.
End webhook.
End Billing.

(** ** The router *)

Inductive route :=
  | ApiRoute | CommitRoute | TransactionRoute | LineageRoute | CredvendRoute
  | PolarisRoute | CallbackRoute | WorkOSRoute | StripeRoute | AdminRoute.

#[export] Instance route_eq_dec : EqDecision route.
Proof. solve_decision. Defined.

Inductive segment := Lit (s : gostring) | Wild.

(** A pattern of [http.ServeMux]: a method or any, the segments, and whether it
    ends in a slash and so covers what is below. *)
Record pattern := mkPattern {
  p_method : option gostring; p_segments : list segment; p_subtree : bool
}.

Definition routes : list (pattern * route) :=
  [(mkPattern None [Lit "api"] true, ApiRoute);
   (mkPattern (Some "POST") [Lit "v1"; Lit "iceberg"; Wild; Lit "namespaces"; Wild; Lit "tables"; Wild]
      false, CommitRoute);
   (mkPattern (Some "POST") [Lit "v1"; Lit "iceberg"; Wild; Lit "transactions"; Lit "commit"]
      false, TransactionRoute);
   (mkPattern (Some "POST") [Lit "v1"; Lit "lineage"] false, LineageRoute);
   (mkPattern (Some "POST") [Lit "v1"; Lit "credvend"; Lit "sts"] false, CredvendRoute);
   (mkPattern (Some "POST") [Lit "v1"; Lit "webhooks"; Lit "polaris"] false, PolarisRoute);
   (mkPattern None [Lit "callback"] false, CallbackRoute);
   (mkPattern None [Lit "webhooks"; Lit "workos"] false, WorkOSRoute);
   (mkPattern None [Lit "webhooks"; Lit "stripe"] false, StripeRoute);
   (mkPattern None [Lit "admin"] true, AdminRoute)].

Definition matchSegment (p : segment) (s : gostring) : bool :=
  match p with Lit l => bool_decide (l = s) | Wild => true end.

(** The segments against the path: what is left of it. *)
Fixpoint matchSegments (ps : list segment) (path : list gostring) : option (list gostring) :=
  match ps, path with
  | [], rest => Some rest
  | p :: ps, s :: path => if matchSegment p s then matchSegments ps path else None
  | _ :: _, [] => None
  end.

Definition matchPath (p : pattern) (path : list gostring) (slash : bool) : bool :=
  match matchSegments (p_segments p) path with
  | None => false
  | Some [] => Bool.eqb slash (p_subtree p)
  | Some (_ :: _) => p_subtree p
  end.

Definition matchMethod (p : pattern) (m : gostring) : bool :=
  match p_method p with None => true | Some m' => bool_decide (m' = m) end.

Inductive dispatched := Routed (rt : route) | MethodNotAllowed | RedirectToSlash | NotFound.

Fixpoint firstMatch {A B} (f : A -> bool) (l : list (A * B)) : option B :=
  match l with
  | [] => None
  | (a, b) :: l => if f a then Some b else firstMatch f l
  end.

(** [ServeMux.Handler] for a clean path. *)
Definition dispatch (r : Request) : dispatched :=
  match firstMatch (fun p => matchPath p (r_path r) (r_slash r) && matchMethod p (r_method r)) routes with
  | Some rt => Routed rt
  | None =>
      if negb (r_slash r)
         && existsb (fun e => matchPath e.1 (r_path r) true && matchMethod e.1 (r_method r)) routes
      then RedirectToSlash
      else if existsb (fun e => matchPath e.1 (r_path r) (r_slash r)) routes then MethodNotAllowed
      else NotFound
  end.

(** ** The handlers *)

Definition tenantRoute (rt : route) : bool :=
  match rt with
  | ApiRoute | CommitRoute | TransactionRoute | LineageRoute | CredvendRoute => true
  | _ => false
  end.

Record serverConfig := mkServerConfig {
  client : Client; webhookSecret : gostring; billing : Billing.Billing; internalAdminOrgID : gostring
}.

Section server.
Context (parseToken : gostring -> result gostring Token).
Context (verifies : RSAKey -> gostring -> gostring -> bool).
Context (validateClaims : Z -> list (gostring * claimValue) -> option gostring).
Context (unverifiable : gostring -> gostring).
Context (decodeJWKS : gostring -> result gostring (list JWK)).
Context (ValidatePayload : gostring -> gostring -> gostring -> Z -> bool).
Context (decodeEvent : gostring -> option gostring).
Context (ConstructEvent : gostring -> gostring -> gostring -> Z -> option gostring).

(** [/callback]: the code for a session cookie. *)
Definition sessionCookie (c : Client) (s : Session) : Cookie :=
  mkCookie CookieName (AccessToken s) true true SameSiteLax (cookieDomain c) "/" (7 * 24 * 3600).

(** [http.Redirect]; a GET has a small page. *)
Definition redirect (r : Request) (url text : gostring) (code : Z) (cookie : option Cookie) : Response :=
  mkResponse code
    (if bool_decide (r_method r = "GET")
     then "<a href=" ++ [dquote] ++ url ++ [dquote] ++ ">" ++ text ++ "</a>." ++ eol ++ eol else [])
    url cookie.

Definition callback (c : Client) (r : Request) : authProg Response :=
  let code := queryGet "code" r in
  if bool_decide (code = []) then Ret (httpError "missing code" 400)
  else
    let! sess := AuthenticateWithCode parseToken code in
    match sess with
    | None => Ret (httpError "authenticate failed" 401)
    | Some sess => Ret (redirect r "/" "Found" 302 (Some (sessionCookie c sess)))
    end.

Definition handle (cfg : serverConfig) (rt : route) (r : Request) : authProg Response :=
  match rt with
  | ApiRoute | CommitRoute | TransactionRoute | LineageRoute | CredvendRoute =>
      TenantMiddleware parseToken verifies validateClaims unverifiable decodeJWKS (client cfg) r
  | PolarisRoute => call (ServeOpen r)
  | CallbackRoute => callback (client cfg) r
  | WorkOSRoute => HandleWebhook ValidatePayload decodeEvent (webhookSecret cfg) r
  | StripeRoute => Billing.WebhookHandler ConstructEvent (billing cfg) r
  | AdminRoute =>
      AdminOrgGate parseToken verifies validateClaims unverifiable decodeJWKS (client cfg)
        (internalAdminOrgID cfg) r
  end.

Definition serve (cfg : serverConfig) (r : Request) : authProg Response :=
  match dispatch r with
  | Routed rt => handle cfg rt r
  | MethodNotAllowed => Ret (httpError "Method Not Allowed" 405)
  | RedirectToSlash =>
      Ret (redirect r ("/" ++ join "/" (r_path r) ++ "/") "Moved Permanently" 301 None)
  | NotFound => Ret (httpError "404 page not found" 404)
  end.

(** The placeholder behind [/api/], in the context of the middleware. *)
Definition apiHandler (tenant : option gostring) : Response :=
  match tenant with
  | None => httpError "tenant missing" 500
  | Some tid => mkResponse 200 ("ok tenant=" ++ tid) [] None
  end.
End server.
