(* ===== verification/ServerSpec.v ===== *)
(** * The server: who reaches which handler

    Over the interleaved runs of [Server.serve]: a tenant's handler is reached
    only on a tenant's route, by a session of the tenant's organization
    ([tenant_requests_authenticated]); the administration only by a session of
    the internal organization; a webhook does nothing before its signature is
    checked; the routes do not overlap. *)

From stdpp Require Import relations.
From S2P Require Import Prelude Effects Interleave PolicyStore Tenant Auth AuthSpec Server.
From Stdlib Require Import Lia.
#[local] Open Scope go_scope.

(** ** The calls of each handler *)

Definition plain (e : authCall) : bool :=
  match e with Serve _ _ | ServeAdmin _ | ServeOpen _ | WriteKeys _ => false | _ => true end.
Definition notOpen (e : authCall) : bool :=
  match e with ServeAdmin _ | ServeOpen _ => false | _ => true end.
Definition notTenant (e : authCall) : bool :=
  match e with Serve _ _ | ServeOpen _ => false | _ => true end.
Definition inner (e : authCall) : bool :=
  match e with Serve _ _ | ServeAdmin _ | ServeOpen _ => false | _ => true end.

(** A call that a handler on the route may make. *)
Definition routeCall (d : dispatched) (e : authCall) : Prop :=
  match e with
  | Serve _ _ => exists rt, d = Routed rt /\ tenantRoute rt = true
  | ServeAdmin _ => d = Routed AdminRoute
  | ServeOpen _ => d = Routed PolarisRoute
  | _ => True
  end.

Section calls.
Context (parseToken : gostring -> result gostring Token).
Context (verifies : RSAKey -> gostring -> gostring -> bool).
Context (validateClaims : Z -> list (gostring * claimValue) -> option gostring).
Context (unverifiable : gostring -> gostring).
Context (decodeJWKS : gostring -> result gostring (list JWK)).
Context (c : Client).

Lemma refresh_inner : only inner (refreshJWKS decodeJWKS c).
Proof.
  unfold refreshJWKS. cbn. split; [done|]. intros [t|code text]; [done|].
  case_bool_decide; [done|]. by destruct (decodeJWKS text).
Qed.

Lemma keyfunc_inner force tok : only inner (makeKeyfunc decodeJWKS c force tok).
Proof.
  unfold makeKeyfunc. destruct (negb _); [done|]. case_bool_decide; [done|].
  cbn. split; [done|]. intros [key age].
  assert (only inner (let! e := refreshJWKS decodeJWKS c in
    match e with
    | Some t => Ret (Err ("workos: refresh jwks: " ++ t))
    | None =>
        let! key := call (RereadKey (tok_kid tok)) in
        match key with
        | None => Ret (Err ("workos: no key for kid=" ++ tok_kid tok ++ " after refresh"))
        | Some key => Ret (Ok key)
        end
    end : authProg (result gostring RSAKey))) as Hin.
  { apply only_bind; [apply refresh_inner|]. intros [t|]; cbn; [done|]. split; [done|by intros [k|]]. }
  destruct key as [key|]; [|done]. by destruct (_ && _).
Qed.

Lemma parse_inner force s :
  only inner (jwtParse parseToken verifies validateClaims unverifiable (makeKeyfunc decodeJWKS c force) s).
Proof.
  unfold jwtParse. destruct (parseToken s) as [tok|t]; [|done].
  apply only_bind; [apply keyfunc_inner|]. intros [key|t]; [|done].
  destruct (verifies _ _ _); [|done]. cbn. split; [done|]. intros now. by destruct (validateClaims _ _).
Qed.

Lemma LoadSession_inner r :
  only inner (LoadSession parseToken verifies validateClaims unverifiable decodeJWKS c r).
Proof.
  unfold LoadSession. destruct (lookupFirst _ _) as [s|]; [|done]. case_bool_decide; [done|].
  apply only_bind; [|by intros [cl|e]]. unfold ValidateSession.
  apply only_bind; [apply parse_inner|]. intros [tok|e]; [done|]. destruct (_ || _); [|done].
  apply only_bind; [apply parse_inner|]. by intros [tok|e'].
Qed.

Lemma TenantMiddleware_calls r :
  only notOpen (TenantMiddleware parseToken verifies validateClaims unverifiable decodeJWKS c r).
Proof.
  unfold TenantMiddleware. apply only_bind.
  - eapply only_weaken; [|apply LoadSession_inner]. by intros [].
  - intros [s|e]; [|done]. case_bool_decide; [done|].
    cbn. split; [done|]. intros [| |id]; cbn; [done|done|]. by case_bool_decide.
Qed.

Lemma AdminOrgGate_calls internal r :
  only notTenant (AdminOrgGate parseToken verifies validateClaims unverifiable decodeJWKS c internal r).
Proof.
  unfold AdminOrgGate. case_bool_decide; [done|]. apply only_bind.
  - unfold LoadSessionOrgID. apply only_bind; [|by intros [s|e]].
    eapply only_weaken; [|apply LoadSession_inner]. by intros [].
  - intros [org|e]; [|done]. by case_bool_decide.
Qed.
End calls.

(** ** Routes *)

(** Two patterns that differ in a literal at some position. *)
Fixpoint clash (ps ps' : list segment) : bool :=
  match ps, ps' with
  | Lit a :: ps, Lit b :: ps' => negb (bool_decide (a = b)) || clash ps ps'
  | _ :: ps, _ :: ps' => clash ps ps'
  | _, _ => false
  end.

Lemma clash_no_match ps ps' path :
  clash ps ps' = true -> is_Some (matchSegments ps path) -> is_Some (matchSegments ps' path) -> False.
Proof.
  revert ps' path; induction ps as [|x ps IH]; intros [|y ps'] [|a path]; cbn [clash];
    try (by (intros; by destruct_and?)); cbn [matchSegments]; try (by intros _ [? [=]]).
  - by destruct x.
  - intros Hc Hx Hy. destruct (matchSegment x a) eqn:Ex; [|by destruct Hx].
    destruct (matchSegment y a) eqn:Ey; [|by destruct Hy].
    eapply (IH ps' path); [|done..]. destruct x as [x|], y as [y|]; try done.
    cbn in Ex, Ey. apply bool_decide_eq_true in Ex, Ey. subst.
    by rewrite bool_decide_eq_true_2 in Hc.
Qed.

Lemma matchPath_segments p path slash :
  matchPath p path slash = true -> is_Some (matchSegments (p_segments p) path).
Proof. unfold matchPath. by destruct (matchSegments _ _). Qed.

(** At most one route takes a path: the order of registration, and which
    pattern is more specific, do not matter. *)
Lemma routes_disjoint path slash p rt p' rt' :
  (p, rt) ∈ routes -> (p', rt') ∈ routes ->
  matchPath p path slash = true -> matchPath p' path slash = true -> rt = rt'.
Proof.
  intros Hp Hp' Hm Hm'.
  assert (forallb (fun e => forallb (fun e' => bool_decide (e.2 = e'.2)
            || clash (p_segments e.1) (p_segments e'.1)) routes) routes = true) as Hall
    by (vm_compute; reflexivity).
  rewrite forallb_forall in Hall. specialize (Hall (p, rt)).
  rewrite forallb_forall in Hall. rewrite <- list_elem_of_In in Hall.
  specialize (Hall Hp (p', rt')). rewrite <- list_elem_of_In in Hall. specialize (Hall Hp').
  apply orb_true_iff in Hall as [H%bool_decide_eq_true|H]; [done|]. exfalso.
  eapply clash_no_match; [exact H|by eapply matchPath_segments..].
Qed.

Lemma firstMatch_elem {A B} (f : A -> bool) (l : list (A * B)) b :
  firstMatch f l = Some b -> exists a, (a, b) ∈ l /\ f a = true.
Proof.
  induction l as [|[a b'] l IH]; cbn [firstMatch]; [done|]. destruct (f a) eqn:Hf.
  - intros [= <-]. exists a. split; [by left|done].
  - intros H. destruct (IH H) as (a'&H1&H2). exists a'. split; [by right|done].
Qed.

(** ** Safety of the server *)

Section server.
Context (parseToken : gostring -> result gostring Token).
Context (verifies : RSAKey -> gostring -> gostring -> bool).
Context (validateClaims : Z -> list (gostring * claimValue) -> option gostring).
Context (unverifiable : gostring -> gostring).
Context (decodeJWKS : gostring -> result gostring (list JWK)).
Context (ValidatePayload : gostring -> gostring -> gostring -> Z -> bool).
Context (decodeEvent : gostring -> option gostring).
Context (ConstructEvent : gostring -> gostring -> gostring -> Z -> option gostring).
Context (cfg : serverConfig).

#[local] Abbreviation serve :=
  (serve parseToken verifies validateClaims unverifiable decodeJWKS ValidatePayload decodeEvent
     ConstructEvent cfg).
#[local] Abbreviation sound := (sound decodeJWKS).
#[local] Abbreviation session := (session parseToken verifies validateClaims).
#[local] Abbreviation mayCall :=
  (mayCall parseToken verifies validateClaims (internalAdminOrgID cfg)).

Definition serverPre (r : Request) (s : world) (e : authCall) (w : world) : Prop :=
  mayCall r (w_clock s) e w /\ routeCall (dispatch r) e.

Definition done_ (r : Request) (s w : world) (a : Response) : Prop := True.

Lemma safe_plain {A} r t0 i (p : authProg A) w :
  only plain p ->
  safe performs sound evolves i (mayCall r t0) (fun _ _ => True) p w.
Proof.
  revert w; induction p as [a|e k IH]; intros w; cbn [only]; [done|].
  intros [He Hk]. apply (safe_call parseToken verifies validateClaims unverifiable decodeJWKS).
  - by intros m ->.
  - intros w' _ _. by destruct e.
  - intros w1 x w2 _ _ _ _ _ _. apply IH, Hk.
Qed.

Lemma callback_plain c r : only plain (callback parseToken c r).
Proof.
  unfold callback. case_bool_decide; [done|]. cbn. split; [done|]. intros [a|]; [|done].
  cbn. split; [done|]. intros now. done.
Qed.

Lemma webhook_plain secret r : only plain (HandleWebhook ValidatePayload decodeEvent secret r).
Proof.
  unfold HandleWebhook. destruct (readBody r) as [b|]; [|done]. cbn. split; [done|].
  intros now. destruct (negb _); [done|]. cbn. split; [done|]. intros scim.
  case_bool_decide; [done|]. by destruct (decodeEvent b).
Qed.

Lemma stripe_plain b r : only plain (Billing.WebhookHandler ConstructEvent b r).
Proof.
  unfold Billing.WebhookHandler. destruct (readBody r) as [body|]; [|done].
  unfold Billing.HandleWebhook. cbn. split; [done|]. intros now.
  by destruct (ConstructEvent _ _ _ _).
Qed.

Lemma safe_weaken {A} i (pre pre' : authCall -> world -> Prop) (P : authCall -> bool)
    (p : authProg A) w :
  (forall e w, pre e w -> P e = true -> pre' e w) ->
  only P p ->
  safe performs sound evolves i pre (fun _ _ => True) p w ->
  safe performs sound evolves i pre' (fun _ _ => True) p w.
Proof.
  intros Hpre Hp Hs. pose proof (safe_only performs sound evolves i pre _ P p w Hp Hs) as H.
  revert H. apply safe_mono; [|done].
  intros w1 e _ [H1 H2]. auto.
Qed.

Lemma serve_safe i r w :
  sound w -> safe performs sound evolves i (serverPre r w) (done_ r w) (serve r) w.
Proof.
  intros Hw. unfold Server.serve, serverPre. destruct (dispatch r) as [rt| | |] eqn:Hd; [|done..].
  assert (forall rt' : route, rt' = rt -> Routed rt = Routed rt') as Hrt by (by intros rt' ->).
  destruct rt; cbn [handle].
  1-5: (apply (safe_weaken i (mayCall r (w_clock w)) _ notOpen);
    [|apply TenantMiddleware_calls|by apply safe_TenantMiddleware];
    intros e w' H1 H2; split; [done|]; destruct e; try done; by eexists).
  - cbn [call safe]. intros w1 _ Hs1. split; [done|]. intros a w2 Hp. cbn in Hp. subst w2.
    split_and!; [done|reflexivity|done].
  - apply (safe_weaken i (mayCall r (w_clock w)) _ plain);
      [|apply callback_plain|apply safe_plain, callback_plain].
    intros e w' H1 H2. split; [done|]. by destruct e.
  - apply (safe_weaken i (mayCall r (w_clock w)) _ plain);
      [|apply webhook_plain|apply safe_plain, webhook_plain].
    intros e w' H1 H2. split; [done|]. by destruct e.
  - apply (safe_weaken i (mayCall r (w_clock w)) _ plain);
      [|apply stripe_plain|apply safe_plain, stripe_plain].
    intros e w' H1 H2. split; [done|]. by destruct e.
  - apply (safe_weaken i (mayCall r (w_clock w)) _ notTenant);
      [|apply AdminOrgGate_calls|by apply safe_AdminOrgGate].
    intros e w' H1 H2. split; [done|]. by destruct e.
Qed.
End server.

(** ** Who reaches which handler *)

Lemma initial_sound decodeJWKS now published ts :
  (zeroTime <= now)%Z -> sound decodeJWKS (initial now published ts).
Proof. intros Hn. split; cbn; [done|by left|by intros tw m ?%elem_of_nil|by intros tf t ?%elem_of_nil]. Qed.

Section reached.
Context (parseToken : gostring -> result gostring Token).
Context (verifies : RSAKey -> gostring -> gostring -> bool).
Context (validateClaims : Z -> list (gostring * claimValue) -> option gostring).
Context (unverifiable : gostring -> gostring).
Context (decodeJWKS : gostring -> result gostring (list JWK)).
Context (ValidatePayload : gostring -> gostring -> gostring -> Z -> bool).
Context (decodeEvent : gostring -> option gostring).
Context (ConstructEvent : gostring -> gostring -> gostring -> Z -> option gostring).
Context (cfg : serverConfig).
Context (now : Z) (published : gostring) (ts : list tenantRecord).
Context (w : world) (ps : list (process authR world Request Response)).

(** A state the server reaches, with any number of requests in flight. *)
Definition serverReaches : Prop :=
  (zeroTime <= now)%Z /\
  rtc (istep performs drifts
         (serve parseToken verifies validateClaims unverifiable decodeJWKS ValidatePayload
            decodeEvent ConstructEvent cfg))
    (initial now published ts, []) (w, ps).

Lemma reached_calls i r s e k :
  serverReaches -> ps !! i = Some (mkProcess r s (Do e k)) ->
  sound decodeJWKS w /\ serverPre parseToken verifies validateClaims cfg r s e w.
Proof.
  intros [Hn Hr] Hp. pose proof (initial_sound decodeJWKS now published ts Hn) as H0. split.
  - refine (reachable_inv performs drifts _ (sound decodeJWKS) evolves
              (fun _ => serverPre parseToken verifies validateClaims cfg) (fun _ => done_)
              (fun _ _ => True) (drifts_evolves parseToken verifies validateClaims unverifiable decodeJWKS) _
              (fun _ _ _ _ H => H) _ w ps H0 (fun _ => I) Hr).
    intros j q w' Hw _. by apply serve_safe.
  - refine (calling performs drifts _ (sound decodeJWKS) evolves
              (fun _ => serverPre parseToken verifies validateClaims cfg) (fun _ => done_)
              (fun _ _ => True) (drifts_evolves parseToken verifies validateClaims unverifiable decodeJWKS) _
              (fun _ _ _ _ H => H) _ w ps i r s e k H0 (fun _ => I) Hr Hp).
    intros j q w' Hw _. by apply serve_safe.
Qed.

(** (C21) A tenant's handler runs only for that tenant's users: in every state the
    server reaches, with requests interleaved at will and WorkOS rotating its
    keys, a request about to enter a tenant's handler came on a tenant's route
    with a cookie whose token verifies under a key WorkOS had published and whose
    claims are valid at a moment of the request; the key had been in the cache
    for less than the TTL or since the request began; and the tenant is the
    active or suspended one of the token's organization at a moment of the
    request. *)
Theorem tenant_requests_authenticated i r s id r' k :
  serverReaches -> ps !! i = Some (mkProcess r s (Do (Serve id r') k)) ->
  r' = r /\ (exists rt, dispatch r = Routed rt /\ tenantRoute rt = true) /\
  (exists org user, org <> [] /\
     session parseToken verifies validateClaims (w_clock s) w r org user /\
     tenantOf (w_clock s) w org id) /\
  forall tw m, (tw, m) ∈ w_writes w -> (tw <= w_clock w)%Z /\ fromWorkOS decodeJWKS w tw m.
Proof.
  intros Hr Hp. destruct (reached_calls _ _ _ _ _ Hr Hp) as [Hs [[-> H1] H2]].
  split_and!; [done|done|done|apply Hs].
Qed.

(** (C24) The administration is reached only by a valid session of the internal
    organization, which must be configured. *)
Theorem admin_requests_authorized i r s r' k :
  serverReaches -> ps !! i = Some (mkProcess r s (Do (ServeAdmin r') k)) ->
  r' = r /\ dispatch r = Routed AdminRoute /\ internalAdminOrgID cfg <> [] /\
  exists user, session parseToken verifies validateClaims (w_clock s) w r (internalAdminOrgID cfg) user.
Proof.
  intros Hr Hp. destruct (reached_calls _ _ _ _ _ Hr Hp) as [_ [[-> [H1 H2]] H3]].
  by split_and!.
Qed.
End reached.

(** ** A concrete server *)

Module ServerDemo.

Definition config : serverConfig :=
  mkServerConfig AuthDemo.client "whsec" (Billing.NewBilling (Billing.mkConfig false [] "whsec"))
    "org_staff".

Definition payloadOk (secret header body : gostring) (now : Z) : bool := bool_decide (header = secret).
Definition someEvent (body : gostring) : option gostring := Some "dsync.user.created".
Definition stripeEvent (body sig secret : gostring) (now : Z) : option gostring :=
  if bool_decide (sig = secret) then Some "invoice.payment_failed" else None.

Definition parse (s : gostring) : result gostring Token :=
  if bool_decide (s = "tstaff") then Ok (AuthDemo.tokenOf "a" ["001"%char] "org_staff")
  else AuthDemo.parse s.

Definition serveDemo : Request -> authProg Response :=
  serve parse AuthDemo.verify AuthDemo.validate AuthDemo.wrap AuthDemo.jwksOf payloadOk someEvent
    stripeEvent config.

Definition get (path : list gostring) (cookie : gostring) : Request :=
  mkRequest "POST" path false [] [(CookieName, cookie)] [] [].

(** A lineage event of a suspended tenant and a visit of the staff, interleaved;
    both stand before their handlers. *)
Definition visits : list (action Request (Z * gostring)) :=
  [Arrive (get ["v1"; "lineage"] "ta"); Advance 0; Advance 0;
   Arrive (get ["admin"; "tenants"] "tstaff"); Advance 1; Advance 1; Advance 1;
   Advance 0; Advance 0; Advance 0; Advance 0; Move (7%Z, "new" : gostring); Advance 1; Advance 1].

Definition rows : list tenantRecord := [mkTenantRecord "org_1" "t1" suspended].

Definition reached : world * list (process authR world Request Response) :=
  fold_left (act serveDemo moved answers) visits (initial 0 "old" rows, []).

Lemma visits_reach :
  serverReaches parse AuthDemo.verify AuthDemo.validate AuthDemo.wrap AuthDemo.jwksOf payloadOk
    someEvent stripeEvent config 0 "old" rows reached.1 reached.2.
Proof.
  split; [done|]. rewrite <- surjective_pairing.
  apply actions_run; [apply session_moved_drifts|apply answers_performs].
Qed.

Lemma tenant_requests_authenticated_witness :
  dispatch (get ["v1"; "lineage"] "ta") = Routed LineageRoute /\
  exists org user, org <> [] /\
    session parse AuthDemo.verify AuthDemo.validate 0 reached.1 (get ["v1"; "lineage"] "ta") org user /\
    tenantOf 0 reached.1 org "t1".
Proof.
  split; [reflexivity|].
  refine (proj1 (proj2 (proj2 (tenant_requests_authenticated parse AuthDemo.verify AuthDemo.validate
    AuthDemo.wrap AuthDemo.jwksOf payloadOk someEvent stripeEvent config 0 "old" rows reached.1
    reached.2 0 (get ["v1"; "lineage"] "ta") (initial 0 "old" rows) "t1" (get ["v1"; "lineage"] "ta")
    (fun r => Ret r) visits_reach _)))).
  vm_compute. reflexivity.
Defined.

Lemma admin_requests_authorized_witness :
  exists r s, (fun o => o = Some (get ["admin"; "tenants"] "tstaff", s, ServeAdmin r))
    (match reached.2 !! 1%nat with
     | Some (mkProcess q s (Do e k)) => Some (q, s, e)
     | _ => None
     end) /\
    exists user, session parse AuthDemo.verify AuthDemo.validate (w_clock s) reached.1 r "org_staff" user.
Proof.
  eexists _, _. split; [vm_compute; reflexivity|].
  refine (proj2 (proj2 (proj2 (admin_requests_authorized parse AuthDemo.verify AuthDemo.validate
    AuthDemo.wrap AuthDemo.jwksOf payloadOk someEvent stripeEvent config 0 "old" rows reached.1
    reached.2 1 (get ["admin"; "tenants"] "tstaff") _ (get ["admin"; "tenants"] "tstaff")
    (fun r => Ret r) visits_reach _)))).
  vm_compute. reflexivity.
Defined.
End ServerDemo.
