(* ===== verification/Boot.v ===== *)
(** * The server's boot

    cmd/neksur-server/main.go: [main], [runWithObservability] and
    [runWithSaasAuth], with the modules of the commercial and enterprise builds
    (main_commercial.go, main_enterprise.go) and the size check of
    internal/crypto/kms.  What is constructed, read, started in the background
    or listened on is a call; a constructor answers whether it worked. *)

From S2P Require Import Prelude Effects License Gateway.
#[local] Open Scope go_scope.

(** The build tags. *)
Inductive build := Core | Commercial | Enterprise.

Definition requiresLicense (b : build) : bool := match b with Core => false | _ => true end.
Definition requiredLicenseTier (b : build) : gostring :=
  match b with Core => "" | Commercial => "commercial" | Enterprise => "enterprise" end.

(** What a constructor builds. *)
Inductive part :=
  | LicenseWatcher (path : gostring)
  | PoolConfig (dsn : gostring) | Pool | WorkOSClient | GraphClient (dsn : gostring)
  | CelEnv | CelCompiler (size : Z) | PolicyCompiler
  | SqlProxyCache (size : Z) | SqlInjector (engine : gostring)
  | CertWatcher | TLSConfig | SqlServer
  | CredCache (size : Z) | LruCache (size : Z) | AwsConfig | TraceExporter.

Inductive service :=
  | LicenseReload | TriggerListen | CertReload | SqlProxyTLS (addr : gostring)
  | DispatchPool | Poller | S3Consumer (queue tenant : gostring) | Shutdown
  | SchemaBroadcaster | VerifierSampler | VerifierMirror.

Inductive serverEnd := Closed | ListenFailed.
Inductive metricsEnd := ContextDone | MetricsFailed.

Inductive bootCall :=
  | Getenv (name : gostring)
  | ReadFile (path : gostring)
  | VerifyLicense (bytes : gostring)          (* the tier of a valid licence *)
  | SetManifest
  | Construct (p : part)
  | FeatureAllowed (feature : gostring)       (* a module's store is constructed *)
  | Background (s : service)
  | RunMetrics (addr : gostring)
  | ListenAndServe (addr : gostring) (deps : Deps)
  | PrintUsage (toStdout : bool).

Definition bootR (c : bootCall) : Type :=
  match c with
  | Getenv _ => gostring
  | ReadFile _ => option gostring
  | VerifyLicense _ => option gostring
  | SetManifest => unit
  | Construct _ => bool
  | FeatureAllowed _ => bool
  | Background _ => unit
  | RunMetrics _ => metricsEnd
  | ListenAndServe _ _ => serverEnd
  | PrintUsage _ => unit
  end.

Abbreviation bootProg := (prog bootR).

(** A function returns an error or not, or the process exits. *)
Inductive ended := Returned (err : option gostring) | Exited (code : Z).

Definition orDefault (s d : gostring) : gostring := if bool_decide (s = []) then d else s.

(** [v, err := New(...); if err != nil { return ... }]. *)
Definition require (p : part) (e : gostring) (k : bootProg ended) : bootProg ended :=
  let! ok := call (Construct p) in
  if ok : bool then k else Ret (Returned (Some e)).

Definition background (s : service) (k : bootProg ended) : bootProg ended :=
  let! _ := call (Background s) in k.

(** ** The modules of the paid builds *)

(** [initCommercialModules] and [initEnterpriseModules] take the dependencies by
    value: what they assign is their own copy. *)
Definition startCommercialModules (deps : Deps) : bootProg unit :=
  let! broadcaster := call (FeatureAllowed "schema_cache_broadcaster") in
  let! _ := if broadcaster : bool then call (Background SchemaBroadcaster) else Ret tt in
  let! wcStore := call (FeatureAllowed "write_conflict") in
  let deps := if wcStore : bool then mkDeps true (hasPartitionSpecStore deps) else deps in
  let! sampler := call (FeatureAllowed "continuous_verifier") in
  let! _ := if sampler : bool then call (Background VerifierSampler) else Ret tt in
  let! mirror := call (FeatureAllowed "continuous_verifier") in
  if mirror : bool then call (Background VerifierMirror) else Ret tt.

Definition initCommercialModules (b : build) (deps : Deps) : bootProg unit :=
  match b with Core => Ret tt | _ => startCommercialModules deps end.

Definition initEnterpriseModules (b : build) (deps : Deps) : bootProg unit :=
  match b with
  | Enterprise =>
      let! psStore := call (FeatureAllowed "partition_spec_versioning") in
      let deps := if psStore : bool then mkDeps (hasWriteConflictStore deps) true else deps in
      let! coord := call (FeatureAllowed "compaction_coordination") in
      Ret tt
  | _ => Ret tt
  end.

(** ** Key management's cache ([NewBatchCache]) *)

(** The cache is made with the size given; [lru.New] refuses a size that is not
    positive. *)
Definition NewBatchCache (size : Z) (k : bootProg ended) : bootProg ended :=
  require (LruCache size) "kms batch cache" k.

(** ** [runWithSaasAuth] *)

Definition defaultLicensePath : gostring := "/etc/neksur/license.json".

(** The licence of a paid build; the process exits without one. *)
Definition licenseGate (b : build) (k : bootProg ended) : bootProg ended :=
  let! path := call (Getenv "NEKSUR_LICENSE_PATH") in
  let licensePath := orDefault path defaultLicensePath in
  if negb (requiresLicense b) then k
  else
    let! manifestBytes := call (ReadFile licensePath) in
    match manifestBytes with
    | None => Ret (Exited 1)
    | Some bytes =>
        let! manifest := call (VerifyLicense bytes) in
        match manifest with
        | None => Ret (Exited 1)
        | Some tier =>
            if negb (tierCovers tier (requiredLicenseTier b)) then Ret (Exited 1)
            else
              let! _ := call SetManifest in
              let! lw := call (Construct (LicenseWatcher licensePath)) in
              if lw : bool then background LicenseReload k else k
        end
    end.

(** The SQL proxy's listener, when the three paths are set. *)
Definition sqlProxy (k : bootProg ended) : bootProg ended :=
  require (SqlProxyCache 4096) "sqlproxy cache" (
  require (SqlInjector "trino") "sqlproxy build trino" (
  require (SqlInjector "spark") "sqlproxy build spark" (
  require (SqlInjector "dremio") "sqlproxy build dremio" (
  let! certPath := call (Getenv "NEKSUR_TLS_CERT_PATH") in
  let! keyPath := call (Getenv "NEKSUR_TLS_KEY_PATH") in
  let! caBundlePath := call (Getenv "NEKSUR_CA_BUNDLE_PATH") in
  let! addr := call (Getenv "NEKSUR_SQLPROXY_ADDR") in
  let sqlProxyAddr := orDefault addr ":8443" in
  if bool_decide (certPath = []) || bool_decide (keyPath = []) || bool_decide (caBundlePath = [])
  then k
  else
    require CertWatcher "sqlproxy cert watcher" (
    background CertReload (
    require TLSConfig "sqlproxy tls config" (
    require SqlServer "sqlproxy.NewServer" (
    background (SqlProxyTLS sqlProxyAddr) k)))))))).

(** The consumer of storage events, when a queue is set; its configuration's
    failure is the boot's. *)
Definition s3Events (k : bootProg ended) : bootProg ended :=
  let! queueURL := call (Getenv "NEKSUR_S3_EVENTS_QUEUE_URL") in
  if bool_decide (queueURL = []) then k
  else
    let! s3TenantID := call (Getenv "NEKSUR_S3_EVENTS_TENANT_ID") in
    if bool_decide (s3TenantID = []) then k
    else require AwsConfig "aws config" (background (S3Consumer queueURL s3TenantID) k).

(** From the router to the end: the configuration of the open handlers is read,
    the server listens until it is closed. *)
Definition serveForever (gatewayDeps : Deps) : bootProg ended :=
  let! _ := call (Getenv "NEKSUR_SLACK_WEBHOOK_URL") in
  let! dispatchBuffer := call (Getenv "NEKSUR_L3_DISPATCH_BUFFER") in
  background DispatchPool (
  background Poller (
  s3Events (
  let! stripeWebhookSecret := call (Getenv "STRIPE_WEBHOOK_SECRET") in
  let! billingEnabled := call (Getenv "BILLING_ENABLED") in
  let! stripeKey := call (Getenv "STRIPE_API_KEY") in
  let! internalAdminOrgID := call (Getenv "WORKOS_INTERNAL_ADMIN_ORG_ID") in
  let! pagerduty := call (Getenv "PAGERDUTY_SERVICE_ID") in
  let! addr := call (Getenv "NEKSUR_LISTEN_ADDR") in
  background Shutdown (
  let! e := call (ListenAndServe (orDefault addr ":8080") gatewayDeps) in
  match e with
  | Closed => Ret (Returned None)
  | ListenFailed => Ret (Returned (Some "listen"))
  end)))).

Definition runWithSaasAuth (b : build) : bootProg ended :=
  licenseGate b (
  let! dsn := call (Getenv "DATABASE_URL") in
  if bool_decide (dsn = []) then
    Ret (Returned (Some "DATABASE_URL must be set when NEKSUR_SAAS_AUTH=1"))
  else
  let! apiKey := call (Getenv "WORKOS_API_KEY") in
  let! clientID := call (Getenv "WORKOS_CLIENT_ID") in
  let! webhookSecret := call (Getenv "WORKOS_WEBHOOK_SECRET") in
  if bool_decide (apiKey = []) || bool_decide (clientID = []) || bool_decide (webhookSecret = [])
  then Ret (Returned (Some "WORKOS_API_KEY + WORKOS_CLIENT_ID + WORKOS_WEBHOOK_SECRET required when NEKSUR_SAAS_AUTH=1"))
  else
  require (PoolConfig dsn) "pgxpool.ParseConfig" (
  require Pool "pgxpool.NewWithConfig" (
  require WorkOSClient "workos.NewClient" (
  require (GraphClient dsn) "graph.NewGraphClient" (
  require CelEnv "cel.NewEnv" (
  require (CelCompiler 0) "cel.NewCompiler" (
  let gatewayDeps := mkDeps false false in
  let! _ := initCommercialModules b gatewayDeps in
  let! _ := initEnterpriseModules b gatewayDeps in
  require PolicyCompiler "compiler.NewCompiler" (
  background TriggerListen (
  sqlProxy (
  require (CredCache 0) "credvend cache" (
  NewBatchCache 0 (
  serveForever gatewayDeps)))))))))))).

(** ** [runWithObservability] and [main] *)

Definition runWithObservability : bootProg ended :=
  require TraceExporter "otlptracegrpc.New" (
  let! addr := call (Getenv "NEKSUR_METRICS_ADDR") in
  let! e := call (RunMetrics (orDefault addr ":9100")) in
  match e with
  | ContextDone => Ret (Returned None)
  | MetricsFailed => Ret (Returned (Some "metrics server"))
  end).

Definition isHelp (a : gostring) : bool :=
  bool_decide (a = "--help") || bool_decide (a = "-h") || bool_decide (a = "help").

(** An error that a mode returns ends the process with status 1. *)
Definition orExit (p k : bootProg ended) : bootProg ended :=
  let! e := p in
  match e with
  | Returned None => k
  | Returned (Some _) => Ret (Exited 1)
  | Exited code => Ret (Exited code)
  end.

Definition main (b : build) (args : list gostring) : bootProg ended :=
  if existsb isHelp args then let! _ := call (PrintUsage true) in Ret (Returned None)
  else
    let! o := call (Getenv "NEKSUR_OBSERVABILITY") in
    let! s := call (Getenv "NEKSUR_SAAS_AUTH") in
    let observability := bool_decide (o = "1") in
    let saasAuth := bool_decide (s = "1") in
    if negb observability && negb saasAuth then
      let! _ := call (PrintUsage false) in Ret (Returned None)
    else
      let saas := if saasAuth then orExit (runWithSaasAuth b) (Ret (Returned None))
                  else Ret (Returned None) in
      if observability then orExit runWithObservability saas else saas.
