(* ===== verification/BootSpec.v ===== *)
(** * The boot: what it reaches

    With the size check of the LRU library, the HTTP server of the SaaS mode never
    listens ([saas_never_listens]); the stores of the paid builds are never those of the
    handlers; the licence comes first; the two modes do not run together. *)

From S2P Require Import Prelude Effects License Gateway Boot.
#[local] Open Scope go_scope.

(** The services that are started before the last cache is made; the others
    belong to the HTTP server. *)
Definition early (s : service) : bool :=
  match s with DispatchPool | Poller | S3Consumer _ _ | Shutdown => false | _ => true end.

(** ** Walking a boot *)

Section walk.
Context (ok : forall e, bootR e -> Prop) (P : bootCall -> bool) (Q : ended -> Prop).

#[local] Abbreviation walk := (only_if ok P Q).

Lemma walk_require p e k :
  P (Construct p) = true -> Q (Returned (Some e)) -> (ok (Construct p) true -> walk k) ->
  walk (require p e k).
Proof. intros H1 H2 H3. cbn. split; [done|]. intros [|]; auto. Qed.

Lemma walk_background s k : P (Background s) = true -> walk k -> walk (background s k).
Proof. intros H1 H2. cbn. by split. Qed.

Lemma walk_getenv name k :
  P (Getenv name) = true -> (forall v, walk (k v)) -> walk (bind (call (Getenv name)) k).
Proof. intros H1 H2. cbn. split; [done|]. intros v _. apply H2. Qed.

Lemma walk_modules b deps (k : bootProg ended) :
  (forall f, P (FeatureAllowed f) = true) -> (forall s, early s = true -> P (Background s) = true) ->
  walk k ->
  walk (let! _ := initCommercialModules b deps in let! _ := initEnterpriseModules b deps in k).
Proof.
  intros Hf Hb Hk.
  assert (forall f (m : bool -> bootProg unit), (forall a, only_if ok P (fun _ => True) (m a)) ->
    only_if ok P (fun _ => True) (bind (call (FeatureAllowed f)) m)) as Hfeature.
  { intros f m Hm. cbn. split; [apply Hf|]. intros a _. apply Hm. }
  assert (forall s (a : bool), early s = true -> only_if ok P (fun _ : unit => True)
            (if a then call (Background s) else Ret tt)) as Hif.
  { intros s [|] Hs; cbn; [split; [by apply Hb|done]|done]. }
  eapply only_if_bind; [|intros _ _; eapply only_if_bind; [|intros _ _; exact Hk]].
  - instantiate (1 := fun _ => True). destruct b; [done|..];
      (cbn [initCommercialModules startCommercialModules]; apply Hfeature; intros a1;
       eapply only_if_bind; [by apply Hif|intros _ _]; apply Hfeature; intros a2;
       apply Hfeature; intros a3; eapply only_if_bind; [by apply Hif|intros _ _];
       apply Hfeature; intros a4; by apply Hif).
  - instantiate (1 := fun _ => True). destruct b; [done|done|].
    cbn [initEnterpriseModules]. apply Hfeature. intros a1. by apply Hfeature.
Qed.

Lemma walk_license b k :
  (forall name, P (Getenv name) = true) -> (forall f, P (ReadFile f) = true) ->
  (forall bytes, P (VerifyLicense bytes) = true) -> P SetManifest = true ->
  (forall path, P (Construct (LicenseWatcher path)) = true) -> P (Background LicenseReload) = true ->
  Q (Exited 1) -> walk k -> walk (licenseGate b k).
Proof.
  intros H1 H2 H3 H4 H5 H6 HQ Hk. unfold licenseGate. apply walk_getenv; [done|]. intros v.
  destruct (negb _); [done|]. cbn. split; [done|]. intros [bytes|] _; [|done].
  cbn. split; [done|]. intros [tier|] _; [|done]. destruct (negb _); [done|].
  cbn. split; [done|]. intros [] _. cbn. split; [done|]. intros [|] _; [|done].
  by apply walk_background.
Qed.

Lemma walk_sqlProxy k :
  (forall p, P (Construct p) = true) -> (forall s, early s = true -> P (Background s) = true) ->
  (forall name, P (Getenv name) = true) -> (forall e, Q (Returned (Some e))) ->
  walk k -> walk (sqlProxy k).
Proof.
  intros H1 H2 H3 HQ Hk. unfold sqlProxy.
  do 4 (apply walk_require; [done..|intros _]). do 4 (apply walk_getenv; [done|intros ?]).
  destruct (_ || _); [done|]. apply walk_require; [done..|intros _].
  apply walk_background; [by apply H2|]. do 2 (apply walk_require; [done..|intros _]).
  apply walk_background; [by apply H2|done].
Qed.

Lemma walk_serve deps :
  (forall p, P (Construct p) = true) -> (forall s, P (Background s) = true) ->
  (forall name, P (Getenv name) = true) -> (forall e, Q (Returned e)) ->
  (forall addr, P (ListenAndServe addr deps) = true) -> walk (serveForever deps).
Proof.
  intros H1 H2 H3 HQ Hl. unfold serveForever.
  do 2 (apply walk_getenv; [done|intros ?]). do 2 (apply walk_background; [done|]).
  assert (walk (
    let! stripeWebhookSecret := call (Getenv "STRIPE_WEBHOOK_SECRET") in
    let! billingEnabled := call (Getenv "BILLING_ENABLED") in
    let! stripeKey := call (Getenv "STRIPE_API_KEY") in
    let! internalAdminOrgID := call (Getenv "WORKOS_INTERNAL_ADMIN_ORG_ID") in
    let! pagerduty := call (Getenv "PAGERDUTY_SERVICE_ID") in
    let! addr := call (Getenv "NEKSUR_LISTEN_ADDR") in
    background Shutdown (
    let! e := call (ListenAndServe (orDefault addr ":8080") deps) in
    match e with
    | Closed => Ret (Returned None)
    | ListenFailed => Ret (Returned (Some "listen"))
    end))) as Hrest.
  { do 6 (apply walk_getenv; [done|intros ?]). apply walk_background; [done|].
    cbn. split; [done|]. by intros [|] _; cbn. }
  unfold s3Events. apply walk_getenv; [done|]. intros q. case_bool_decide; [done|].
  apply walk_getenv; [done|]. intros t. case_bool_decide; [done|].
  apply walk_require; [done..|intros _]. by apply walk_background.
Qed.

(** The whole SaaS boot, up to what follows the last cache. *)
Lemma walk_saas b :
  (forall p, P (Construct p) = true) -> (forall s, early s = true -> P (Background s) = true) ->
  (forall name, P (Getenv name) = true) -> (forall f, P (ReadFile f) = true) ->
  (forall bytes, P (VerifyLicense bytes) = true) -> P SetManifest = true ->
  (forall f, P (FeatureAllowed f) = true) ->
  (forall e, Q (Returned (Some e))) -> Q (Exited 1) ->
  (ok (Construct (LruCache 0)) true -> walk (serveForever (mkDeps false false))) ->
  walk (runWithSaasAuth b).
Proof.
  intros H1 H2 H3 H4 H5 H6 H7 HQ HX Hk. unfold runWithSaasAuth.
  apply walk_license; try done; [by apply H2|]. apply walk_getenv; [done|]. intros dsn. case_bool_decide; [apply HQ|].
  do 3 (apply walk_getenv; [done|intros ?]). destruct (_ || _); [apply HQ|].
  do 6 (apply walk_require; [done..|intros _]). apply walk_modules; [done..|].
  apply walk_require; [done..|intros _]. apply walk_background; [by apply H2|].
  apply walk_sqlProxy; try done. apply walk_require; [done..|intros _].
  by apply walk_require.
Qed.
End walk.

(** ** The claims *)

Lemma calls_forallb (P : bootCall -> bool) (l : list bootCall) e :
  forallb P l = true -> e ∈ l -> P e = true.
Proof. intros H He. rewrite forallb_forall in H. by apply H, list_elem_of_In. Qed.

(** The documented check of [lru.New], and the flag of the SaaS mode. *)
Definition lruRefuses (e : bootCall) : bootR e -> Prop :=
  match e with
  | Construct (LruCache n) => fun r => (n <= 0)%Z -> r = false
  | Getenv name => fun r => name = "NEKSUR_SAAS_AUTH" -> r = "1"
  | _ => fun _ => True
  end.

(** The calls that do not belong to the HTTP server. *)
Definition beforeServer (e : bootCall) : bool :=
  match e with ListenAndServe _ _ => false | Background s => early s | _ => true end.

Definition failedEnd (e : ended) : Prop := e <> Returned None /\ forall n, e = Exited n -> n = 1%Z.

Lemma saas_fails b : only_if lruRefuses beforeServer failedEnd (runWithSaasAuth b).
Proof.
  apply walk_saas; try done.
  - split; [done|]. by intros n [= <-].
  - intros H. specialize (H ltac:(lia)). done.
Qed.

(** (C22) The HTTP server of the SaaS mode, with the gateway and the admin API,
    never listens: the boot makes the cache of key management with size 0, which
    the LRU library refuses, so with NEKSUR_SAAS_AUTH=1, whatever the build, the
    rest of the configuration and of the environment, the process never calls
    its ListenAndServe, starts neither the dispatch pool nor the poller nor the
    consumer of storage events, and ends with status 1 (with
    NEKSUR_OBSERVABILITY=1, once the metrics server that is served first has
    ended). What may listen until then is that metrics server and, when the three
    TLS paths are set, the SQL proxy, which is started before the cache is made. *)
Theorem saas_never_listens b args (o : env bootR) :
  existsb isHelp args = false -> (forall h e, lruRefuses e (o h e)) ->
  (run o [] (Boot.main b args)).1 = Exited 1 /\
  (forall addr deps, ListenAndServe addr deps ∉ calls (run o [] (Boot.main b args)).2) /\
  forall s, Background s ∈ calls (run o [] (Boot.main b args)).2 ->
    s <> DispatchPool /\ s <> Poller /\ s <> Shutdown /\ forall queue tenant, s <> S3Consumer queue tenant.
Proof.
  intros Ha Ho.
  assert (only_if lruRefuses beforeServer (fun e => e = Exited 1)
            (orExit (runWithSaasAuth b) (Ret (Returned None)))) as Hsaas.
  { eapply only_if_bind; [apply saas_fails|]. intros [[e|]|n] [H1 H2]; cbn; [done|by destruct H1|].
    by rewrite (H2 n). }
  assert (only_if lruRefuses beforeServer (fun e => e = Exited 1) (main b args)) as Hmain.
  { unfold main. rewrite Ha. cbn [bind call only_if]. split; [done|]. intros obs _.
    split; [done|]. intros s Hs. rewrite (Hs eq_refl).
    rewrite (bool_decide_eq_true_2 ("1" = "1")) by done. rewrite andb_false_r.
    case_bool_decide; [|exact Hsaas].
    unfold orExit at 1, runWithObservability. cbn. split; [done|]. intros [|] _; [|done].
    cbn. split; [done|]. intros a _. split; [done|]. intros [|] _; [|done]. exact Hsaas. }
  destruct (only_if_run _ _ _ _ o [] Ho Hmain) as [H1 H2]. split_and!; [done| |].
  - intros addr deps Hin. by pose proof (calls_forallb _ _ _ H1 Hin).
  - intros s Hin. pose proof (calls_forallb _ _ _ H1 Hin) as Hs. by destruct s.
Qed.

Definition unwired (e : bootCall) : bool :=
  match e with
  | ListenAndServe _ deps => negb (hasWriteConflictStore deps) && negb (hasPartitionSpecStore deps)
  | _ => true
  end.

(** (C23) The handlers of every build get dependencies without the two stores of
    the paid builds: what [initCommercialModules] and [initEnterpriseModules]
    wire is lost with their copy. *)
Theorem paid_stores_never_wired b args (o : env bootR) addr deps :
  ListenAndServe addr deps ∈ calls (run o [] (Boot.main b args)).2 -> deps = mkDeps false false.
Proof.
  intros Hin.
  assert (only_if (fun _ _ => True) unwired (fun _ => True)
            (orExit (runWithSaasAuth b) (Ret (Returned None)))) as Hsaas.
  { eapply (only_if_bind _ _ (fun _ => True)); [|by intros [[e|]|n] _].
    apply walk_saas; try done. intros _. by apply walk_serve. }
  assert (only_if (fun _ _ => True) unwired (fun _ => True) (main b args)) as Hmain.
  { unfold main. destruct (existsb isHelp args); [by cbn|]. cbn [bind call only_if].
    split; [done|]. intros obs _. split; [done|]. intros s _.
    destruct (negb _ && negb _); [by cbn|].
    assert (only_if (fun _ _ => True) unwired (fun _ => True)
      (if bool_decide (s = "1") then orExit (runWithSaasAuth b) (Ret (Returned None))
       else Ret (Returned None))) as Hs by (by case_bool_decide).
    destruct (bool_decide (obs = "1")); [|exact Hs].
    unfold orExit at 1, runWithObservability. cbn. split; [done|]. intros [|] _; [|exact I].
    cbn. split; [done|]. intros a _. split; [done|]. intros [|] _; [|exact I]. exact Hs. }
  destruct (only_if_run _ _ _ _ o [] (fun _ _ => I) Hmain) as [H1 _].
  pose proof (calls_forallb _ _ _ H1 Hin) as H2. cbn in H2. destruct deps as [[] []]; done.
Qed.

(** An environment in which everything that is constructed works, the size of
    the cache included, with an enterprise licence. *)
Definition everythingWorks : env bootR := fun h e =>
  match e with
  | Getenv name =>
      if bool_decide (name = "NEKSUR_OBSERVABILITY") || bool_decide (name = "NEKSUR_S3_EVENTS_QUEUE_URL")
      then "" else "1"
  | ReadFile _ => Some "licence"
  | VerifyLicense _ => Some "enterprise"
  | SetManifest => tt
  | Construct _ => true
  | FeatureAllowed _ => true
  | Background _ => tt
  | RunMetrics _ => ContextDone
  | ListenAndServe _ _ => Closed
  | PrintUsage _ => tt
  end.

Lemma paid_stores_never_wired_witness :
  exists deps, ListenAndServe "1" deps ∈ calls (run everythingWorks [] (main Enterprise [])).2 /\
               deps = mkDeps false false.
Proof.
  assert (ListenAndServe "1" (mkDeps false false)
            ∈ calls (run everythingWorks [] (main Enterprise [])).2) as Hin.
  { apply list_elem_of_In. vm_compute. tauto. }
  exists (mkDeps false false). split; [exact Hin|].
  exact (paid_stores_never_wired Enterprise [] everythingWorks "1" (mkDeps false false) Hin).
Defined.

(** The same environment with the library's check. *)
Definition checkedSizes : env bootR := fun h e =>
  match e with
  | Construct p =>
      match p with LruCache n => (0 <? n)%Z | _ => true end
  | Getenv name =>
      if bool_decide (name = "NEKSUR_SAAS_AUTH") then "1" else everythingWorks h (Getenv name)
  | e => everythingWorks h e
  end.

Lemma saas_never_listens_witness :
  (run checkedSizes [] (main Core ["serve"])).1 = Exited 1 /\
  Background (SqlProxyTLS "1") ∈ calls (run checkedSizes [] (main Core ["serve"])).2.
Proof.
  split; [|apply list_elem_of_In; vm_compute; tauto].
  apply (saas_never_listens Core ["serve"] checkedSizes).
  - reflexivity.
  - intros h [name| | | |[]| | | | |]; cbn; try exact I.
    + intros ->. by rewrite bool_decide_eq_true_2.
    + intros Hn. apply Z.ltb_ge. exact Hn.
Defined.

Lemma run_do {E} {R : E -> Type} {A} (o : env R) h e (k : R e -> prog R A) :
  run o h (Do e k) =
    ((run o (h ++ [ev e (o h e)]) (k (o h e))).1,
     ev e (o h e) :: (run o (h ++ [ev e (o h e)]) (k (o h e))).2).
Proof. cbn [run]. by destruct (run o (h ++ [ev e (o h e)]) (k (o h e))). Qed.

(** A paid build does nothing before a licence of its tier was verified. *)
Lemma license_first b (o : env bootR) e :
  requiresLicense b = true -> e ∈ calls (run o [] (runWithSaasAuth b)).2 ->
  (forall name, e <> Getenv name) -> (forall f, e <> ReadFile f) ->
  (forall bytes, e <> VerifyLicense bytes) ->
  exists bytes tier, ev (R := bootR) (VerifyLicense bytes) (Some tier)
                       ∈ (run o [] (runWithSaasAuth b)).2 /\
    tierCovers tier (requiredLicenseTier b) = true.
Proof.
  unfold runWithSaasAuth. match goal with |- context [licenseGate b ?k] => generalize k end.
  intros k Hb. unfold licenseGate. rewrite Hb. cbn [negb bind call].
  rewrite !(run_do (R := bootR)). cbn [app].
  set (r1 := o _ (Getenv _)). set (path := orDefault _ _). set (r2 := o _ (ReadFile _)).
  intros He H1 H2 H3. revert He. cbn [snd].
  assert (forall l, e ∈ Getenv "NEKSUR_LICENSE_PATH" :: ReadFile path :: l -> e ∈ l) as Hskip.
  { intros l [He|[He|He]%elem_of_cons]%elem_of_cons; [by destruct (H1 _ He)|by destruct (H2 _ He)|done]. }
  intros He%Hskip. revert He.
  destruct r2 as [bytes|]; [|by intros ?%elem_of_nil].
  rewrite (run_do (R := bootR)). cbn [app snd]. set (r3 := o _ (VerifyLicense _)).
  intros [He|He]%elem_of_cons; [by destruct (H3 _ He)|]. revert He.
  destruct r3 as [tier|]; [|by intros ?%elem_of_nil].
  destruct (tierCovers tier (requiredLicenseTier b)) eqn:Et; cbn [negb];
    [|by intros ?%elem_of_nil].
  intros _. exists bytes, tier. split; [|done]. do 2 (apply elem_of_cons; right). by left.
Qed.

(** With both flags set, nothing of the SaaS mode is configured or started
    before the metrics server ended with the process's context: the two modes
    do not run together. *)
Lemma observability_before_saas b args (o : env bootR) :
  existsb isHelp args = false ->
  (forall h, o h (Getenv "NEKSUR_OBSERVABILITY") = "1") ->
  Getenv "NEKSUR_LICENSE_PATH" ∈ calls (run o [] (main b args)).2 ->
  exists addr, ev (R := bootR) (RunMetrics addr) ContextDone ∈ (run o [] (main b args)).2.
Proof.
  intros Ha Hobs. unfold main. rewrite Ha. cbn [bind call].
  rewrite (run_do (R := bootR)). rewrite Hobs. rewrite (run_do (R := bootR)).
  rewrite (bool_decide_eq_true_2 ("1" = "1")) by done. cbn [negb andb app snd].
  unfold orExit, runWithObservability, require. cbn [bind call].
  rewrite (run_do (R := bootR)). set (ok := o _ (Construct _)). cbn [app snd].
  destruct ok; cbn [bind].
  - rewrite !(run_do (R := bootR)). cbn [app snd]. set (addr := o _ (Getenv "NEKSUR_METRICS_ADDR")).
    set (e := o _ (RunMetrics _)). destruct e; cbn [bind].
    + intros _. eexists. do 4 (apply elem_of_cons; right). by left.
    + cbn. intros H. repeat (apply elem_of_cons in H as [H|H]; [done|]). by apply elem_of_nil in H.
  - cbn. intros H. repeat (apply elem_of_cons in H as [H|H]; [done|]). by apply elem_of_nil in H.
Qed.
