(* ===== verification/Kms.v ===== *)
(** * The cache of data keys

    internal/crypto/kms/batch_cache.go: [Get], [Set] and [GetOrGenerate], whose
    calls are the operations of the LRU cache, the clock, the mutex and the
    generation of a key.  Goroutines interleave between them; the world has the
    cache's entries (an [Add] may evict others), the mutex with its holder, and
    the keys generated so far. *)

From S2P Require Import Prelude Effects.
From Stdlib Require Import Lia.
#[local] Open Scope go_scope.

Record batchCacheKey := mkBatchCacheKey {
  TenantID : gostring; ColumnName : gostring; BatchID : gostring
}.

#[export] Instance batchCacheKey_eq_dec : EqDecision batchCacheKey.
Proof. solve_decision. Defined.
#[export] Instance batchCacheKey_countable : Countable batchCacheKey.
Proof.
  refine (inj_countable' (fun k => (TenantID k, ColumnName k, BatchID k))
            (fun x => mkBatchCacheKey x.1.1 x.1.2 x.2) _).
  by intros [].
Defined.

Record cachedDEK := mkCachedDEK { plaintext : gostring; expiresAt : Z }.

Inductive kmsCall :=
  | CacheGet (k : batchCacheKey)
  | CacheAdd (k : batchCacheKey) (e : cachedDEK)
  | CacheRemove (k : batchCacheKey)
  | Now
  | Lock
  | Unlock
  | Generate (tenantID columnName : gostring).    (* generateFn *)

Definition kmsR (c : kmsCall) : Type :=
  match c with
  | CacheGet _ => option cachedDEK
  | Now => Z
  | Generate _ _ => option gostring
  | _ => unit
  end.

Abbreviation kmsProg := (prog kmsR).

(** [Get]: [None] is the nil slice. *)
Definition Get (k : batchCacheKey) : kmsProg (option gostring) :=
  let! entry := call (CacheGet k) in
  match entry with
  | None => Ret None
  | Some entry =>
      let! now := call Now in
      if (expiresAt entry <? now)%Z then
        let! _ := call (CacheRemove k) in Ret None
      else Ret (Some (plaintext entry))
  end.

Definition Set_ (ttl : Z) (k : batchCacheKey) (p : gostring) : kmsProg unit :=
  if bool_decide (p = []) then Ret tt
  else
    let! now := call (R := kmsR) Now in
    let! _ := call (R := kmsR) (CacheAdd k (mkCachedDEK p (now + ttl)%Z)) in Ret tt.

(** The part under the lock, and [GetOrGenerate]; [None] is the error of the
    generation. *)
Definition underLock (ttl : Z) (k : batchCacheKey) : kmsProg (option gostring) :=
  let! dek := Get k in
  match dek with
  | Some dek => Ret (Some dek)
  | None =>
      let! p := call (Generate (TenantID k) (ColumnName k)) in
      match p with
      | None => Ret None
      | Some p => let! _ := Set_ ttl k p in Ret (Some p)
      end
  end.

Definition GetOrGenerate (ttl : Z) (k : batchCacheKey) : kmsProg (option gostring) :=
  let! dek := Get k in
  match dek with
  | Some dek => Ret (Some dek)
  | None =>
      let! _ := call Lock in
      let! r := underLock ttl k in
      let! _ := call Unlock in
      Ret r
  end.

(** ** The shared world *)

Record generated := mkGenerated {
  g_tenant : gostring; g_column : gostring; g_dek : gostring; g_time : Z
}.

Record kworld := mkKWorld {
  k_clock : Z;
  k_entries : gmap batchCacheKey cachedDEK;
  k_holder : option nat;
  k_generated : list generated
}.

Definition performs (i : nat) (c : kmsCall) (w : kworld) : kmsR c -> kworld -> Prop :=
  match c with
  | CacheGet k => fun r w' => r = k_entries w !! k /\ w' = w
  | CacheAdd k e => fun _ w' =>
      exists m, w' = mkKWorld (k_clock w) m (k_holder w) (k_generated w) /\
        m !! k = Some e /\
        forall k' e', k' <> k -> m !! k' = Some e' -> k_entries w !! k' = Some e'
  | CacheRemove k => fun _ w' =>
      w' = mkKWorld (k_clock w) (delete k (k_entries w)) (k_holder w) (k_generated w)
  | Now => fun r w' => r = k_clock w /\ w' = w
  | Lock => fun _ w' =>
      k_holder w = None /\ w' = mkKWorld (k_clock w) (k_entries w) (Some i) (k_generated w)
  | Unlock => fun _ w' =>
      w' = mkKWorld (k_clock w) (k_entries w) None (k_generated w)
  | Generate t c => fun r w' =>
      match r with
      | None => w' = w
      | Some dek =>
          w' = mkKWorld (k_clock w) (k_entries w) (k_holder w)
                 (k_generated w ++ [mkGenerated t c dek (k_clock w)])
      end
  end.

Definition drifts (w w' : kworld) : Prop :=
  exists t, (k_clock w <= t)%Z /\ w' = mkKWorld t (k_entries w) (k_holder w) (k_generated w).

Definition emptyWorld (now : Z) : kworld := mkKWorld now ∅ None [].

(** Moving the clock on, and the answer of a call that does not fail; an [Add]
    evicts nothing, a generated key is one byte that counts the generations. *)
Definition moved (t : Z) (w : kworld) : kworld :=
  mkKWorld (Z.max t (k_clock w)) (k_entries w) (k_holder w) (k_generated w).

Definition answer (i : nat) (c : kmsCall) (w : kworld) : option (kmsR c * kworld) :=
  match c with
  | CacheGet k => Some (k_entries w !! k, w)
  | CacheAdd k e =>
      Some (tt, mkKWorld (k_clock w) (<[k := e]> (k_entries w)) (k_holder w) (k_generated w))
  | CacheRemove k =>
      Some (tt, mkKWorld (k_clock w) (delete k (k_entries w)) (k_holder w) (k_generated w))
  | Now => Some (k_clock w, w)
  | Lock =>
      match k_holder w with
      | None => Some (tt, mkKWorld (k_clock w) (k_entries w) (Some i) (k_generated w))
      | Some _ => None
      end
  | Unlock => Some (tt, mkKWorld (k_clock w) (k_entries w) None (k_generated w))
  | Generate t c =>
      let dek := [ascii_of_nat (S (length (k_generated w)))] in
      Some (Some dek, mkKWorld (k_clock w) (k_entries w) (k_holder w)
                        (k_generated w ++ [mkGenerated t c dek (k_clock w)]))
  end.
