(* ===== verification/KmsSpec.v ===== *)
(** * The cache of data keys: what interleaved goroutines get

    A key that is returned was generated for the tenant's column
    ([data_key_isolation]); a generation happens under the lock, with nothing
    cached for the key.  The removal of an expired entry is outside the lock and
    may remove a fresh one ([redundant_generation]). *)

From stdpp Require Import relations.
From S2P Require Import Prelude Effects Interleave Kms.
From Stdlib Require Import Lia.
#[local] Open Scope go_scope.

(** ** What the goroutines rely on *)

Section cache.
Context (ttl : Z).

(** A data key that was generated for a tenant's column. *)
Definition madeFor (w : kworld) (k : batchCacheKey) (dek : gostring) : Prop :=
  exists g, g ∈ k_generated w /\ g_tenant g = TenantID k /\ g_column g = ColumnName k /\
    g_dek g = dek /\ (g_time g <= k_clock w)%Z.

Record valid (w : kworld) : Prop := {
  valid_entries : forall k e, k_entries w !! k = Some e ->
    madeFor w k (plaintext e) /\ plaintext e <> [] /\ (expiresAt e <= k_clock w + ttl)%Z
}.

(** While a goroutine holds the lock nobody takes it and nobody adds an entry. *)
Definition others (i : nat) (w w' : kworld) : Prop :=
  (k_clock w <= k_clock w')%Z /\ k_generated w `prefix_of` k_generated w' /\
  (k_holder w = Some i ->
     k_holder w' = Some i /\
     forall k, k_entries w !! k = None -> k_entries w' !! k = None).

#[global] Instance others_preorder i : PreOrder (others i).
Proof.
  split.
  - intros w. split_and!; [lia|reflexivity|done].
  - intros w1 w2 w3 (H1&H2&H3) (H4&H5&H6). split_and!; [lia|by etransitivity|].
    intros Hh. destruct (H3 Hh) as [H7 H8]. destruct (H6 H7) as [H9 H10]. auto.
Qed.

Lemma madeFor_later w w' k dek :
  (k_clock w <= k_clock w')%Z -> k_generated w `prefix_of` k_generated w' ->
  madeFor w k dek -> madeFor w' k dek.
Proof.
  intros Hc [l Hl] (g&H1&H2&H3&H4&H5). exists g. split_and!; try done; [|lia].
  rewrite Hl. apply elem_of_app. by left.
Qed.

Lemma drifts_others w w' : valid w -> drifts w w' -> valid w' /\ forall i, others i w w'.
Proof.
  intros [H] (t&Ht&->). split.
  - split. intros k e Hk. destruct (H k e Hk) as (H1&H2&H3). split_and!; [|done|cbn; lia].
    eapply madeFor_later; [| |exact H1]; [done|reflexivity].
  - intros i. split_and!; [done|reflexivity|done].
Qed.

(** Where the calls are made: an entry is added and the lock released by its
    holder, and a key is generated by the holder when nothing is cached. *)
Definition guarded (i : nat) (k : batchCacheKey) (c : kmsCall) (w : kworld) : Prop :=
  match c with
  | CacheAdd k' _ => k_holder w = Some i
  | Unlock => k_holder w = Some i
  | Generate t c => t = TenantID k /\ c = ColumnName k /\ k_holder w = Some i /\ k_entries w !! k = None
  | _ => True
  end.

Context (i : nat) (k : batchCacheKey).

#[local] Abbreviation ok post p w := (safe performs valid others i (guarded i k) post p w).

(** A key that [Get] returns was generated for the tenant's column. *)
Definition given (w : kworld) (r : option gostring) : Prop :=
  forall dek, r = Some dek -> madeFor w k dek.

(** Under the lock, a [Get] that returns nothing leaves nothing cached. *)
Definition missed (w : kworld) (r : option gostring) : Prop :=
  given w r /\ k_holder w = Some i /\ (r = None -> k_entries w !! k = None).

Lemma keep_valid w w' :
  valid w -> (k_clock w <= k_clock w')%Z -> k_generated w `prefix_of` k_generated w' ->
  (forall k e, k_entries w' !! k = Some e -> k_entries w !! k = Some e) -> valid w'.
Proof.
  intros [H] Hc Hg He. split. intros k' e Hk. destruct (H k' e (He _ _ Hk)) as (H1&H2&H3).
  split_and!; [by eapply madeFor_later|done|lia].
Qed.

Lemma given_ret w r :
  given w r -> ok given (Ret r) w.
Proof.
  intros Hg w' (H1&H2&_) _ dek Hr. eapply madeFor_later; [done|done|by apply Hg].
Qed.

Lemma safe_Get w : ok given (Get k) w.
Proof.
  unfold Get. cbn [bind call safe]. intros w1 _ Hv1. split; [done|].
  intros r w2 [-> ->]. split_and!; [done|reflexivity|].
  destruct (k_entries w1 !! k) as [e|] eqn:He; [|by apply given_ret].
  destruct (valid_entries w1 Hv1 k e He) as (Hm&_&_).
  cbn [bind safe]. intros w2 (Hc2&Hg2&_) Hv2. split; [done|]. intros now w3 [-> ->].
  split_and!; [done|reflexivity|]. destruct (_ <? _)%Z.
  - cbn [bind safe]. intros w3 _ Hv3. split; [done|]. intros [] w4 Hw4. cbn in Hw4. subst w4.
    split_and!.
    + eapply keep_valid; [exact Hv3|done|done|]. cbn. intros k' e' Hk'.
      by apply lookup_delete_Some in Hk' as [_ Hk'].
    + intros j _. split_and!; [done|done|]. intros Hh. split; [done|]. cbn. intros k' Hk'.
      rewrite lookup_delete_None. by right.
    + by apply given_ret.
  - apply given_ret. intros dek [= <-]. by eapply madeFor_later.
Qed.

Lemma safe_Get_locked w : k_holder w = Some i -> ok missed (Get k) w.
Proof.
  intros Hh. unfold Get. cbn [bind call safe]. intros w1 (_&_&H1) Hv1. split; [done|].
  destruct (H1 Hh) as [Hh1 _]. intros r w2 [-> ->]. split_and!; [done|reflexivity|].
  assert (forall w, k_holder w = Some i -> k_entries w !! k = None -> ok missed (Ret None) w) as Hnone.
  { intros w2 Hw2 Hk w3 (_&_&H3) _. destruct (H3 Hw2) as [H4 H5]. split; [done|].
    split; [done|]. intros _. by apply H5. }
  destruct (k_entries w1 !! k) as [e|] eqn:He; [|by apply Hnone].
  destruct (valid_entries w1 Hv1 k e He) as (Hm&_&_).
  cbn [bind safe]. intros w2 (Hc2&Hg2&H2) Hv2. split; [done|]. destruct (H2 Hh1) as [Hh2 _].
  intros now w3 [-> ->]. split_and!; [done|reflexivity|]. destruct (_ <? _)%Z.
  - cbn [bind safe]. intros w3 (_&_&H3) Hv3. split; [done|]. destruct (H3 Hh2) as [Hh3 _].
    intros [] w4 Hw4. cbn in Hw4. subst w4. split_and!.
    + eapply keep_valid; [exact Hv3|done|done|]. cbn. intros k' e' Hk'.
      by apply lookup_delete_Some in Hk' as [_ Hk'].
    + intros j _. split_and!; [done|done|]. intros Hj. split; [done|]. cbn. intros k' Hk'.
      rewrite lookup_delete_None. by right.
    + apply Hnone; [done|]. cbn. apply lookup_delete_eq.
  - intros w3 (Hc3&Hg3&H3) _. destruct (H3 Hh2) as [Hh3 _]. split; [|done].
    intros dek [= <-]. eapply madeFor_later; [exact Hc3|exact Hg3|]. by eapply madeFor_later.
Qed.

Lemma missed_some w dek : k_holder w = Some i -> madeFor w k dek -> ok missed (Ret (Some dek)) w.
Proof.
  intros Hh Hm w' (H1&H2&H3) _. destruct (H3 Hh) as [H4 _]. split; [|done].
  intros dek' [= <-]. by eapply madeFor_later.
Qed.

(** What [underLock] leaves: its answer, and the lock still held. *)
Definition lockedAnswer (w : kworld) (r : option gostring) : Prop := given w r /\ k_holder w = Some i.

Lemma locked_ret w r : k_holder w = Some i -> given w r -> ok lockedAnswer (Ret r) w.
Proof.
  intros Hh Hg w' (H1&H2&H3) _. destruct (H3 Hh) as [H4 _]. split; [|done].
  intros dek Hr. eapply madeFor_later; [done|done|by apply Hg].
Qed.

Lemma safe_Set w p :
  k_holder w = Some i -> madeFor w k p ->
  ok (fun w' _ => k_holder w' = Some i /\ madeFor w' k p) (Set_ ttl k p) w.
Proof.
  intros Hh Hm. unfold Set_. case_bool_decide as Hp.
  { intros w' (H1&H2&H3) _. destruct (H3 Hh) as [H4 _]. split; [done|by eapply madeFor_later]. }
  cbn [bind call safe]. intros w1 (H1&H2&H3) Hv1. split; [done|]. destruct (H3 Hh) as [Hh1 _].
  intros now w2 [-> ->]. split_and!; [done|reflexivity|].
  cbn [bind safe]. intros w2 (H4&H5&H6) Hv2. destruct (H6 Hh1) as [Hh2 _]. split; [done|].
  assert (madeFor w2 k p) as Hm2 by (eapply madeFor_later; [exact H4|exact H5|by eapply madeFor_later]).
  intros [] w3 (m&->&Hmk&Hmo). split_and!.
  - split. cbn. intros k' e He. destruct (decide (k' = k)) as [->|Hn].
    + rewrite Hmk in He. injection He as <-. split_and!; [exact Hm2|done|cbn; lia].
    + apply (valid_entries w2 Hv2 k' e). by apply Hmo.
  - intros j Hj. split_and!; [done|done|]. rewrite Hh2. by intros [= ->].
  - cbn [safe]. intros w4 (H7&H8&H9) _. destruct (H9 Hh2) as [H10 _]. split; [done|].
    eapply madeFor_later; [exact H7|exact H8|exact Hm2].
Qed.

Lemma safe_underLock w : k_holder w = Some i -> ok lockedAnswer (underLock ttl k) w.
Proof.
  intros Hh. unfold underLock.
  eapply safe_bind; [typeclasses eauto|by apply safe_Get_locked|].
  intros w1 [dek|] Hv1 (Hg1&Hh1&Hk1); [by apply locked_ret|].
  cbn [bind call safe]. intros w2 (_&_&H2) Hv2. destruct (H2 Hh1) as [Hh2 Hk2].
  split; [split_and!; auto|]. intros [p|] w3 Hw3; cbn in Hw3; subst w3.
  - assert (forall w', w' = mkKWorld (k_clock w2) (k_entries w2) (k_holder w2)
        (k_generated w2 ++ [mkGenerated (TenantID k) (ColumnName k) p (k_clock w2)]) ->
      k_generated w2 `prefix_of` k_generated w' /\ madeFor w' k p) as Hgen.
    { intros w' ->. split; [by apply prefix_app_r|].
      exists (mkGenerated (TenantID k) (ColumnName k) p (k_clock w2)). split_and!; try done.
      cbn. apply elem_of_app. right. by apply list_elem_of_singleton. }
    destruct (Hgen _ eq_refl) as [Hpre Hmade]. split_and!.
    + by eapply keep_valid; [exact Hv2|cbn; lia|exact Hpre|].
    + intros j _. split_and!; [cbn; lia|exact Hpre|done].
    + eapply safe_bind; [typeclasses eauto|by apply safe_Set|].
      intros w3 [] _ [Hh3 Hm3]. apply locked_ret; [done|]. by intros dek [= <-].
  - split_and!; [done|reflexivity|]. by apply locked_ret.
Qed.

Lemma safe_GetOrGenerate w : ok given (GetOrGenerate ttl k) w.
Proof.
  unfold GetOrGenerate. eapply safe_bind; [typeclasses eauto|apply safe_Get|].
  intros w1 [dek|] Hv1 Hg1; [by apply given_ret|].
  cbn [bind call safe]. intros w2 _ Hv2. split; [done|]. intros [] w3 [Hn ->].
  split_and!.
  - by eapply keep_valid; [exact Hv2|cbn; lia|cbn; reflexivity|].
  - intros j _. split_and!; [cbn; lia|cbn; reflexivity|]. by rewrite Hn.
  - eapply safe_bind; [typeclasses eauto|by apply safe_underLock|].
    intros w4 r Hv4 [Hg4 Hh4]. cbn [bind safe]. intros w5 (H5&H6&H7) Hv5.
    destruct (H7 Hh4) as [Hh5 _]. split; [done|]. intros [] w6 Hw6. cbn in Hw6. subst w6. split_and!.
    + by eapply keep_valid; [exact Hv5|cbn; lia|cbn; reflexivity|].
    + intros j Hj. split_and!; [cbn; lia|cbn; reflexivity|]. rewrite Hh5. by intros [= ->].
    + apply given_ret. intros dek Hd. eapply madeFor_later; [exact H5|exact H6|by apply Hg4].
Qed.
End cache.

(** ** The claims *)

Lemma empty_valid ttl now : valid ttl (emptyWorld now).
Proof. split. intros k e Hk. cbn in Hk. by rewrite lookup_empty in Hk. Qed.

Section reached.
Context (ttl now : Z) (w : kworld) (ps : list (process kmsR kworld batchCacheKey (option gostring))).

(** A state that goroutines reach from the empty cache. *)
Definition cacheReaches : Prop :=
  rtc (istep performs drifts (GetOrGenerate ttl)) (emptyWorld now, []) (w, ps).

(** Data keys are isolated: whatever goroutines interleave and whatever the
    cache evicts, a key returned for a tenant, column and batch was generated
    for that tenant and column. *)
Theorem data_key_isolation i k s dek :
  cacheReaches -> ps !! i = Some (mkProcess k s (Ret (Some dek))) -> madeFor w k dek.
Proof.
  intros reaches Hp. refine (answered performs drifts _ (valid ttl) others (fun i => fun k _ => guarded i k)
    (fun _ k _ => given k) (fun _ _ => True) (drifts_others ttl) _ (fun _ _ _ _ H => H) _ w ps i k s (Some dek) (empty_valid ttl now) (fun _ => I) reaches Hp
    dek eq_refl). intros j q w' _ _. apply safe_GetOrGenerate.
Qed.

(** (C26) A generation is made by the holder of the lock, for its own tenant and
    column, while nothing is cached under its key. *)
Theorem generation_under_lock i k s t c r :
  cacheReaches -> ps !! i = Some (mkProcess k s (Do (Generate t c) r)) ->
  t = TenantID k /\ c = ColumnName k /\ k_holder w = Some i /\ k_entries w !! k = None.
Proof.
  intros reaches Hp. refine (calling performs drifts _ (valid ttl) others (fun i => fun k _ => guarded i k)
    (fun _ k _ => given k) (fun _ _ => True) (drifts_others ttl) _ (fun _ _ _ _ H => H) _ w ps i k s (Generate t c) r (empty_valid ttl now)
    (fun _ => I) reaches Hp). intros j q w' _ _. apply safe_GetOrGenerate.
Qed.
End reached.

(** ** A concrete cache *)

Lemma cache_moved_drifts t w : drifts w (moved t w).
Proof. exists (Z.max t (k_clock w)). split; [lia|done]. Qed.

Lemma cache_answer_performs i c w r w' : answer i c w = Some (r, w') -> performs i c w r w'.
Proof.
  destruct c; cbn [answer performs]; try (by intros [= <- <-]).
  - intros [= <- <-]. eexists. split_and!; [done|apply lookup_insert_eq|].
    intros k' e' Hn. by rewrite lookup_insert_ne.
  - destruct (k_holder w) eqn:Hh; [done|]. by intros [= <- <-].
Qed.

Module KmsDemo.
Definition key : batchCacheKey := mkBatchCacheKey "t" "c" "b".

(** One goroutine fills the cache; its entry expires; the second sees the
    expired entry and is overtaken by the third, which removes it, generates and
    caches a new key; then the second goes on with its removal. *)
Definition steps (i n : nat) : list (action batchCacheKey Z) := replicate n (Advance i).
Definition filled : list (action batchCacheKey Z) := Arrive key :: steps 0 7.
Definition overtaken : list (action batchCacheKey Z) :=
  filled ++ [Move 11%Z] ++ Arrive key :: steps 1 2 ++ Arrive key :: steps 2 9 ++ steps 1 7.

Definition exec (acts : list (action batchCacheKey Z)) :=
  fold_left (act (GetOrGenerate 10) moved answer) acts (emptyWorld 0, []).

Lemma exec_reaches acts :
  rtc (istep performs drifts (GetOrGenerate 10)) (emptyWorld 0, []) ((exec acts).1, (exec acts).2).
Proof.
  rewrite <- surjective_pairing. apply actions_run; [apply cache_moved_drifts|apply cache_answer_performs].
Qed.
End KmsDemo.

Lemma data_key_isolation_witness :
  madeFor (KmsDemo.exec KmsDemo.overtaken).1 KmsDemo.key ["002"%char].
Proof.
  assert (requestOf 2 (KmsDemo.exec KmsDemo.overtaken) = Some KmsDemo.key /\
          answerOf 2 (KmsDemo.exec KmsDemo.overtaken) = Some (Some ["002"%char])) as [Hq Ha]
    by (vm_compute; split; reflexivity).
  destruct (answerOf_inv _ _ _ _ Hq Ha) as [s Hs].
  exact (data_key_isolation 10 0 _ _ 2 KmsDemo.key s _ (KmsDemo.exec_reaches KmsDemo.overtaken) Hs).
Defined.

Lemma generation_under_lock_witness :
  k_holder (KmsDemo.exec (Arrive KmsDemo.key :: KmsDemo.steps 0 3)).1 = Some 0%nat.
Proof.
  set (acts := Arrive KmsDemo.key :: KmsDemo.steps 0 3).
  assert (requestOf 0 (KmsDemo.exec acts) = Some KmsDemo.key /\
          pendingOf 0 (KmsDemo.exec acts) = Some (Generate "t" "c")) as [Hq Ha]
    by (vm_compute; split; reflexivity).
  destruct (pendingOf_inv _ _ _ _ Hq Ha) as (s&k&Hs).
  exact (proj1 (proj2 (proj2 (generation_under_lock 10 0 _ _ 0 KmsDemo.key s "t" "c" k
    (KmsDemo.exec_reaches acts) Hs)))).
Defined.

(** The removal of an expired entry is not under the lock: it can remove the
    fresh entry of another goroutine, so that two goroutines of one batch
    generate within the lifetime of the first key, and get different keys. *)
Lemma redundant_generation :
  exists w ps,
    rtc (istep performs drifts (GetOrGenerate 10)) (emptyWorld 0, []) (w, ps) /\
    map g_time (k_generated w) = [0; 11; 11]%Z /\
    answerOf 2 (w, ps) = Some (Some ["002"%char]) /\ answerOf 1 (w, ps) = Some (Some ["003"%char]).
Proof.
  exists (KmsDemo.exec KmsDemo.overtaken).1, (KmsDemo.exec KmsDemo.overtaken).2.
  split; [apply KmsDemo.exec_reaches|]. by vm_compute.
Qed.
