(* ===== verification/Admin.v ===== *)
(** * The administration

    internal/admin/handlers.go: the list of tenants, the audit log of a tenant
    by pages, the incidents, and the router in front of them
    (cmd/neksur-server/main.go).  The statements are calls; what the templates
    and the JSON encoder print of the rows is not modelled. *)

From S2P Require Import Prelude Effects PolicyStore Auth.
From Stdlib Require Import Lia.

Record TenantRow := mkTenantRow {
  tr_ID : gostring; tr_WorkOSOrgID : gostring; tr_LifecycleState : gostring;
  tr_Pool : gostring; tr_OnboardedAt : Z; tr_LastAuditLogEvent : option Z
}.

(** A row of [public.system_audit_log] as it is returned. *)
Record AuditRow := mkAuditRow {
  ID : Z; OccurredAt : Z; ActorUserID : option gostring; ActorWorkOSOrgID : option gostring;
  TargetTenantID : option gostring; EventType : gostring; Payload : gostring
}.

(** ** Calls *)

Inductive scanned (A : Type) := Row (a : A) | RowMissing | RowFailed.
Arguments Row {A} a.
Arguments RowMissing {A}.
Arguments RowFailed {A}.

(** The rows of a query and [rows.Err]; [None] when the query fails. *)
Definition answerRows (A : Type) : Type := option (list (scanned A) * bool).

Inductive adminCall :=
  | Acquire | Begin | SetRole
  | QueryTenants (limit : Z)
  | QueryAudit (tenantID : gostring) (beforeAt beforeID limit : Z)
  | CloseRows | Rollback | Release
  | ClockNow.

Definition adminR (c : adminCall) : Type :=
  match c with
  | Acquire | Begin | SetRole => bool
  | QueryTenants _ => answerRows TenantRow
  | QueryAudit _ _ _ _ => answerRows AuditRow
  | CloseRows | Rollback | Release => unit
  | ClockNow => Z
  end.

Abbreviation adminProg := (prog adminR).

Definition do_ (c : adminCall) : adminProg (adminR c) := Do (R := adminR) c (fun r => Ret r).

(** [for rows.Next() { Scan }] and [rows.Err]; [None] is an error. *)
Fixpoint collectTenants (rows : list (scanned TenantRow)) (err : bool) : option (list TenantRow) :=
  match rows with
  | [] => if err then None else Some []
  | Row t :: rows => l ← collectTenants rows err; Some (t :: l)
  | _ :: _ => None
  end.

(** The audit loop stops at [pgx.ErrNoRows], and keeps a target only when it
    parses. *)
Section audit.
Context (parseUUID : gostring -> option gostring).

Definition parseTarget (a : AuditRow) : AuditRow :=
  mkAuditRow (ID a) (OccurredAt a) (ActorUserID a) (ActorWorkOSOrgID a)
    (raw ← TargetTenantID a; parseUUID raw) (EventType a) (Payload a).

Fixpoint collectAudit (rows : list (scanned AuditRow)) (err : bool) : option (list AuditRow) :=
  match rows with
  | [] => if err then None else Some []
  | Row a :: rows => l ← collectAudit rows err; Some (parseTarget a :: l)
  | RowMissing :: _ => if err then None else Some []
  | RowFailed :: _ => None
  end.
End audit.

(** The transaction around a query: the role, and the deferred calls. *)
Definition underAdminRole {A} (query : adminCall) (read : adminR query -> option (option A))
    : adminProg (option A) :=
  let! conn := do_ Acquire in
  if negb conn then Ret None
  else
    let! tx := do_ Begin in
    if negb tx then let! _ := do_ Release in Ret None
    else
      let! role := do_ SetRole in
      if negb role then let! _ := do_ Rollback in let! _ := do_ Release in Ret None
      else
        let! rows := do_ query in
        match read rows with
        | None => let! _ := do_ Rollback in let! _ := do_ Release in Ret None
        | Some out =>
            let! _ := do_ CloseRows in
            let! _ := do_ Rollback in
            let! _ := do_ Release in Ret out
        end.

Definition readTenantsAdmin (limit : Z) : adminProg (option (list TenantRow)) :=
  underAdminRole (QueryTenants limit)
    (fun r => match r with None => None | Some (rows, err) => Some (collectTenants rows err) end).

Section handlers.
(** [uuid.Parse] (the canonical text) and [time.Parse] of RFC 3339. *)
Context (parseUUID : gostring -> option gostring).
Context (parseTime : gostring -> option Z).

Definition readAuditLogAdmin (tenantID : gostring) (beforeAt beforeID limit : Z)
    : adminProg (option (list AuditRow)) :=
  underAdminRole (QueryAudit tenantID beforeAt beforeID limit)
    (fun r => match r with
              | None => None
              | Some (rows, err) => Some (collectAudit parseUUID rows err)
              end).

(** ** Handlers *)

Inductive adminResponse :=
  | Failed (code : Z) (msg : gostring)
  | TenantsPage (json : bool) (rows : list TenantRow)
  | AuditPage (json : bool) (tenantID : gostring) (rows : list AuditRow)
  | IncidentsPage (serviceID : gostring).

Definition wantsJSON (r : Request) : bool := contains (headerGet "Accept" r) "application/json".

Definition ListTenants (r : Request) : adminProg adminResponse :=
  let! rows := readTenantsAdmin 100 in
  match rows with
  | None => Ret (Failed 500 "internal error")
  | Some rows => Ret (TenantsPage (wantsJSON r) rows)
  end.

(** The defaults of the query string; a value that does not parse is ignored.
    [strconv.ParseInt(v, 10, 64)] is [Atoi] on 64 bits. *)
Definition beforeAtOf (now : Z) (r : Request) : Z :=
  let v := queryGet "before_at" r in
  if bool_decide (v = []) then now else default now (parseTime v).
Definition beforeIDOf (r : Request) : Z :=
  let v := queryGet "before_id" r in
  if bool_decide (v = []) then (2 ^ 62)%Z else default (2 ^ 62)%Z (Atoi v).
Definition limitOf (r : Request) : Z :=
  let v := queryGet "limit" r in
  if bool_decide (v = []) then 50%Z
  else match Atoi v with
       | Some n => if (0 <? n)%Z && (n <=? 200)%Z then n else 50%Z
       | None => 50%Z
       end.

Definition ViewTenantAuditLog (r : Request) : adminProg adminResponse :=
  let tenantStr := queryGet "tenant" r in
  if bool_decide (tenantStr = []) then Ret (Failed 400 "missing ?tenant=<uuid>")
  else
    match parseUUID tenantStr with
    | None => Ret (Failed 400 "invalid tenant uuid")
    | Some tenantID =>
        let! now := do_ ClockNow in
        let! rows := readAuditLogAdmin tenantID (beforeAtOf now r) (beforeIDOf r) (limitOf r) in
        match rows with
        | None => Ret (Failed 500 "internal error")
        | Some rows => Ret (AuditPage (wantsJSON r) tenantID rows)
        end
    end.

Definition EmbedPagerDutyIncidents (serviceID : gostring) (r : Request) : adminProg adminResponse :=
  Ret (IncidentsPage serviceID).

(** The router behind the gate; PAGERDUTY_SERVICE_ID has a default. *)
Definition adminMux (pagerdutyServiceID : gostring) (r : Request) : adminProg adminResponse :=
  let serviceID := if bool_decide (pagerdutyServiceID = []) then "P000000" else pagerdutyServiceID in
  if r_slash r then Ret (Failed 404 "404 page not found")
  else if bool_decide (r_path r = ["admin"; "tenants"] :> list gostring) then ListTenants r
  else if bool_decide (r_path r = ["admin"; "tenants"; "audit"] :> list gostring)
  then ViewTenantAuditLog r
  else if bool_decide (r_path r = ["admin"; "incidents"] :> list gostring)
  then EmbedPagerDutyIncidents serviceID r
  else Ret (Failed 404 "404 page not found").
End handlers.

(** ** The statements *)

(** [(occurred_at, id) < ($2, $3)], row comparison. *)
Definition keyLt (a b : Z * Z) : bool :=
  ((a.1 <? b.1) || ((a.1 =? b.1) && (a.2 <? b.2)))%Z.

Definition keyOf (a : AuditRow) : Z * Z := (OccurredAt a, ID a).

(** The log in the order of its keyset index, newest first. *)
Definition auditQuery (log : list AuditRow) (tenantID : gostring) (before : Z * Z) (limit : Z)
    : list AuditRow :=
  take (Z.to_nat limit)
    (filter (fun a => TargetTenantID a = Some tenantID /\ keyLt (keyOf a) before = true) log).

(** The database as the environment of a handler that meets no failure. *)
Definition database (log : list AuditRow) (tenants : list TenantRow) (now : Z) : env adminR :=
  fun _ c =>
    match c with
    | Acquire | Begin | SetRole => true
    | QueryTenants limit => Some (map Row (take (Z.to_nat limit) tenants), false)
    | QueryAudit t at_ id limit => Some (map Row (auditQuery log t (at_, id) limit), false)
    | CloseRows | Rollback | Release => tt
    | ClockNow => now
    end.
