(* ===== verification/AdminSpec.v ===== *)
(** * The administration: the pages of the audit log

    A reader who follows the cursor sees every event of the tenant once, in
    order, whatever is added to the log meanwhile ([audit_pages_complete]); the
    handlers read under the administrator's role, in a transaction that is always
    rolled back. *)

From stdpp Require Import sorting.
From S2P Require Import Prelude Effects Decimal PolicyStore Auth Admin.
From Stdlib Require Import Lia.
#[local] Open Scope go_scope.

(** ** Keyset pages *)

(** The log as its index orders it: newest first, no two rows with one key. *)
Definition newerFirst (a b : AuditRow) : Prop := keyLt (keyOf b) (keyOf a) = true.

Lemma keyLt_spec a b : keyLt a b = true <-> (a.1 < b.1 \/ (a.1 = b.1 /\ a.2 < b.2))%Z.
Proof.
  unfold keyLt. rewrite orb_true_iff, andb_true_iff, !Z.ltb_lt, Z.eqb_eq. tauto.
Qed.

Lemma keyLt_trans a b c : keyLt a b = true -> keyLt b c = true -> keyLt a c = true.
Proof. rewrite !keyLt_spec. lia. Qed.

Lemma keyLt_irrefl a : keyLt a a = false.
Proof. apply not_true_iff_false. rewrite keyLt_spec. lia. Qed.

Definition wanted (tenantID : gostring) (before : Z * Z) (a : AuditRow) : Prop :=
  TargetTenantID a = Some tenantID /\ keyLt (keyOf a) before = true.

#[export] Instance wanted_dec tenantID before a : Decision (wanted tenantID before a).
Proof. unfold wanted. apply _. Defined.

Lemma auditQuery_wanted log t c n :
  auditQuery log t c n = take (Z.to_nat n) (filter (wanted t c) log).
Proof. done. Qed.

Lemma filter_sorted (P : AuditRow -> Prop) `{!forall a, Decision (P a)} log :
  StronglySorted newerFirst log -> StronglySorted newerFirst (filter P log).
Proof.
  induction 1 as [|a log Hs IH Ha]; [constructor|]. rewrite filter_cons.
  destruct (decide (P a)); [|done]. constructor; [done|].
  rewrite Forall_forall in Ha |- *. intros b Hb. apply Ha.
  by apply list_elem_of_filter in Hb as [_ Hb].
Qed.

(** In a sorted list the rows below one of them are those after it. *)
Lemma below_row t u a l :
  StronglySorted newerFirst (u ++ a :: l) ->
  (forall b, b ∈ u ++ a :: l -> TargetTenantID b = Some t) ->
  filter (wanted t (keyOf a)) (u ++ a :: l) = l.
Proof.
  induction u as [|b u IH]; cbn [app]; intros Hs Ht; inversion_clear Hs as [|?? Hs' Ha].
  - rewrite filter_cons_False by (intros [_ H]; by rewrite keyLt_irrefl in H).
    clear Hs'. induction l as [|b l IH]; [done|]. apply Forall_cons in Ha as [Hb Ha].
    rewrite filter_cons_True; [f_equal; apply IH; [|done]|split; [|exact Hb]].
    + intros b' Hb'. apply Ht. apply elem_of_cons in Hb' as [->|Hb']; [by left|]. by do 2 right.
    + apply Ht. right. by left.
  - rewrite filter_cons_False.
    + apply IH; [done|]. intros b' Hb'. apply Ht. by right.
    + intros [_ H]. rewrite Forall_forall in Ha.
      assert (newerFirst b a) as Hn by (apply Ha, elem_of_app; right; by left).
      pose proof (keyLt_trans _ _ _ H Hn) as Hc. by rewrite keyLt_irrefl in Hc.
Qed.

Lemma filter_after t c (log u l : list AuditRow) a :
  StronglySorted newerFirst log -> filter (wanted t c) log = u ++ a :: l ->
  filter (wanted t (keyOf a)) log = l.
Proof.
  intros Hs Hu.
  assert (filter (wanted t (keyOf a)) log
          = filter (wanted t (keyOf a)) (filter (wanted t c) log)) as ->.
  { rewrite list_filter_filter. apply list_filter_iff. intros b. split; [|tauto].
    intros [H1 H2]. split; [done|]. split; [done|].
    assert (a ∈ filter (wanted t c) log) as Ha by (rewrite Hu; apply elem_of_app; right; by left).
    apply list_elem_of_filter in Ha as [[_ Ha] _]. by eapply keyLt_trans. }
  pose proof (filter_sorted (wanted t c) log Hs) as Hf. rewrite Hu in Hf |- *.
  apply below_row; [done|]. intros b Hb. rewrite <- Hu in Hb.
  by apply list_elem_of_filter in Hb as [[Hb _] _].
Qed.

(** ** A page of the handler *)

Section pages.
Context (parseUUID : gostring -> option gostring).
Context (parseTime : gostring -> option Z) (formatTime : Z -> gostring).

(** The request a reader makes for a page. *)
Definition auditRequest (tenantID : gostring) (before : Z * Z) (limit : Z) : Request :=
  mkRequest "GET" ["admin"; "tenants"; "audit"] false
    [("tenant", tenantID); ("before_at", formatTime before.1);
     ("before_id", Sprintf_d before.2); ("limit", Sprintf_d limit)]
    [] [("Accept", "application/json")] [].

Definition view (log : list AuditRow) (now : Z) (pagerduty : gostring) (r : Request) : adminResponse :=
  (run (database log [] now) [] (adminMux parseUUID parseTime pagerduty r)).1.

(** A reader who asks for the page below the last row of the one before, until
    a page is empty; the log at the [n]th request is [log n]. *)
Fixpoint browse (fuel : nat) (log : nat -> list AuditRow) (tenantID : gostring) (limit : Z)
    (n : nat) (before : Z * Z) : list AuditRow :=
  match fuel with
  | 0%nat => []
  | S fuel =>
      match view (log n) 0 [] (auditRequest tenantID before limit) with
      | AuditPage _ _ rows =>
          match last rows with
          | None => []
          | Some r => rows ++ browse fuel log tenantID limit (S n) (keyOf r)
          end
      | _ => []
      end
  end.

Context (tenantID : gostring).
Hypothesis tenant_uuid : parseUUID tenantID = Some tenantID.

Lemma collectAudit_rows rows :
  Forall (fun a => TargetTenantID a = Some tenantID) rows ->
  collectAudit parseUUID (map Row rows) false = Some rows.
Proof.
  induction 1 as [|a rows Ha _ IH]; [done|]. cbn [map collectAudit]. rewrite IH.
  cbn [mbind option_bind]. do 2 f_equal. unfold parseTarget. rewrite Ha. cbn.
  rewrite tenant_uuid, <- Ha. by destruct a.
Qed.

Lemma view_page log now pagerduty (before : Z * Z) limit :
  tenantID <> [] -> formatTime before.1 <> [] -> parseTime (formatTime before.1) = Some before.1 ->
  (- 2 ^ 63 <= before.2 < 2 ^ 63)%Z -> (0 < limit <= 200)%Z ->
  view log now pagerduty (auditRequest tenantID before limit)
  = AuditPage true tenantID (auditQuery log tenantID before limit).
Proof.
  intros Ht Hf Hp Hi Hl. unfold view, adminMux. cbn [r_slash r_path auditRequest].
  rewrite (bool_decide_eq_false_2 (["admin"; "tenants"; "audit"] = ["admin"; "tenants"])) by done.
  rewrite bool_decide_eq_true_2 by done. unfold ViewTenantAuditLog.
  assert (queryGet "tenant" (auditRequest tenantID before limit) = tenantID) as -> by done.
  rewrite bool_decide_eq_false_2 by done. rewrite tenant_uuid.
  cbn [bind do_ run database].
  assert (beforeAtOf parseTime now (auditRequest tenantID before limit) = before.1) as ->.
  { unfold beforeAtOf. assert (queryGet "before_at" (auditRequest tenantID before limit)
      = formatTime before.1) as -> by done. by rewrite bool_decide_eq_false_2, Hp. }
  assert (beforeIDOf (auditRequest tenantID before limit) = before.2) as ->.
  { unfold beforeIDOf. assert (queryGet "before_id" (auditRequest tenantID before limit)
      = Sprintf_d before.2) as -> by done.
    rewrite bool_decide_eq_false_2 by apply Sprintf_nonempty. by rewrite Atoi_Sprintf. }
  assert (limitOf (auditRequest tenantID before limit) = limit) as ->.
  { unfold limitOf. assert (queryGet "limit" (auditRequest tenantID before limit)
      = Sprintf_d limit) as -> by done.
    rewrite bool_decide_eq_false_2 by apply Sprintf_nonempty. rewrite Atoi_Sprintf by lia.
    rewrite (proj2 (Z.ltb_lt _ _)), (proj2 (Z.leb_le _ _)) by lia. done. }
  unfold readAuditLogAdmin, underAdminRole. cbn [bind do_ run database negb].
  rewrite collectAudit_rows.
  - destruct before. by cbn.
  - rewrite auditQuery_wanted. apply Forall_take, Forall_forall. intros a Ha.
    by apply list_elem_of_filter in Ha as [[Ha _] _].
Qed.

(** A cursor that survives being sent. *)
Definition sendable (k : Z * Z) : Prop :=
  formatTime k.1 <> [] /\ parseTime (formatTime k.1) = Some k.1 /\ (- 2 ^ 63 <= k.2 < 2 ^ 63)%Z.

Lemma browse_all fuel log limit n (c : Z * Z) base :
  tenantID <> [] -> (0 < limit <= 200)%Z ->
  (forall m, StronglySorted newerFirst (log m)) ->
  (forall m, filter (wanted tenantID c) (log m) = base) ->
  sendable c -> Forall (fun a => sendable (keyOf a)) base -> (length base < fuel)%nat ->
  browse fuel log tenantID limit n c = base.
Proof.
  intros Ht Hl Hs. revert n c base; induction fuel as [|fuel IH]; intros n c base Hb Hc Hall Hf; [lia|].
  cbn [browse]. destruct Hc as (H1&H2&H3). rewrite view_page by done.
  rewrite auditQuery_wanted, Hb.
  destruct (Z.to_nat limit) as [|k] eqn:Ek; [lia|].
  destruct base as [|a0 base]; [done|].
  destruct (last (take (S k) (a0 :: base))) as [a|] eqn:Ha;
    [|by apply last_None in Ha].
  apply last_Some in Ha as [u Hu].
  assert (a0 :: base = u ++ a :: drop (S k) (a0 :: base)) as Hsplit.
  { rewrite <- (take_drop (S k) (a0 :: base)) at 1. by rewrite Hu, <- app_assoc. }
  rewrite (IH _ _ (drop (S k) (a0 :: base))); [by rewrite take_drop| | | |].
  - intros m. eapply filter_after; [done|]. by rewrite Hb.
  - rewrite Forall_forall in Hall. apply Hall. rewrite Hsplit. apply elem_of_app. right. by left.
  - by apply Forall_drop.
  - rewrite length_drop. cbn [length] in *. lia.
Qed.

(** (C27) A reader who follows the cursor sees every event of the tenant below the
    first cursor exactly once, newest first, whatever pages the log is cut into
    and whatever newer events are added between the requests. *)
Theorem audit_pages_complete fuel log limit (c : Z * Z) base :
  tenantID <> [] -> (0 < limit <= 200)%Z ->
  (forall m, StronglySorted newerFirst (log m)) ->
  (forall m, filter (wanted tenantID c) (log m) = base) ->
  sendable c -> Forall (fun a => sendable (keyOf a)) base -> (length base < fuel)%nat ->
  browse fuel log tenantID limit 0 c = base /\ NoDup base /\
  forall a, a ∈ base <-> a ∈ log 0%nat /\ TargetTenantID a = Some tenantID /\ keyLt (keyOf a) c = true.
Proof.
  intros Ht Hl Hs Hb Hc Ha Hf. split; [by apply browse_all|]. rewrite <- (Hb 0%nat). split.
  - specialize (filter_sorted (wanted tenantID c) _ (Hs 0%nat)).
    induction 1 as [|a l _ IH Hn]; [constructor|]. constructor; [|done].
    intros Hin. rewrite Forall_forall in Hn. specialize (Hn a Hin). unfold newerFirst in Hn.
    by rewrite keyLt_irrefl in Hn.
  - intros a. rewrite list_elem_of_filter. unfold wanted. tauto.
Qed.
End pages.

(** ** A concrete log *)

Module AdminDemo.
Definition event (id at_ : Z) (t : gostring) : AuditRow :=
  mkAuditRow id at_ None None (Some t) "tenant.created" "{}".

(** Two events at one instant; a newer event arrives after the first page. *)
Definition log0 : list AuditRow :=
  [event 4 30 "t"; event 3 20 "u"; event 2 10 "t"; event 1 10 "t"].
Definition log (n : nat) : list AuditRow :=
  match n with 0%nat => log0 | _ => event 5 99 "t" :: log0 end.
Definition parseUUID (s : gostring) : option gostring := if bool_decide (s = []) then None else Some s.
End AdminDemo.

Lemma sorted_log m : StronglySorted newerFirst (AdminDemo.log m).
Proof. destruct m; repeat constructor. Qed.

Lemma audit_pages_complete_witness :
  browse AdminDemo.parseUUID Atoi Sprintf_d 5 AdminDemo.log "t" 2 0 (50, 2 ^ 62)%Z
  = [AdminDemo.event 4 30 "t"; AdminDemo.event 2 10 "t"; AdminDemo.event 1 10 "t"].
Proof.
  refine (proj1 (audit_pages_complete AdminDemo.parseUUID Atoi Sprintf_d "t" _ 5 AdminDemo.log 2
    (50, 2 ^ 62)%Z _ _ _ sorted_log _ _ _ _)).
  - reflexivity.
  - discriminate.
  - lia.
  - intros [|m]; vm_compute; reflexivity.
  - vm_compute. repeat split; discriminate.
  - repeat constructor; vm_compute; discriminate.
  - cbn. lia.
Defined.
