(* ===== verification/Flags.v ===== *)
(** * The flags of a command

    The standard library's [flag] package, of which every command of
    cmd/neksur-cli uses a [FlagSet] with string and boolean flags: [Parse], which
    stops at the first argument that is not a flag, and what a written flag is
    parsed to. *)

From S2P Require Import Prelude.
From Stdlib Require Import Lia.
#[local] Open Scope go_scope.

(** ** [FlagSet.Parse] *)

Inductive flagKind := StringFlag | BoolFlag.
#[export] Instance flagKind_eq_dec : EqDecision flagKind.
Proof. solve_decision. Defined.

(** The flags a set declares, in the order of the source. *)
Abbreviation formals := (list (gostring * flagKind)).

Definition formal (f : formals) (name : gostring) : option flagKind :=
  snd <$> List.find (fun d => bool_decide (d.1 = name)) f.

(** The values set so far, and what [Args] returns. *)
Record parsed := mkParsed {
  strings : gmap gostring gostring;
  bools : gmap gostring bool;
  positional : list gostring
}.

(** [fs.String(name, def, ...)] and [fs.Bool(name, false, ...)]. *)
Definition stringFlag (name def : gostring) (p : parsed) : gostring := default def (strings p !! name).
Definition boolFlag (name : gostring) (p : parsed) : bool := default false (bools p !! name).

Inductive flag_err := ErrHelp | ErrBadSyntax | ErrUndefined | ErrNeedsArgument | ErrBadBool.

(** [strconv.ParseBool]. *)
Definition ParseBool (s : gostring) : option bool :=
  if bool_decide (s ∈ ["1" : gostring; "t" : gostring; "T" : gostring; "true" : gostring; "TRUE" : gostring; "True" : gostring])
  then Some true
  else if bool_decide (s ∈ ["0" : gostring; "f" : gostring; "F" : gostring; "false" : gostring; "FALSE" : gostring; "False" : gostring])
  then Some false
  else None.

(** The name up to the first equals sign, and what follows it. *)
Fixpoint cutEquals (s : gostring) : gostring * option gostring :=
  match s with
  | [] => ([], None)
  | c :: s =>
      if bool_decide (c = "="%char) then ([], Some s)
      else let '(name, value) := cutEquals s in (c :: name, value)
  end.

Inductive token :=
  | NotFlag
  | Terminator
  | BadSyntax
  | Named (name : gostring) (value : option gostring).

(** An argument without its dashes. *)
Definition namedToken (name : gostring) : token :=
  match name with
  | [] => BadSyntax
  | c :: _ =>
      if bool_decide (c = "-"%char) || bool_decide (c = "="%char) then BadSyntax
      else let '(name, value) := cutEquals name in Named name value
  end.

Definition tokenOf (s : gostring) : token :=
  match s with
  | d :: c :: s =>
      if negb (bool_decide (d = "-"%char)) then NotFlag
      else if bool_decide (c = "-"%char)
      then match s with [] => Terminator | _ => namedToken s end
      else namedToken (c :: s)
  | _ => NotFlag
  end.

Definition withString (name v : gostring) (p : parsed) : parsed :=
  mkParsed (<[name := v]> (strings p)) (bools p) (positional p).
Definition withBool (name : gostring) (b : bool) (p : parsed) : parsed :=
  mkParsed (strings p) (<[name := b]> (bools p)) (positional p).
Definition withArgs (args : list gostring) (p : parsed) : parsed :=
  mkParsed (strings p) (bools p) args.

Definition emptyFlags : parsed := mkParsed ∅ ∅ [].

(** [parseOne] until it stops. *)
Fixpoint parseArgs (f : formals) (args : list gostring) (p : parsed) : result flag_err parsed :=
  match args with
  | [] => Ok p
  | s :: rest =>
      match tokenOf s with
      | NotFlag => Ok (withArgs (s :: rest) p)
      | Terminator => Ok (withArgs rest p)
      | BadSyntax => Err ErrBadSyntax
      | Named name value =>
          match formal f name with
          | None =>
              if bool_decide (name = "help") || bool_decide (name = "h") then Err ErrHelp
              else Err ErrUndefined
          | Some BoolFlag =>
              match value with
              | None => parseArgs f rest (withBool name true p)
              | Some v =>
                  match ParseBool v with
                  | Some b => parseArgs f rest (withBool name b p)
                  | None => Err ErrBadBool
                  end
              end
          | Some StringFlag =>
              match value with
              | Some v => parseArgs f rest (withString name v p)
              | None =>
                  match rest with
                  | [] => Err ErrNeedsArgument
                  | v :: rest => parseArgs f rest (withString name v p)
                  end
              end
          end
      end
  end.

Definition Parse (f : formals) (args : list gostring) : result flag_err parsed :=
  parseArgs f args emptyFlags.

(** ** What a written flag is parsed to *)

(** A name a flag can be given by. *)
Definition flagName (n : gostring) : bool :=
  match n with
  | [] => false
  | c :: _ => negb (bool_decide (c = "-"%char)) && forallb (fun c => negb (bool_decide (c = "="%char))) n
  end.

Definition valueSuffix (value : option gostring) : gostring :=
  match value with Some v => "="%char :: v | None => [] end.

(** The argument with a value, or without one. *)
Definition written (dashes : bool) (name : gostring) (value : option gostring) : gostring :=
  (if dashes then "--" else "-") ++ name ++ valueSuffix value.

Lemma cutEquals_written n v :
  forallb (fun c => negb (bool_decide (c = "="%char))) n = true ->
  cutEquals (n ++ valueSuffix v) = (n, v).
Proof.
  induction n as [|c n IH]; cbn [forallb app cutEquals]; [by destruct v|].
  intros [Hc Hn]%andb_prop. rewrite (IH Hn). by destruct (bool_decide (c = "="%char)).
Qed.

Lemma namedToken_written n v :
  flagName n = true -> namedToken (n ++ valueSuffix v) = Named n v.
Proof.
  destruct n as [|c n]; [done|]. intros [Hc Hn]%andb_prop. unfold namedToken. cbn [app].
  pose proof (cutEquals_written (c :: n) v Hn) as E. cbn [app] in E. rewrite E. cbn [forallb] in Hn. apply andb_prop in Hn as [He _].
  by destruct (bool_decide (c = "-"%char)), (bool_decide (c = "="%char)).
Qed.

Lemma tokenOf_written d n v : flagName n = true -> tokenOf (written d n v) = Named n v.
Proof.
  intros Hn. rewrite <- (namedToken_written n v Hn). destruct n as [|c n]; [done|].
  apply andb_prop in Hn as [Hc _]. unfold written. destruct d; [done|].
  cbn [app tokenOf]. by destruct (bool_decide (c = "-"%char)).
Qed.

Lemma cutEquals_inv s n v :
  cutEquals s = (n, v) -> s = n ++ valueSuffix v.
Proof.
  revert n v; induction s as [|c s IH]; intros n v; cbn [cutEquals]; [by intros [= <- <-]|].
  case_bool_decide as E; [intros [= <- <-]; by rewrite E|].
  destruct (cutEquals s) as [n' v'] eqn:E'. intros [= <- <-]. cbn [app]. f_equal. by apply IH.
Qed.

Lemma namedToken_inv s n v :
  namedToken s = Named n v -> s = n ++ valueSuffix v.
Proof.
  destruct s as [|c s]; [done|]. unfold namedToken. destruct (_ || _); [done|].
  destruct (cutEquals (c :: s)) as [n' v'] eqn:E. intros [= <- <-]. by apply cutEquals_inv.
Qed.

(** A flag is named by one dash or two. *)
Lemma tokenOf_inv s n v : tokenOf s = Named n v -> exists d, s = written d n v.
Proof.
  destruct s as [|d [|c s]]; [done..|]. cbn [tokenOf].
  case_bool_decide as Ed; [|done]. cbn [negb]. subst d. case_bool_decide as Ec.
  - subst c. destruct s as [|c s]; [done|]. intros ->%namedToken_inv. by exists true.
  - intros H%namedToken_inv. exists false. unfold written. by rewrite <- H.
Qed.

(** One flag, as it may be given: a string with its value behind an equals sign
    or as the next argument, a boolean with a value or alone. *)
Inductive setting :=
  | SetString (apart : bool) (name value : gostring)
  | SetBool (alone : bool) (name : gostring) (b : bool).

Definition boolText (b : bool) : gostring := if b then "true" else "false".

Definition args_of (dashes : bool) (s : setting) : list gostring :=
  match s with
  | SetString true name v => [written dashes name None; v]
  | SetString false name v => [written dashes name (Some v)]
  | SetBool alone name b =>
      [written dashes name (if alone && b then None else Some (boolText b))]
  end.

Definition settingOk (f : formals) (s : setting) : bool :=
  match s with
  | SetString _ name _ => flagName name && bool_decide (formal f name = Some StringFlag)
  | SetBool _ name _ => flagName name && bool_decide (formal f name = Some BoolFlag)
  end.

Definition applied (p : parsed) (s : setting) : parsed :=
  match s with SetString _ name v => withString name v p | SetBool _ name b => withBool name b p end.

Lemma parse_setting f d s rest p :
  settingOk f s = true -> parseArgs f (args_of d s ++ rest) p = parseArgs f rest (applied p s).
Proof.
  destruct s as [[] n v|al n b]; cbn [settingOk]; intros [Hn Hf%bool_decide_eq_true]%andb_prop;
    cbn [args_of app parseArgs]; rewrite tokenOf_written by done; rewrite Hf; [done..|].
  destruct al, b; cbn [andb]; try done; by rewrite (bool_decide_eq_true_2 _ _) || done.
Qed.

(** Any settings of declared flags, each with one dash or two, are parsed to
    exactly these values, the last of a name in force, and what follows the
    terminator is handed on as it is, even where it looks like flags. *)
Theorem flags_roundtrip f (ss : list (bool * setting)) rest :
  Forall (fun s => settingOk f s.2 = true) ss ->
  Parse f (concat (map (fun s => args_of s.1 s.2) ss) ++ ("--" : gostring) :: rest) =
    Ok (withArgs rest (fold_left applied (map snd ss) emptyFlags)).
Proof.
  unfold Parse. generalize emptyFlags as p. intros p H; revert p.
  induction H as [|[d s] ss Hs _ IH]; intros p; [done|]. cbn [map concat fold_left fst snd].
  rewrite <- app_assoc, parse_setting by done. apply IH.
Qed.

(** ** What must have been written *)

(** What holds of the values set so far holds at the end, if every setting that is
    written among the arguments preserves it. *)
Lemma parseArgs_preserves f all (I : parsed -> Prop) :
  (forall p d n v x, written d n v ∈ all -> v = Some x \/ v = None /\ x ∈ all ->
     formal f n = Some StringFlag -> I p -> I (withString n x p)) ->
  (forall p d n v b, written d n v ∈ all -> match v with None => b = true | Some v => ParseBool v = Some b end ->
     formal f n = Some BoolFlag -> I p -> I (withBool n b p)) ->
  (forall p l, I p -> I (withArgs l p)) ->
  forall args p p', args ⊆ all -> I p -> parseArgs f args p = Ok p' -> I p'.
Proof.
  intros HS HB HA args. induction args as [args IH] using (induction_ltof1 _ (@length gostring)).
  unfold ltof in IH. intros p p' Hin Hp. destruct args as [|s rest]; cbn [parseArgs]; [by intros [= <-]|].
  assert (Hs : s ∈ all) by (apply Hin; left).
  assert (Hrest : rest ⊆ all) by (intros x Hx; apply Hin; by right).
  destruct (tokenOf s) as [| | |n v] eqn:E; [by intros [= <-]; apply HA|by intros [= <-]; apply HA|done|].
  apply tokenOf_inv in E as [d ->].
  destruct (formal f n) as [[]|] eqn:Ef; [| |by destruct (_ || _)].
  - destruct v as [v|].
    + apply IH; [cbn; lia|done|]. apply (HS p d n (Some v) v); [done|by left|done|done].
    + destruct rest as [|x rest]; [done|]. apply IH; [cbn; lia|intros y Hy; apply Hrest; by right|].
      apply (HS p d n None x); [done|right; split; [done|apply Hrest; left]|done|done].
  - destruct v as [v|].
    + destruct (ParseBool v) as [b|] eqn:Eb; [|done].
      apply IH; [cbn; lia|done|]. by apply (HB p d n (Some v) b).
    + apply IH; [cbn; lia|done|]. by apply (HB p d n None true).
Qed.

(** A boolean flag that ends up true was given, alone or with a true value. *)
Lemma boolFlag_written f args p n :
  Parse f args = Ok p -> boolFlag n p = true ->
  exists d v, written d n v ∈ args /\ (v = None \/ v ≫= ParseBool = Some true).
Proof.
  intros HP. unfold boolFlag.
  apply (parseArgs_preserves f args (fun p => default false (bools p !! n) = true ->
    exists d v, written d n v ∈ args /\ (v = None \/ v ≫= ParseBool = Some true))) with (args := args) (p := emptyFlags).
  - done.
  - intros q d m v b Hin Hv _ IH. cbn [bools withBool]. destruct (decide (n = m)) as [->|Hne].
    + rewrite lookup_insert_eq. cbn. intros ->. exists d, v. split; [done|].
      destruct v; [right|left]; done.
    + by rewrite lookup_insert_ne.
  - done.
  - done.
  - done.
  - exact HP.
Qed.

(** A string flag that is not its default was given, and its value is an argument
    or a part of one. *)
Lemma stringFlag_written f args p n def v :
  Parse f args = Ok p -> stringFlag n def p = v -> v <> def ->
  exists d, written d n (Some v) ∈ args \/ (written d n None ∈ args /\ v ∈ args).
Proof.
  intros HP. unfold stringFlag. revert v.
  apply (parseArgs_preserves f args (fun p => forall v, default def (strings p !! n) = v -> v <> def ->
    exists d, written d n (Some v) ∈ args \/ (written d n None ∈ args /\ v ∈ args))) with (args := args) (p := emptyFlags).
  - intros q d m w x Hin Hw _ IH v. cbn [strings withString]. destruct (decide (n = m)) as [->|Hne].
    + rewrite lookup_insert_eq. cbn. intros <- _. exists d. destruct Hw as [->|[-> Hx]]; auto.
    + rewrite lookup_insert_ne by done. apply IH.
  - done.
  - done.
  - done.
  - intros v <- Hne. by destruct Hne.
  - exact HP.
Qed.

(** What a FlagSet with two flags makes of seven arguments. *)
Lemma flags_roundtrip_witness :
  let f : formals := [("tenant-uuid" : gostring, StringFlag); ("yes" : gostring, BoolFlag)] in
  let ss := [(true, SetString true "tenant-uuid" "--yes"); (false, SetBool true "yes" true); (true, SetBool false "yes" false);
             (false, SetString false "tenant-uuid" "a=b")] in
  let args : list gostring :=
    ["--tenant-uuid" : gostring; "--yes" : gostring; "-yes" : gostring; "--yes=false" : gostring;
     "-tenant-uuid=a=b" : gostring; "--" : gostring; "-x" : gostring] in
  concat (map (fun s => args_of s.1 s.2) ss) ++ ("--" : gostring) :: [("-x" : gostring)] = args /\
  Parse f args = Ok (withArgs [("-x" : gostring)] (fold_left applied (map snd ss) emptyFlags)) /\
  boolFlag "yes" (fold_left applied (map snd ss) emptyFlags) = false /\
  stringFlag "tenant-uuid" [] (fold_left applied (map snd ss) emptyFlags) = "a=b".
Proof.
  cbn zeta. split; [reflexivity|]. split; [|split; vm_compute; reflexivity].
  exact (flags_roundtrip [("tenant-uuid" : gostring, StringFlag); ("yes" : gostring, BoolFlag)]
    [(true, SetString true "tenant-uuid" "--yes"); (false, SetBool true "yes" true); (true, SetBool false "yes" false);
     (false, SetString false "tenant-uuid" "a=b")] [("-x" : gostring)]
    ltac:(repeat constructor; vm_compute; reflexivity)).
Defined.
