(* ===== verification/Cli.v ===== *)
(** * The command line of the operators

    [cmd/neksur-cli]: [main] with its dispatch, and every command behind it as a
    program of calls that ends with the exit code.  The commands run what
    [Tenant], [Provision], [Credentials] and [Cel] model, whose calls are some of
    the calls here.  An identifier that [ValidateUUIDv4] accepts is parsed by
    [uuid.Parse] to itself, so that it stays a string.  What is printed for the operator is left out, except where
    the output is the result of the command. *)

From S2P Require Import Prelude Effects Lru JsonText Tenant Provision Cel Credentials Flags.
#[local] Open Scope go_scope.

Inductive cliCall :=
  | Db (c : dbCall)
  | Prov (c : provCall)
  | Webhook (c : webhookCall)
  | OpenPool (dsn : gostring)
  | RunTerraform (args : list gostring)
  | RunAws (args : list gostring)
  | RemoveFile (path : gostring)
  | ReadFile (path : gostring)
  | NewCelEnv
  | PrintOut (s : gostring)
  | PrintModule (tenantUUID : gostring).          (* customerPeeringModuleTemplate *)

Definition cliR (c : cliCall) : Type :=
  match c with
  | Db c => dbR c
  | Prov c => provR c
  | Webhook c => webhookR c
  | RunAws _ | ReadFile _ => option gostring
  | PrintOut _ | PrintModule _ => unit
  | _ => bool
  end.

Abbreviation cliProg := (prog cliR).

Definition onDb {A} : tenantProg A -> cliProg A := lifted (R2 := cliR) Db (fun _ r => r).
Definition onProv {A} : provProg A -> cliProg A := lifted (R2 := cliR) Prov (fun _ r => r).
Definition onWebhook {A} : webhookProg A -> cliProg A := lifted (R2 := cliR) Webhook (fun _ r => r).

(** ** What the commands share ([main.go]) *)

Section commands.
(** [os.Getenv]. *)
Context (getenv : gostring -> gostring).

Definition requireEnv (name : gostring) (k : gostring -> cliProg nat) : cliProg nat :=
  if bool_decide (getenv name = []) then Ret 2 else k (getenv name).

Definition DATABASE_URL : gostring := "DATABASE_URL".

(** [fs.Parse]; every error, [flag.ErrHelp] among them, ends with 2. *)
Definition withFlags (f : formals) (args : list gostring) (k : parsed -> cliProg nat) : cliProg nat :=
  match Parse f args with Err _ => Ret 2 | Ok p => k p end.

Definition withPool (dsn : gostring) (k : cliProg nat) : cliProg nat :=
  Do (R := cliR) (OpenPool dsn) (fun ok : bool => if ok then k else Ret 1).

(** The default of a flag that is left empty. *)
Definition orElseFlag (v def : gostring) : gostring := if bool_decide (v = []) then def else v.

(** ** The lifecycle ([tenant_suspend.go], [tenant_windown.go]) *)

Definition actorFlags : formals := [("tenant-uuid" : gostring, StringFlag); ("actor" : gostring, StringFlag)].

(** [ErrTenantNotFound] is a success, so that scripts can be repeated. *)
Definition runTransition (transition : gostring -> gostring -> tenantProg outcome) (defActor : gostring)
    (args : list gostring) : cliProg nat :=
  withFlags actorFlags args (fun p =>
  let id := stringFlag "tenant-uuid" [] p in
  if bool_decide (id = []) then Ret 2
  else if negb (ValidateUUIDv4 id) then Ret 2
  else
    let actor := orElseFlag (stringFlag "actor" [] p) defActor in
    requireEnv DATABASE_URL (fun dsn =>
    withPool dsn
      (bind (onDb (transition id actor)) (fun e =>
       Ret (match e with None | Some ErrTenantNotFound => 0 | Some _ => 1 end))))).

Definition runTenantSuspend : list gostring -> cliProg nat := runTransition Suspend "suspend@neksur.com".
Definition runTenantWindDown : list gostring -> cliProg nat := runTransition WindDown "winddown@neksur.com".

(** ** Deletion ([tenant_delete.go]) *)

Definition deleteFlags : formals :=
  [("tenant-uuid" : gostring, StringFlag); ("yes" : gostring, BoolFlag); ("actor" : gostring, StringFlag);
   ("skip-terraform" : gostring, BoolFlag)].

Definition destroyArgs (tfDir id : gostring) : list gostring :=
  ["-chdir=" ++ tfDir; "destroy" : gostring;
   "-target=module.customer_peering[" ++ [dquote] ++ id ++ [dquote] ++ "]"; "-auto-approve" : gostring].

(** A destruction that fails is a warning. *)
Definition destroyPeering (id : gostring) : cliProg nat :=
  let tfDir := getenv "TF_DIR" in
  if bool_decide (tfDir = []) then Ret 0
  else Do (R := cliR) (RunTerraform (destroyArgs tfDir id)) (fun _ : bool => Ret 0).

Definition runTenantDelete (args : list gostring) : cliProg nat :=
  withFlags deleteFlags args (fun p =>
  let id := stringFlag "tenant-uuid" [] p in
  if bool_decide (id = []) then Ret 2
  else if negb (ValidateUUIDv4 id) then Ret 2
  else if negb (boolFlag "yes" p) then Ret 2
  else
    let actor := orElseFlag (stringFlag "actor" [] p) "delete@neksur.com" in
    requireEnv DATABASE_URL (fun dsn =>
    withPool dsn
      (bind (onDb (Delete id actor true)) (fun e =>
       match e with
       | Some _ => Ret 1
       | None => if boolFlag "skip-terraform" p then Ret 0 else destroyPeering id
       end)))).

(** ** Migration to another pool ([tenant_migrate_to_pool_b.go]) *)

Definition poolBFlags : formals :=
  [("tenant-uuid" : gostring, StringFlag); ("pool-b-endpoint" : gostring, StringFlag); ("pool-b-dsn" : gostring, StringFlag);
   ("kms-key-arn" : gostring, StringFlag); ("instance-class" : gostring, StringFlag); ("dump-path" : gostring, StringFlag);
   ("actor" : gostring, StringFlag); ("yes" : gostring, BoolFlag); ("keep-dump" : gostring, BoolFlag)].

(** [None]: neither a DSN nor the credentials for one. *)
Definition targetDSN (p : parsed) : option gostring :=
  let dsn := stringFlag "pool-b-dsn" [] p in
  if negb (bool_decide (dsn = [])) then Some dsn
  else
    let user := getenv "POOL_B_ADMIN_USER" in
    let pass := getenv "POOL_B_ADMIN_PASSWORD" in
    if bool_decide (user = []) || bool_decide (pass = []) then None
    else Some ("postgres://" ++ user ++ ":" ++ pass ++ "@" ++ stringFlag "pool-b-endpoint" [] p ++ "/neksur").

(** The path of the result: that of the validated options. *)
Definition dumpPathOf (opts : MigrationOpts) : gostring :=
  match validateOpts opts with Some opts => DumpPath opts | None => [] end.

Definition runTenantMigrateToPoolB (args : list gostring) : cliProg nat :=
  withFlags poolBFlags args (fun p =>
  let id := stringFlag "tenant-uuid" [] p in
  if bool_decide (id = []) || bool_decide (stringFlag "pool-b-endpoint" [] p = [])
     || bool_decide (stringFlag "kms-key-arn" [] p = []) then Ret 2
  else if negb (boolFlag "yes" p) then Ret 2
  else if negb (ValidateUUIDv4 id) then Ret 2
  else
    requireEnv DATABASE_URL (fun sourceDSN =>
    match targetDSN p with
    | None => Ret 2
    | Some target =>
        withPool sourceDSN
          (let opts := mkOpts id sourceDSN target (stringFlag "dump-path" [] p) (stringFlag "actor" [] p) in
           bind (onDb (MigratePoolAToB opts)) (fun e =>
           match e with
           | Some _ => Ret 1
           | None =>
               if boolFlag "keep-dump" p then Ret 0
               else Do (R := cliR) (RemoveFile (dumpPathOf opts)) (fun _ : bool => Ret 0)
           end))
    end)).

(** ** Creation, migrations and smoke checks *)

Definition createFlags : formals := [("tenant-uuid" : gostring, StringFlag); ("workos-org" : gostring, StringFlag)].
Definition migrateFlags : formals := [("tenant-uuid" : gostring, StringFlag); ("step" : gostring, StringFlag)].
Definition smokeFlags : formals := [("tenant-uuid" : gostring, StringFlag); ("probe-tenant-uuid" : gostring, StringFlag)].

Definition tenantCreate (args : list gostring) : cliProg nat :=
  withFlags createFlags args (fun p =>
  onProv (runTenantCreate (getenv DATABASE_URL) (stringFlag "tenant-uuid" [] p) (stringFlag "workos-org" [] p))).

Definition tenantMigrate (args : list gostring) : cliProg nat :=
  withFlags migrateFlags args (fun p =>
  onProv (runTenantMigrate (getenv DATABASE_URL) (stringFlag "tenant-uuid" [] p) (stringFlag "step" [] p))).

Definition tenantSmoke (args : list gostring) : cliProg nat :=
  withFlags smokeFlags args (fun p =>
  onProv (runTenantSmoke (getenv DATABASE_URL) (getenv "NEKSUR_SMOKE_PROBE_TENANT")
            (stringFlag "tenant-uuid" [] p) (stringFlag "probe-tenant-uuid" [] p))).

(** ** Peering ([tenant_peer.go]) *)

Definition peerFlags : formals :=
  [("tenant-uuid" : gostring, StringFlag); ("customer-vpc" : gostring, StringFlag); ("customer-region" : gostring, StringFlag);
   ("customer-account" : gostring, StringFlag); ("status" : gostring, BoolFlag); ("show-customer-module" : gostring, BoolFlag)].

Section peer.
Context {PeeringResult : Type} (decodeOutputs : gostring -> option (gmap gostring PeeringResult)).

Definition runTenantPeer (args : list gostring) : cliProg nat :=
  withFlags peerFlags args (fun p =>
  let id := stringFlag "tenant-uuid" [] p in
  let vpc := stringFlag "customer-vpc" [] p in
  let region := stringFlag "customer-region" [] p in
  if bool_decide (id = []) then Ret 2
  else if negb (ValidateUUIDv4 id) then Ret 2
  else if boolFlag "show-customer-module" p then Do (R := cliR) (PrintModule id) (fun _ : unit => Ret 0)
  else if boolFlag "status" p then
    Do (R := cliR) (PrintOut (orElseFlag (getenv "NEKSUR_FAKE_PEER_STATUS") "pending-acceptance")) (fun _ : unit => Ret 0)
  else if bool_decide (vpc = []) || bool_decide (region = []) then Ret 2
  else if negb (ValidateCustomerVPCID vpc) then Ret 2
  else if negb (ValidateAWSRegion region) then Ret 2
  else if bool_decide (getenv "PROVISION_MOCK_TERRAFORM" = "1") then Ret 0
  else
    requireEnv DATABASE_URL (fun dsn =>
    requireEnv "TF_DIR" (fun tfDir =>
    withPool dsn
      (bind (onProv (InitiatePeering decodeOutputs tfDir
               (mkPeering id vpc region (stringFlag "customer-account" [] p)))) (fun r =>
       Ret (match r with Ok _ => 0 | Err _ => 1 end)))))).
End peer.

(** ** Certificates ([tenant_cert_issue.go], [IssueClientCert] of provision.go) *)

Record CertBundle := mkBundle { cb_Certificate : gostring; cb_Chain : gostring; cb_Subject : gostring }.

Definition nl : ascii := ascii_of_N 10.

Definition mockBundle (id : gostring) : CertBundle :=
  mkBundle ("-----BEGIN CERTIFICATE-----" ++ [nl] ++ "SYNTHETIC-MOCK-NEKSUR-PHASE-0.5" ++ [nl] ++ "-----END CERTIFICATE-----" ++ [nl])
    ("-----BEGIN CERTIFICATE-----" ++ [nl] ++ "SYNTHETIC-MOCK-CHAIN" ++ [nl] ++ "-----END CERTIFICATE-----" ++ [nl])
    ("CN=neksur-tenant-" ++ id ++ ", O=Neksur (mock), C=US").

Definition issueArgs (arn : gostring) : list gostring :=
  ["acm-pca" : gostring; "issue-certificate" : gostring; "--certificate-authority-arn" : gostring; arn;
   "--csr" : gostring; "fileb:///dev/stdin" : gostring; "--signing-algorithm" : gostring; "SHA256WITHRSA" : gostring;
   "--validity" : gostring; "Type=DAYS,Value=365" : gostring; "--template-arn" : gostring;
   "arn:aws:acm-pca:::template/EndEntityClientAuthCertificate/V1" : gostring].

Definition IssueClientCert (privateCAArn id : gostring) : cliProg (option CertBundle) :=
  if bool_decide (privateCAArn = []) then Ret (Some (mockBundle id))
  else
    Do (R := cliR) (RunAws (issueArgs privateCAArn)) (fun out : option gostring =>
    Ret ((fun out => mkBundle out [] ("CN=neksur-tenant-" ++ id)) <$> out)).

Definition certFlags : formals := [("tenant-uuid" : gostring, StringFlag)].

Definition runTenantCertIssue (args : list gostring) : cliProg nat :=
  withFlags certFlags args (fun p =>
  let id := stringFlag "tenant-uuid" [] p in
  if bool_decide (id = []) then Ret 2
  else if negb (ValidateUUIDv4 id) then Ret 2
  else
    bind (IssueClientCert (getenv "PRIVATE_CA_ARN") id) (fun bundle =>
    match bundle with
    | None => Ret 1
    | Some b =>
        Do (R := cliR) (PrintOut (cb_Certificate b)) (fun _ : unit =>
        if bool_decide (cb_Chain b = []) then Ret 0
        else Do (R := cliR) (PrintOut (cb_Chain b)) (fun _ : unit => Ret 0))
    end)).

(** ** Policies and webhooks *)

Section policy.
Context (sha256 : gostring -> gostring).
Context {Program : Type} (compileProgram : gostring -> option Program).
Context {C : Type} `{!Lru celKey Program C} (newCache : C).

Definition runPolicyCompile (args : list gostring) : cliProg nat :=
  withFlags [] args (fun p =>
  match positional p with
  | [path] =>
      Do (R := cliR) (ReadFile path) (fun content : option gostring =>
      match content with
      | None => Ret 2
      | Some text =>
          Do (R := cliR) NewCelEnv (fun ok : bool =>
          if ok then
            match (CompileOrGet sha256 compileProgram ("cli-compile-" ++ path) text newCache).1 with
            | Ok _ => Ret 0
            | Err _ => Ret 1
            end
          else Ret 1)
      end)
  | _ => Ret 2
  end).

Definition webhookFlagSet : formals :=
  [("tenant" : gostring, StringFlag); ("polaris-endpoint" : gostring, StringFlag); ("neksur-webhook" : gostring, StringFlag);
   ("skip-upstream" : gostring, BoolFlag)].

Definition polarisWebhookRegister (parseUUID : gostring -> option gostring) (validURL : gostring -> bool)
    (args : list gostring) : cliProg nat :=
  withFlags webhookFlagSet args (fun p =>
  onWebhook (runPolarisWebhookRegister parseUUID validURL (getenv DATABASE_URL)
    (mkWebhookFlags (stringFlag "tenant" [] p) (stringFlag "polaris-endpoint" [] p)
       (stringFlag "neksur-webhook" [] p) (boolFlag "skip-upstream" p)))).

(** ** [main]: [os.Args] without the name of the program *)

Context (parseUUID : gostring -> option gostring) (validURL : gostring -> bool).
Context {PeeringResult : Type} (decodeOutputs : gostring -> option (gmap gostring PeeringResult)).

Definition dispatchTenant (args : list gostring) : cliProg nat :=
  match args with
  | [] => Ret 2
  | verb :: subArgs =>
      if bool_decide (verb = "create") then tenantCreate subArgs
      else if bool_decide (verb = "migrate") then tenantMigrate subArgs
      else if bool_decide (verb = "migrate-to-pool-b") then runTenantMigrateToPoolB subArgs
      else if bool_decide (verb = "peer") then runTenantPeer decodeOutputs subArgs
      else if bool_decide (verb = "smoke") then tenantSmoke subArgs
      else if bool_decide (verb = "cert-issue") then runTenantCertIssue subArgs
      else if bool_decide (verb = "suspend") then runTenantSuspend subArgs
      else if bool_decide (verb = "wind-down") || bool_decide (verb = "windown") then runTenantWindDown subArgs
      else if bool_decide (verb = "delete") then runTenantDelete subArgs
      else Ret 2
  end.

Definition dispatchPolaris (args : list gostring) : cliProg nat :=
  match args with
  | [] => Ret 2
  | verb :: subArgs =>
      if bool_decide (verb = "webhook-register") then polarisWebhookRegister parseUUID validURL subArgs else Ret 2
  end.

Definition dispatchPolicy (args : list gostring) : cliProg nat :=
  match args with
  | [] => Ret 2
  | verb :: subArgs => if bool_decide (verb = "compile") then runPolicyCompile subArgs else Ret 2
  end.

Definition main (args : list gostring) : cliProg nat :=
  match args with
  | [] => Ret 2
  | top :: args =>
      if bool_decide (top = "tenant") then dispatchTenant args
      else if bool_decide (top = "polaris") then dispatchPolaris args
      else if bool_decide (top = "policy") then dispatchPolicy args
      else if bool_decide (top = "-h") || bool_decide (top = "--help") || bool_decide (top = "help") then Ret 0
      else Ret 2
  end.
End policy.
End commands.
