(* ===== verification/CliSpec.v ===== *)
(** * The command line: theorems

    What a command line can do to the tenants: nothing when it is refused, and a
    deletion only when it was confirmed. *)

From S2P Require Import Prelude Effects Lru JsonText Tenant TenantSpec Provision Cel Credentials Flags Cli.
From Stdlib Require Import Lia.
#[local] Open Scope go_scope.

(** ** Exit code 2 *)

(** Calls that change nothing outside the process. *)
Definition harmless (c : cliCall) : bool :=
  match c with ReadFile _ | PrintOut _ | PrintModule _ => true | _ => false end.

(** Every program here reads first, and ends with 2 or acts. *)
Inductive refuses : cliProg nat -> Prop :=
  | refuses_ret code : refuses (Ret code)
  | refuses_read path k : (forall r, refuses (k r)) -> refuses (Do (R := cliR) (ReadFile path) k)
  | refuses_acts p : only_to (fun _ => true) (fun code => code <> 2) p -> refuses p.

Lemma refuses_run p o h :
  refuses p -> let '(code, t) := run o h p in code = 2 -> forallb harmless (calls t) = true.
Proof.
  intros H; revert h; induction H as [code|path k _ IH|p H]; intros h.
  - done.
  - cbn [run]. specialize (IH (o h (ReadFile path)) (h ++ [ev (ReadFile path) (o h (ReadFile path))])).
    destruct (run o (h ++ [ev (ReadFile path) (o h (ReadFile path))]) (k (o h (ReadFile path)))) as [a t].
    exact IH.
  - pose proof (only_to_run _ _ p o h H) as [_ H']. by destruct (run o h p) as [code t].
Qed.

Lemma acts_bind {E} {R : E -> Type} {A} (p : prog R A) (f : A -> prog R nat) :
  (forall a, only_to (fun _ => true) (fun code => code <> 2) (f a)) ->
  only_to (fun _ => true) (fun code => code <> 2) (bind p f).
Proof.
  intros H. apply (only_to_bind _ (fun _ => True)); [|by intros a _].
  clear H f. induction p as [a|c k IH]; [done|]. by split.
Qed.

(** Calls that end a tenant. *)
Definition destructive (c : cliCall) : bool :=
  match c with
  | Db (UpdateTenants _ deleted _) | Db (ExecSetState _ deleted) | Db (DropGraph _) | RunTerraform _ => true
  | _ => false
  end.

(** A call that ends no tenant but this one. *)
Definition concerns (tfDir id : gostring) (c : cliCall) : bool :=
  match c with
  | Db (UpdateTenants i deleted _) | Db (ExecSetState i deleted) => bool_decide (i = id)
  | Db (DropGraph s) => bool_decide (s = SchemaName id)
  | RunTerraform args => bool_decide (args = destroyArgs tfDir id)
  | _ => true
  end.

(** The calls of a deletion that was committed, both its transactions. *)
Definition deletion (id actor : gostring) (n : nat) (r : dropped) : trace cliR :=
  [ev (R := cliR) (Db Begin) true;
   ev (R := cliR) (Db (UpdateTenants id deleted [active; suspended; wind_down])) (Some (S n));
   ev (R := cliR) (Db (InsertAudit (mkAudit actor id "tenant.deleted" (Transition deleted [active; suspended; wind_down])))) true;
   ev (R := cliR) (Db Commit) true;
   ev (R := cliR) (Db Begin) true; ev (R := cliR) (Db LoadAge) true; ev (R := cliR) (Db SetSearchPath) true;
   ev (R := cliR) (Db (DropGraph (SchemaName id))) r; ev (R := cliR) (Db Commit) true].

Definition isTerraform (c : cliCall) : bool := match c with RunTerraform _ => true | _ => false end.

Lemma spares_transition id new from e actor :
  new <> deleted -> only (fun c => negb (destructive c)) (onDb (transitionLifecycle id new from e actor)).
Proof.
  intros H. apply only_lifted. split; [done|]. intros []; [|done]. split; [by destruct new|]. intros [[|n]|]; [done| |done].
  split; [done|]. intros []; [|done]. split; [done|]. by intros [].
Qed.

Lemma spares_must p k :
  only (fun c => negb (destructive c)) (onDb p) -> only (fun c => negb (destructive c)) (onDb k) ->
  only (fun c => negb (destructive c)) (onDb (must p k)).
Proof.
  unfold onDb, must. induction p as [[e|]|c q IH]; cbn [lifted bind only]; [done..|]. intros [Hc Hq] Hk. auto.
Qed.

Lemma spares_counts opts schema : only (fun c => negb (destructive c)) (onDb (validateRowCounts opts schema)).
Proof.
  apply only_lifted. split; [done|]. intros []; [|done]. split; [done|]. intros [tables|]; [|done].
  assert (H : only (fun e => negb (destructive (Db e))) (compareTables tables)).
  { induction tables as [|t tables IH]; [done|]. split; [done|]. intros [a|]; [|done]. split; [done|]. intros [b|]; [|done].
    by case_bool_decide. }
  by destruct tables.
Qed.

Lemma spares_migration opts : only (fun c => negb (destructive c)) (onDb (MigratePoolAToB opts)).
Proof.
  unfold MigratePoolAToB. destruct (validateOpts opts) as [o|]; [|done].
  repeat (apply spares_must); try (by apply spares_transition); try apply spares_counts; by split.
Qed.

Section main.
Context (getenv : gostring -> gostring) (sha256 : gostring -> gostring).
Context {Program : Type} (compileProgram : gostring -> option Program).
Context {C : Type} `{!Lru celKey Program C} (newCache : C).
Context (parseUUID : gostring -> option gostring) (validURL : gostring -> bool).
Context {PeeringResult : Type} (decodeOutputs : gostring -> option (gmap gostring PeeringResult)).

#[local] Abbreviation cli := (main getenv sha256 compileProgram newCache parseUUID validURL decodeOutputs).

Lemma refuses_flags f args k : (forall p, Parse f args = Ok p -> refuses (k p)) -> refuses (withFlags f args k).
Proof. intros H. unfold withFlags. destruct (Parse f args) as [p|e]; [by apply H|constructor]. Qed.

Lemma refuses_env name k : (forall v, refuses (k v)) -> refuses (requireEnv getenv name k).
Proof. intros H. unfold requireEnv. case_match; [constructor|apply H]. Qed.

Lemma refuses_pool dsn k :
  only_to (fun _ => true) (fun code => code <> 2) k -> refuses (withPool dsn k).
Proof. intros H. apply refuses_acts. split; [done|]. by intros []. Qed.

(** The programs of a tenant's provisioning. *)
Inductive provUsage : provProg nat -> Prop :=
  | provUsage_ret code : provUsage (Ret code)
  | provUsage_acts p : only_to (fun _ => true) (fun code => code <> 2) p -> provUsage p.

Lemma provUsage_clients dsn p : provUsage (withClients dsn (exitCode p)).
Proof.
  unfold withClients. case_match; constructor. split; [done|]. intros []; [|done]. split; [done|]. intros []; [|done].
  unfold exitCode. apply (only_to_bind _ (fun _ => True)); [|by intros [e|] _].
  induction p as [a|c k IH]; [done|]. by split.
Qed.

Lemma refuses_prov p : provUsage p -> refuses (onProv p).
Proof. intros [code|q H]; [constructor|]. apply refuses_acts. by apply only_to_lifted. Qed.

Ltac usage :=
  repeat first
    [ apply refuses_ret | apply refuses_flags; intros ? _ | apply refuses_env; intros ?
    | apply refuses_pool, acts_bind; intros ? | progress cbn zeta | case_match ].

Lemma peer_refuses args : refuses (runTenantPeer getenv decodeOutputs args).
Proof. unfold runTenantPeer. usage; first [done|by apply refuses_acts]. Qed.

Lemma poolB_refuses args : refuses (runTenantMigrateToPoolB getenv args).
Proof. unfold runTenantMigrateToPoolB. usage; done. Qed.

Lemma delete_refuses args : refuses (runTenantDelete getenv args).
Proof.
  unfold runTenantDelete, destroyPeering. usage; done.
Qed.

Lemma transition_refuses f def args : refuses (runTransition getenv f def args).
Proof. unfold runTransition. usage; done. Qed.

Lemma cert_refuses args : refuses (runTenantCertIssue getenv args).
Proof.
  unfold runTenantCertIssue, IssueClientCert. usage.
  - cbn [bind]. apply refuses_acts. by case_match.
  - cbn [bind]. apply refuses_acts. split; [done|]. intros [out|]; done.
Qed.

Lemma compile_refuses args : refuses (runPolicyCompile sha256 compileProgram newCache args).
Proof.
  unfold runPolicyCompile. usage. apply refuses_read. intros [text|]; [|constructor].
  apply refuses_acts. split; [done|]. intros []; [|done]. by case_match.
Qed.

Lemma webhook_refuses args : refuses (polarisWebhookRegister getenv parseUUID validURL args).
Proof.
  unfold polarisWebhookRegister. apply refuses_flags. intros p _. unfold runPolarisWebhookRegister.
  do 3 (case_match; [constructor|]).
  unfold onWebhook. apply refuses_acts, only_to_lifted. split; [done|]. intros [r|]; [|done].
  cbn [bind]. split; [done|]. intros []; [|done].
  apply acts_bind. intros []; [|done]. by apply acts_bind.
Qed.

Lemma provision_refuses args :
  refuses (tenantCreate getenv args) /\ refuses (tenantMigrate getenv args) /\ refuses (tenantSmoke getenv args).
Proof.
  unfold tenantCreate, tenantMigrate, tenantSmoke. repeat split; apply refuses_flags; intros p _; apply refuses_prov.
  - unfold runTenantCreate. do 3 (case_match; [constructor|]). apply provUsage_clients.
  - unfold runTenantMigrate. do 3 (case_match; [constructor|]). apply provUsage_clients.
  - unfold runTenantSmoke. do 3 (case_match; [constructor|]). cbn zeta. case_match; [constructor|]. apply provUsage_clients.
Qed.

Lemma main_refuses args : refuses (cli args).
Proof.
  destruct args as [|top args]; [constructor|]. unfold main. 
  case_match; [|case_match; [|case_match; [|by case_match; constructor]]];
    (destruct args as [|verb args]; [constructor|]); cbn [dispatchTenant dispatchPolaris dispatchPolicy].
  - destruct (provision_refuses args) as (? & ? & ?).
    repeat (case_match; [by (apply poolB_refuses || apply peer_refuses || apply cert_refuses || apply transition_refuses || apply delete_refuses || assumption)|]).
    constructor.
  - case_match; [apply webhook_refuses|constructor].
  - case_match; [apply compile_refuses|constructor].
Qed.

(** (C14) A command that ends with 2, whether its verb, its flags, their values or the
    environment were wrong or a file could not be read, has changed nothing and
    asked nobody: at most it has read that file. *)
Theorem refused_without_effect args o h :
  let '(code, t) := run o h (cli args) in code = 2 -> forallb harmless (calls t) = true.
Proof. apply refuses_run, main_refuses. Qed.

(** ** Deletions *)

Definition spares (p : cliProg nat) : Prop := only (fun c => negb (destructive c)) p.

Lemma spares_flags f args k : (forall p, spares (k p)) -> spares (withFlags f args k).
Proof. intros H. unfold withFlags. by destruct (Parse f args). Qed.

Lemma spares_env name k : (forall v, spares (k v)) -> spares (requireEnv getenv name k).
Proof. intros H. unfold requireEnv. by case_match. Qed.

Lemma spares_pool dsn k : spares k -> spares (withPool dsn k).
Proof. intros H. split; [done|]. by intros []. Qed.

Lemma spares_bind {A} (p : cliProg A) f :
  only (fun c => negb (destructive c)) p -> (forall a, spares (f a)) -> spares (bind p f).
Proof. apply only_bind. Qed.

Lemma spares_prov {A} (p : provProg A) : only (fun c => negb (destructive c)) (onProv p).
Proof. apply only_lifted, (only_weaken (fun _ => true)); [done|apply only_all]. Qed.

Lemma spares_webhook {A} (p : webhookProg A) : only (fun c => negb (destructive c)) (onWebhook p).
Proof. apply only_lifted, (only_weaken (fun _ => true)); [done|apply only_all]. Qed.

Ltac spared :=
  repeat first
    [ exact I | apply spares_prov | apply spares_webhook | apply spares_flags; intros ? | apply spares_env; intros ?
    | apply spares_pool | apply spares_bind; [|intros ?] | progress cbn zeta | case_match | split; [done|intros ?] ].

Lemma tenant_spares verb args :
  verb <> ("delete" : gostring) -> spares (dispatchTenant getenv decodeOutputs (verb :: args)).
Proof.
  intros Hv. cbn [dispatchTenant]. rewrite (bool_decide_eq_false_2 (verb = "delete") Hv).
  unfold tenantCreate, tenantMigrate, tenantSmoke, runTenantMigrateToPoolB, runTenantPeer, runTenantCertIssue,
    IssueClientCert, runTenantSuspend, runTenantWindDown, runTransition.
  spared.
  all: try (by apply spares_migration); try (by apply spares_transition).
Qed.

Lemma main_spares args :
  (forall rest, args <> ("tenant" : gostring) :: ("delete" : gostring) :: rest) -> spares (cli args).
Proof.
  intros H. destruct args as [|top args]; [done|]. unfold main.
  case_match; [|case_match; [|case_match; [|by repeat case_match]]].
  - destruct args as [|verb rest]; [done|]. apply tenant_spares. intros ->.
    apply bool_decide_eq_true in H0 as ->. by eapply H.
  - destruct args as [|verb rest]; [done|]. cbn [dispatchPolaris]. case_match; [|done].
    unfold polarisWebhookRegister. spared.
  - destruct args as [|verb rest]; [done|]. cbn [dispatchPolicy]. case_match; [|done].
    unfold runPolicyCompile. apply spares_flags. intros p. case_match; [done|]. case_match; [|done].
    split; [done|]. intros [text|]; [|done]. split; [done|]. intros []; [|done]. by case_match.
Qed.

(** What a deletion has done when it says that it succeeded, or destroys the
    peering: exactly the calls of both transactions, committed. *)
Definition deleted_by (dsn id actor : gostring) (code : nat) (t : trace cliR) : Prop :=
  forallb (concerns (getenv "TF_DIR") id) (calls t) = true /\
  (code = 0 \/ existsb isTerraform (calls t) = true ->
   exists n r u, r <> DropFailed /\ t = ev (R := cliR) (OpenPool dsn) true :: deletion id actor n r ++ u /\
     (u = [] \/ calls u = [RunTerraform (destroyArgs (getenv "TF_DIR") id)])).

Lemma deletion_calls id actor n r : forallb (concerns (getenv "TF_DIR") id) (calls (deletion id actor n r)) = true.
Proof. cbn. by rewrite !(bool_decide_eq_true_2 (_ = _)). Qed.

Lemma deleted_by_failed dsn id actor t :
  forallb (concerns (getenv "TF_DIR") id) (calls t) = true -> existsb isTerraform (calls t) = false ->
  deleted_by dsn id actor 1 t.
Proof. intros H E. split; [done|]. rewrite E. by intros []. Qed.

Lemma deleted_by_done dsn id actor n r u :
  r <> DropFailed -> (u = [] \/ calls u = [RunTerraform (destroyArgs (getenv "TF_DIR") id)]) ->
  deleted_by dsn id actor 0 (ev (R := cliR) (OpenPool dsn) true :: deletion id actor n r ++ u).
Proof.
  intros Hr Hu. split; [|by intros _; exists n, r, u].
  change (forallb (concerns (getenv "TF_DIR") id) (calls (deletion id actor n r ++ u)) = true).
  rewrite calls_app, forallb_app, deletion_calls. cbn [andb].
  destruct Hu as [Hu|Hu]; rewrite Hu; [done|]. cbn. by rewrite bool_decide_eq_true_2.
Qed.

Lemma delete_always dsn id actor (skip : bool) :
  always (withPool dsn (bind (onDb (Delete id actor true)) (fun e =>
    match e with Some _ => Ret 1 | None => if skip then Ret 0 else destroyPeering getenv id end)))
    [] (deleted_by dsn id actor).
Proof.
  unfold destroyPeering.
  repeat (cbn -[SchemaName destroyArgs deleted_by];
    lazymatch goal with
    | |- forall _ : bool, _ => intros []
    | |- forall _ : option nat, _ => intros [[|]|]
    | |- forall _ : dropped, _ => intros []
    | |- context [if skip then _ else _] => destruct skip
    | |- context [if bool_decide ?P then _ else _] => destruct (bool_decide P)
    end).
  all: try (apply deleted_by_failed; [|done]; cbn; by rewrite ?(bool_decide_eq_true_2 (_ = _))).
  all: first
    [ apply (deleted_by_done dsn id actor n Dropped [])
    | apply (deleted_by_done dsn id actor n UndefinedGraph [])
    | eapply (deleted_by_done dsn id actor n Dropped [_])
    | eapply (deleted_by_done dsn id actor n UndefinedGraph [_]) ]; by auto.
Qed.

(** The value of a flag among the arguments of a command. *)
Definition given (rest : list gostring) (name v : gostring) : Prop :=
  exists d, written d name (Some v) ∈ rest \/ (written d name None ∈ rest /\ v ∈ rest).

Definition confirmed (rest : list gostring) : Prop :=
  exists d v, written d "yes" v ∈ rest /\ (v = None \/ v ≫= ParseBool = Some true).

Lemma delete_or_spares args :
  (exists rest, args = ("tenant" : gostring) :: ("delete" : gostring) :: rest) \/ spares (cli args).
Proof.
  destruct args as [|top [|verb rest]]; [by right| |].
  - right. apply main_spares. done.
  - destruct (decide (top = "tenant")) as [->|H1]; [|right; apply main_spares; intros r [= E _ _]; done].
    destruct (decide (verb = "delete")) as [->|H2]; [left; by exists rest|].
    right; apply main_spares. intros r [= E _]; done.
Qed.

Lemma runTenantDelete_run rest o :
  let '(code, t) := run o [] (runTenantDelete getenv rest) in
  existsb destructive (calls t) = true ->
  exists id actor, given rest "tenant-uuid" id /\ ValidateUUIDv4 id = true /\ confirmed rest /\
    deleted_by (getenv DATABASE_URL) id actor code t.
Proof.
  unfold runTenantDelete, withFlags. destruct (Parse deleteFlags rest) as [p|e] eqn:EP; [|done]. cbn zeta.
  set (id := stringFlag "tenant-uuid" [] p).
  case_bool_decide as Hid; [done|]. destruct (ValidateUUIDv4 id) eqn:Ev; [|done]. cbn [negb].
  destruct (boolFlag "yes" p) eqn:Ey; [|done]. cbn [negb].
  unfold requireEnv. case_bool_decide as Hdsn; [done|].
  set (actor := orElseFlag (stringFlag "actor" [] p) "delete@neksur.com").
  pose proof (always_run _ _ [] o (delete_always (getenv DATABASE_URL) id actor (boolFlag "skip-terraform" p))) as H.
  destruct (run o [] _) as [code t]. intros _. exists id, actor. split_and!; [|done| |exact H].
  - exact (stringFlag_written _ _ _ "tenant-uuid" [] id EP eq_refl Hid).
  - exact (boolFlag_written _ _ _ "yes" EP Ey).
Qed.

(** (C7) Whatever the command line, the environment variables and the answers of the
    outside are: only [tenant delete] ends a tenant, with [--yes] among its
    arguments, alone or with a true value, and a well-formed identifier that was
    given for [--tenant-uuid]; every call that ends a tenant is about that one; and
    the peering is destroyed, or success reported, only after both transactions of
    the deletion, exactly them, were answered as committed. *)
Theorem deletion_confirmed args o :
  let '(code, t) := run o [] (cli args) in
  existsb destructive (calls t) = true ->
  exists rest id actor,
    args = ("tenant" : gostring) :: ("delete" : gostring) :: rest /\
    given rest "tenant-uuid" id /\ ValidateUUIDv4 id = true /\ confirmed rest /\
    deleted_by (getenv DATABASE_URL) id actor code t.
Proof.
  destruct (delete_or_spares args) as [[rest ->]|Hs].
  - change (cli (("tenant" : gostring) :: ("delete" : gostring) :: rest)) with (runTenantDelete getenv rest).
    pose proof (runTenantDelete_run rest o) as H. destruct (run o [] (runTenantDelete getenv rest)) as [code t].
    intros He. apply H in He as (id & actor & Hg & Hv & Hc & Hd). by exists rest, id, actor.
  - apply (only_run _ _ o []) in Hs. destruct (run o [] (cli args)) as [code t]. cbn [snd] in Hs.
    intros He. apply existsb_exists in He as (c & Hin & Hc).
    rewrite forallb_forall in Hs. specialize (Hs c Hin). by rewrite Hc in Hs.
Qed.
End main.

(** ** Examples *)

Module CliDemo.

Definition getenv (name : gostring) : gostring :=
  if bool_decide (name = DATABASE_URL) then "postgres://admin@db/neksur"
  else if bool_decide (name = "TF_DIR") then "/infra" else [].

(** Everything works. *)
Definition agreeable : env cliR := fun _ c =>
  match c return cliR c with
  | Db c => match c return dbR c with
            | UpdateTenants _ _ _ | ExecSetState _ _ | ExecSetPool _ _ _ => Some 1
            | DropGraph _ => Dropped
            | ListTables _ => Some [("t" : gostring)]
            | CountRows _ _ => Some 1%Z
            | _ => true
            end
  | Prov c => match c return provR c with
              | Exec _ _ => SqlError None
              | Terraform _ => None
              | _ => true
              end
  | Webhook c => match c return webhookR c with
                 | RandRead => None
                 | UpdateSecret _ _ => None
                 | PostSubscription _ _ _ => None
                 | PrintSecret _ => tt
                 | _ => true
                 end
  | RunAws _ => None
  | ReadFile _ => None
  | PrintOut _ => tt
  | PrintModule _ => tt
  | _ => true
  end.

Definition id : gostring := "11111111-2222-4333-8444-555555555555".

Definition cache : Type := bounded celKey unit.
#[global] Instance cache_lru : Lru celKey unit cache := bounded_Lru 4096.

Definition argv (confirm : gostring) : list gostring :=
  ["tenant" : gostring; "delete" : gostring; "--tenant-uuid" : gostring; id; confirm].

Lemma deletion_confirmed_witness :
  let r := run agreeable [] (main getenv (fun s => s) (fun _ => Some tt) (mkBounded [] : cache) (fun s => Some s)
             (fun _ => true) (fun _ => None (A := gmap gostring unit)) (argv "--yes")) in
  r.1 = 0 /\ existsb destructive (calls r.2) = true /\
  exists rest i actor,
    argv "--yes" = ("tenant" : gostring) :: ("delete" : gostring) :: rest /\
    given rest "tenant-uuid" i /\ ValidateUUIDv4 i = true /\ confirmed rest /\
    deleted_by getenv "postgres://admin@db/neksur" i actor r.1 r.2.
Proof.
  cbn zeta. split; [vm_compute; reflexivity|]. split; [vm_compute; reflexivity|].
  exact (deletion_confirmed getenv (fun s => s) (fun _ => Some tt) (mkBounded [] : cache) (fun s => Some s)
    (fun _ => true) (fun _ => None (A := gmap gostring unit)) (argv "--yes") agreeable ltac:(vm_compute; reflexivity)).
Defined.

(** Without a confirmation, or with a false one, nothing is asked. *)
Lemma refused_without_effect_witness :
  let cli := main getenv (fun s => s) (fun _ => Some tt) (mkBounded [] : cache) (fun s => Some s)
               (fun _ => true) (fun _ => None (A := gmap gostring unit)) in
  (run agreeable [] (cli (argv "--yes=false"))).1 = 2 /\
  forallb harmless (calls (run agreeable [] (cli (argv "--yes=false"))).2) = true.
Proof.
  cbn zeta. split; [vm_compute; reflexivity|].
  exact (refused_without_effect getenv (fun s => s) (fun _ => Some tt) (mkBounded [] : cache) (fun s => Some s)
    (fun _ => true) (fun _ => None (A := gmap gostring unit)) (argv "--yes=false") agreeable [] ltac:(vm_compute; reflexivity)).
Defined.
End CliDemo.
