(* ===== verification/Snapshot.v ===== *)
(** * Snapshot pins

    [internal/coordination/snapshot]: the pin store over the graph and its LRU
    cache, and the sweeper.  A method is a program whose calls are the cache
    operations, each atomic, and whole transactions of the graph; any number of
    them run interleaved ([step]).  A time is kept in seconds in the graph, as
    RFC 3339 in UTC keeps it, where the order of the texts is that of the
    times. *)

From S2P Require Import Prelude Effects Lru Cypher PolicyStore.
From Stdlib Require Import Lia.

(** ** Data ([pin.go], [pin_lru.go]) *)

(** Times of the process are in nanoseconds. *)
Record SnapshotPin := mkPin {
  pin_Name : gostring; PinnedByPrincipal : gostring; AtSnapshotID : gostring;
  PinnedAt : Z; ExpiryUTC : Z; TableName : gostring; TableNamespace : gostring
}.

#[export] Instance SnapshotPin_eq_dec : EqDecision SnapshotPin.
Proof. solve_decision. Defined.

Record PinCacheKey := mkPinKey { pk_TenantID : gostring; pk_Namespace : gostring; pk_Table : gostring }.

#[export] Instance PinCacheKey_eq_dec : EqDecision PinCacheKey.
Proof. solve_decision. Defined.

#[export] Instance PinCacheKey_countable : Countable PinCacheKey.
Proof.
  refine (inj_countable' (fun k => (pk_TenantID k, pk_Namespace k, pk_Table k))
    (fun '(a, b, c) => mkPinKey a b c) _).
  by intros [].
Defined.

(** ** The graph: pin nodes by tenant and name, tables, and [:PINS] edges *)

Record pinNode := mkNode {
  pinned_by_principal : gostring; at_snapshot_id : gostring; pinned_at : Z; expiry_utc : Z
}.

Record pinGraph := mkGraph {
  nodes : gmap (gostring * gostring) pinNode;
  tableNodes : gset (gostring * gostring * gostring);
  pins : gset (gostring * gostring * (gostring * gostring))
}.

Definition seconds (ns : Z) : Z := ns / 1000000000.

(** The statements of the two transactions that write. *)
Inductive pinStmt :=
  | AdvisoryLock (lockID : gostring)
  | MergeNode (tenant name : gostring) (n : pinNode)
  | MergeEdge (tenant name namespace table : gostring).

(** [MERGE ... SET]; [MATCH ... MERGE] makes an edge only between nodes that
    exist, and succeeds otherwise too. *)
Definition execStmt (s : pinStmt) (g : pinGraph) : pinGraph :=
  match s with
  | AdvisoryLock _ => g
  | MergeNode tenant name n => mkGraph (<[(tenant, name) := n]> (nodes g)) (tableNodes g) (pins g)
  | MergeEdge tenant name ns t =>
      match nodes g !! (tenant, name) with
      | Some _ =>
          if bool_decide ((tenant, ns, t) ∈ tableNodes g)
          then mkGraph (nodes g) (tableNodes g) ({[(tenant, name, (ns, t))]} ∪ pins g)
          else g
      | None => g
      end
  end.

(** The pins of a table that expire after [now], in some order. *)
Definition activeRows (tenant ns t : gostring) (now : Z) (g : pinGraph)
  : list (gostring * pinNode) :=
  omap (fun '((tid, name), n) =>
      if bool_decide (tid = tenant /\ (tenant, name, (ns, t)) ∈ pins g /\ (now < expiry_utc n)%Z)
      then Some (name, n) else None)
    (map_to_list (nodes g)).

(** [DETACH DELETE] of the pins of a tenant that expired before [now]. *)
Definition expired (tenant : gostring) (now : Z) (e : (gostring * gostring) * pinNode) : Prop :=
  e.1.1 = tenant /\ (expiry_utc e.2 < now)%Z.

#[export] Instance expired_dec tenant now e : Decision (expired tenant now e).
Proof. unfold expired. apply _. Defined.

Definition sweepGraph (tenant : gostring) (now : Z) (g : pinGraph) : Z * pinGraph :=
  let dead := filter (expired tenant now) (nodes g) in
  (Z.of_nat (size dead),
   mkGraph (filter (fun e => ~ expired tenant now e) (nodes g)) (tableNodes g)
     (filter (fun e => dead !! e.1 = None) (pins g))).

(** ** Calls *)

Inductive pinCall :=
  | CacheGet (k : PinCacheKey)
  | CacheAdd (k : PinCacheKey) (l : list SnapshotPin)
  | CacheRemove (k : PinCacheKey)
  | Now
  | WriteTx (tenant : gostring) (stmts : list pinStmt)
  | QueryTx (tenant ns t : gostring) (now : Z)
  | SweepTx (tenant : gostring) (now : Z)
  | ListTenants.

Definition pinR (c : pinCall) : Type :=
  match c with
  | CacheGet _ => option (list SnapshotPin)
  | CacheAdd _ _ | CacheRemove _ => unit
  | Now => Z
  | WriteTx _ _ => bool
  | QueryTx _ _ _ _ => option (list (gostring * pinNode))
  | SweepTx _ _ => option Z
  | ListTenants => option (list gostring)
  end.

(** A result, an error, or the panic of [MustSanitizeCypherLiteral]. *)
Inductive pinResult (A : Type) := PinOk (a : A) | PinErr | PinPanic.
Arguments PinOk {A} a.
Arguments PinErr {A}.
Arguments PinPanic {A}.

Definition pinNodeOf (pin : SnapshotPin) : pinNode :=
  mkNode (PinnedByPrincipal pin) (AtSnapshotID pin) (seconds (PinnedAt pin)) (seconds (ExpiryUTC pin)).

Definition keyOf (tenant : gostring) (pin : SnapshotPin) : PinCacheKey :=
  mkPinKey tenant (TableNamespace pin) (TableName pin).

(** The literals that are checked; formatted times always pass. *)
Definition literalsOk (l : list gostring) : bool :=
  forallb (fun s => negb (bool_decide (MustSanitizeCypherLiteral s = None))) l.

Definition UpsertSnapshotPin (tenant : option gostring) (pin : SnapshotPin)
  : prog pinR (pinResult unit) :=
  match tenant with
  | None => Ret PinErr
  | Some tid =>
      if literalsOk [pin_Name pin; PinnedByPrincipal pin; AtSnapshotID pin; TableName pin;
                     TableNamespace pin; tid]
      then
        Do (R := pinR)
          (WriteTx tid [AdvisoryLock (tid ++ "|" ++ TableName pin);
                        MergeNode tid (pin_Name pin) (pinNodeOf pin);
                        MergeEdge tid (pin_Name pin) (TableNamespace pin) (TableName pin)])
          (fun ok : bool =>
           if ok then Do (R := pinR) (CacheRemove (keyOf tid pin)) (fun _ : unit => Ret (PinOk tt))
           else Ret PinErr)
      else Ret PinPanic
  end.

(** A row as it is read back. *)
Definition readPin (ns t : gostring) (row : gostring * pinNode) : SnapshotPin :=
  mkPin row.1 (pinned_by_principal row.2) (at_snapshot_id row.2)
    (pinned_at row.2 * 1000000000) (expiry_utc row.2 * 1000000000) t ns.

Definition ActivePinsForTable (tenant : option gostring) (ref : TableRef)
  : prog pinR (pinResult (list SnapshotPin)) :=
  match tenant with
  | None => Ret PinErr
  | Some tid =>
      let ns := join "." (ref_Namespace ref) in
      let key := mkPinKey tid ns (ref_Name ref) in
      Do (R := pinR) (CacheGet key) (fun cached : option (list SnapshotPin) =>
      match cached with
      | Some l => Ret (PinOk l)
      | None =>
          if literalsOk [tid; ref_Name ref; ns] then
            Do (R := pinR) Now (fun now : Z =>
            Do (R := pinR) (QueryTx tid ns (ref_Name ref) (seconds now))
              (fun rows : option (list (gostring * pinNode)) =>
            match rows with
            | None => Ret PinErr
            | Some rows =>
                let l := map (readPin ns (ref_Name ref)) rows in
                Do (R := pinR) (CacheAdd key l) (fun _ : unit => Ret (PinOk l))
            end))
          else Ret PinPanic
      end)
  end.

(** ** The sweeper ([pin_sweep.go]) *)

(** [sweepTenant]; the tenant comes from [public.tenants]. *)
Definition sweepTenant (tid : gostring) : prog pinR (pinResult Z) :=
  if literalsOk [tid] then
    Do (R := pinR) Now (fun now : Z =>
    Do (R := pinR) (SweepTx tid (seconds now)) (fun r : option Z =>
    Ret (match r with Some n => PinOk n | None => PinErr end)))
  else Ret PinPanic.

(** A failing tenant is skipped; the counts are those of the metric. *)
Fixpoint sweepTenants (tids : list gostring) : prog pinR (pinResult (list (gostring * Z))) :=
  match tids with
  | [] => Ret (PinOk [])
  | tid :: tids =>
      bind (sweepTenant tid) (fun r =>
      match r with
      | PinPanic => Ret PinPanic
      | PinErr => sweepTenants tids
      | PinOk n =>
          bind (sweepTenants tids) (fun rest =>
          Ret (match rest with PinOk l => PinOk ((tid, n) :: l) | other => other end))
      end)
  end.

Definition sweepOnce : prog pinR (pinResult (list (gostring * Z))) :=
  Do (R := pinR) ListTenants (fun r : option (list gostring) =>
  match r with
  | None => Ret (PinOk [])
  | Some tids => sweepTenants tids
  end).

(** ** Processes that share the graph, the cache and the clock *)

Section system.
Context {C : Type} `{!Lru PinCacheKey (list SnapshotPin) C}.
Context (activeTenants : list gostring).

Record shared := mkShared { graph : pinGraph; cache : C; clock : Z }.

(** What a call may answer and leave behind; a transaction may fail, before or
    after its commit. *)
Definition performs (c : pinCall) (s : shared) : pinR c -> shared -> Prop :=
  let with_graph g := mkShared g (cache s) (clock s) in
  let with_cache c := mkShared (graph s) c (clock s) in
  match c return pinR c -> shared -> Prop with
  | CacheGet k => fun r s' => r = (lru_get k (cache s)).1 /\ s' = with_cache (lru_get k (cache s)).2
  | CacheAdd k l => fun _ s' => s' = with_cache (lru_add k l (cache s))
  | CacheRemove k => fun _ s' => s' = with_cache (lru_remove k (cache s))
  | Now => fun r s' => r = clock s /\ s' = s
  | WriteTx _ stmts => fun r s' =>
      s' = with_graph (fold_left (fun g s => execStmt s g) stmts (graph s)) \/
      r = false /\ s' = s
  | QueryTx tid ns t at_ => fun r s' =>
      (r = Some (activeRows tid ns t at_ (graph s)) \/ r = None) /\ s' = s
  | SweepTx tid at_ => fun r s' =>
      r = Some (sweepGraph tid at_ (graph s)).1 /\ s' = with_graph (sweepGraph tid at_ (graph s)).2 \/
      r = None /\ s' = s
  | ListTenants => fun r s' => (r = Some activeTenants \/ r = None) /\ s' = s
  end.

(** A process runs one of the three methods. *)
Inductive process :=
  | Upsert (p : prog pinR (pinResult unit))
  | Active (tenant : option gostring) (ref : TableRef) (p : prog pinR (pinResult (list SnapshotPin)))
  | Sweeping (p : prog pinR (pinResult (list (gostring * Z)))).

Inductive processStep : process -> shared -> process -> shared -> Prop :=
  | step_upsert c k s r s' :
      performs c s r s' -> processStep (Upsert (Do c k)) s (Upsert (k r)) s'
  | step_active tenant ref c k s r s' :
      performs c s r s' -> processStep (Active tenant ref (Do c k)) s (Active tenant ref (k r)) s'
  | step_sweep c k s r s' :
      performs c s r s' -> processStep (Sweeping (Do c k)) s (Sweeping (k r)) s'.

(** Time passes, a table appears, a method is called, a process makes a call. *)
Inductive step : shared * list process -> shared * list process -> Prop :=
  | step_tick g c now now' ps :
      (now <= now')%Z -> step (mkShared g c now, ps) (mkShared g c now', ps)
  | step_table g c now t ps :
      step (mkShared g c now, ps)
        (mkShared (mkGraph (nodes g) ({[t]} ∪ tableNodes g) (pins g)) c now, ps)
  | step_call_upsert s ps tenant pin :
      step (s, ps) (s, ps ++ [Upsert (UpsertSnapshotPin tenant pin)])
  | step_call_active s ps tenant ref :
      step (s, ps) (s, ps ++ [Active tenant ref (ActivePinsForTable tenant ref)])
  | step_call_sweep s ps : step (s, ps) (s, ps ++ [Sweeping sweepOnce])
  | step_process s s' ps i p p' :
      ps !! i = Some p -> processStep p s p' s' -> step (s, ps) (s', <[i := p']> ps).
End system.
