(* ===== verification/SnapshotSpec.v ===== *)
(** * Snapshot pins: what the store guarantees

    What a reader gets was the set of active pins of its tenant and table, by the
    clock of a reader's own call, at some earlier moment ([pin_provenance], over
    every interleaving); right after an
    undisturbed upsert the pin is seen; but how long ago the moment was is not
    bounded: a reader that fills the cache after a concurrent upsert hides the
    pin, and a cached pin is served after it expired and was swept. *)

From S2P Require Import Prelude Lru Cypher PolicyStore Snapshot Effects.
From Stdlib Require Import Lia.

Section spec.
Context {C : Type} `{!Lru PinCacheKey (list SnapshotPin) C}.
Context (activeTenants : list gostring).

Abbreviation shared := (@shared C).
Abbreviation state := (shared * list process)%type.
Abbreviation performs := (@performs C _ activeTenants).
Abbreviation step := (@step C _ activeTenants).

(** ** Reachable states, with the states on the way, the newest first *)

Inductive reachable : list state -> state -> Prop :=
  | reach_start g c now :
      lru_contents c = ∅ -> reachable [(mkShared g c now, [])] (mkShared g c now, [])
  | reach_step past s ps s' ps' :
      reachable past (s, ps) -> step (s, ps) (s', ps') -> reachable ((s', ps') :: past) (s', ps').

Lemma reachable_now past st : reachable past st -> exists older, past = st :: older.
Proof. intros H. inversion H; subst; by eexists. Qed.

Definition refKey (tid : gostring) (ref : TableRef) : PinCacheKey :=
  mkPinKey tid (join "." (ref_Namespace ref)) (ref_Name ref).

(** The pin [name] of the table [k], as the node [n], is in the graph and expires
    after [at_]. *)
Definition activeIn (k : PinCacheKey) (at_ : Z) (g : pinGraph) (name : gostring) (n : pinNode) : Prop :=
  nodes g !! (pk_TenantID k, name) = Some n /\
  (pk_TenantID k, name, (pk_Namespace k, pk_Table k)) ∈ pins g /\ (at_ < expiry_utc n)%Z.

(** In [st0] the [i]-th process is a reader of the table [k]. *)
Definition readerIn (st0 : state) (i : nat) (k : PinCacheKey) : Prop :=
  exists tid ref p, st0.2 !! i = Some (Active (Some tid) ref p) /\ refKey tid ref = k.

(** Where a list comes from: a reader of the table saw the clock in the state
    [st0] and the graph in [st], not before; the list are all the pins of the
    table the graph held then that had not expired at that time. *)
Definition origin (past : list state) (k : PinCacheKey) (l : list SnapshotPin) : Prop :=
  exists newer st older st0 i rows, past = newer ++ st :: older /\
    st0 ∈ st :: older /\ readerIn st0 i k /\
    rows = activeRows (pk_TenantID k) (pk_Namespace k) (pk_Table k) (seconds (clock st0.1)) (graph st.1) /\
    l = map (readPin (pk_Namespace k) (pk_Table k)) rows /\
    forall name n, (name, n) ∈ rows <-> activeIn k (seconds (clock st0.1)) (graph st.1) name n.

Lemma origin_more past st k l : origin past k l -> origin (st :: past) k l.
Proof.
  intros (newer & st1 & older & st0 & i & rows & -> & H). by exists (st :: newer), st1, older, st0, i, rows.
Qed.

Lemma activeRows_elem tid ns t at_ g name n :
  (name, n) ∈ activeRows tid ns t at_ g <->
  nodes g !! (tid, name) = Some n /\ (tid, name, (ns, t)) ∈ pins g /\ (at_ < expiry_utc n)%Z.
Proof.
  unfold activeRows. rewrite list_elem_of_omap. split.
  - intros ([[tid' name'] n'] & Hin & Hc). apply elem_of_map_to_list in Hin.
    case_bool_decide as Hb; [|done]. destruct Hb as (-> & H1 & H2). by simplify_eq.
  - intros (H1 & H2 & H3). exists (tid, name, n). split; [by apply elem_of_map_to_list|].
    by rewrite bool_decide_eq_true_2.
Qed.

(** ** The points of a reader *)

Definition addThen (key : PinCacheKey) (l : list SnapshotPin)
  : prog pinR (pinResult (list SnapshotPin)) :=
  Do (R := pinR) (CacheAdd key l) (fun _ : unit => Ret (PinOk l)).

Definition queryThen (tid : gostring) (ref : TableRef) (now : Z)
  : prog pinR (pinResult (list SnapshotPin)) :=
  Do (R := pinR) (QueryTx tid (join "." (ref_Namespace ref)) (ref_Name ref) (seconds now))
    (fun rows : option (list (gostring * pinNode)) =>
     match rows with
     | None => Ret PinErr
     | Some rows =>
         addThen (refKey tid ref) (map (readPin (join "." (ref_Namespace ref)) (ref_Name ref)) rows)
     end).

Definition nowThen (tid : gostring) (ref : TableRef) : prog pinR (pinResult (list SnapshotPin)) :=
  Do (R := pinR) Now (fun now : Z => queryThen tid ref now).

(** Where a reader of [key] may be, when [past] happened. *)
Inductive readerAt (past : list state) (i : nat) (tid : gostring) (ref : TableRef)
  : prog pinR (pinResult (list SnapshotPin)) -> Prop :=
  | at_start : readerAt past i tid ref (ActivePinsForTable (Some tid) ref)
  | at_now : readerAt past i tid ref (nowThen tid ref)
  | at_query st0 :
      st0 ∈ past -> readerIn st0 i (refKey tid ref) ->
      readerAt past i tid ref (queryThen tid ref (clock st0.1))
  | at_add l : origin past (refKey tid ref) l -> readerAt past i tid ref (addThen (refKey tid ref) l)
  | at_ok l : origin past (refKey tid ref) l -> readerAt past i tid ref (Ret (PinOk l))
  | at_err : readerAt past i tid ref (Ret PinErr)
  | at_panic : readerAt past i tid ref (Ret PinPanic).

Definition noAdd (c : pinCall) : bool := match c with CacheAdd _ _ => false | _ => true end.

Definition processOk (past : list state) (i : nat) (p : process) : Prop :=
  match p with
  | Upsert p => only noAdd p
  | Active None _ p => p = Ret PinErr
  | Active (Some tid) ref p => readerAt past i tid ref p
  | Sweeping p => only noAdd p
  end.

Definition processesOk (past : list state) (ps : list process) : Prop :=
  forall i p, ps !! i = Some p -> processOk past i p.

Definition cacheOk (past : list state) (c : C) : Prop :=
  forall k l, lru_contents c !! k = Some l -> origin past k l.

Lemma processOk_more past st i p : processOk past i p -> processOk (st :: past) i p.
Proof.
  destruct p as [p|[tid|] ref p|p]; cbn; try done.
  intros [| |st0 H1 H2|l Hl|l Hl| |]; constructor; try (by apply origin_more); [by right|done].
Qed.

Lemma cacheOk_more past st c : cacheOk past c -> cacheOk (st :: past) c.
Proof. intros H k l Hk. by apply origin_more, H. Qed.

Lemma processesOk_called past ps p :
  processesOk past ps -> processOk past (length ps) p -> processesOk past (ps ++ [p]).
Proof.
  intros H Hp i q [Hq|[-> ->]]%lookup_snoc_Some; [|done]. apply H, Hq.
Qed.

Lemma processesOk_insert past ps i p :
  processesOk past ps -> processOk past i p -> processesOk past (<[i := p]> ps).
Proof.
  intros H Hp j q [(<- & <- & _)|[_ Hq]]%list_lookup_insert_Some; [done|]. apply H, Hq.
Qed.

Lemma UpsertSnapshotPin_only tenant pin : only noAdd (UpsertSnapshotPin tenant pin).
Proof.
  destruct tenant as [tid|]; [|done]. unfold UpsertSnapshotPin.
  destruct (literalsOk _); [|done]. split; [done|]. by intros [].
Qed.

Lemma sweepOnce_only : only noAdd sweepOnce.
Proof.
  split; [done|]. intros [tids|]; [|done].
  induction tids as [|tid tids IH]; [done|]. cbn [sweepTenants]. apply only_bind.
  - unfold sweepTenant. destruct (literalsOk _); [|done]. split; [done|]. intros now.
    split; [done|]. by intros [].
  - intros [n| |]; [|done|done]. apply only_bind; [done|]. by intros [].
Qed.

(** A call that adds nothing keeps what the cache holds. *)
Lemma performs_noAdd past c s r s' :
  performs c s r s' -> noAdd c = true -> cacheOk past (cache s) -> cacheOk past (cache s').
Proof.
  destruct c; cbn; intros Hp Hc Hs; try done.
  - destruct Hp as [_ ->]. intros k' l Hk. cbn in Hk. rewrite lru_get_contents in Hk. by apply Hs.
  - subst s'. intros k' l Hk. cbn in Hk. rewrite lru_remove_contents in Hk.
    apply lookup_delete_Some in Hk as [_ Hk]. by apply Hs.
  - by destruct Hp as [_ ->].
  - by destruct Hp as [->|[_ ->]].
  - by destruct Hp as [_ ->].
  - by destruct Hp as [[_ ->]|[_ ->]].
  - by destruct Hp as [_ ->].
Qed.

(** One call of a reader. *)
Lemma reader_step older i tid ref p s ps :
  let past := (s, ps) :: older in
  ps !! i = Some (Active (Some tid) ref p) ->
  cacheOk past (cache s) -> readerAt past i tid ref p ->
  match p with
  | Ret _ => True
  | Do c k => forall r s', performs c s r s' ->
      cacheOk past (cache s') /\ readerAt past i tid ref (k r)
  end.
Proof.
  intros past Hi Hs Hr. destruct Hr as [| |st0 H1 H2|l Hl|l Hl| |]; try done;
    unfold ActivePinsForTable, nowThen, queryThen, addThen; cbn [performs]; intros r s'.
  - intros [-> ->].
    split; [intros k' l Hk; cbn in Hk; rewrite lru_get_contents in Hk; by apply Hs|].
    rewrite lru_get_value. fold (refKey tid ref).
    destruct (lru_contents (cache s) !! refKey tid ref) as [l|] eqn:El.
    + constructor. by apply Hs.
    + destruct (literalsOk _); constructor.
  - intros [-> ->]. split; [done|]. apply (at_query _ _ _ _ (s, ps)); [by left|]. by eexists _, _, _.
  - intros [Hr ->]. split; [done|]. destruct Hr as [->| ->]; constructor.
    eexists [], (s, ps), older, st0, i, _. split_and!; [done|done|done|reflexivity|reflexivity|].
    intros name n. apply activeRows_elem.
  - intros ->. split; [|by constructor].
    intros k' l' Hk. cbn in Hk. apply lru_add_inv in Hk as [[-> ->]|Hk]; [done|by apply Hs].
Qed.

(** (C34) Whatever readers, writers and sweepers do, interleaved call by call with the
    passing of time and with failures: what the cache holds for a key, and what a
    reader is given, are exactly the pins of that tenant and that table that the
    graph held at one moment of the run and that had not expired at the time
    which a reader of that table, while it ran, had seen on the clock at that
    moment or before; no reader of another tenant or table gets them. *)
Theorem pin_provenance past s ps :
  reachable past (s, ps) ->
  (forall k l, lru_contents (cache s) !! k = Some l -> origin past k l) /\
  (forall tid ref l, Active (Some tid) ref (Ret (PinOk l)) ∈ ps ->
     origin past (mkPinKey tid (join "." (ref_Namespace ref)) (ref_Name ref)) l).
Proof.
  intros Hr.
  assert (cacheOk past (cache s) /\ processesOk past ps) as [Hc Hps].
  { remember (s, ps) as st eqn:Est. revert s ps Est. induction Hr as [g c now Hc|
      past s ps s' ps' Hr IH Hst]; intros s1 ps1 [= <- <-].
    { split; [|by intros i p ?]. intros k l Hk. cbn in Hk. by rewrite Hc, lookup_empty in Hk. }
    specialize (IH _ _ eq_refl) as [Hc Hps]. destruct (reachable_now _ _ Hr) as [older Hpast].
    assert (forall past', past' = (s', ps') :: past -> processesOk past' ps) as Hmore.
    { intros ? -> i p Hp. by apply processOk_more, Hps. }
    inversion Hst as [g c now now' ps0 Hle|g c now t ps0|s0 ps0 tenant pin|s0 ps0 tenant ref|s0 ps0|
      s0 s0' ps0 i p p' Hi Hp]; subst; cbn [clock cache] in *.
    - split; [by apply cacheOk_more|by apply Hmore].
    - split; [by apply cacheOk_more|by apply Hmore].
    - split; [by apply cacheOk_more|]. apply processesOk_called; [by apply Hmore|apply UpsertSnapshotPin_only].
    - split; [by apply cacheOk_more|]. apply processesOk_called; [by apply Hmore|].
      destruct tenant as [tid|]; [constructor|done].
    - split; [by apply cacheOk_more|]. apply processesOk_called; [by apply Hmore|apply sweepOnce_only].
    - pose proof (Hps _ _ Hi) as Hpi.
      assert (cacheOk ((s, ps) :: older) (cache s') /\ processOk ((s, ps) :: older) i p') as (Hc' & Hp').
      { inversion Hp as [c k s1 r s2 Hperf|tenant ref c k s1 r s2 Hperf|c k s1 r s2 Hperf]; subst.
        - destruct Hpi as [Hna Hk]. split; [by eapply performs_noAdd|apply Hk].
        - destruct tenant as [tid|]; [|done]. by apply (reader_step _ _ _ _ _ _ _ Hi Hc Hpi).
        - destruct Hpi as [Hna Hk]. split; [by eapply performs_noAdd|apply Hk]. }
      split; [by apply cacheOk_more|]. apply processesOk_insert; [by apply Hmore|by apply processOk_more]. }
  split; [exact Hc|]. intros tid ref l [i Hl]%list_elem_of_lookup. specialize (Hps _ _ Hl). cbn in Hps.
  remember (Ret (PinOk l)) as p eqn:Ep. destruct Hps as [| | | |l' Hl'| |]; try done.
  by injection Ep as <-.
Qed.

(** ** Undisturbed runs *)

(** A program run to its end, with nothing in between. *)
Fixpoint finishes {A} (p : prog pinR A) (s : shared) : A -> shared -> Prop :=
  match p with
  | Ret a => fun a' s' => a' = a /\ s' = s
  | Do c k => fun a' s' => exists r s1, performs c s r s1 /\ finishes (k r) s1 a' s'
  end.

(** The graph after the transaction of an upsert. *)
Definition written (tid : gostring) (pin : SnapshotPin) (g : pinGraph) : pinGraph :=
  fold_left (fun g s => execStmt s g)
    [AdvisoryLock (tid ++ "|" ++ TableName pin); MergeNode tid (pin_Name pin) (pinNodeOf pin);
     MergeEdge tid (pin_Name pin) (TableNamespace pin) (TableName pin)] g.

Lemma written_spec tid pin g :
  nodes (written tid pin g) = <[(tid, pin_Name pin) := pinNodeOf pin]> (nodes g) /\
  pins (written tid pin g) =
    if bool_decide ((tid, TableNamespace pin, TableName pin) ∈ tableNodes g)
    then {[(tid, pin_Name pin, (TableNamespace pin, TableName pin))]} ∪ pins g else pins g.
Proof.
  unfold written. cbn [fold_left execStmt nodes tableNodes pins].
  rewrite lookup_insert_eq. by destruct (bool_decide _).
Qed.

Lemma written_active tid pin g at_ :
  (tid, TableNamespace pin, TableName pin) ∈ tableNodes g -> (at_ < seconds (ExpiryUTC pin))%Z ->
  (pin_Name pin, pinNodeOf pin) ∈
    activeRows tid (TableNamespace pin) (TableName pin) at_ (written tid pin g).
Proof.
  intros Ht Hexp. destruct (written_spec tid pin g) as [Hn Hp].
  apply activeRows_elem. rewrite Hn, Hp, lookup_insert_eq, bool_decide_eq_true_2 by done.
  split_and!; [done|by apply elem_of_union_l, elem_of_singleton|done].
Qed.

(** [ref] is the table of [pin]. *)
Definition names (ref : TableRef) (pin : SnapshotPin) : Prop :=
  join "." (ref_Namespace ref) = TableNamespace pin /\ ref_Name ref = TableName pin.

(** What a pin reads as: its times lose what is below a second. *)
Definition asRead (pin : SnapshotPin) : SnapshotPin :=
  readPin (TableNamespace pin) (TableName pin) (pin_Name pin, pinNodeOf pin).

(** With nothing in between, a pin that was upserted without an error and has
    not expired is among those the next successful reader gets; but the upsert
    also succeeds for a table the graph does not know, and pins nothing then. *)
Theorem upsert_visible tid pin ref s s1 l s2 :
  names ref pin -> (seconds (clock s) < seconds (ExpiryUTC pin))%Z ->
  finishes (UpsertSnapshotPin (Some tid) pin) s (PinOk tt) s1 ->
  finishes (ActivePinsForTable (Some tid) ref) s1 (PinOk l) s2 ->
  if bool_decide ((tid, TableNamespace pin, TableName pin) ∈ tableNodes (graph s))
  then asRead pin ∈ l else pins (graph s1) = pins (graph s).
Proof.
  intros [Hns Hname] Hexp Hu Ha.
  assert (s1 = mkShared (written tid pin (graph s)) (lru_remove (keyOf tid pin) (cache s)) (clock s))
    as ->.
  { unfold UpsertSnapshotPin in Hu. destruct (literalsOk _); [|by destruct Hu].
    cbn [finishes] in Hu. destruct Hu as (r & s' & [Hw|[-> _]] & Hu); [|by destruct Hu].
    destruct r; [|by destruct Hu]. destruct Hu as (r & s'' & Hr & [_ ->]). cbn in Hr.
    by rewrite Hr, Hw. }
  destruct (written_spec tid pin (graph s)) as [_ Hp]. cbn [graph].
  case_bool_decide as Ht; [|exact Hp].
  unfold ActivePinsForTable in Ha. cbn [finishes] in Ha.
  destruct Ha as (r & s' & [-> ->] & Ha). cbn [cache] in Ha.
  rewrite lru_get_value, lru_remove_contents in Ha. unfold keyOf in Ha.
  rewrite Hns, Hname, lookup_delete_eq in Ha.
  destruct (literalsOk _); [|by destruct Ha]. cbn [finishes] in Ha.
  destruct Ha as (now & s3 & [-> ->] & r & s4 & [Hr ->] & Ha).
  destruct Hr as [-> | ->]; [|by destruct Ha]. cbn [finishes] in Ha.
  destruct Ha as (r & s5 & _ & [[= ->] _]). cbn [graph clock].
  unfold asRead. apply list_elem_of_fmap_2. by apply written_active.
Qed.

(** ** Interleavings *)

Lemma reach_active past s ps i tenant ref c k r s' :
  reachable past (s, ps) -> ps !! i = Some (Active tenant ref (Do c k)) -> performs c s r s' ->
  reachable ((s', <[i := Active tenant ref (k r)]> ps) :: past) (s', <[i := Active tenant ref (k r)]> ps).
Proof.
  intros H1 H2 H3. eapply reach_step; [exact H1|]. eapply step_process; [exact H2|].
  by apply step_active.
Qed.

Lemma reach_upsert past s ps i c k r s' :
  reachable past (s, ps) -> ps !! i = Some (Upsert (Do c k)) -> performs c s r s' ->
  reachable ((s', <[i := Upsert (k r)]> ps) :: past) (s', <[i := Upsert (k r)]> ps).
Proof.
  intros H1 H2 H3. eapply reach_step; [exact H1|]. eapply step_process; [exact H2|].
  by apply step_upsert.
Qed.

Lemma reach_sweep past s ps i c k r s' :
  reachable past (s, ps) -> ps !! i = Some (Sweeping (Do c k)) -> performs c s r s' ->
  reachable ((s', <[i := Sweeping (k r)]> ps) :: past) (s', <[i := Sweeping (k r)]> ps).
Proof.
  intros H1 H2 H3. eapply reach_step; [exact H1|]. eapply step_process; [exact H2|].
  by apply step_sweep.
Qed.

(** A cached list is what every reader gets. *)
Lemma cached_served tid ref s l a s' :
  lru_contents (cache s) !! refKey tid ref = Some l ->
  finishes (ActivePinsForTable (Some tid) ref) s a s' -> a = PinOk l.
Proof.
  intros Hl (r & s1 & [-> ->] & Ha). rewrite lru_get_value in Ha. fold (refKey tid ref) in Ha.
  rewrite Hl in Ha. by destruct Ha as [-> _].
Qed.

Definition finished (p : process) : Prop :=
  match p with
  | Upsert (Ret _) | Active _ _ (Ret _) | Sweeping (Ret _) => True
  | _ => False
  end.

Section race.
Context (tid : gostring) (pin : SnapshotPin) (ref : TableRef).
Context (Href : names ref pin).
Context (Hlit : literalsOk [pin_Name pin; PinnedByPrincipal pin; AtSnapshotID pin; TableName pin;
                            TableNamespace pin; tid] = true).
(** The start: the table and no pin in the graph, an empty cache, time to go. *)
Context (g : pinGraph) (c : C) (now : Z).
Context (Hg : nodes g = ∅) (Ht : (tid, TableNamespace pin, TableName pin) ∈ tableNodes g).
Context (Hc : lru_contents c = ∅) (Hexp : (seconds now < seconds (ExpiryUTC pin))%Z).

Lemma literals_key : literalsOk [tid; ref_Name ref; join "." (ref_Namespace ref)] = true.
Proof.
  destruct Href as [-> ->]. unfold literalsOk in *. cbn [forallb] in *.
  rewrite !andb_true_iff in *. tauto.
Qed.

Lemma key_pin : refKey tid ref = keyOf tid pin.
Proof. unfold refKey, keyOf. by destruct Href as [-> ->]. Qed.

(** The window after an upsert is not one round trip: a reader that queried
    the graph before a concurrent upsert, and fills the cache after its
    invalidation, leaves a state in which the pin is in the graph, active, nobody
    is running, and every reader gets the list without it, until the entry is
    evicted or another upsert comes. *)
Theorem stale_reader_hides_pin :
  exists past s ps,
    reachable past (s, ps) /\ Forall finished ps /\ Upsert (Ret (PinOk tt)) ∈ ps /\
    clock s = now /\
    (pin_Name pin, pinNodeOf pin) ∈
      activeRows tid (TableNamespace pin) (TableName pin) (seconds (clock s)) (graph s) /\
    forall a s', finishes (ActivePinsForTable (Some tid) ref) s a s' -> a = PinOk [].
Proof.
  pose proof (reach_start g c now Hc) as H.
  eapply reach_step in H; [|apply (step_call_active _ _ _ (Some tid) ref)].
  eapply reach_step in H; [|apply (step_call_upsert _ _ _ (Some tid) pin)].
  cbn [app] in H.
  (* the reader misses, takes the time, queries *)
  unfold ActivePinsForTable in H. fold (refKey tid ref) in H.
  eapply (reach_active _ _ _ 0 _ _ (CacheGet (refKey tid ref))) in H;
    [|reflexivity|split; reflexivity].
  rewrite lru_get_value in H. cbn [cache] in H. rewrite Hc, lookup_empty, literals_key in H.
  eapply (reach_active _ _ _ 0 _ _ Now) in H; [|reflexivity|split; reflexivity].
  eapply (reach_active _ _ _ 0 _ _ (QueryTx _ _ _ _)) in H;
    [|reflexivity|split; [left|]; reflexivity].
  (* the writer writes and invalidates *)
  unfold UpsertSnapshotPin in H. rewrite Hlit in H.
  eapply (reach_upsert _ _ _ 1 (WriteTx _ _) _ true) in H; [|reflexivity|left; reflexivity].
  eapply (reach_upsert _ _ _ 1 (CacheRemove _) _ tt) in H; [|reflexivity|reflexivity].
  (* the reader fills the cache *)
  eapply (reach_active _ _ _ 0 _ _ (CacheAdd _ _) _ tt) in H; [|reflexivity|reflexivity].
  eexists _, _, _. split; [exact H|]. cbn [insert list_insert clock graph cache].
  assert (forall at_, activeRows tid (join "." (ref_Namespace ref)) (ref_Name ref) at_ g = []) as Hempty.
  { intros at_. unfold activeRows. by rewrite Hg, map_to_list_empty. }
  rewrite Hempty. split_and!; [by repeat constructor|right; by left|done|by apply written_active|].
  intros a s'. apply cached_served. cbn [cache]. fold (refKey tid ref). by rewrite lru_add_same.
Qed.

(** Nothing bounds how long an expired pin is served: the cache is consulted
    without a look at the expiry, and the sweeper does not invalidate it, so there
    is a run after which the pin has expired, its node is gone from the graph,
    nobody is running, and every reader still gets it. *)
Theorem swept_pin_served later :
  activeTenants = [tid] -> (now <= later)%Z ->
  (seconds (ExpiryUTC pin) < seconds later)%Z ->
  exists past s ps,
    reachable past (s, ps) /\ Forall finished ps /\ clock s = later /\
    nodes (graph s) !! (tid, pin_Name pin) = None /\
    forall a s', finishes (ActivePinsForTable (Some tid) ref) s a s' ->
      exists l, a = PinOk l /\ asRead pin ∈ l.
Proof.
  intros Hten Hlater Hexpired. pose proof (reach_start g c now Hc) as H.
  eapply reach_step in H; [|apply (step_call_upsert _ _ _ (Some tid) pin)].
  eapply reach_step in H; [|apply (step_call_active _ _ _ (Some tid) ref)].
  eapply reach_step in H; [|apply (step_call_sweep _ _ _)].
  cbn [app] in H. unfold UpsertSnapshotPin in H. rewrite Hlit in H.
  eapply (reach_upsert _ _ _ 0 (WriteTx _ _) _ true) in H; [|reflexivity|left; reflexivity].
  eapply (reach_upsert _ _ _ 0 (CacheRemove _) _ tt) in H; [|reflexivity|reflexivity].
  unfold ActivePinsForTable in H. fold (refKey tid ref) in H.
  eapply (reach_active _ _ _ 1 _ _ (CacheGet (refKey tid ref))) in H;
    [|reflexivity|split; reflexivity].
  rewrite lru_get_value in H. cbn [cache] in H.
  rewrite lru_remove_contents, Hc, delete_empty, lookup_empty, literals_key in H.
  eapply (reach_active _ _ _ 1 _ _ Now) in H; [|reflexivity|split; reflexivity].
  eapply (reach_active _ _ _ 1 _ _ (QueryTx _ _ _ _)) in H;
    [|reflexivity|split; [left|]; reflexivity].
  eapply (reach_active _ _ _ 1 _ _ (CacheAdd _ _) _ tt) in H; [|reflexivity|reflexivity].
  eapply reach_step in H; [|apply (step_tick _ _ _ _ later); exact Hlater].
  unfold sweepOnce in H.
  eapply (reach_sweep _ _ _ 2 ListTenants) in H; [|reflexivity|split; [left|]; reflexivity].
  rewrite Hten in H. cbn [sweepTenants] in H. unfold sweepTenant in H.
  assert (literalsOk [tid] = true) as Hl.
  { pose proof literals_key as Hk. unfold literalsOk in *. cbn [forallb] in *.
    rewrite !andb_true_iff in *. tauto. }
  rewrite Hl in H. cbn [bind] in H.
  eapply (reach_sweep _ _ _ 2 Now) in H; [|reflexivity|split; reflexivity].
  eapply (reach_sweep _ _ _ 2 (SweepTx _ _)) in H; [|reflexivity|left; split; reflexivity].
  eexists _, _, _. split; [exact H|]. cbn [bind insert list_insert clock graph cache].
  split_and!; [by repeat constructor|done| |].
  - cbn [sweepGraph snd nodes]. apply map_lookup_filter_None. right. intros n Hn Hne.
    change (nodes (written tid pin g) !! (tid, pin_Name pin) = Some n) in Hn.
    destruct (written_spec tid pin g) as [Hw _]. rewrite Hw, lookup_insert_eq in Hn.
    injection Hn as <-. apply Hne. by split.
  - intros a s' Ha. eexists. split; [eapply cached_served; [|exact Ha]|].
    + cbn [cache]. fold (refKey tid ref). apply lru_add_same.
    + destruct Href as [Hns Hname]. rewrite Hns, Hname. unfold asRead.
      apply list_elem_of_fmap_2. by apply written_active.
Qed.
End race.
End spec.

(** ** Concrete pins *)

Module Sample.
Definition pinCache : Type := bounded PinCacheKey (list SnapshotPin).
#[export] Instance pinCache_lru : Lru PinCacheKey (list SnapshotPin) pinCache := bounded_Lru 8.

Definition pin : SnapshotPin :=
  mkPin "p1" "ops" "42" 0 5000000000 "orders" "sales".
Definition ref : TableRef := mkTableRef ["sales"] "orders".
Definition graph : pinGraph := mkGraph ∅ {[("t1", "sales", "orders")]} ∅.
Definition empty : pinCache := mkBounded [].
Definition start : shared := mkShared graph empty 0.
End Sample.
Import (hints) Sample.

(** One reader of a pinned table ran to its end: what it left in the cache has an
    origin. *)
Lemma pin_provenance_witness :
  exists past s ps,
    reachable ["t1" : gostring] past (s, ps) /\
    lru_contents (cache s) !! keyOf "t1" Sample.pin = Some [Sample.pin] /\
    origin past (keyOf "t1" Sample.pin) [Sample.pin].
Proof.
  pose proof (reach_start ["t1" : gostring] (written "t1" Sample.pin Sample.graph) Sample.empty 0 eq_refl) as H.
  eapply reach_step in H; [|apply (step_call_active _ _ _ (Some ("t1" : gostring)) Sample.ref)].
  eapply (reach_active _ _ _ _ 0 _ _ (CacheGet (keyOf "t1" Sample.pin))) in H;
    [|reflexivity|split; reflexivity].
  eapply (reach_active _ _ _ _ 0 _ _ Now) in H; [|reflexivity|split; reflexivity].
  eapply (reach_active _ _ _ _ 0 _ _ (QueryTx _ _ _ _)) in H;
    [|reflexivity|split; [left|]; reflexivity].
  eapply (reach_active _ _ _ _ 0 _ _ (CacheAdd _ _) _ tt) in H; [|reflexivity|reflexivity].
  destruct (pin_provenance ["t1" : gostring] _ _ _ H) as [Hp _].
  eexists _, _, _. split; [exact H|].
  match type of H with reachable _ _ (?s, _) =>
    assert (lru_contents (cache s) !! keyOf "t1" Sample.pin = Some [Sample.pin]) as Hk
      by (vm_compute; reflexivity) end.
  split; [exact Hk|]. exact (Hp _ _ Hk).
Defined.

Lemma upsert_visible_witness :
  exists s1 s2,
    finishes ["t1" : gostring] (UpsertSnapshotPin (Some ("t1" : gostring)) Sample.pin) Sample.start
      (PinOk tt) s1 /\
    finishes ["t1" : gostring] (ActivePinsForTable (Some ("t1" : gostring)) Sample.ref) s1
      (PinOk [Sample.pin]) s2 /\ asRead Sample.pin ∈ [Sample.pin].
Proof.
  set (s1 := mkShared (written "t1" Sample.pin Sample.graph)
    (lru_remove (keyOf "t1" Sample.pin) Sample.empty) 0).
  set (s2 := mkShared (written "t1" Sample.pin Sample.graph)
    (lru_add (keyOf "t1" Sample.pin) [Sample.pin]
       (lru_remove (keyOf "t1" Sample.pin) Sample.empty)) 0).
  assert (finishes ["t1" : gostring] (UpsertSnapshotPin (Some ("t1" : gostring)) Sample.pin)
    Sample.start (PinOk tt) s1) as H1.
  { exists true. eexists. split; [by left|]. by exists tt, s1. }
  assert (finishes ["t1" : gostring] (ActivePinsForTable (Some ("t1" : gostring)) Sample.ref) s1
    (PinOk [Sample.pin]) s2) as H2.
  { exists None, s1. split; [by vm_compute|]. exists 0%Z, s1. split; [done|].
    exists (Some [("p1" : gostring, pinNodeOf Sample.pin)]), s1. split.
    - split; [left; vm_compute; reflexivity|done].
    - by exists tt, s2. }
  exists s1, s2. split; [exact H1|]. split; [exact H2|].
  exact (upsert_visible ["t1" : gostring] "t1" Sample.pin Sample.ref Sample.start s1 [Sample.pin] s2
    (conj eq_refl eq_refl) eq_refl H1 H2).
Defined.

Lemma stale_reader_hides_pin_witness :
  exists past s ps,
    reachable ["t1" : gostring] past (s, ps) /\ Upsert (Ret (PinOk tt)) ∈ ps /\
    forall a s', finishes ["t1" : gostring]
      (ActivePinsForTable (Some ("t1" : gostring)) Sample.ref) s a s' -> a = PinOk [].
Proof.
  destruct (stale_reader_hides_pin ["t1" : gostring] "t1" Sample.pin Sample.ref
    (conj eq_refl eq_refl) eq_refl Sample.graph Sample.empty 0 eq_refl
    ltac:(apply (bool_decide_eq_true_1 _); reflexivity) eq_refl eq_refl)
    as (past & s & ps & H1 & _ & H2 & _ & _ & H3).
  exists past, s, ps. split; [exact H1|]. split; [exact H2|exact H3].
Defined.

Lemma swept_pin_served_witness :
  exists past s ps,
    reachable ["t1" : gostring] past (s, ps) /\ nodes (graph s) !! ("t1", "p1") = None /\
    forall a s', finishes ["t1" : gostring]
      (ActivePinsForTable (Some ("t1" : gostring)) Sample.ref) s a s' ->
      exists l, a = PinOk l /\ asRead Sample.pin ∈ l.
Proof.
  destruct (swept_pin_served ["t1" : gostring] "t1" Sample.pin Sample.ref
    (conj eq_refl eq_refl) eq_refl Sample.graph Sample.empty 0
    ltac:(apply (bool_decide_eq_true_1 _); reflexivity) eq_refl eq_refl 9000000000%Z eq_refl
    ltac:(done) eq_refl) as (past & s & ps & H1 & _ & _ & H2 & H3).
  exists past, s, ps. split; [exact H1|]. split; [exact H2|exact H3].
Defined.
