(* ===== verification/PinReads.v ===== *)
(** * The reads of queries

    [RecordQueryRead] of [internal/coordination/snapshot/pin.go]: the READ edge
    from a query to a table, with the pin that was consulted, as the statements of
    a tenant transaction. *)

From S2P Require Import Prelude Effects Cypher PolicyStore Snapshot.
From Stdlib Require Import Lia.
#[local] Open Scope go_scope.

Record readLiterals := mkReadLiterals {
  rl_tenant : gostring; rl_query : gostring; rl_table : gostring; rl_ns : gostring;
  rl_pinned : gostring; rl_pinnedBy : gostring; rl_atSnapshot : gostring
}.

(** The property, as the statement spells it. *)
Definition pinnedStr (pin : option SnapshotPin) : gostring :=
  match pin with Some _ => "true" | None => "false" end.

Definition sanitizeRead (tid queryID : gostring) (ref : TableRef) (pin : option SnapshotPin)
  : option readLiterals :=
  tenantLit ← MustSanitizeCypherLiteral tid;
  qid ← MustSanitizeCypherLiteral queryID;
  tname ← MustSanitizeCypherLiteral (ref_Name ref);
  tns ← MustSanitizeCypherLiteral (join "." (ref_Namespace ref));
  pinBy ← MustSanitizeCypherLiteral (match pin with Some p => pin_Name p | None => [] end);
  atSnap ← MustSanitizeCypherLiteral (match pin with Some p => AtSnapshotID p | None => [] end);
  Some (mkReadLiterals tenantLit qid tname tns (pinnedStr pin) pinBy atSnap).

Definition queryNode (l : readLiterals) : gostring :=
  "(q:Query {tenant_id: " ++ lit (rl_tenant l) ++ ", query_id: " ++ lit (rl_query l) ++ "})".

Definition readStatements (l : readLiterals) : list gostring :=
  ["MERGE " ++ queryNode l ++ " RETURN q.query_id";
   "MATCH " ++ queryNode l ++ ", (t:Table {tenant_id: " ++ lit (rl_tenant l) ++ ", name: " ++ lit (rl_table l) ++
     ", namespace: " ++ lit (rl_ns l) ++ "}) MERGE (q)-[r:READ]->(t) SET r.pinned = " ++ rl_pinned l ++
     ", r.pinned_by = " ++ lit (rl_pinnedBy l) ++ ", r.at_snapshot = " ++ lit (rl_atSnapshot l) ++ " RETURN q.query_id"].

Definition RecordQueryRead (tenant : option gostring) (queryID : gostring) (ref : TableRef)
    (pin : option SnapshotPin) : storeProg (result store_err unit) :=
  match tenant with
  | None => Ret (Err ErrTenantMissing)
  | Some tid =>
      match sanitizeRead tid queryID ref pin with
      | None => Ret (Err Panic)
      | Some l => inTenant tid (execAll (readStatements l))
      end
  end.

(** What a record of valid literals does. *)
Record readProtocol (tid : gostring) (l : readLiterals) (r : result store_err unit) (t : trace storeR) : Prop := {
  rp_calls : r = Err ErrTx /\ calls t = [OpenTx tid] \/
    exists n commit,
      calls t = OpenTx tid :: map (fun s => Query (cypherSQL s outColumn)) (take n (readStatements l)) ++ [CloseTx commit] /\
      (commit = true -> n = 2 /\ existsb queryFailed t = false);
  rp_ok : is_ok r = committed t
}.

(** The literals are the arguments, and each is outside the reach of a Cypher
    string: they have no quote, no backslash, nothing but the allowlist. *)
Lemma sanitizeRead_spec tid queryID ref pin l :
  sanitizeRead tid queryID ref pin = Some l ->
  l = mkReadLiterals tid queryID (ref_Name ref) (join "." (ref_Namespace ref)) (pinnedStr pin)
        (match pin with Some p => pin_Name p | None => [] end)
        (match pin with Some p => AtSnapshotID p | None => [] end) /\
  Forall (fun s => forallb cypherLiteralAllow s = true)
    [rl_tenant l; rl_query l; rl_table l; rl_ns l; rl_pinnedBy l; rl_atSnapshot l].
Proof.
  unfold sanitizeRead. rewrite !MustSanitize_spec.
  repeat (match goal with |- context [forallb cypherLiteralAllow ?s] => destruct (forallb cypherLiteralAllow s) eqn:? end;
    cbn [mbind option_bind]; try done).
  all: intros [= <-]; split; [done|]; cbn; repeat constructor; done.
Qed.

(** A read is recorded in one transaction of the tenant or not at all: without a
    tenant or with a literal outside the allowlist nothing is sent; else the two
    statements are sent in order, the transaction is committed only if both were
    answered, and success is the commit. *)
Theorem RecordQueryRead_protocol tenant queryID ref pin (o : env storeR) :
  let '(r, t) := run o [] (RecordQueryRead tenant queryID ref pin) in
  match tenant with
  | None => r = Err ErrTenantMissing /\ t = []
  | Some tid =>
      match sanitizeRead tid queryID ref pin with
      | None => r = Err Panic /\ t = []
      | Some l => readProtocol tid l r t
      end
  end.
Proof.
  unfold RecordQueryRead. destruct tenant as [tid|]; [|done].
  destruct (sanitizeRead tid queryID ref pin) as [l|]; [|done].
  apply (always_run _ (readProtocol tid l) [] o).
  unfold inTenant. cbn [always]. intros []; cbn [always]; [|by split; [left|]].
  unfold readStatements. cbn [execAll bind always query].
  repeat (intros [?|]; cbn [execAll bind always query]);
    intros []; cbn [always app]; (split; [right|done]);
    match goal with
    | |- exists n c, calls ?h = _ /\ _ => exists (length h - 2); eexists; split; [reflexivity|done]
    end.
Qed.
