(* ===== verification/Alerts.v ===== *)
(** * Alerts

    [internal/alerts/slack.go] and [internal/observability] (alerts.go,
    pagerduty.go, statuspage.go): what is posted for a finding or an alarm, and
    which incidents are open at PagerDuty after a sequence of alarms. *)

From S2P Require Import Prelude Effects Decimal.
From Stdlib Require Import Lia.
#[local] Open Scope go_scope.

(** ** What is sent *)

Record slackField := mkField { sf_Title : gostring; sf_Value : gostring; sf_Short : bool }.
Record slackAttachment := mkAttachment {
  sa_Color : gostring; sa_Title : gostring; sa_Fields : list slackField
}.
Record slackPayload := mkSlackPayload { sp_Text : gostring; sp_Attachments : list slackAttachment }.

Record V2Event := mkEvent {
  ve_RoutingKey : gostring; ve_Action : gostring; ve_DedupKey : gostring;
  ve_Summary : gostring; ve_Source : gostring; ve_Severity : gostring; ve_Component : gostring;
  ve_Details : list (gostring * gostring)
}.

Inductive alertCall :=
  | SlackPost (url : gostring) (p : slackPayload)
  | ManageEvent (e : V2Event)
  | PatchStatus (url authorization status : gostring).

(** The status of a response, none when there was none; whether the event was
    taken. *)
Definition alertR (c : alertCall) : Type :=
  match c with ManageEvent _ => bool | _ => option Z end.

Abbreviation alertProg := (prog alertR).

Inductive alertErr := ErrRequest | ErrTransport | ErrStatus (code : Z) | ErrPagerDuty.

Definition success2xx (code : Z) : bool := (200 <=? code)%Z && (code <? 300)%Z.

(** ** Slack ([slack.go]) *)

Record Slack := mkSlack { sl_webhookURL : gostring; sl_serviceTag : gostring }.

Definition severityColor (severity : gostring) : gostring :=
  if bool_decide (severity = "error") || bool_decide (severity = "critical") then "danger"
  else if bool_decide (severity = "warning") then "warning"
  else "good".

(** [details] in the order in which the map is ranged over. *)
Definition slackMessage (s : Slack) (severity summary tenantID : gostring)
    (details : list (gostring * gostring)) : slackPayload :=
  mkSlackPayload
    ("[" ++ sl_serviceTag s ++ "] " ++ severity ++ " — " ++ summary)
    [mkAttachment (severityColor severity) summary
       (mkField "tenant" tenantID true :: map (fun d => mkField d.1 d.2 true) details)].

(** [validURL]: [http.NewRequestWithContext] takes the URL. *)
Definition Post (validURL : gostring -> bool) (s : Slack) (severity summary tenantID : gostring)
    (details : list (gostring * gostring)) : alertProg (option alertErr) :=
  if bool_decide (sl_webhookURL s = []) then Ret None
  else if negb (validURL (sl_webhookURL s)) then Ret (Some ErrRequest)
  else
    Do (R := alertR) (SlackPost (sl_webhookURL s) (slackMessage s severity summary tenantID details))
      (fun r : option Z =>
       Ret (match r with
            | None => Some ErrTransport
            | Some code => if success2xx code then None else Some (ErrStatus code)
            end)).

(** ** PagerDuty ([pagerduty.go], [alerts.go]) *)

Record PagerDuty := mkPagerDuty { pd_routingKey : gostring; pd_serviceTag : gostring }.

Definition orGlobal (tenant : gostring) : gostring :=
  if bool_decide (tenant = []) then "global" else tenant.

Definition DedupKey (service alertName tenantOrGlobal : gostring) : gostring :=
  service ++ ":" ++ alertName ++ ":" ++ orGlobal tenantOrGlobal.

Definition TriggerOrResolve (p : PagerDuty) (action severity summary alertName tenant : gostring)
    (details : list (gostring * gostring)) : alertProg (option alertErr) :=
  Do (R := alertR)
    (ManageEvent (mkEvent (pd_routingKey p) action (DedupKey (pd_serviceTag p) alertName tenant)
       summary (pd_serviceTag p) severity alertName details))
    (fun ok : bool => Ret (if ok then None else Some ErrPagerDuty)).

Definition Trigger (p : PagerDuty) : gostring -> gostring -> gostring -> gostring ->
    list (gostring * gostring) -> alertProg (option alertErr) := TriggerOrResolve p "trigger".

Record AlarmPayload := mkAlarm {
  AlarmName : gostring; NewStateValue : gostring; AlarmDescription : gostring;
  Dimensions : list (gostring * gostring)
}.

(** The first [TenantID]. *)
Definition alarmTenant (a : AlarmPayload) : gostring :=
  default [] (snd <$> List.find (fun d => bool_decide (d.1 = ("TenantID" : gostring))) (Dimensions a)).

Definition DispatchAlarm (p : PagerDuty) (a : AlarmPayload) : alertProg (option alertErr) :=
  let severity : gostring :=
    if contains (AlarmName a) "storage" || contains (AlarmName a) "5xx" then "critical" else "warning" in
  let '(action, severity) :=
    if bool_decide (NewStateValue a = "OK") then ("resolve" : gostring, "info" : gostring)
    else ("trigger" : gostring, severity) in
  TriggerOrResolve p action severity (AlarmDescription a) (AlarmName a) (alarmTenant a) [].

(** ** The status page ([statuspage.go]) *)

Record Statuspage := mkStatuspage { st_apiKey : gostring; st_pageID : gostring; st_baseURL : gostring }.

Definition NewStatuspage (apiKey pageID baseURL : gostring) : Statuspage :=
  mkStatuspage apiKey pageID
    (trimRightSlash (if bool_decide (baseURL = []) then "https://api.statuspage.io" else baseURL)).

Definition UpdateComponent (validURL : gostring -> bool) (s : Statuspage) (componentID status : gostring)
  : alertProg (option alertErr) :=
  let url := st_baseURL s ++ "/v1/pages/" ++ st_pageID s ++ "/components/" ++ componentID in
  if negb (validURL url) then Ret (Some ErrRequest)
  else
    Do (R := alertR) (PatchStatus url ("OAuth " ++ st_apiKey s) status) (fun r : option Z =>
    Ret (match r with
         | None => Some ErrTransport
         | Some code => if success2xx code then None else Some (ErrStatus code)
         end)).

(** ** The incidents at PagerDuty

    The events API keeps an open incident per dedup key: a trigger opens it or
    adds to it, a resolve closes it. *)

Definition handleEvent (e : V2Event) (incidents : gset gostring) : gset gostring :=
  if bool_decide (ve_Action e = "trigger") then {[ve_DedupKey e]} ∪ incidents
  else if bool_decide (ve_Action e = "resolve") then incidents ∖ {[ve_DedupKey e]}
  else incidents.

Fixpoint runAlert {A} (ok : bool) (p : alertProg A) (incidents : gset gostring) : A * gset gostring :=
  match p with
  | Ret a => (a, incidents)
  | Do (ManageEvent e) k => runAlert ok (k ok) (if ok then handleEvent e incidents else incidents)
  | Do (SlackPost _ _) k => runAlert ok (k (if ok then Some 200%Z else None)) incidents
  | Do (PatchStatus _ _ _) k => runAlert ok (k (if ok then Some 200%Z else None)) incidents
  end.

(** Alarms one after the other, each with whether PagerDuty could be reached. *)
Definition dispatchAll (p : PagerDuty) (alarms : list (AlarmPayload * bool)) : gset gostring :=
  fold_left (fun incidents a => (runAlert a.2 (DispatchAlarm p a.1) incidents).2) alarms ∅.

(** ** Lemmas *)

Lemma last_sep (c : ascii) s t s' t' :
  c ∉ t -> c ∉ t' -> s ++ c :: t = s' ++ c :: t' -> s = s' /\ t = t'.
Proof.
  intros Ht Ht' H. apply app_eq_inv in H as [(k&H1&H2)|(k&H1&H2)].
  - destruct k as [|b k].
    + rewrite app_nil_r in H1. cbn in H2. by injection H2 as <-.
    + exfalso. injection H2 as <- ->. apply Ht'. apply elem_of_app. right. by left.
  - destruct k as [|b k].
    + rewrite app_nil_r in H1. cbn in H2. by injection H2 as ->.
    + exfalso. injection H2 as <- ->. apply Ht. apply elem_of_app. right. by left.
Qed.

Definition colon : ascii := ":"%char.

Lemma DedupKey_inj service a t a' t' :
  colon ∉ orGlobal t -> colon ∉ orGlobal t' -> DedupKey service a t = DedupKey service a' t' ->
  a = a' /\ orGlobal t = orGlobal t'.
Proof.
  unfold DedupKey. intros H1 H2 H. rewrite !app_assoc in H.
  assert (forall x y, (x ++ ":") ++ y = x ++ colon :: y) as Hc by (intros; by rewrite <- app_assoc).
  rewrite !Hc in H. apply last_sep in H as [H Ht]; [|done..]. split; [|done].
  apply app_inv_head in H. by injection H.
Qed.

(** The alarm and the tenant, or everybody, that a payload is about. *)
Definition subject (a : AlarmPayload) : gostring * gostring := (AlarmName a, orGlobal (alarmTenant a)).

(** The state a subject was last reported in. *)
Fixpoint lastState (s : gostring * gostring) (alarms : list (AlarmPayload * bool)) (st : option gostring)
  : option gostring :=
  match alarms with
  | [] => st
  | (a, ok) :: alarms =>
      lastState s alarms
        (if ok && bool_decide (subject a = s) then Some (NewStateValue a) else st)
  end.

(** Every alarm goes to PagerDuty as one event: a trigger, or a resolve for OK. *)
Lemma DispatchAlarm_event p a ok incidents :
  (runAlert ok (DispatchAlarm p a) incidents).2 =
    if ok then
      let key := DedupKey (pd_serviceTag p) (AlarmName a) (alarmTenant a) in
      if bool_decide (NewStateValue a = "OK") then incidents ∖ {[key]} else {[key]} ∪ incidents
    else incidents.
Proof. unfold DispatchAlarm. case_bool_decide; destruct ok; reflexivity. Qed.

Section incidents.
Context (p : PagerDuty).

Lemma key_subject a b :
  colon ∉ orGlobal (alarmTenant a) -> colon ∉ orGlobal (alarmTenant b) ->
  (DedupKey (pd_serviceTag p) (AlarmName a) (alarmTenant a) =
   DedupKey (pd_serviceTag p) (AlarmName b) (alarmTenant b) <-> subject a = subject b).
Proof.
  intros Ha Hb. split.
  - intros [H1 H2]%DedupKey_inj; [|done..]. unfold subject. by rewrite H1, H2.
  - unfold subject, DedupKey. by intros [= -> ->].
Qed.

Lemma incidents_from alarms incidents b st :
  Forall (fun a => colon ∉ orGlobal (alarmTenant a.1)) ((b, true) :: alarms) ->
  let key := DedupKey (pd_serviceTag p) (AlarmName b) (alarmTenant b) in
  (key ∈ incidents <-> exists s, st = Some s /\ s <> "OK") ->
  (key ∈ fold_left (fun i a => (runAlert a.2 (DispatchAlarm p a.1) i).2) alarms incidents <->
   exists s, lastState (subject b) alarms st = Some s /\ s <> "OK").
Proof.
  cbn zeta. intros Hf. apply Forall_cons in Hf as [Hb Hf]. cbn in Hb. revert incidents st.
  induction Hf as [|[a ok] alarms Ha Hf IH]; intros incidents st Hi; cbn [fold_left lastState]; [done|].
  apply IH. cbn [fst snd] in *. rewrite DispatchAlarm_event. destruct ok; [|done]. cbn [andb].
  pose proof (key_subject a b Ha Hb) as Hk.
  case_bool_decide as Hst; case_bool_decide as Hs.
  - rewrite elem_of_difference, elem_of_singleton, Hst. split; [|by intros (s&[= <-]&?)].
    intros [_ Hn]. destruct Hn. symmetry. by apply Hk.
  - rewrite elem_of_difference, elem_of_singleton, Hi. split; [by intros [? _]|].
    intros H. split; [done|]. intros He. by apply Hs, Hk.
  - rewrite elem_of_union, elem_of_singleton. split; [|intros _; left; symmetry; by apply Hk].
    intros _. by exists (NewStateValue a).
  - rewrite elem_of_union, elem_of_singleton, Hi. split; [|by right]. intros [He|?]; [|done].
    destruct Hs. by apply Hk.
Qed.

(** (C15) The open incidents follow the alarms: after any sequence of alarms, some of
    which did not reach PagerDuty, the incident of an alarm and tenant is open
    exactly when the last of its alarms that arrived did not say OK, and
    different alarms or tenants never share an incident - as long as the tenants
    have no colon in them.  An alarm without data counts as one that fires. *)
Theorem incidents_follow_alarms alarms b :
  Forall (fun a => colon ∉ orGlobal (alarmTenant a.1)) ((b, true) :: alarms) ->
  DedupKey (pd_serviceTag p) (AlarmName b) (alarmTenant b) ∈ dispatchAll p alarms <->
  exists s, lastState (subject b) alarms None = Some s /\ s <> "OK".
Proof.
  intros Hf. apply incidents_from; [done|]. split; [by intros ?%not_elem_of_empty|by intros (s&?&_)].
Qed.
End incidents.

Module AlertDemo.
Definition pager : PagerDuty := mkPagerDuty "key" "svc".
Definition alarm (st : gostring) (tenant : gostring) : AlarmPayload :=
  mkAlarm "high-5xx" st "" [("TenantID" : gostring, tenant)].
Definition alarms : list (AlarmPayload * bool) :=
  [(alarm "ALARM" "t1", true); (alarm "ALARM" "t2", true); (alarm "OK" "t1", true); (alarm "OK" "t2", false)].
End AlertDemo.

Lemma incidents_follow_alarms_witness :
  (DedupKey "svc" "high-5xx" "t1" ∉ dispatchAll AlertDemo.pager AlertDemo.alarms) /\
  DedupKey "svc" "high-5xx" "t2" ∈ dispatchAll AlertDemo.pager AlertDemo.alarms.
Proof.
  assert (forall t : gostring, t = "t1" \/ t = "t2" ->
    Forall (fun a => colon ∉ orGlobal (alarmTenant a.1))
      ((AlertDemo.alarm "OK" t, true) :: AlertDemo.alarms)) as Hf.
  { intros t Ht. apply (bool_decide_unpack _). destruct Ht as [->| ->]; vm_compute; exact I. }
  split.
  - intros H. apply (incidents_follow_alarms AlertDemo.pager _ _ (Hf "t1" (or_introl eq_refl))) in H
      as (s&[= <-]&Hn). by apply Hn.
  - apply (incidents_follow_alarms AlertDemo.pager _ _ (Hf "t2" (or_intror eq_refl))).
    by exists ("ALARM" : gostring).
Defined.

(** Slack is asked once, or not at all without a URL; nil means that it was not
    asked or answered 2xx. *)
Lemma Post_outcome validURL s severity summary tenantID details (o : env alertR) :
  let '(r, t) := run o [] (Post validURL s severity summary tenantID details) in
  (calls t = [] /\ (sl_webhookURL s = [] /\ r = None \/ sl_webhookURL s <> [] /\ r = Some ErrRequest)) \/
  (calls t = [SlackPost (sl_webhookURL s) (slackMessage s severity summary tenantID details)] /\
   (r = None <-> exists code,
      o [] (SlackPost (sl_webhookURL s) (slackMessage s severity summary tenantID details)) = Some code /\
      (200 <= code < 300)%Z)).
Proof.
  unfold Post. case_bool_decide as Hu; [cbn; auto|]. destruct (validURL _); cbn [negb]; [|cbn; auto].
  cbn -[slackMessage]. right. split; [done|]. set (r := o [] _). destruct r as [code|].
  - unfold success2xx. destruct ((200 <=? code)%Z && (code <? 300)%Z) eqn:Hc; split; try done.
    + intros _. exists code. split; [done|lia].
    + intros (c&[= <-]&H). lia.
  - split; [done|]. by intros (c&?&_).
Qed.
