(* ===== verification/Listener.v ===== *)
(** * Loops that wait

    [pkg/pglistener/listener.go], the supervisor of a LISTEN connection, with the
    waiting of the policy trigger ([internal/policy/compiler/listener.go]) behind
    it, and [internal/sqlproxy/cert_watcher.go], the reload of the proxy's
    certificate.  Both run until their context ends; the fuel of the definitions
    is any number of rounds. *)

From S2P Require Import Prelude Effects.
From Stdlib Require Import Lia.
#[local] Open Scope go_scope.

Module Pg.

(** What [WaitForNotification] answers. *)
Inductive waited := Notified (payload : gostring) | WaitCanceled | WaitFailed.

Inductive pgCall :=
  | CtxErr                                (* ctx.Err() *)
  | Now
  | AcquireConn
  | ExecListen (channel : gostring)
  | WaitForNotification
  | Handle (payload : gostring)
  | ReleaseConn
  | SleepOrDone (d : Z).                  (* whether the context ended *)

(** An acquisition fails, or the context had ended. *)
Inductive acquired := Acquired | AcquireCanceled | AcquireFailed.

Definition pgR (c : pgCall) : Type :=
  match c with
  | CtxErr | SleepOrDone _ => bool
  | Now => Z
  | AcquireConn | ExecListen _ => acquired
  | WaitForNotification => waited
  | Handle _ | ReleaseConn => unit
  end.

Abbreviation pgProg := (prog pgR).

(** How [listenOnce] ended: nil, an error of the context, another error. *)
Inductive ended := EndedNil | EndedCanceled | EndedError | OutOfFuel.

Definition released (e : ended) : pgProg ended := Do (R := pgR) ReleaseConn (fun _ : unit => Ret e).

Fixpoint waitLoop (fuel : nat) : pgProg ended :=
  match fuel with
  | 0 => Ret OutOfFuel
  | S fuel =>
      Do (R := pgR) WaitForNotification (fun r : waited =>
      match r with
      | Notified payload => Do (R := pgR) (Handle payload) (fun _ : unit => waitLoop fuel)
      | WaitCanceled => released EndedNil
      | WaitFailed => released EndedError
      end)
  end.

Definition listenOnce (fuel : nat) (channel : gostring) : pgProg ended :=
  Do (R := pgR) AcquireConn (fun r : acquired =>
  match r with
  | AcquireCanceled => Ret EndedCanceled
  | AcquireFailed => Ret EndedError
  | Acquired =>
      Do (R := pgR) (ExecListen channel) (fun r : acquired =>
      match r with
      | AcquireCanceled => released EndedCanceled
      | AcquireFailed => released EndedError
      | Acquired => waitLoop fuel
      end)
  end).

Definition second : Z := 1000000000.
Definition backoffMax : Z := 60 * second.
Definition reconnectHealthy : Z := 30 * second.

Definition doubled (backoff : Z) : Z :=
  let backoff := (backoff * 2)%Z in if (backoffMax <? backoff)%Z then backoffMax else backoff.

(** [true]: it returned, with the error of the context. *)
Fixpoint listenRounds (fuel : nat) (channel : gostring) (backoff : Z) : pgProg bool :=
  match fuel with
  | 0 => Ret false
  | S fuel =>
      Do (R := pgR) CtxErr (fun done_ : bool =>
      if done_ then Ret true
      else
        Do (R := pgR) Now (fun listenStart : Z =>
        bind (listenOnce fuel channel) (fun e =>
        match e with
        | OutOfFuel => Ret false
        | EndedNil | EndedCanceled => Ret true
        | EndedError =>
            Do (R := pgR) Now (fun now : Z =>
            let backoff := if (reconnectHealthy <=? timeSub now listenStart)%Z then second else backoff in
            Do (R := pgR) (SleepOrDone backoff) (fun done_ : bool =>
            if done_ then Ret true else listenRounds fuel channel (doubled backoff)))
        end)))
  end.

Definition ListenOn (fuel : nat) (channel : gostring) : pgProg bool :=
  listenRounds fuel channel second.

(** ** The server

    A NOTIFY reaches a connection that listens, in order; nothing is kept for a
    connection that is down. *)
Record world := mkWorld {
  w_clock : Z;
  w_up : bool;                      (* connected and listening *)
  w_queue : list gostring;          (* delivered to the connection, not read *)
  w_read : option gostring;         (* read, not handled *)
  w_handled : list gostring;
  w_sent : list gostring;           (* committed by anybody since the start *)
  w_lost : list gostring            (* committed while down, or unread when it broke *)
}.

Definition performs (_ : nat) (c : pgCall) (w : world) : pgR c -> world -> Prop :=
  match c with
  | CtxErr | SleepOrDone _ => fun _ w' => w' = w
  | Now => fun r w' => r = w_clock w /\ w' = w
  | AcquireConn => fun _ w' => w' = w
  | ExecListen _ => fun r w' =>
      match r with
      | Acquired =>
          w' = mkWorld (w_clock w) true (w_queue w) (w_read w) (w_handled w) (w_sent w) (w_lost w)
      | _ => w' = w
      end
  | WaitForNotification => fun r w' =>
      match r with
      | Notified n =>
          exists q, w_up w = true /\ w_queue w = n :: q /\
            w' = mkWorld (w_clock w) true q (Some n) (w_handled w) (w_sent w) (w_lost w)
      | WaitCanceled => w' = w
      | WaitFailed => w_up w = false /\ w' = w
      end
  | Handle n => fun _ w' =>
      w' = mkWorld (w_clock w) (w_up w) (w_queue w) None (w_handled w ++ [n]) (w_sent w) (w_lost w)
  | ReleaseConn => fun _ w' =>
      w' = mkWorld (w_clock w) false [] (w_read w) (w_handled w) (w_sent w) (w_lost w ++ w_queue w)
  end.

Inductive drifts (w : world) : world -> Prop :=
  | drift_time t : (w_clock w <= t)%Z ->
      drifts w (mkWorld t (w_up w) (w_queue w) (w_read w) (w_handled w) (w_sent w) (w_lost w))
  | drift_notify n :
      drifts w (mkWorld (w_clock w) (w_up w) (if w_up w then w_queue w ++ [n] else w_queue w) (w_read w)
                  (w_handled w) (w_sent w ++ [n]) (if w_up w then w_lost w else w_lost w ++ [n]))
  | drift_break :
      drifts w (mkWorld (w_clock w) false [] (w_read w) (w_handled w) (w_sent w) (w_lost w ++ w_queue w)).

Definition started (now : Z) : world := mkWorld now false [] None [] [] [].

(** A run in which only the connection fails. *)
Inductive move := Time (t : Z) | Notify (n : gostring) | Break.

Definition moved (m : move) (w : world) : world :=
  match m with
  | Time t => mkWorld (Z.max t (w_clock w)) (w_up w) (w_queue w) (w_read w) (w_handled w) (w_sent w) (w_lost w)
  | Notify n =>
      mkWorld (w_clock w) (w_up w) (if w_up w then w_queue w ++ [n] else w_queue w) (w_read w)
        (w_handled w) (w_sent w ++ [n]) (if w_up w then w_lost w else w_lost w ++ [n])
  | Break => mkWorld (w_clock w) false [] (w_read w) (w_handled w) (w_sent w) (w_lost w ++ w_queue w)
  end.

Definition answer (_ : nat) (c : pgCall) (w : world) : option (pgR c * world) :=
  match c return option (pgR c * world) with
  | CtxErr | SleepOrDone _ => Some (false, w)
  | Now => Some (w_clock w, w)
  | AcquireConn => Some (Acquired, w)
  | ExecListen _ =>
      Some (Acquired, mkWorld (w_clock w) true (w_queue w) (w_read w) (w_handled w) (w_sent w) (w_lost w))
  | WaitForNotification =>
      match w_up w, w_queue w with
      | false, _ => Some (WaitFailed, w)
      | true, n :: q =>
          Some (Notified n, mkWorld (w_clock w) true q (Some n) (w_handled w) (w_sent w) (w_lost w))
      | true, [] => None
      end
  | Handle n =>
      Some (tt, mkWorld (w_clock w) (w_up w) (w_queue w) None (w_handled w ++ [n]) (w_sent w) (w_lost w))
  | ReleaseConn =>
      Some (tt, mkWorld (w_clock w) false [] (w_read w) (w_handled w) (w_sent w) (w_lost w ++ w_queue w))
  end.
End Pg.

(** ** The certificate of the proxy ([cert_watcher.go]) *)

Module Cert.
Section watcher.
Context {cert : Type}.

(** What the loop wakes up for; an operation by its bits. *)
Inductive op := OpWrite | OpCreate | OpRename | OpRemove | OpChmod.

Inductive wake :=
  | CtxDone
  | Tick
  | Event (ops : list op)
  | EventsClosed
  | WatchError
  | ErrorsClosed.

Inductive certCall :=
  | LoadX509KeyPair
  | NewWatcher
  | AddWatch (key : bool)
  | RemoveWatch (key : bool)
  | Select
  | Swap (c : cert).                  (* w.cert = &newCert, under the lock *)

Definition certR (c : certCall) : Type :=
  match c with
  | LoadX509KeyPair => option cert
  | NewWatcher | AddWatch _ => bool
  | RemoveWatch _ | Swap _ => unit
  | Select => wake
  end.

Abbreviation certProg := (prog certR).

#[export] Instance op_eq_dec : EqDecision op.
Proof. solve_decision. Defined.

(** [NewCertWatcher]: the loaded certificate, if any. *)
Definition NewCertWatcher (certPath keyPath : gostring) : certProg (option cert) :=
  if bool_decide (certPath = []) || bool_decide (keyPath = []) then Ret None
  else call (R := certR) LoadX509KeyPair.

Definition GetCertificate (current : option cert) : option cert := current.

Definition reload : certProg unit :=
  let! newCert := call (R := certR) LoadX509KeyPair in
  match newCert with
  | None => Ret tt
  | Some c => call (R := certR) (Swap c)
  end.

Definition interesting (ops : list op) : bool :=
  existsb (fun o => bool_decide (o <> OpChmod)) ops.

Definition moves (ops : list op) : bool :=
  existsb (fun o => bool_decide (o = OpRename) || bool_decide (o = OpRemove)) ops.

Definition rewatch : certProg unit :=
  let! _ := call (R := certR) (RemoveWatch false) in
  let! _ := call (R := certR) (RemoveWatch true) in
  let! _ := call (R := certR) (AddWatch false) in
  let! _ := call (R := certR) (AddWatch true) in
  Ret tt.

(** [Some true]: nil; [None]: out of fuel. *)
Fixpoint watchLoop (fuel : nat) : certProg (option bool) :=
  match fuel with
  | 0 => Ret None
  | S fuel =>
      let! a := call (R := certR) Select in
      match a with
      | CtxDone | EventsClosed | ErrorsClosed => Ret (Some true)
      | Tick => let! _ := reload in watchLoop fuel
      | Event ops =>
          if interesting ops then
            let! _ := (if moves ops then rewatch else Ret tt) in
            let! _ := reload in
            watchLoop fuel
          else watchLoop fuel
      | WatchError => watchLoop fuel
      end
  end.

Definition Watch (fuel : nat) : certProg (option bool) :=
  let! ok := call (R := certR) NewWatcher in
  if negb ok then Ret (Some false)
  else
    let! ok := call (R := certR) (AddWatch false) in
    if negb ok then Ret (Some false)
    else
      let! ok := call (R := certR) (AddWatch true) in
      if negb ok then Ret (Some false)
      else watchLoop fuel.

(** What an event says of its file, by the documentation of fsnotify and not by
    the mask of the loop: the content is another one; the file of that name is
    another one, and the watch went with the old one. *)
Definition tellsChange (ops : list op) : bool :=
  existsb (fun o => match o with OpWrite | OpCreate | OpRename | OpRemove => true | OpChmod => false end) ops.

Definition tellsMove (ops : list op) : bool :=
  existsb (fun o => match o with OpRename | OpRemove => true | _ => false end) ops.

(** The watch of one of the two paths: [Told] when the file moved away under it
    and an event was queued that says so; [Failed] when the last attempt to add it
    was refused; [Dropped] when the kernel's queue overflowed before that event was
    delivered. *)
Inductive watchState := Off | On | Told | Failed | Dropped.

(** The disk and the proxy: the pair of files, none while they do not match or
    are half written; every pair that was ever there; the certificate in memory;
    the last one that a reload could read and what the last reload read; whether
    the loop was woken for files it has not read since, whether they changed since
    it read them, and whether it could not be told of such a change; the watches of
    the certificate ([false]) and of the key; the events that wait. *)
Record world := mkWorld {
  disk : option cert;
  seen : list cert;
  served : cert;
  latest : cert;
  lastRead : option cert;
  due : bool;
  changed : bool;
  blind : bool;
  watch : bool -> watchState;
  events : list (list op)
}.

Definition withWatch (k : bool) (s : watchState) (w : world) : world :=
  mkWorld (disk w) (seen w) (served w) (latest w) (lastRead w) (due w) (changed w) (blind w)
    (fun k' => if Bool.eqb k' k then s else watch w k') (events w).

Definition withEvents (d : bool) (evs : list (list op)) (w : world) : world :=
  mkWorld (disk w) (seen w) (served w) (latest w) (lastRead w) d (changed w) (blind w) (watch w) evs.

Definition withBlind (w : world) : world :=
  mkWorld (disk w) (seen w) (served w) (latest w) (lastRead w) (due w) (changed w) true
    (watch w) (events w).

(** The files are others. *)
Definition withFiles (d : option cert) (w : world) : world :=
  mkWorld d (seen w ++ option_list d) (served w) (latest w) (lastRead w) (due w) true (blind w)
    (watch w) (events w).

Definition afterRead (r : option cert) (w : world) : world :=
  mkWorld (disk w) (seen w) (served w) (default (latest w) r) r false false false (watch w) (events w).

Definition withServed (c : cert) (w : world) : world :=
  mkWorld (disk w) (seen w) c (latest w) (lastRead w) (due w) (changed w) (blind w) (watch w) (events w).

Definition performs (_ : nat) (c : certCall) (w : world) : certR c -> world -> Prop :=
  match c with
  | LoadX509KeyPair => fun r w' =>
      (* a read may also fail on its own *)
      (r = disk w \/ r = None) /\ w' = afterRead r w
  | NewWatcher => fun _ w' => w' = w
  | AddWatch k => fun r w' => w' = withWatch k (if r then On else Failed) w
  | RemoveWatch k => fun _ w' => w' = withWatch k Off w
  | Select => fun a w' =>
      match a with
      | Tick => w' = withEvents true (events w) w
      | Event ops => exists evs, events w = ops :: evs /\
          w' = withEvents (due w || tellsChange ops) evs w
      | _ => w' = w
      end
  | Swap c => fun _ w' => w' = withServed c w
  end.

(** A file changes: the watcher is told when that path is watched. *)
Definition told (k : bool) (ops : list op) (w : world) : world :=
  match watch w k with
  | On => withEvents (due w) (events w ++ [ops]) (if tellsMove ops then withWatch k Told w else w)
  | _ => withBlind w
  end.

Definition overflowed (w : world) : world :=
  mkWorld (disk w) (seen w) (served w) (latest w) (lastRead w) (due w) (changed w) true
    (fun k => match watch w k with Told => Dropped | s => s end) [].

(** The files change at any time, in place or under another file of that name,
    to a pair, to none or to the same; attributes change; the queue overflows. *)
Inductive drifts (w : world) : world -> Prop :=
  | drift_changed k ops d : tellsChange ops = true -> drifts w (told k ops (withFiles d w))
  | drift_attributes k ops : tellsChange ops = false -> watch w k = On ->
      drifts w (withEvents (due w) (events w ++ [ops]) w)
  | drift_overflow : drifts w (overflowed w).

Definition initial (c : cert) : world :=
  mkWorld (Some c) [c] c c (Some c) false false false (fun _ => Off) [].
End watcher.
Arguments certCall : clear implicits.
Arguments world : clear implicits.
End Cert.
