(* ===== verification/ListenerSpec.v ===== *)
(** * Loops that wait: what is handled, what is served

    A notification that reaches the connection is handled once and in order, and
    the loop waits between a second and a minute before it reconnects
    ([notifications_once_in_order]); what is sent while it is down is lost
    ([notification_lost]).  The proxy serves a certificate that was on disk, the
    last one that could be read, never waits with a reload due and keeps its
    watches as far as it is let ([certificate_follows_disk]); watches that are
    refused stay off ([watches_never_restored]). *)

From stdpp Require Import relations.
From S2P Require Import Prelude Effects Interleave Listener.
From Stdlib Require Import Lia.
#[local] Open Scope go_scope.

Module PgSpec.
Import Pg.

Definition inflight (w : world) : list gostring := option_list (w_read w).

Record accounted (w : world) : Prop := {
  acc_order : w_handled w ++ inflight w ++ w_queue w `sublist_of` w_sent w;
  acc_lost : w_lost w = [] -> w_handled w ++ inflight w ++ w_queue w = w_sent w;
  acc_count : length (w_sent w) =
    length (w_handled w) + length (inflight w) + length (w_queue w) + length (w_lost w);
  acc_down : w_up w = false -> w_queue w = []
}.

(** Where the calls are made. *)
Definition during (c : pgCall) (w : world) : Prop :=
  match c with
  | Handle n => w_read w = Some n
  | SleepOrDone d => w_read w = None /\ (second <= d <= backoffMax)%Z
  | _ => w_read w = None
  end.

Lemma started_accounted now : accounted (started now).
Proof. by constructor. Qed.

Lemma accounted_break w :
  accounted w ->
  accounted (mkWorld (w_clock w) false [] (w_read w) (w_handled w) (w_sent w) (w_lost w ++ w_queue w)).
Proof.
  intros [Ho Hl Hc Hd]. constructor; cbn -[inflight]; unfold inflight in *; cbn; try done.
  - etransitivity; [|exact Ho]. rewrite app_nil_r, app_assoc. by apply sublist_inserts_r.
  - intros H. apply app_eq_nil in H as [H1 H2]. rewrite <- (Hl H1), H2. done.
  - rewrite length_app. lia.
Qed.

Lemma drifts_accounted w w' : accounted w -> drifts w w' -> accounted w'.
Proof.
  intros Hw Hd. destruct Hd as [t Ht|n|]; [| |by apply accounted_break].
  - destruct Hw. by constructor.
  - destruct Hw as [Ho Hl Hc Hd]. constructor; cbn -[inflight]; unfold inflight in *; cbn.
    + destruct (w_up w).
      * rewrite !app_assoc. apply sublist_app; [by rewrite <- app_assoc|done].
      * by apply sublist_inserts_r.
    + destruct (w_up w).
      * intros H. by rewrite <- (Hl H), !app_assoc.
      * intros H. by apply app_eq_nil in H as [_ H].
    + rewrite length_app. destruct (w_up w); rewrite ?length_app; cbn; lia.
    + intros Hu. rewrite Hu. by apply Hd.
Qed.

Lemma drifts_read w w' : rtc drifts w w' -> w_read w' = w_read w.
Proof. induction 1 as [|w w1 w2 H _ IH]; [done|]. rewrite IH. by destruct H. Qed.

(** What is left is safe where nothing is read and unhandled. *)
Definition idle {A} (p : prog pgR A) : Prop :=
  forall w, w_read w = None ->
    safe performs accounted (soloRely drifts) 0 during (fun w _ => w_read w = None) p w.

Lemma idle_ret {A} (a : A) : idle (Ret a).
Proof. intros w Hw w' Hr _. by rewrite (drifts_read _ _ Hr). Qed.

Lemma idle_call {A} c (k : pgR c -> prog pgR A) :
  (forall w, w_read w = None -> during c w) ->
  (forall w r w', accounted w -> w_read w = None -> performs 0 c w r w' ->
     accounted w' /\ w_read w' = None) ->
  (forall r, idle (k r)) -> idle (Do c k).
Proof.
  intros Hd Hp Hk w Hw w' Hr Ha. rewrite <- (drifts_read _ _ Hr) in Hw. split; [by apply Hd|].
  intros r w'' Hc. destruct (Hp _ _ _ Ha Hw Hc) as [Ha' Hw']. split_and!; [done|by intros [|j]|].
  by apply Hk.
Qed.

(** The calls that change nothing. *)
Lemma idle_quiet {A} c (k : pgR c -> prog pgR A) :
  (forall w, w_read w = None -> during c w) ->
  (forall w r w', performs 0 c w r w' -> w' = w) -> (forall r, idle (k r)) -> idle (Do c k).
Proof. intros Hd Hp. apply idle_call; [done|]. by intros w r w' Ha Hw ->%Hp. Qed.

Lemma idle_released e : idle (released e).
Proof.
  apply idle_call; [done| |intros []; apply idle_ret].
  intros w [] w' Ha Hw ->. split; [by apply accounted_break|done].
Qed.

Lemma idle_waitLoop fuel : idle (waitLoop fuel).
Proof.
  induction fuel as [|fuel IH]; cbn [waitLoop]; [apply idle_ret|].
  intros w Hw w' Hr Ha. rewrite <- (drifts_read _ _ Hr) in Hw. split; [done|].
  intros [n| |] w'' Hc; cbn in Hc.
  - destruct Hc as (q&Hu&Hq&->). split_and!; [|by intros [|j]|].
    + destruct Ha as [Ho Hl Hc Hd]. unfold inflight in *. rewrite Hw, Hq in *.
      constructor; unfold inflight; cbn in *; try done; lia.
    + intros w2 Hr2 Ha2. pose proof (drifts_read _ _ Hr2) as Hn. cbn in Hn. split; [done|].
      intros [] w3 ->. split_and!; [|by intros [|j]|by apply IH].
      destruct Ha2 as [Ho Hl Hc Hd]. unfold inflight in *. rewrite Hn in *.
      constructor; unfold inflight; cbn in *; rewrite <- ?app_assoc; try done.
      rewrite length_app. cbn. lia.
  - subst w''. split_and!; [done|by intros [|j]|by apply idle_released].
  - destruct Hc as [_ ->]. split_and!; [done|by intros [|j]|by apply idle_released].
Qed.

Lemma idle_bind {A B} (p : prog pgR A) (f : A -> prog pgR B) :
  idle p -> (forall a, idle (f a)) -> idle (bind p f).
Proof. intros Hp Hf w Hw. eapply safe_bind; [apply _|by apply Hp|]. intros w' a _ Hw'. by apply Hf. Qed.

Lemma idle_listenOnce fuel channel : idle (listenOnce fuel channel).
Proof.
  apply idle_quiet; [done|done|]. intros []; [|apply idle_ret..].
  apply idle_call; [done| |].
  - intros w [] w' Ha Hw Hp; cbn in Hp; subst w'; [|done..]. split; [|done].
    destruct Ha as [Ho Hl Hc Hd]. by constructor.
  - intros []; [apply idle_waitLoop|apply idle_released..].
Qed.

Lemma doubled_range b : (second <= b <= backoffMax)%Z -> (second <= doubled b <= backoffMax)%Z.
Proof. unfold doubled, backoffMax, second. destruct (_ <? _)%Z eqn:E; lia. Qed.

Lemma idle_rounds fuel channel b :
  (second <= b <= backoffMax)%Z -> idle (listenRounds fuel channel b).
Proof.
  revert b; induction fuel as [|fuel IH]; intros b Hb; cbn [listenRounds]; [apply idle_ret|].
  apply idle_quiet; [done|done|]. intros []; [apply idle_ret|].
  apply idle_quiet; [done|by intros w r w' [_ ->]|]. intros start.
  apply idle_bind; [apply idle_listenOnce|]. intros []; try apply idle_ret.
  apply idle_quiet; [done|by intros w r w' [_ ->]|]. intros now. cbn zeta.
  set (b' := if (_ <=? _)%Z then second else b).
  assert (second <= b' <= backoffMax)%Z as Hb' by (subst b'; unfold backoffMax, second; destruct (_ <=? _)%Z; unfold backoffMax, second in *; lia).
  apply idle_quiet; [done|done|]. intros []; [apply idle_ret|]. by apply IH, doubled_range.
Qed.

(** (C11) Notifications are handled at most once and in the order in which they were
    sent: in every state the loop reaches, whatever the connection does and
    however long it runs, those handled, the one in hand and those delivered and
    unread are a part of what was sent, in order, and all of it when nothing was
    lost; only what was sent while the connection was down, or broke with it, is
    lost.  A notification in hand is handled before anything else, and every
    wait before a reconnection is between a second and a minute. *)
Theorem notifications_once_in_order fuel channel now w p :
  rtc (sstep performs drifts) (started now, ListenOn fuel channel) (w, p) ->
  accounted w /\ match p with Do c _ => during c w | Ret _ => w_read w = None end.
Proof.
  intros Hr. apply (solo_reached performs drifts accounted during (fun w (_ : bool) => w_read w = None)
    drifts_accounted (started now) (ListenOn fuel channel) w p (started_accounted now)); [|done].
  apply idle_rounds; [unfold backoffMax, second; lia|done].
Qed.
Lemma pg_moved_drifts m w : drifts w (moved m w).
Proof. destruct m; constructor. lia. Qed.

Lemma pg_answer_performs i c w r w' : answer i c w = Some (r, w') -> performs i c w r w'.
Proof.
  destruct c; cbn [answer performs]; try (by intros [= <- <-]).
  destruct (w_up w) eqn:Hu, (w_queue w) as [|n q] eqn:Hq; intros H; simplify_eq; cbn; eauto.
Qed.

(** ["a"] arrives, the connection breaks, ["b"] is sent while it is down, ["c"]
    after it is up again. *)
Module Demo.
Definition calls_ (n : nat) : list (option move) := replicate n None.
Definition acts : list (option move) :=
  calls_ 4 ++ [Some (Notify "a")] ++ calls_ 2 ++ [Some Break] ++ calls_ 2 ++
  [Some (Notify "b")] ++ calls_ 6 ++ [Some (Notify "c")] ++ calls_ 2.
Definition reached : world * prog pgR bool := fold_left (soloAct moved answer) acts (started 0, ListenOn 9 "policy").
End Demo.

Lemma Demo_reaches :
  rtc (sstep performs drifts) (started 0, ListenOn 9 "policy") (Demo.reached.1, Demo.reached.2).
Proof.
  rewrite <- surjective_pairing. apply solo_run; [apply pg_moved_drifts|apply pg_answer_performs].
Qed.

Lemma notifications_once_in_order_witness :
  accounted Demo.reached.1 /\ w_handled Demo.reached.1 = ["a" : gostring; "c" : gostring].
Proof.
  split; [|by vm_compute]. exact (proj1 (notifications_once_in_order 9 "policy" 0 _ _ Demo_reaches)).
Defined.

(** Nothing makes up for a notification that is sent while the loop reconnects:
    it goes on listening and handles the next one. *)
Lemma notification_lost :
  exists w p, rtc (sstep performs drifts) (started 0, ListenOn 9 "policy") (w, p) /\
    w_sent w = ["a" : gostring; "b" : gostring; "c" : gostring] /\
    w_handled w = ["a" : gostring; "c" : gostring] /\ w_lost w = ["b" : gostring] /\ w_up w = true.
Proof. exists Demo.reached.1, Demo.reached.2. split; [apply Demo_reaches|by vm_compute]. Qed.
End PgSpec.

Module CertSpec.
Import Cert.

(** The mask of the loop is the set of events that tell of a change. *)
Lemma interesting_tells ops : interesting ops = tellsChange ops.
Proof. induction ops as [|[] ops IH]; cbn; done || exact IH. Qed.

Lemma moves_tells ops : moves ops = tellsMove ops.
Proof. induction ops as [|[] ops IH]; cbn; done || exact IH. Qed.

Lemma move_is_change ops : tellsChange ops = false -> tellsMove ops = false.
Proof. induction ops as [|[] ops IH]; cbn; done || exact IH. Qed.

Section cert.
Context {cert : Type}.
Abbreviation world := (world cert).
Abbreviation certCall := (certCall cert).

(** A certificate in memory was on disk, and so were the last one read and the
    one that is there now; while the files are those last read, the disk has what
    was read. *)
Record known (w : world) : Prop := {
  known_disk : forall c, disk w = Some c -> c ∈ seen w;
  known_latest : latest w ∈ seen w;
  known_served : served w ∈ seen w;
  known_read : forall c, lastRead w = Some c -> latest w = c;
  known_fresh : changed w = false -> forall c, lastRead w = Some c -> disk w = Some c
}.

(** A change since the last reading is one that a waiting event tells of, unless
    there was no way to be told. *)
Definition announced (w : world) : Prop :=
  changed w = true -> blind w = true \/ existsb tellsChange (events w) = true.

(** A path is watched, unless adding it again was refused or the event that says
    it moved is waiting or was lost. *)
Definition covered (k : bool) (w : world) : Prop :=
  match watch w k with
  | On | Failed | Dropped => True
  | Told => existsb tellsMove (events w) = true
  | Off => False
  end.

Definition covers (w : world) : Prop := covered false w /\ covered true w.

(** What the certificates need between two calls of the watcher. *)
Definition current (w : world) : Prop := due w = false /\ served w = latest w.

Definition settled (w : world) : Prop := current w /\ announced w /\ covers w.

Definition watching (c : certCall) (w : world) : Prop :=
  match c with
  | Select => settled w
  | Swap c => c = latest w /\ due w = false
  | _ => True
  end.

Lemma told_keeps k ops (w : world) :
  disk (told k ops w) = disk w /\ seen (told k ops w) = seen w /\ served (told k ops w) = served w /\
  latest (told k ops w) = latest w /\ lastRead (told k ops w) = lastRead w /\ due (told k ops w) = due w /\
  changed (told k ops w) = changed w.
Proof. unfold told. destruct (watch w k); cbn; try done. by destruct (tellsMove ops). Qed.

Lemma drifts_known (w w' : world) : known w -> drifts w w' -> known w'.
Proof.
  intros [H1 H2 H3 H4 H5] [k ops d Ho|k ops Ho Hk|]; [|by constructor..].
  destruct (told_keeps k ops (withFiles d w)) as (Ed&Es&Ev&El&Er&_&Ec).
  constructor; rewrite ?Ed, ?Es, ?Ev, ?El, ?Er, ?Ec; cbn; try done; try (apply elem_of_app; by left).
  intros c ->. apply elem_of_app. right. by left.
Qed.

Lemma drifts_keep (w w' : world) :
  rtc drifts w w' -> served w' = served w /\ latest w' = latest w /\ due w' = due w.
Proof.
  induction 1 as [|w w1 w2 H _ IH]; [done|]. destruct IH as (->&->&->).
  destruct H as [k ops d Ho|k ops Ho Hk|]; [|done..].
  by destruct (told_keeps k ops (withFiles d w)) as (_&_&->&->&_&->&_).
Qed.

Lemma existsb_last {A} (f : A -> bool) l x : existsb f (l ++ [x]) = existsb f l || f x.
Proof. rewrite existsb_app. cbn. by rewrite orb_false_r. Qed.

Lemma drifts_announced (w w' : world) : announced w -> drifts w w' -> announced w'.
Proof.
  intros H [k ops d Ho|k ops Ho Hk|]; [| |by left].
  - intros _. unfold told. cbn [watch withFiles]. destruct (watch w k); try (by left).
    right. cbn. by rewrite existsb_last, Ho, orb_true_r.
  - intros [Hb|He]%H; [by left|right]. cbn. by rewrite existsb_last, He.
Qed.

Lemma drifts_covered k (w w' : world) : covered k w -> drifts w w' -> covered k w'.
Proof.
  intros H [k' ops d Ho|k' ops Ho Hk|]; unfold covered in *.
  - unfold told. cbn [watch withFiles]. destruct (watch w k') eqn:E; cbn; try done.
    destruct (tellsMove ops) eqn:Em; cbn; rewrite !existsb_last, Em, ?orb_true_r, ?orb_false_r;
      [|by destruct (watch w k)].
    destruct (Bool.eqb k k'); [done|]. by destruct (watch w k).
  - cbn. rewrite existsb_last. destruct (watch w k); [done..| |done|done]. by rewrite H.
  - cbn. by destruct (watch w k).
Qed.

Lemma stable_rtc (P : world -> Prop) :
  (forall w w', P w -> drifts w w' -> P w') -> forall w w', rtc drifts w w' -> P w -> P w'.
Proof. intros HP. induction 1; eauto. Qed.

Lemma current_later (w w' : world) : rtc drifts w w' -> current w -> current w'.
Proof. intros (H1&H2&H3)%drifts_keep [H4 H5]. split; congruence. Qed.

Lemma covers_later (w w' : world) : rtc drifts w w' -> covers w -> covers w'.
Proof. intros Hr [H1 H2]. split; eapply stable_rtc; eauto using drifts_covered. Qed.

Lemma settled_later (w w' : world) : rtc drifts w w' -> settled w -> settled w'.
Proof.
  intros Hr (H1&H2&H3). split_and!; [by eapply current_later| |by eapply covers_later].
  eapply stable_rtc; eauto using drifts_announced.
Qed.

Abbreviation ok p := (safe performs known (soloRely drifts) 0 watching (fun w _ => current w) p).

Lemma current_ret w x : current w -> ok (Ret x : prog (certR (cert := cert)) (option bool)) w.
Proof. intros H w' Hr _. by eapply current_later. Qed.

(** A call on a watch. *)
Lemma watch_call {A} (c : certCall) (P Q : world -> Prop) (k : certR c -> prog certR A) w :
  match c with NewWatcher | AddWatch _ | RemoveWatch _ => True | _ => False end ->
  (forall w w', rtc drifts w w' -> P w -> P w') ->
  (forall w r w', P w -> performs 0 c w r w' -> Q w') ->
  P w -> (forall r w, Q w -> ok (k r) w) -> ok (Do c k) w.
Proof.
  intros Hc Hst Hq Hw Hk w' Hr Ha. apply (Hst _ _ Hr) in Hw. split; [by destruct c|].
  intros r w'' Hp. pose proof (Hq _ _ _ Hw Hp) as Hq'.
  split_and!; [|by intros [|j]|by apply Hk].
  destruct c; try done; cbn in Hp; subst w''; [done|by destruct Ha..].
Qed.

(** After a reload nothing is due, whatever was before. *)
Lemma reload_settles {A} (k : prog certR A) w :
  (forall w, settled w -> ok k w) -> served w = latest w -> covers w ->
  ok (bind reload (fun _ => k)) w.
Proof.
  intros Hk Hw Hc. unfold reload. cbn [bind call]. intros w1 Hr1 Ha1. split; [done|].
  destruct (drifts_keep _ _ Hr1) as (Hs1&Hl1&_). pose proof (covers_later _ _ Hr1 Hc) as Hc1.
  intros r w2 [Hr ->].
  assert (forall c, r = Some c -> disk w1 = Some c) as Hin by (intros c ->; by destruct Hr).
  split_and!; [|by intros [|j]|].
  - destruct Ha1 as [H1 H2 H3 H4 H5]. constructor; cbn; try done.
    + destruct r; [by apply H1, Hin|done].
    + by intros c ->.
  - destruct r as [c|]; cbn [default from_option].
    + intros w3 Hr3 Ha3. destruct (drifts_keep _ _ Hr3) as (Hs3&Hl3&Hd3). split; [done|].
      intros [] w4 ->. split_and!; [|by intros [|j]|apply Hk].
      * destruct Ha3 as [H1 H2 H3 H4 H5]. constructor; try done. cbn in *. by rewrite <- Hl3.
      * split; [by split; cbn in *; congruence|]. split; [|exact (covers_later _ _ Hr3 Hc1)].
        by refine (stable_rtc announced drifts_announced _ _ Hr3 _).
    + apply Hk. split_and!; [by split; cbn in *; congruence|by intros H|done].
Qed.

Lemma covered_added k k' (w : world) (r : bool) :
  k' = k \/ covered k' w -> covered k' (withWatch k (if r then On else Failed) w).
Proof.
  intros H. unfold covered, withWatch. cbn. destruct (Bool.eqb k' k) eqn:E; [by destruct r|].
  destruct H as [->|H]; [by destruct k|done].
Qed.

Lemma rewatch_ok {A} (k : prog certR A) w :
  (forall w, served w = latest w -> covers w -> ok k w) -> served w = latest w ->
  ok (bind rewatch (fun _ => k)) w.
Proof.
  intros Hk Hw. set (P := fun w : world => served w = latest w).
  assert (forall w w', rtc drifts w w' -> P w -> P w') as Hst.
  { intros w1 w2 (H1&H2&_)%drifts_keep. unfold P. congruence. }
  unfold rewatch. cbn [bind call].
  do 2 (apply (watch_call _ P P); [done|done|by intros ??? H ->|done|]; clear w Hw; intros ? w Hw).
  apply (watch_call _ P (fun w => P w /\ covered false w)); [done|done| |done|].
  { intros w1 b w2 H ->. split; [done|]. apply covered_added. by left. }
  clear w Hw. intros ? w Hw.
  apply (watch_call _ (fun w => P w /\ covered false w) (fun w => P w /\ covers w)); [done| | |done|].
  - intros w1 w2 Hr [H1 H2]. split; [by apply (Hst w1)|]. eapply stable_rtc; eauto using drifts_covered.
  - intros w1 b w2 [H1 H2] ->. split; [done|]. split; apply covered_added; auto.
  - intros _ w1 [H1 H2]. by apply Hk.
Qed.

(** An event that tells of nothing. *)
Lemma settled_quiet evs ops (w : world) :
  events w = ops :: evs -> tellsChange ops = false -> settled w ->
  settled (withEvents (due w || tellsChange ops) evs w).
Proof.
  intros He Ho ([H1 H2]&H3&H4). rewrite Ho, orb_false_r.
  unfold announced, covers, covered in *. rewrite He in H3, H4. cbn in H3, H4.
  rewrite Ho in H3. rewrite (move_is_change _ Ho) in H4. done.
Qed.

Lemma covers_delivered evs ops d (w : world) :
  events w = ops :: evs -> tellsMove ops = false -> covers w -> covers (withEvents d evs w).
Proof.
  intros He Ho H. unfold covers, covered in *. rewrite He in H. cbn in H. by rewrite Ho in H.
Qed.

Lemma watchLoop_ok fuel w : settled w -> ok (watchLoop fuel) w.
Proof.
  revert w; induction fuel as [|fuel IH]; intros w Hw; cbn [watchLoop].
  { by apply current_ret, Hw. }
  cbn [bind call]. intros w1 Hr1 Ha1. apply (settled_later _ _ Hr1) in Hw as Hw1. split; [done|].
  clear w Hr1 Hw. pose proof Hw1 as ([Hd1 Hs1]&Hn1&Hc1). intros a w2 Hw2. cbn in Hw2.
  destruct a as [| |ops| | |]; try (subst w2; split_and!; [by destruct Ha1|by intros [|j]|]); try (by apply current_ret).
  - by apply reload_settles.
  - destruct Hw2 as (evs & He & ->). split_and!; [by destruct Ha1|by intros [|j]|].
    rewrite interesting_tells, moves_tells. destruct (tellsChange ops) eqn:Ho.
    + destruct (tellsMove ops) eqn:Hm.
      * apply rewatch_ok; [|done]. intros w3 Hw3 Hc3. by apply reload_settles.
      * apply reload_settles; [done|done|]. by apply (covers_delivered evs ops).
    + apply IH. rewrite <- Ho at 1. by apply settled_quiet.
  - by apply IH.
Qed.

Lemma Watch_ok fuel w : current w -> announced w -> ok (Watch fuel) w.
Proof.
  set (P := fun w : world => current w /\ announced w). intros Hcw Haw.
  assert (P w) as Hp by (split; [exact Hcw|exact Haw]). clear Hcw Haw.
  assert (forall w w', rtc drifts w w' -> P w -> P w') as Hst.
  { intros w1 w2 Hr [H1 H2]. split; [by eapply current_later|].
    eapply stable_rtc; eauto using drifts_announced. }
  unfold Watch. cbn [bind call].
  apply (watch_call _ P P); [done|done|by intros ??? H ->|done|]; clear w Hp; intros [] w Hw; cbn [negb];
    [|by apply current_ret, Hw].
  apply (watch_call _ P (fun w => P w /\ covered false w)); [done|done| |done|]; clear w Hw.
  { intros w r w' H ->. split; [done|]. apply covered_added. by left. }
  intros [] w [Hw Hc]; cbn [negb]; [|by apply current_ret, Hw].
  apply (watch_call _ (fun w => P w /\ covered false w) settled); [done| | |done|]; clear w Hw Hc.
  - intros w w' Hr [H1 H2]. split; [by apply (Hst w)|]. eapply stable_rtc; eauto using drifts_covered.
  - intros w r w' [[H1 H2] H3] ->. split_and!; [done|done|]. split; apply covered_added; auto.
  - intros [] w Hw; cbn [negb]; [by apply watchLoop_ok|by apply current_ret, Hw].
Qed.

(** No path is watched and no event waits. *)
Definition unwatched (w : world) : Prop := (forall k, watch w k = Failed) /\ events w = [].

Lemma unwatched_drifts (w w' : world) : unwatched w -> drifts w w' -> unwatched w'.
Proof.
  intros [H1 H2] [k ops d Ho|k ops Ho Hk|].
  - unfold told. cbn [watch withFiles]. by rewrite H1.
  - by rewrite H1 in Hk.
  - split; cbn; [|done]. intros k. by rewrite H1.
Qed.

Lemma unwatched_loop fuel (w : world) :
  unwatched w ->
  safe performs unwatched (soloRely drifts) 0 (fun _ _ => True) (fun w _ => unwatched w) (watchLoop fuel) w.
Proof.
  revert w. induction fuel as [|fuel IH]; intros w _; cbn [watchLoop]; [by intros w' _ H|].
  cbn [bind call]. intros w1 _ H1. split; [done|]. intros a w2 Hw2. cbn in Hw2.
  destruct a as [| |ops| | |]; try (subst w2; split_and!; [by destruct H1|by intros [|j]|]);
    try (by intros w' _ H); try (by apply IH).
  - unfold reload. cbn [bind call]. intros w3 _ H3. split; [done|]. intros r w4 [_ ->].
    split_and!; [by destruct H3|by intros [|j]|]. destruct r as [c|].
    + intros w5 _ H5. split; [done|]. intros [] w6 ->.
      split_and!; [by destruct H5|by intros [|j]|]. apply IH. by destruct H5.
    + apply IH. by destruct H3.
  - destruct Hw2 as (evs & He & _). destruct H1 as [_ H1]. by rewrite H1 in He.
Qed.
End cert.

(** (C10) The proxy's certificate follows the disk, whatever happens to the files while
    the watcher runs and whatever the reads and the watches answer: the
    certificate it serves is one that was on disk.  Whenever it waits it has read
    the files since the last tick and since the last event that told it of a
    change, and serves the last pair that could be read (files that do not match
    or are half written do not replace it).  Each path is then watched again,
    unless the last attempt to add it was refused or the event that tells of its
    move still waits or was lost with an overflow; and when no event waits and
    every change since the last reading was made under a watch, the last reading
    failed or the disk holds the certificate that is served.  What an event tells
    and what becomes of a watch are fsnotify's, not the mask of the loop. *)
Theorem certificate_follows_disk {cert : Type} fuel (c : cert) w p :
  rtc (sstep performs drifts) (initial c, Watch fuel) (w, p) ->
  served w ∈ seen w /\
  match p with
  | Do Select _ =>
      due w = false /\ served w = latest w /\
      (forall k, watch w k = On \/ watch w k = Failed \/ watch w k = Dropped \/
                 watch w k = Told /\ existsb tellsMove (events w) = true) /\
      (existsb tellsChange (events w) = false -> blind w = false ->
       lastRead w = None \/ disk w = Some (served w))
  | Ret _ => due w = false /\ served w = latest w
  | _ => True
  end.
Proof.
  intros Hr. assert (known (initial c)) as Hk.
  { constructor; cbn; [by intros c' [= <-]; left|by left..|by intros c' [= <-]|by intros _ c' [= <-]]. }
  destruct (solo_reached performs drifts known watching (fun w _ => current w) drifts_known
    (initial c) (Watch fuel) w p Hk) as [[_ _ Hs Hl Hf] Hp]; [|done|].
  - by apply Watch_ok.
  - split; [done|]. destruct p as [a|e k]; [done|]. destruct e; try done.
    destruct Hp as ([Hd He]&Hn&Hc1&Hc2). split_and!; [done|done| |].
    + assert (forall k, covered k w) as H by (by intros []). intros k'. specialize (H k').
      unfold covered in H. destruct (watch w k'); auto 6. done.
    + intros Hev Hb. destruct (changed w) eqn:Ec.
      * destruct (Hn Ec); congruence.
      * destruct (lastRead w) as [c'|]; [right|by left].
        rewrite (Hf eq_refl _ eq_refl), He. f_equal. symmetry. by apply Hl.
Qed.

(** A rotation in three steps: the key is half written, then the file of the
    certificate is replaced, then the one of the key. *)
Module Demo.
Inductive change := Changed (k : bool) (ops : list op) (d : option nat) | Overflow.
Definition moved (m : change) (w : world nat) : world nat :=
  match m with
  | Changed k ops d => if tellsChange ops then told k ops (withFiles d w) else overflowed w
  | Overflow => overflowed w
  end.
(** A path can be watched when its file is there; an event is taken before a
    tick. *)
Definition answer (_ : nat) (c : certCall nat) (w : world nat) : option (certR c * world nat) :=
  match c return option (certR c * world nat) with
  | LoadX509KeyPair => Some (disk w, afterRead (disk w) w)
  | Select =>
      match events w with
      | ops :: evs => Some (Event ops, withEvents (due w || tellsChange ops) evs w)
      | [] => Some (Tick, withEvents true (events w) w)
      end
  | Swap n => Some (tt, withServed n w)
  | NewWatcher => Some (true, w)
  | AddWatch k =>
      let there := match disk w with Some _ => true | None => false end in
      Some (there, withWatch k (if there then On else Failed) w)
  | RemoveWatch k => Some (tt, withWatch k Off w)
  end.

Lemma moved_drifts m (w : world nat) : drifts w (moved m w).
Proof.
  destruct m as [k ops d|]; cbn; [|constructor].
  destruct (tellsChange ops) eqn:E; [by constructor|constructor].
Qed.

Lemma answer_performs i (c : certCall nat) (w : world nat) r w' :
  answer i c w = Some (r, w') -> performs i c w r w'.
Proof.
  destruct c; cbn [answer performs]; try (intros [= <- <-]; auto; done).
  destruct (events w) as [|ops evs] eqn:E; intros [= <- <-]; cbn; [by rewrite ?E|by exists evs].
Qed.

Definition acts : list (option change) :=
  replicate 3 None ++ [Some (Changed true [OpWrite] None)] ++ replicate 2 None ++
  [Some (Changed false [OpChmod; OpRemove] (Some 2))] ++ replicate 6 None ++
  [Some (Changed true [OpRename] (Some 2))] ++ replicate 8 None.
Definition reached : world nat * prog certR (option bool) :=
  fold_left (soloAct moved answer) acts (initial 1, Watch 5).

(** The files are gone when the watches are to be added again. *)
Definition refused : world nat * prog certR (option bool) :=
  fold_left (soloAct moved answer)
    (replicate 3 None ++ [Some (Changed false [OpRemove] None)] ++ replicate 6 None)
    (initial 1, Watch 5).
End Demo.

Lemma certificate_follows_disk_witness :
  (lastRead Demo.reached.1 = None \/ disk Demo.reached.1 = Some (served Demo.reached.1)) /\
  served Demo.reached.1 = 2 /\ watch Demo.reached.1 true = On.
Proof.
  split; [|by vm_compute].
  refine (proj2 (proj2 (proj2 (proj2 (certificate_follows_disk 5 1 Demo.reached.1 Demo.reached.2 _))))
    eq_refl eq_refl).
  rewrite <- surjective_pairing. apply solo_run; [apply Demo.moved_drifts|apply Demo.answer_performs].
Defined.

(** Watches that are refused are not tried again: when the files are gone as
    they are to be watched again, both attempts fail; from then on no event comes,
    and the ticks read the files but never add the watches, whatever happens. *)
Lemma watches_never_restored :
  exists w : world nat,
    rtc (sstep performs drifts) (initial 1, Watch 5) (w, watchLoop 4) /\
    forall w' p', rtc (sstep performs drifts) (w, watchLoop 4) (w', p') ->
      (forall k, watch w' k = Failed) /\ events w' = [].
Proof.
  exists Demo.refused.1. split.
  - change (watchLoop 4) with Demo.refused.2. rewrite <- surjective_pairing.
    apply solo_run; [apply Demo.moved_drifts|apply Demo.answer_performs].
  - intros w' p' Hr. assert (unwatched Demo.refused.1) as Hu by (by split; [intros []|]).
    exact (proj1 (solo_safe performs drifts unwatched (fun _ _ => True) (fun w _ => unwatched w)
      unwatched_drifts _ _ w' p' Hu (unwatched_loop 4 _ Hu) Hr)).
Qed.
End CertSpec.
