(* ===== verification/EndToEnd.v ===== *)
(** * From a policy's text to the query that enforces it

    The compiler, the policy store and the SQL proxy composed: the row filter an
    administrator wrote is what restricts the query an engine receives. *)

From S2P Require Import Prelude SqlGrammar SqlPrint Dialect Lru Splice SpliceLemmas SpliceSpec SqlText.
From S2P Require Import Effects PolicyStore Sqlproxy SqlproxySpec Compiler.
From Stdlib Require Import Lia.

(** The engines with a live emitter. *)
Definition liveEngines : list (gostring * DialectCompiler) :=
  [("trino", TrinoCompiler); ("spark", SparkCompiler)].

Lemma liveEngines_live k d : (k, d) ∈ liveEngines -> LiveDialect d.
Proof.
  intros H. apply list_elem_of_In in H. cbn in H.
  destruct H as [[= <- <-]|[[= <- <-]|[]]]; apply _.
Qed.

Lemma IsValid_active : IsValid StatusActive = true.
Proof. reflexivity. Qed.

(** What a live engine compiles a row filter to. *)
Lemma compileArtifact_row_filter compileCEL dialects p e d art :
  LiveDialect d -> dialects !! eng_Kind e = Some d ->
  src_DefinitionCEL p = [] -> src_PolicyKind p = "row_filter" ->
  compileArtifact compileCEL dialects p e = Ok art ->
  exists f n, ParseRowFilter (src_DefinitionSQL p) = Ok f /\ wfNode n /\
    art = mkArtifact "sql_row_filter" (printNode n) /\ ParseRowFilter (printNode n) = Ok f.
Proof.
  intros Hl Hd Hcel Hk. unfold compileArtifact.
  rewrite Hcel, Hd, Hk, (bool_decide_eq_true_2 (([] : gostring) = [])) by done.
  rewrite bool_decide_eq_true_2 by done. cbn [negb]. unfold compileRowFilter.
  destruct (ParseRowFilter (src_DefinitionSQL p)) as [f|] eqn:Ep; [|done].
  cbn [map_err mbind result_bind].
  destruct (ParseRowFilter_row _ _ Ep) as (n & -> & Hw). cbn [frag_Row].
  rewrite live_row_filter by done. cbn [map_err mbind result_bind]. intros [= <-].
  exists (mkFragment FragmentRowFilter (Some n) []), n.
  split_and!; [done|done|done|by apply ParseRowFilter_print].
Qed.

Section endToEnd.
Context {C : Type} `{!Lru CacheKey ArtifactEntry C}.

(** The row a request enforces: the one its cache entry came from or, when
    nothing is cached, the first row of the answer of the loader that is active
    for the engine and no predicate, if no row of the engine is suspended.  A
    second filter of the table is not enforced. *)
Definition enforces (engine tid : gostring) (t : TableRef) (c : C) (o : env proxyR)
    (cp : CompiledPolicy) : Prop :=
  lru_contents c !! cacheKey engine tid t = Some (mkEntry (ArtifactBody cp) (ArtifactKind cp)) \/
  (lru_contents c !! cacheKey engine tid t = None /\
   exists before after,
     o [] (LoadCompiled (icebergRef t)) = Some (before ++ cp :: after) /\
     Forall (fun r => EngineKind r = engine -> Status r <> StatusDivergentSuspended)
       (before ++ cp :: after) /\
     Forall (fun r => EngineKind r = engine -> Status r = StatusActive ->
       ArtifactKind r = KindPredicate) before).

Lemma suspended_none engine rows :
  Forall (fun r => EngineKind r = engine -> Status r <> StatusDivergentSuspended) rows ->
  suspended engine rows = false.
Proof.
  induction 1 as [|r rows Hr _ IH]; [done|]. unfold suspended. cbn [existsb].
  change (existsb _ rows) with (suspended engine rows). rewrite IH, orb_false_r.
  apply andb_false_iff. rewrite !bool_decide_eq_false. destruct (decide (EngineKind r = engine)); auto.
Qed.

Lemma eligible_not engine r :
  (EngineKind r = engine -> Status r = StatusActive -> ArtifactKind r = KindPredicate) ->
  eligible engine r = false.
Proof. intros H. unfold eligible. repeat case_bool_decide; try done. tauto. Qed.

Lemma serveActive_first engine key query (c : C) before cp after :
  Forall (fun r => EngineKind r = engine -> Status r = StatusActive ->
    ArtifactKind r = KindPredicate) before -> eligible engine cp = true ->
  (serveActive engine key query c (before ++ cp :: after)).1 =
    spliceEntry query (entryOf cp) CacheStatusMiss.
Proof.
  intros Hb He. induction Hb as [|r before Hr%eligible_not _ IH]; cbn [app serveActive];
    [by rewrite He|by rewrite Hr].
Qed.

Lemma spliceEntry_outcome query e status :
  outcome (spliceEntry query e status) = SpliceArtifact query (Body e) (Kind e).
Proof. unfold spliceEntry. by destruct (SpliceArtifact _ _ _). Qed.

(** The injectors of the live engines splice the row the request enforces. *)
Lemma injected_row engine inj tid query t (c : C) cp (o : env proxyR) :
  engine ∈ map fst liveEngines -> BuildInjector engine = Ok inj ->
  enforces engine tid t c o cp ->
  EngineKind cp = engine -> Status cp = StatusActive -> ArtifactKind cp = [] ->
  outcome (run o [] (inj (Some tid) query t c)).1.1 = SpliceArtifact query (ArtifactBody cp) [].
Proof.
  intros He Hb Hm Hk Hst Hak.
  assert (inj (Some tid) query t c =
    lookupAndServe engine tid query t c (prePassServe engine query)) as ->.
  { apply list_elem_of_In in He. cbn in He. unfold BuildInjector in Hb.
    destruct He as [<-|[<-|[]]]; revert Hb; repeat case_bool_decide; try done;
      intros [= <-]; reflexivity. }
  destruct Hm as [(c0 & Hg & _)%lru_get_hit|(Hm & before & after & Ho & Hs & Hbe)].
  { unfold lookupAndServe. rewrite Hg. cbn [run fst]. rewrite spliceEntry_outcome.
    cbn [Body Kind]. by rewrite Hak. }
  edestruct (lookupAndServe_miss engine tid query t c (prePassServe engine query) o [])
    as (c0 & _ & ->); [done|].
  rewrite Ho. cbn [fst]. unfold prePassServe. rewrite (suspended_none _ _ Hs).
  rewrite serveActive_first, spliceEntry_outcome; [cbn [entryOf Body Kind]; by rewrite Hak|done|].
  unfold eligible. rewrite Hk, Hst, Hak. by rewrite (bool_decide_eq_true_2 (engine = engine)).
Qed.

(** (C1) End to end, for Trino and Spark with the injectors BuildInjector makes
    (no pin store): let a row filter compile, be upserted and be the row the
    request enforces (cached, or the first eligible row loaded; a second filter
    of the table is not).  Let the query's clauses be plain SQL: no quoted
    identifier, comment or backslash, every string closed; its predicate
    balanced; the filter without backslash.  Then every such query the splicer
    accepts is rewritten to one its parser reads with the same projection, table
    and tail, under a predicate that a lexer of SQL (strings, quoted identifiers,
    comments, and with or without backslash escapes) reads as exactly two groups
    joined by AND: the text of the user's WHERE clause and the compiled filter
    (the filter alone without a clause).  At every byte of the result that lexer
    and the splicer's agree whether they are inside a string, and no comment or
    quoted identifier is met.  The filter parses to the fragment the
    administrator wrote. *)
Theorem row_filter_end_to_end compileCEL dialects p e d art name ns tid ck l cp query s esc
    (c : C) inj (o : env proxyR) :
  (eng_Kind e, d) ∈ liveEngines -> dialects !! eng_Kind e = Some d ->
  src_DefinitionCEL p = [] -> src_PolicyKind p = "row_filter" ->
  compileArtifact compileCEL dialects p e = Ok art ->
  sanitizeAll tid (compiledRow p name ns e art StatusActive ck) = Some l ->
  scanCompiled (mkTableRef [ns] name)
    (map agString [l_pid l; l_ek l; l_ev l; l_status l; l_checksum l; l_body l]) = Some cp ->
  BuildInjector (eng_Kind e) = Ok inj ->
  enforces (eng_Kind e) tid (mkTable ns name) c o cp ->
  parseSelect query = Ok s -> plainSelect s = true ->
  sqlBalanced esc (trimSpace (where_ s)) = true -> noBackslash (art_Body art) = true ->
  exists query' w' f,
    outcome (run o [] (inj (Some tid) query (mkTable ns name) c)).1.1 = Ok query' /\
    parseSelect query' = Ok (mkSelect (projection s) (table s) w' (tail s)) /\
    sqlTopConjuncts esc (trimSpace w') =
      Some (if bool_decide (trimSpace (where_ s) = []) then [art_Body art]
            else [trimSpace (where_ s); art_Body art]) /\
    readsAlike esc query' /\
    ParseRowFilter (src_DefinitionSQL p) = Ok f /\ ParseRowFilter (art_Body art) = Ok f.
Proof.
  intros Hin Hd Hcel Hkind Ha Hl Hcp Hb Hen Hq Hplain Hw Hnb.
  destruct (compileArtifact_row_filter _ _ _ _ _ _ (liveEngines_live _ _ Hin) Hd Hcel Hkind Ha)
    as (f & n & Hf & Hwf & -> & Hp).
  pose proof (written_row_scans tid (compiledRow _ _ _ _ _ _ _) l IsValid_active Hl) as Hr.
  pose proof (eq_trans (eq_sym Hcp) Hr) as [= ->].
  pose proof (plainText_node n Hwf Hnb) as Hpb.
  destruct (row_filter_reads esc query (printNode n) [] s (or_intror eq_refl) Hq Hplain Hw Hpb
    (flat_balanced _ (flat_node n Hwf))) as (query' & w' & Hs & Hread & Ht & Hal).
  exists query', w', f. split_and!; [|done..].
  rewrite (injected_row (eng_Kind e) inj tid query (mkTable ns name) c _ o) by
    (done || (apply list_elem_of_fmap; by exists (eng_Kind e, d))).
  exact Hs.
Qed.

(** No stored column mask is ever applied: the artifact kind is lost between
    the upsert and the load, so the injectors splice a compiled mask as if it
    were a row filter; the rewritten query keeps the projection it came with,
    masked columns included, and carries the mask's text in its WHERE clause. *)
Theorem stored_column_mask_never_applied p name ns e art tid ck l cp query s
    (c : C) inj (o : env proxyR) :
  eng_Kind e ∈ map fst liveEngines ->
  sanitizeAll tid (compiledRow p name ns e art StatusActive ck) = Some l ->
  scanCompiled (mkTableRef [ns] name)
    (map agString [l_pid l; l_ek l; l_ev l; l_status l; l_checksum l; l_body l]) = Some cp ->
  BuildInjector (eng_Kind e) = Ok inj ->
  enforces (eng_Kind e) tid (mkTable ns name) c o cp ->
  parseSelect query = Ok s ->
  outcome (run o [] (inj (Some tid) query (mkTable ns name) c)).1.1 =
    Ok (selectHead s ++ " WHERE " ++ conjunction (trimSpace (where_ s)) (art_Body art)
        ++ tailText s).
Proof.
  intros Hin Hl Hcp Hb Hen Hq.
  pose proof (written_row_scans tid (compiledRow _ _ _ _ _ _ _) l IsValid_active Hl) as Hr.
  pose proof (eq_trans (eq_sym Hcp) Hr) as [= ->].
  rewrite (injected_row (eng_Kind e) inj tid query (mkTable ns name) c _ o) by done.
  exact (spliceRowFilter_text query (art_Body art) s Hq).
Qed.
End endToEnd.

(** The emitters and the splicer disagree on the order of a mask: the
    compiler writes [expr AS col], the splicer reads [col AS expr].  A policy
    that masks [ssn] with [email] compiles to a text that, spliced as a column
    mask, refuses the query on [ssn] and answers the query on [email] with
    [ssn]. *)
Theorem column_mask_swapped :
  exists f, ParseColumnMask "ssn AS email" = Ok f /\
  Trino.CompileColumnMask "p1" (adaptMaskForDialect (frag_Mask f)) = Ok "email AS ssn" /\
  Spark.CompileColumnMask "p1" (adaptMaskForDialect (frag_Mask f)) = Ok "email AS ssn" /\
  SpliceArtifact "SELECT ssn FROM hr.people" "email AS ssn" KindColumnMask =
    Err ErrSpliceMismatch /\
  SpliceArtifact "SELECT email FROM hr.people" "email AS ssn" KindColumnMask =
    Ok "SELECT ssn AS email FROM hr.people".
Proof. eexists. repeat split; vm_compute; reflexivity. Qed.

(** ** Witness *)

Module EndToEndSamples.
Import Samples.

Definition trinoEmitters : gmap gostring DialectCompiler := {[ ("trino" : gostring) := TrinoCompiler ]}.
Definition euPolicy : PolicySource := mkSource "p1" "row_filter" [] "region = 'EU' OR region = 'UK'".
Definition trinoEngine : Engine := mkEngine "e1" "trino" "431" "http://t".
Definition euBody : gostring := "((region = 'EU') OR (region = 'UK'))".
Definition euArt : CompiledArtifact := mkArtifact "sql_row_filter" euBody.
Definition euLiterals : literals :=
  mkLiterals "t1" "p1" "trino" "431" "orders" "sales" "active" "ck"
    (encodeArtifactForCypher euBody).
Definition euRow : CompiledPolicy :=
  mkCompiledPolicy "p1" "trino" "431" "orders" "sales" StatusActive "ck" euBody [].
(** The loader answers a filter of another engine first, and one more of Trino
    last. *)
Definition sparkRow : CompiledPolicy :=
  mkCompiledPolicy "p0" "spark" "3.5" "orders" "sales" StatusActive "ck0" "(total > 0)" [].
Definition secondRow : CompiledPolicy :=
  mkCompiledPolicy "p2" "trino" "431" "orders" "sales" StatusActive "ck2" "(total < 9)" [].
Definition euWorld : env proxyR := fun _ c =>
  match c with
  | ActiveSnapshotIDForTable _ => None
  | LoadCompiled _ => Some [sparkRow; euRow; secondRow]
  end.
Definition euQuery : gostring := "SELECT id, total FROM sales.orders WHERE total > 10 ORDER BY id".
Definition maskRow : CompiledPolicy :=
  mkCompiledPolicy "p1" "trino" "431" "people" "hr" StatusActive "ck" "NULL AS ssn" [].
Definition maskWorld : env proxyR := fun _ c =>
  match c with
  | ActiveSnapshotIDForTable _ => None
  | LoadCompiled _ => Some [maskRow]
  end.

End EndToEndSamples.
Import Samples EndToEndSamples.

Lemma row_filter_end_to_end_witness :
  exists query' w' f,
    outcome (run euWorld [] (TrinoInjectPolicy false (Some "t1") euQuery (mkTable "sales" "orders")
      emptyCache)).1.1 = Ok query' /\
    parseSelect query' = Ok (mkSelect "id, total" "sales.orders" w' "ORDER BY id") /\
    sqlTopConjuncts false (trimSpace w') = Some ["total > 10"; euBody] /\
    readsAlike false query' /\
    ParseRowFilter "region = 'EU' OR region = 'UK'" = Ok f /\ ParseRowFilter euBody = Ok f.
Proof.
  assert (enforces "trino" "t1" (mkTable "sales" "orders") emptyCache euWorld euRow) as Hen.
  { right. split; [vm_compute; reflexivity|]. exists [sparkRow], [secondRow].
    split_and!; [reflexivity|repeat constructor; done|repeat constructor; done]. }
  apply (row_filter_end_to_end None trinoEmitters euPolicy trinoEngine TrinoCompiler euArt "orders"
    "sales" "t1" "ck" euLiterals euRow euQuery
    (mkSelect "id, total" "sales.orders" " total > 10 " "ORDER BY id") false emptyCache
    (TrinoInjectPolicy false) euWorld); [left|..|exact Hen| | | |];
    first [reflexivity | vm_compute; reflexivity].
Defined.

Lemma stored_column_mask_never_applied_witness :
  outcome (run maskWorld [] (TrinoInjectPolicy false (Some "t1") "SELECT ssn FROM hr.people"
    (mkTable "hr" "people") emptyCache)).1.1 =
  Ok "SELECT ssn FROM hr.people WHERE (NULL AS ssn)".
Proof.
  assert (enforces "trino" "t1" (mkTable "hr" "people") emptyCache maskWorld maskRow) as Hen.
  { right. split; [vm_compute; reflexivity|]. exists [], []. split_and!; [reflexivity|repeat constructor; done|constructor]. }
  apply (stored_column_mask_never_applied
    (mkSource "p1" "column_mask" [] "ssn AS NULL") "people" "hr" trinoEngine
    (mkArtifact "sql_column_mask" "NULL AS ssn") "t1" "ck"
    (mkLiterals "t1" "p1" "trino" "431" "people" "hr" "active" "ck"
       (encodeArtifactForCypher "NULL AS ssn"))
    maskRow "SELECT ssn FROM hr.people" (mkSelect "ssn" "hr.people" [] []) emptyCache
    (TrinoInjectPolicy false) maskWorld); [left|..|exact Hen|];
    first [reflexivity | vm_compute; reflexivity].
Defined.
